(* ===== verification/_CoqProject ===== *)
-Q . S2P
Prelude.v
Bytes.v
CommandLine.v
Word32.v
NachList.v
Bitmap.v
Kernel.v
KernelInv.v
KernelSpec.v
KernelClock.v
KernelMachine.v
KernelLocks.v
KernelClient.v
ThreadTest.v
SynchList.v
LockTest.v
ElevatorTest.v
KernelWitness.v
Elevator.v
Machine.v
Mips.v
Interp.v
InterpMips.v
Disasm.v
Debugger.v
Disk.v
SynchDisk.v
SynchDiskLin.v
Console.v
Network.v
Post.v
NetTest.v
FileHdr.v
OpenFile.v
Directory.v
FileSys.v
FileSysSpec.v
FsTest.v
FsPrint.v
Session.v
AddrSpace.v
Coff2noff.v
Coff2flat.v
Stacks.v
