(* ===== verification/Prelude.v ===== *)
(** * Nachos 3.4 (threads project): a verification development

    Nachos is an instructional operating system that runs as one UNIX process:
    a simulated machine (src/nachos-3.4/code/machine: interrupts, timer, CPU,
    memory, disk, console, network) and a kernel on top of it (threads/,
    filesys/, userprog/, network/).  This library models the C++ code as
    executable functions, one definition per routine, and proves what the parts
    promise to each other.

    ** Conventions

    A routine is a function to [Result]: [Ok], or [Err] with how the process
    stops ([Exit], a failed [ASSERT], a memory fault, or a bound of the model).
    Objects are records; arrays are lists with the bounds checked at every
    access; [int]s that can overflow are wrapped with [s32] and [u32], but for the
    simulated time and the values of semaphores, which are unbounded in the kernel
    files (the theorems are about runs in which they do not overflow).  Memory
    that is allocated and not initialized has contents given by an arbitrary
    function ([garbage], [g], [memory]), over which the theorems quantify.
    Calls to the host system (the UNIX file behind the disk, keyboard, sockets,
    [Random()]) are data: the array of sectors, or lists and functions of the
    answers, arbitrary in the theorems.

    ** The parts and the files that model them

    - [Bytes]: arrays of [char] and the layout of [int]s in them.
    - [NachList]: threads/list.cc, cells and pointers in a store.  Shown to
      implement sequences ([list_refines_sequence]), so the kernel files use
      plain lists for ready list, queues and pending interrupts.
    - [Bitmap]: userprog/bitmap.cc, words and masks.
    - [Kernel]: machine/interrupt.cc, timer.cc, stats.h and threads/scheduler.cc,
      thread.cc, synch.cc and the start of system.cc as one state machine: the
      state [kernel], the step [kstep].  Each thread has a stack of resume
      points ([frame]); code that uses the kernel is a parameter, the class
      [Client] (a piece of straight-line code up to its next kernel call, and
      the interrupt handlers of devices).
    - [KernelInv]: the invariant [wf] of every reachable state, for every client,
      timer and random sequence.  [KernelSpec]: what follows from it, that is
      scheduler consistency, the exhaustive list of failures a step can have
      ([fault]), no lost wakeups, mutual exclusion of locks, the order of the
      ready list, and that [Condition::Wait] always aborts.  [KernelClock]: the
      routines that compute times with the wrap-around of [int]s; they are those
      of [Kernel] until the clock comes near 2^31, where the loop over due
      interrupts no longer ends.
    - [KernelMachine]: an abstract machine ([astep]) of interleaved threads with
      semaphores whose [P] is atomic, locks and device interrupts, and the proof
      that the kernel refines it; its rule [machine_invariant] is how client
      programs are verified.  [KernelLocks]: the class [LockDiscipline] of
      clients that bracket their use of locks; exclusive critical sections and
      no failing lock assertion for them.  [KernelClient]: the rule for programs
      whose correctness does not depend on kernel objects.
    - Clients of the kernel: [ThreadTest] and [LockTest] (threads/threadtest.cc,
      lockTest.cc), [Elevator] (the elevator of threadtest.cc), [ElevatorTest]
      (the elevator of threads/elevatorTest.cc), [SynchList]
      (threads/synchlist.cc), [SynchDisk] (filesys/synchdisk.cc with the disk's
      interrupts; [SynchDiskLin] has the linearizability of its calls), [Console] (machine/console.cc and ConsoleTest of
      userprog/progtest.cc), [Post] (network/post.cc with the network's
      interrupts).  Their theorems hold under every schedule.
      [KernelWitness] has executions that instantiate the kernel theorems.
    - [Machine], [Mips]: machine/machine.cc, translate.cc, userprog/exception.cc
      and machine/mipssim.cc: memory, translation, and every instruction.  Type
      safety of one instruction ([OneInstruction_safe]), bounds of [Translate],
      read after write, multiplication and overflow exact, decoding.
      [Debugger]: the loop of [Machine::Run] with the debugger of machine.cc and
      [DumpState], running inside the kernel; when it asks for commands.
    - [Word32]: integers that agree in their low 32 bits, a relation the
      operations of the instruction set respect.  [Interp]: the older MIPS
      interpreter of bin/execute.c and bin/system.c, with the arguments it hands
      to a program.  [InterpMips]: the lock-step simulation between the two,
      which lists for every instruction when they compute the same.  [Disasm]:
      the disassembler bin/d.c and the debugging output of mipssim.cc, as
      strings, and that they name the same instruction.
    - [Disk]: machine/disk.cc and the sequential view of [SynchDisk]: requests,
      latency, the array of sectors.  [FileHdr], [OpenFile], [Directory],
      [FileSys]: the file system bottom up (filesys/), each file with the
      refinement of its abstraction: sets of sectors, flat byte sequences,
      finite maps.  [FileSysSpec]: any sequence of requests on a formatted disk
      behaves as on a finite map from names to contents, and the disk stays
      consistent.  [FsTest]: the test commands of filesys/fstest.cc on top of it.
      [FsPrint]: the listings of the options -l and -D.
    - [CommandLine]: the options of threads/main.cc and of [Initialize] in
      threads/system.cc, for every configuration of the Makefiles, with the usage
      message of main.cc as the specification.  [Session]: whole runs of the
      program one after the other on a disk, from the words of the command line
      to what is printed and the disk that is left; they implement commands on a
      finite map.
    - [AddrSpace]: userprog/addrspace.cc and [StartProcess]: loading a program
      from the file system into the machine.  [Coff2noff]: the converter
      bin/coff2noff.c, composed with it: a converted program is loaded as its
      COFF sections say.  [Coff2flat]: the converter bin/coff2flat.c, whose
      output is that memory when the sections are contiguous.
    - [Network]: machine/network.cc and the mail format of network/post.cc, with
      the round trip of a message between two machines.  [NetTest]: any program
      of sends and receives does on the post office what it says, under every
      schedule and loss of packets, and so does [MailTest] of network/nettest.cc.
    - [Stacks]: the stacks of src/nachos-3.4/c++example, the abstract class as a
      type class with laws and the self test proved against it.

    ** Bounds

    [checkLoop], the loop over due interrupts, has the number of pending
    interrupts plus one as fuel ([check_fuel]); [kernel_faults_only] shows that
    it does not run out, because handlers schedule into the future.  The
    elevator's loops over floors have 70 turns ([floors_fuel], at most 64 floors);
    [elevator_in_bounds] shows they suffice.  The list loops take the size of
    the store as fuel and their specifications show that it suffices; the stack
    loops take a bound that the theorems only require to exceed the number of
    elements.  [settle] of [Debugger] runs other threads for a number of steps that
    is arbitrary in its theorem, where none of them is needed.  [run] of this file executes a given number of steps in examples;
    the theorems about executions are about [steps], any finite number of them.

    ** Not modelled

    Debug output other than that of instructions, the fixed texts of the [Print]
    methods, and statistics other than the clock; the memory of thread stacks and
    the overflow check on it, and [Cleanup]; switch.s, whose effect is the change
    of [currentThread]; sysdep.cc, calls to the host only; and three C programs
    of bin/: out.c, which prints the symbol tables of an object file, and disasm.c
    and main.c of the interpreter, which load one.  They read it through the
    host's library ldfcn.h, the last two from a file already closed.  [Session]
    runs the options of the file system only; the other calls of [main] (thread
    tests, user programs, the console and mail tests) are modelled in their own
    files as clients of the kernel. *)

From Stdlib Require Export ZArith Lia ZifyNat.
From stdpp Require Export tactics base gmap list_numbers sorting list.

(** ** How an execution can stop

    [Exit]: [Cleanup] called [Exit(0)].  [AssertFailed]: an [ASSERT] of the
    source is false, so [Abort()] is called.  [MemFault]: a NULL, dangling or
    out-of-bounds access.  [OutOfFuel]: a bounded loop of the model ran out of
    its bound (the theorems show where this cannot happen). *)
Inductive stop := Exit | AssertFailed | MemFault | OutOfFuel.

#[export] Instance stop_eq_dec : EqDecision stop.
Proof. solve_decision. Defined.

Inductive Result (A : Type) := Ok (a : A) | Err (e : stop).
Arguments Ok {A} _.
Arguments Err {A} _.

#[export] Instance Result_ret : MRet Result := @Ok.
#[export] Instance Result_bind : MBind Result := λ A B f m,
  match m with Ok a => f a | Err e => Err e end.
#[export] Instance Result_map : FMap Result := λ A B f m,
  match m with Ok a => Ok (f a) | Err e => Err e end.

#[export] Instance Result_eq_dec `{EqDecision A} : EqDecision (Result A).
Proof. solve_decision. Defined.

(** [ASSERT(c)] of threads/utility.h. *)
Definition ASSERT (c : bool) : Result unit := if c then Ok () else Err AssertFailed.

(** Dereferencing a pointer: the object, or a fault. *)
Definition deref {A} (o : option A) : Result A :=
  match o with Some a => Ok a | None => Err MemFault end.

Lemma bind_Ok {A B} (m : Result A) (f : A → Result B) b :
  m ≫= f = Ok b ↔ ∃ a, m = Ok a ∧ f a = Ok b.
Proof. destruct m; cbn; naive_solver. Qed.

Lemma bind_Err {A B} (m : Result A) (f : A → Result B) e :
  m ≫= f = Err e ↔ m = Err e ∨ ∃ a, m = Ok a ∧ f a = Err e.
Proof. destruct m; cbn; naive_solver. Qed.

Lemma ASSERT_Ok c u : ASSERT c = Ok u ↔ c = true.
Proof. destruct c, u; cbn; naive_solver. Qed.

Lemma ASSERT_Err c e : ASSERT c = Err e ↔ c = false ∧ e = AssertFailed.
Proof. destruct c; cbn; naive_solver. Qed.

Lemma deref_Ok {A} (o : option A) a : deref o = Ok a ↔ o = Some a.
Proof. destruct o; cbn; naive_solver. Qed.

Lemma deref_Err {A} (o : option A) e : deref o = Err e ↔ o = None ∧ e = MemFault.
Proof. destruct o; cbn; naive_solver. Qed.

(** ** Integers at their width

    [int] is 32 bits (the build uses -m32), two's complement. *)
Definition u32 (z : Z) : Z := z `mod` 2 ^ 32.
Definition s32 (z : Z) : Z := (z + 2 ^ 31) `mod` 2 ^ 32 - 2 ^ 31.

Lemma u32_range z : (0 ≤ u32 z < 2 ^ 32)%Z.
Proof. unfold u32. apply Z.mod_pos_bound. lia. Qed.

Lemma s32_range z : (- 2 ^ 31 ≤ s32 z < 2 ^ 31)%Z.
Proof. unfold s32. pose proof (Z.mod_pos_bound (z + 2 ^ 31) (2 ^ 32)). lia. Qed.

Lemma u32_small z : (0 ≤ z < 2 ^ 32)%Z → u32 z = z.
Proof. apply Z.mod_small. Qed.

Lemma s32_small z : (- 2 ^ 31 ≤ z < 2 ^ 31)%Z → s32 z = z.
Proof. intros. unfold s32. rewrite Z.mod_small; lia. Qed.

Lemma u32_u32 z : u32 (u32 z) = u32 z.
Proof. apply u32_small, u32_range. Qed.

(** ** [divRoundDown] and [divRoundUp] of threads/utility.h

    C division truncates towards zero, hence [Z.quot] and [Z.rem]. *)
Definition divRoundDown (n s : Z) : Z := n `quot` s.
Definition divRoundUp (n s : Z) : Z :=
  n `quot` s + (if decide (n `rem` s > 0)%Z then 1 else 0).

Lemma divRoundDown_nonneg n s : (0 ≤ n → 0 < s → divRoundDown n s = n `div` s)%Z.
Proof. intros. unfold divRoundDown. rewrite Z.quot_div_nonneg; lia. Qed.

(** [divRoundUp n s] is the least number of blocks of size [s] that hold [n]. *)
Lemma divRoundUp_spec n s :
  (0 ≤ n → 0 < s → (divRoundUp n s - 1) * s < n ≤ divRoundUp n s * s)%Z.
Proof.
  intros. unfold divRoundUp.
  rewrite Z.quot_div_nonneg, Z.rem_mod_nonneg by lia.
  pose proof (Z.div_mod n s). pose proof (Z.mod_pos_bound n s).
  case_decide; nia.
Qed.

Lemma divRoundUp_nonneg n s : (0 ≤ n → 0 < s → 0 ≤ divRoundUp n s)%Z.
Proof. intros. pose proof (divRoundUp_spec n s). nia. Qed.

(** ** Executable reachability: finitely many steps of a partial step function *)
Section steps.
Context {S : Type} (step : S → Result S).

Inductive steps : S → S → Prop :=
| steps_refl s : steps s s
| steps_next s s' s'' : step s = Ok s' → steps s' s'' → steps s s''.

Lemma steps_trans s s' s'' : steps s s' → steps s' s'' → steps s s''.
Proof. induction 1; eauto using steps. Qed.

Lemma steps_inv (P : S → Prop) :
  (∀ s s', P s → step s = Ok s' → P s') → ∀ s s', steps s s' → P s → P s'.
Proof. induction 2; eauto. Qed.

(** [run n s]: at most [n] steps, stopping early when the step function does. *)
Fixpoint run (n : nat) (s : S) : S * option stop :=
  match n with
  | O => (s, None)
  | Datatypes.S n =>
      match step s with
      | Ok s' => run n s'
      | Err e => (s, Some e)
      end
  end.

Lemma run_steps n s : steps s (run n s).1.
Proof.
  revert s. induction n as [|n IH]; intros s; cbn; [constructor|].
  destruct (step s) eqn:E; [|constructor]. econstructor; eauto.
Qed.
End steps.

(** ** Tactics of the development *)

(** Take a successful run of monadic code apart. *)
Ltac invert_ok :=
  repeat match goal with
  | H : (_ ≫= _) = Ok _ |- _ => apply bind_Ok in H as (? & ? & H)
  | H : ASSERT _ = Ok _ |- _ => apply ASSERT_Ok in H
  | H : deref _ = Ok _ |- _ => apply deref_Ok in H
  | H : mret _ = Ok _ |- _ => injection H as H
  | H : Ok _ = Ok _ |- _ => injection H as H
  | H : Err _ = Ok _ |- _ => discriminate H
  | H : Ok _ = Err _ |- _ => discriminate H
  | p : _ * _ |- _ => destruct p
  | p : unit |- _ => destruct p
  end; simplify_eq/=.

(** Evaluate monadic glue without unfolding anything else. *)
Ltac rcbn := cbn [mbind mret fmap Result_bind Result_ret Result_map deref ASSERT fst snd].

(** [lia] with division and modulo (by constants) unfolded. *)
Ltac dlia := zify; Z.to_euclidean_division_equations; lia.

(** ** Generic list facts *)

Lemma list_lookup_total_nth {A} `{Inhabited A} (l : list A) i d :
  i < length l → l !!! i = nth i l d.
Proof.
  intros Hi. rewrite list_lookup_total_alt.
  destruct (lookup_lt_is_Some_2 l i Hi) as [x Hx]. rewrite Hx. cbn.
  by rewrite (nth_lookup_Some l i d x).
Qed.

Lemma filter_none {A} (P : A → Prop) `{!∀ x, Decision (P x)} (l : list A) :
  Forall (λ x, ¬ P x) l → filter P l = [].
Proof. induction 1; [done|]. by rewrite filter_cons_False. Qed.

Lemma lookup_inserts {A} (k l : list A) i j :
  list_inserts i k l !! j =
  if decide (i ≤ j < i + length k ∧ j < length l) then k !! (j - i) else l !! j.
Proof.
  case_decide as H; [apply list_lookup_inserts; lia|].
  destruct (decide (j < i)); [by rewrite list_lookup_inserts_lt|].
  destruct (decide (i + length k ≤ j)); [by rewrite list_lookup_inserts_ge|].
  rewrite !lookup_ge_None_2; [done|lia|rewrite length_inserts; lia].
Qed.

(** A window of a window. *)
Lemma take_drop_window {A} (l : list A) a b c d :
  b + c ≤ d → take c (drop b (take d (drop a l))) = take c (drop (a + b) l).
Proof.
  intros H. apply list_eq. intros j. destruct (decide (j < c)).
  - rewrite !lookup_take_lt, !lookup_drop, lookup_take_lt, lookup_drop by lia. f_equal. lia.
  - by rewrite !lookup_take_ge by lia.
Qed.

Lemma inserts_whole {A} (k l : list A) : length k = length l → list_inserts 0 k l = k.
Proof. intros H. by rewrite <- (app_nil_r l), list_inserts_0_r, app_nil_r. Qed.

Lemma take_drop_inserts {A} (k l : list A) i :
  i + length k ≤ length l → take (length k) (drop i (list_inserts i k l)) = k.
Proof.
  intros H. apply list_eq. intros j. destruct (decide (j < length k)).
  - rewrite lookup_take_lt, lookup_drop, list_lookup_inserts by lia. f_equal. lia.
  - rewrite lookup_take_ge, lookup_ge_None_2 by lia. done.
Qed.

Lemma take_drop_inserts_disjoint {A} (k l : list A) i j n :
  i + length k ≤ j ∨ j + n ≤ i →
  take n (drop j (list_inserts i k l)) = take n (drop j l).
Proof.
  intros H. apply list_eq. intros x. destruct (decide (x < n)).
  - rewrite !lookup_take_lt, !lookup_drop by lia. destruct H.
    + rewrite list_lookup_inserts_ge by lia. done.
    + rewrite list_lookup_inserts_lt by lia. done.
  - by rewrite !lookup_take_ge by lia.
Qed.

Lemma elem_of_concat {A} (ls : list (list A)) l x : l ∈ ls → x ∈ l → x ∈ concat ls.
Proof. rewrite !list_elem_of_In. intros Hl Hx. apply in_concat. eauto. Qed.

Lemma length_concat_le {A} (ls : list (list A)) n :
  Forall (λ l, length l ≤ n) ls → length (concat ls) ≤ n * length ls.
Proof. induction 1; cbn [concat length]; [lia|]. rewrite length_app. lia. Qed.

Lemma size_list_to_set_le (l : list nat) : size (list_to_set l : gset nat) ≤ length l.
Proof.
  induction l as [|i l IH]; [done|]. cbn [list_to_set length].
  rewrite size_union_alt, size_singleton.
  assert (size (list_to_set l ∖ {[i]} : gset nat) ≤ size (list_to_set l : gset nat))
    by (apply subseteq_size; set_solver). lia.
Qed.

(** ** Sums over finite maps *)

Definition total {A} (f : A → Z) (m : gmap nat A) : Z := map_fold (λ _ x z, f x + z)%Z 0%Z m.

Section total.
Context {A : Type} (f : A → Z).
Implicit Types m : gmap nat A.
Local Open Scope Z_scope.

Lemma total_insert_new m i x : m !! i = None → total f (<[i := x]> m) = f x + total f m.
Proof.
  intros Hi. unfold total.
  rewrite (map_fold_insert_L (λ (_ : nat) x z, f x + z)); [done| |done]. intros. lia.
Qed.

Lemma total_delete m i x : m !! i = Some x → total f (delete i m) = total f m - f x.
Proof.
  intros Hi. rewrite <- (insert_delete_id m i x Hi) at 2.
  rewrite total_insert_new by apply lookup_delete_eq. lia.
Qed.

Lemma total_update m i x y : m !! i = Some x → total f (<[i := y]> m) = total f m - f x + f y.
Proof.
  intros Hi. rewrite <- insert_delete_eq, total_insert_new by apply lookup_delete_eq.
  rewrite (total_delete m i x Hi). lia.
Qed.

Lemma total_nonneg m : (∀ i x, m !! i = Some x → 0 ≤ f x) → 0 ≤ total f m.
Proof.
  induction m as [|i x m Hi IH] using map_ind; intros Hf; [done|].
  rewrite total_insert_new by done.
  pose proof (Hf i x (lookup_insert_eq _ _ _)). enough (0 ≤ total f m) by lia.
  apply IH. intros j y Hj. apply (Hf j). rewrite lookup_insert_ne; [done|]. congruence.
Qed.

Lemma total_ge m i x : m !! i = Some x → (∀ j y, m !! j = Some y → 0 ≤ f y) → f x ≤ total f m.
Proof.
  intros Hi Hf. rewrite <- (insert_delete_id m i x Hi), total_insert_new by apply lookup_delete_eq.
  enough (0 ≤ total f (delete i m)) by lia. apply total_nonneg.
  intros j y [_ Hj]%lookup_delete_Some. eauto.
Qed.

Lemma total_zero m : (∀ i x, m !! i = Some x → f x = 0) → total f m = 0.
Proof.
  induction m as [|i x m Hi IH] using map_ind; intros Hf; [done|].
  rewrite total_insert_new, (Hf i x (lookup_insert_eq _ _ _)), IH; [done| |done].
  intros j y Hj. apply (Hf j). rewrite lookup_insert_ne; [done|]. congruence.
Qed.
End total.

Create HintDb nachos.
#[export] Hint Resolve u32_range s32_range : nachos.
