(* ===== verification/Bytes.v ===== *)
(** * Arrays of bytes and integers stored in them

    A [char] array is a list of numbers between 0 and 255.  The host is little
    endian with 4-byte [int]s (the build is for i386 with -m32).  An access
    outside an array is a [MemFault]. *)

From S2P Require Import Prelude.

Local Open Scope Z_scope.

Definition is_byte (b : Z) : Prop := 0 ≤ b < 256.
Definition is_int (z : Z) : Prop := - 2 ^ 31 ≤ z < 2 ^ 31.

(** The [n] bytes at [p], and the array with [bs] copied to [p]. *)
Definition bytes_at (p : Z) (n : nat) (mem : list Z) : Result (list Z) :=
  if decide (0 ≤ p ∧ p + Z.of_nat n ≤ Z.of_nat (length mem)) then Ok (take n (drop (Z.to_nat p) mem)) else Err MemFault.
Definition bytes_put (p : Z) (bs mem : list Z) : Result (list Z) :=
  if decide (0 ≤ p ∧ p + Z.of_nat (length bs) ≤ Z.of_nat (length mem)) then Ok (list_inserts (Z.to_nat p) bs mem) else Err MemFault.

(** [new char[n]]: what memory held is unknown. *)
Definition new_chars (garbage : nat → Z) (n : Z) : Result (list Z) :=
  if decide (0 ≤ n) then Ok ((λ i, garbage i `mod` 256) <$> seq 0 (Z.to_nat n)) else Err MemFault.

(** An [int] array seen as bytes ([(char * ) p]) and back. *)
Definition int_bytes (z : Z) : list Z := Z_to_little_endian 4 8 z.
Fixpoint ints_bytes (l : list Z) : list Z :=
  match l with
  | [] => []
  | z :: l => int_bytes z ++ ints_bytes l
  end.

Fixpoint bytes_ints (bs : list Z) : list Z :=
  match bs with
  | b0 :: b1 :: b2 :: b3 :: bs => little_endian_to_Z 8 [b0; b1; b2; b3] :: bytes_ints bs
  | _ => []
  end.

(** ** Facts *)

Lemma bytes_at_Ok p n mem :
  0 ≤ p → p + Z.of_nat n ≤ Z.of_nat (length mem) →
  bytes_at p n mem = Ok (take n (drop (Z.to_nat p) mem)) ∧
  length (take n (drop (Z.to_nat p) mem)) = n.
Proof.
  intros ??. unfold bytes_at. rewrite decide_True by lia. split; [done|].
  rewrite length_take, length_drop. lia.
Qed.

Lemma bytes_put_Ok p bs mem :
  0 ≤ p → p + Z.of_nat (length bs) ≤ Z.of_nat (length mem) →
  bytes_put p bs mem = Ok (list_inserts (Z.to_nat p) bs mem).
Proof. intros ??. unfold bytes_put. by rewrite decide_True by lia. Qed.

(** The array after a copy, byte by byte. *)
Lemma bytes_put_lookup p (bs mem : list Z) i :
  0 ≤ p → p + Z.of_nat (length bs) ≤ Z.of_nat (length mem) →
  list_inserts (Z.to_nat p) bs mem !! i =
  if decide (p ≤ Z.of_nat i < p + Z.of_nat (length bs)) then bs !! Z.to_nat (Z.of_nat i - p) else mem !! i.
Proof.
  intros Hp Hb. case_decide.
  - rewrite list_lookup_inserts by lia. f_equal. lia.
  - destruct (decide (i < Z.to_nat p)%nat); [by rewrite list_lookup_inserts_lt|].
    rewrite list_lookup_inserts_ge; [done|lia].
Qed.

Lemma new_chars_Ok garbage n :
  0 ≤ n → ∃ l, new_chars garbage n = Ok l ∧ length l = Z.to_nat n ∧ Forall is_byte l.
Proof.
  intros. unfold new_chars. rewrite decide_True by done. eexists. split; [done|]. split.
  - by rewrite length_fmap, length_seq.
  - apply Forall_fmap, Forall_true. intros i. unfold is_byte, compose.
    pose proof (Z.mod_pos_bound (garbage i) 256). lia.
Qed.

Lemma length_int_bytes z : length (int_bytes z) = 4%nat.
Proof. apply Nat2Z.inj. unfold int_bytes. by rewrite length_Z_to_little_endian. Qed.

Lemma int_bytes_bytes z : Forall is_byte (int_bytes z).
Proof.
  eapply Forall_impl; [apply (Z_to_little_endian_bound 4 8); lia|]. intros x Hx. exact Hx.
Qed.

Lemma length_ints_bytes l : length (ints_bytes l) = (4 * length l)%nat.
Proof.
  induction l as [|z l IH]; [done|]. cbn [ints_bytes length].
  rewrite length_app, length_int_bytes, IH. lia.
Qed.

Lemma ints_bytes_bytes l : Forall is_byte (ints_bytes l).
Proof.
  induction l as [|z l IH]; [constructor|].
  cbn [ints_bytes]. apply Forall_app. split; [apply int_bytes_bytes|done].
Qed.

Lemma bytes_ints_cons z bs :
  bytes_ints (int_bytes z ++ bs) = u32 z :: bytes_ints bs.
Proof.
  assert (little_endian_to_Z 8 (int_bytes z) = u32 z) as Hz.
  { unfold int_bytes. by rewrite little_endian_to_Z_to_little_endian. }
  pose proof (length_int_bytes z) as Hl.
  destruct (int_bytes z) as [|b0 [|b1 [|b2 [|b3 [|? ?]]]]]; try discriminate Hl.
  cbn [app bytes_ints]. by rewrite Hz.
Qed.

Lemma bytes_ints_bytes l : bytes_ints (ints_bytes l) = u32 <$> l.
Proof.
  induction l as [|z l IH]; [done|]. cbn [ints_bytes]. by rewrite bytes_ints_cons, IH.
Qed.

(** Words in range survive the trip through bytes. *)
Lemma words_roundtrip l :
  Forall (λ w, 0 ≤ w < 2 ^ 32) l → bytes_ints (ints_bytes l) = l.
Proof.
  intros Hl. rewrite bytes_ints_bytes. rewrite <- (list_fmap_id l) at 2.
  apply list_fmap_ext. intros i w Hw. apply u32_small. by eapply Forall_lookup_1 in Hl.
Qed.

Lemma s32_u32 z : s32 (u32 z) = s32 z.
Proof. unfold s32, u32. f_equal. by rewrite Zplus_mod_idemp_l. Qed.

Lemma ints_roundtrip l : Forall is_int l → s32 <$> bytes_ints (ints_bytes l) = l.
Proof.
  intros Hl. rewrite bytes_ints_bytes, <- list_fmap_compose. rewrite <- (list_fmap_id l) at 2.
  apply list_fmap_ext. intros i z Hz. unfold compose. rewrite s32_u32. apply s32_small. by eapply Forall_lookup_1 in Hl.
Qed.

Lemma length_bytes_ints n bs : length bs = (4 * n)%nat → length (bytes_ints bs) = n.
Proof.
  revert bs. induction n as [|n IH]; intros bs Hn.
  - by destruct bs.
  - destruct bs as [|? [|? [|? [|? bs]]]]; cbn in Hn; try lia. cbn. rewrite IH; lia.
Qed.

(** Bytes that make whole words survive the trip through words. *)
Lemma bytes_roundtrip n bs :
  length bs = (4 * n)%nat → Forall is_byte bs → ints_bytes (bytes_ints bs) = bs.
Proof.
  revert bs. induction n as [|n IH]; intros bs Hn Hb.
  - by destruct bs.
  - destruct bs as [|b0 [|b1 [|b2 [|b3 bs]]]]; cbn in Hn; try lia.
    cbn [bytes_ints ints_bytes].
    rewrite IH; [|lia|by do 4 apply Forall_cons in Hb as [_ Hb]].
    unfold int_bytes. change 4 with (Z.of_nat (length [b0; b1; b2; b3])).
    rewrite Z_to_little_endian_to_Z; [done|lia|lia|].
    do 4 (apply Forall_cons in Hb as [? Hb]). unfold is_byte in *.
    repeat constructor; lia.
Qed.

Lemma bytes_ints_range bs : Forall is_byte bs → Forall (λ w, 0 ≤ w < 2 ^ 32) (bytes_ints bs).
Proof.
  remember (length bs) as n eqn:Hn. revert bs Hn.
  induction n as [n IH] using lt_wf_ind. intros bs -> Hb.
  destruct bs as [|b0 [|b1 [|b2 [|b3 bs]]]]; try by constructor.
  cbn [bytes_ints]. constructor.
  - do 4 (apply Forall_cons in Hb as [? Hb]). unfold is_byte in *.
    apply (little_endian_to_Z_bound 8 [b0; b1; b2; b3]); [lia|]. repeat constructor; lia.
  - eapply IH; [|done|by do 4 apply Forall_cons in Hb as [_ Hb]]. cbn. lia.
Qed.

Lemma int_bytes_u32 z : int_bytes (u32 z) = int_bytes z.
Proof.
  rewrite <- (Z_to_little_endian_to_Z 4 8 (int_bytes z)) by
    (rewrite ?length_int_bytes; first [lia | done | apply int_bytes_bytes]).
  unfold int_bytes at 2. by rewrite little_endian_to_Z_to_little_endian.
Qed.
