(* ===== verification/CommandLine.v ===== *)
(** * The command line: threads/main.cc, [Initialize] of threads/system.cc and
    the debugging flags of threads/utility.cc

    The arguments are read twice: [Initialize] takes the settings out of them,
    then [main] makes one call of a test or of a user program per option.  Both
    are loops that look at one word, act on the options they know and skip as
    many words as these take.  The calls are data here ([action]); the file
    [Session] runs those of the file system. *)

From Stdlib Require Import Ascii.
From stdpp Require Import strings.
From S2P Require Import Prelude.

Local Open Scope Z_scope.

(** A C string, without its NUL. *)
Fixpoint chars (s : String.string) : list Z :=
  match s with
  | EmptyString => []
  | String c s => Z.of_nat (nat_of_ascii c) :: chars s
  end.

(** [!strcmp(s, "...")] *)
Definition streq (s : list Z) (t : String.string) : bool := bool_decide (s = chars t).

(** [atoi]: white space, a sign, digits. *)
Definition is_space (c : Z) : bool := bool_decide (c = 32 ∨ 9 ≤ c ≤ 13).
Definition is_digit (c : Z) : bool := bool_decide (48 ≤ c ≤ 57).

Fixpoint digits_value (acc : Z) (s : list Z) : Z :=
  match s with
  | c :: s => if is_digit c then digits_value (10 * acc + (c - 48)) s else acc
  | [] => acc
  end.

Fixpoint atoi (s : list Z) : Z :=
  match s with
  | c :: s' =>
      if is_space c then atoi s'
      else if decide (c = 45) then s32 (- digits_value 0 s')
      else if decide (c = 43) then s32 (digits_value 0 s')
      else s32 (digits_value 0 s)
  | [] => 0
  end.

(** ** The configuration a Makefile compiles *)

Inductive threads_test := NO_TEST | HW1_LOCKS | HW1_ELEVATOR | HW1_THREADTEST.

(** Which names are defined; [THREADS] is the test of the threads project. *)
Record build := mkBuild {
  THREADS : threads_test;
  USER_PROGRAM : bool;
  FILESYS_NEEDED : bool;
  FILESYS : bool;
  NETWORK : bool;
}.

(** ** threads/utility.cc *)

(** [DebugInit]; [None] before it is called. *)
Definition DebugInit (flagList : list Z) : option (list Z) := Some flagList.

Definition DebugIsEnabled (enableFlags : option (list Z)) (flag : Z) : bool :=
  match enableFlags with
  | Some flags => bool_decide (flag ∈ flags) || bool_decide (43 ∈ flags)
  | None => false
  end.

(** ** [Initialize] *)

(** The local variables that steer it.  [seed] is the argument of the last call
    of [RandomInit], and set when [randomYield] is; [rely] is the text that
    [atof] is given, [None] for 1. *)
Record settings := mkSettings {
  debugArgs : list Z;
  seed : option Z;
  debugUserProg : bool;
  format : bool;
  rely : option (list Z);
  netname : Z;
}.

Definition no_settings : settings := mkSettings [] None false false None 0.

Definition set_debugArgs v s := mkSettings v (seed s) (debugUserProg s) (format s) (rely s) (netname s).
Definition set_seed v s := mkSettings (debugArgs s) v (debugUserProg s) (format s) (rely s) (netname s).
Definition set_debugUserProg v s := mkSettings (debugArgs s) (seed s) v (format s) (rely s) (netname s).
Definition set_format v s := mkSettings (debugArgs s) (seed s) (debugUserProg s) v (rely s) (netname s).
Definition set_rely v s := mkSettings (debugArgs s) (seed s) (debugUserProg s) (format s) v (netname s).
Definition set_netname v s := mkSettings (debugArgs s) (seed s) (debugUserProg s) (format s) (rely s) v.

Definition randomYield (s : settings) : bool := bool_decide (is_Some (seed s)).

(** [*(argv + 1)] after [ASSERT(argc > 1)]. *)
Definition argument (rest : list (list Z)) : Result (list Z) :=
  match rest with v :: _ => mret v | [] => Err AssertFailed end.

Section configured.
Context (b : build).

(** The body of the loop for the word [opt], with [rest] after it: the settings
    and [argCount]. *)
Definition init_option (opt : list Z) (rest : list (list Z)) (s : settings) : Result (settings * nat) :=
  '(s, argCount) ←
    (if streq opt "-d" then
       match rest with
       | [] => mret (set_debugArgs (chars "+") s, 1%nat)
       | flags :: _ => mret (set_debugArgs flags s, 2%nat)
       end
     else if streq opt "-rs" then
       v ← argument rest; mret (set_seed (Some (atoi v)) s, 2%nat)
     else mret (s, 1%nat));
  let s := if USER_PROGRAM b && streq opt "-s" then set_debugUserProg true s else s in
  let s := if FILESYS_NEEDED b && streq opt "-f" then set_format true s else s in
  if NETWORK b then
    if streq opt "-l" then v ← argument rest; mret (set_rely (Some v) s, 2%nat)
    else if streq opt "-m" then v ← argument rest; mret (set_netname (atoi v) s, 2%nat)
    else mret (s, argCount)
  else mret (s, argCount).

(** The loop; [skip] words are still to be skipped. *)
Fixpoint init_loop (skip : nat) (args : list (list Z)) (s : settings) : Result settings :=
  match args with
  | [] => mret s
  | opt :: rest =>
      match skip with
      | S skip => init_loop skip rest s
      | O => '(s, argCount) ← init_option opt rest s; init_loop (argCount - 1) rest s
      end
  end.

(** [Initialize(argc, argv)] as far as the settings. *)
Definition Initialize (args : list (list Z)) : Result settings := init_loop 0 args no_settings.

(** ** [main] *)

Inductive action :=
| PrintCopyright
| CallLockTest
| CallElevator (numFloors : Z)
| CallArrivingGoingFromTo (atFloor toFloor : Z)
| CallThreadTest (n : Z) (testnum : option Z)
| CallStartProcess (file : list Z)
| CallConsoleTest (files : option (list Z * list Z))
| CallCopy (unixFile nachosFile : list Z)
| CallPrint (file : list Z)
| CallRemove (file : list Z)
| CallList
| CallPrintFileSystem
| CallPerformanceTest
| CallDelay (seconds : Z)
| CallMailTest (networkID : Z).

(** The calls made, and how the loop ends: [Exit] is [interrupt->Halt()]. *)
Definition calls : Type := list action * Result unit.

Definition call_then (a : list action) (c : calls) : calls := (a ++ c.1, c.2).

(** The scan for [-N] and [-q] of HW1_THREADTEST. *)
Fixpoint scan_threadtest (args : list (list Z)) (n : Z) (testnum : option Z) : Z * option Z :=
  match args with
  | opt :: (v :: _) as rest =>
      if streq opt "-N" then scan_threadtest rest (atoi v) testnum
      else if streq opt "-q" then scan_threadtest rest n (Some (atoi v))
      else scan_threadtest rest n testnum
  | _ => (n, testnum)
  end.

(** The section [#ifdef THREADS] of [main]. *)
Definition threads_calls (args : list (list Z)) : list action :=
  match THREADS b with
  | NO_TEST => []
  | HW1_LOCKS => [CallLockTest]
  | HW1_ELEVATOR =>
      [CallElevator 10; CallArrivingGoingFromTo 1 7; CallArrivingGoingFromTo 3 9; CallArrivingGoingFromTo 5 2]
  | HW1_THREADTEST => let '(n, testnum) := scan_threadtest args 1 None in [CallThreadTest n testnum]
  end.

(** The parts of the body of the loop, each with the [argCount] it leaves.  An
    assertion fails before the call it guards. *)
Definition user_option (opt : list Z) (rest : list (list Z)) : calls * nat :=
  if streq opt "-x" then
    match rest with
    | file :: _ => (([CallStartProcess file], mret ()), 2%nat)
    | [] => (([], Err AssertFailed), 1%nat)
    end
  else if streq opt "-c" then
    match rest with
    | [] => (([CallConsoleTest None], Err Exit), 1%nat)
    | [_] => (([], Err AssertFailed), 1%nat)
    | fin :: fout :: _ => (([CallConsoleTest (Some (fin, fout))], Err Exit), 3%nat)
    end
  else (([], mret ()), 1%nat).

Definition filesys_option (opt : list Z) (rest : list (list Z)) (argCount : nat) : calls * nat :=
  if streq opt "-cp" then
    match rest with
    | from :: to :: _ => (([CallCopy from to], mret ()), 3%nat)
    | _ => (([], Err AssertFailed), argCount)
    end
  else if streq opt "-p" then
    match rest with
    | file :: _ => (([CallPrint file], mret ()), 2%nat)
    | [] => (([], Err AssertFailed), argCount)
    end
  else if streq opt "-r" then
    match rest with
    | file :: _ => (([CallRemove file], mret ()), 2%nat)
    | [] => (([], Err AssertFailed), argCount)
    end
  else if streq opt "-l" then (([CallList], mret ()), argCount)
  else if streq opt "-D" then (([CallPrintFileSystem], mret ()), argCount)
  else if streq opt "-t" then (([CallPerformanceTest], mret ()), argCount)
  else (([], mret ()), argCount).

Definition network_option (opt : list Z) (rest : list (list Z)) (argCount : nat) : calls * nat :=
  if streq opt "-o" then
    match rest with
    | addr :: _ => (([CallDelay 2; CallMailTest (atoi addr)], mret ()), 2%nat)
    | [] => (([], Err AssertFailed), argCount)
    end
  else (([], mret ()), argCount).

(** One part after the other, as long as none stops the program. *)
Definition and_then (c : calls * nat) (f : nat → calls * nat) : calls * nat :=
  match c with
  | ((as1, Ok _), n) => let '((as2, r), n) := f n in ((as1 ++ as2, r), n)
  | ((as1, Err e), n) => ((as1, Err e), n)
  end.

Definition main_option (opt : list Z) (rest : list (list Z)) : calls * nat :=
  and_then (((if streq opt "-z" then [PrintCopyright] else []), mret ()), 1%nat) (λ argCount,
  and_then (if USER_PROGRAM b then user_option opt rest else (([], mret ()), argCount)) (λ argCount,
  and_then (if FILESYS b then filesys_option opt rest argCount else (([], mret ()), argCount)) (λ argCount,
  if NETWORK b then network_option opt rest argCount else (([], mret ()), argCount)))).

Fixpoint main_loop (skip : nat) (args : list (list Z)) : calls :=
  match args with
  | [] => ([], mret ())
  | opt :: rest =>
      match skip with
      | S skip => main_loop skip rest
      | O =>
          match main_option opt rest with
          | ((acts, Ok _), argCount) => call_then acts (main_loop (argCount - 1) rest)
          | ((acts, Err e), _) => (acts, Err e)
          end
      end
  end.

(** [main], from the words after the name of the command: the settings of
    [Initialize] and the calls made; afterwards [currentThread->Finish()]. *)
Definition main (args : list (list Z)) : Result (settings * calls) :=
  s ← Initialize args;
  mret (s, call_then (threads_calls args) (main_loop 0 args)).
End configured.

(** ** The usage message of main.cc *)

(** The options with their arguments. *)
Inductive usage :=
| U_d (flags : list Z) | U_rs (number : list Z) | U_z
| U_N (number : list Z) | U_q (number : list Z)
| U_s | U_x (file : list Z) | U_c (consoleIn consoleOut : list Z)
| U_f | U_cp (unixFile nachosFile : list Z) | U_p (file : list Z) | U_r (file : list Z) | U_l | U_D | U_t
| U_n (reliability : list Z) | U_m (number : list Z) | U_o (number : list Z).

Definition usage_args (o : usage) : list (list Z) :=
  match o with
  | U_d v | U_rs v | U_N v | U_q v | U_x v | U_p v | U_r v | U_n v | U_m v | U_o v => [v]
  | U_c v w | U_cp v w => [v; w]
  | _ => []
  end.

Definition usage_name (o : usage) : String.string :=
  (match o with
  | U_d _ => "-d" | U_rs _ => "-rs" | U_z => "-z" | U_N _ => "-N" | U_q _ => "-q"
  | U_s => "-s" | U_x _ => "-x" | U_c _ _ => "-c"
  | U_f => "-f" | U_cp _ _ => "-cp" | U_p _ => "-p" | U_r _ => "-r" | U_l => "-l" | U_D => "-D" | U_t => "-t"
  | U_n _ => "-n" | U_m _ => "-m" | U_o _ => "-o"
  end)%string.

(** The words the user types. *)
Definition words (o : usage) : list (list Z) := chars (usage_name o) :: usage_args o.
Fixpoint command_line (os : list usage) : list (list Z) :=
  match os with [] => [] | o :: os => words o ++ command_line os end.

(** What an option is documented to do; options of a part that is not compiled
    in are ignored. *)
Definition documented_setting (b : build) (o : usage) (s : settings) : settings :=
  match o with
  | U_d flags => set_debugArgs flags s
  | U_rs v => set_seed (Some (atoi v)) s
  | U_s => if USER_PROGRAM b then set_debugUserProg true s else s
  | U_f => if FILESYS_NEEDED b then set_format true s else s
  | U_n v => if NETWORK b then set_rely (Some v) s else s
  | U_m v => if NETWORK b then set_netname (atoi v) s else s
  | _ => s
  end.
Fixpoint documented_settings (b : build) (os : list usage) (s : settings) : settings :=
  match os with [] => s | o :: os => documented_settings b os (documented_setting b o s) end.

Definition documented_action (b : build) (o : usage) : list action :=
  match o with
  | U_z => [PrintCopyright]
  | U_x file => if USER_PROGRAM b then [CallStartProcess file] else []
  | U_c fin fout => if USER_PROGRAM b then [CallConsoleTest (Some (fin, fout))] else []
  | U_cp from to => if FILESYS b then [CallCopy from to] else []
  | U_p file => if FILESYS b then [CallPrint file] else []
  | U_r file => if FILESYS b then [CallRemove file] else []
  | U_l => if FILESYS b then [CallList] else []
  | U_D => if FILESYS b then [CallPrintFileSystem] else []
  | U_t => if FILESYS b then [CallPerformanceTest] else []
  | U_o v => if NETWORK b then [CallDelay 2; CallMailTest (atoi v)] else []
  | _ => []
  end.

(** The console test does not return. *)
Definition is_console (b : build) (o : usage) : bool :=
  match o with U_c _ _ => USER_PROGRAM b | _ => false end.

Fixpoint documented_calls (b : build) (os : list usage) : calls :=
  match os with
  | [] => ([], mret ())
  | o :: os => if is_console b o then (documented_action b o, Err Exit)
               else call_then (documented_action b o) (documented_calls b os)
  end.

(** The last -N and -q. *)
Fixpoint threadtest_args (os : list usage) (n : Z) (testnum : option Z) : Z * option Z :=
  match os with
  | [] => (n, testnum)
  | U_N v :: os => threadtest_args os (atoi v) testnum
  | U_q v :: os => threadtest_args os n (Some (atoi v))
  | _ :: os => threadtest_args os n testnum
  end.

Definition documented_threads (b : build) (os : list usage) : list action :=
  match THREADS b with
  | NO_TEST => []
  | HW1_LOCKS => [CallLockTest]
  | HW1_ELEVATOR =>
      [CallElevator 10; CallArrivingGoingFromTo 1 7; CallArrivingGoingFromTo 3 9; CallArrivingGoingFromTo 5 2]
  | HW1_THREADTEST => let '(n, testnum) := threadtest_args os 1 None in [CallThreadTest n testnum]
  end.

(** The loops do not know each other's options: [Initialize] and [main] skip the
    arguments of the options they take themselves and look at every other word,
    and the scan for -N and -q skips none. *)
Definition init_names (b : build) : list String.string :=
  ["-d"; "-rs"]%string ++ (if USER_PROGRAM b then ["-s"]%string else []) ++
  (if FILESYS_NEEDED b then ["-f"]%string else []) ++ (if NETWORK b then ["-l"; "-m"]%string else []).

Definition main_names (b : build) : list String.string :=
  ["-z"]%string ++ (if USER_PROGRAM b then ["-x"; "-c"]%string else []) ++
  (if FILESYS b then ["-cp"; "-p"; "-r"; "-l"; "-D"; "-t"]%string else []) ++
  (if NETWORK b then ["-o"]%string else []).

Definition scan_names (b : build) : list String.string :=
  match THREADS b with HW1_THREADTEST => ["-N"; "-q"]%string | _ => [] end.

Definition init_takes (b : build) (o : usage) : bool :=
  match o with U_d _ | U_rs _ => true | U_m _ => NETWORK b | _ => false end.

Definition main_takes (b : build) (o : usage) : bool :=
  match o with
  | U_x _ | U_c _ _ => USER_PROGRAM b
  | U_cp _ _ | U_p _ | U_r _ => FILESYS b
  | U_o _ => NETWORK b
  | _ => false
  end.

Definition named (names : list String.string) (w : list Z) : bool := existsb (streq w) names.

(** The argument of an option is not the name of an option for a loop that looks
    at it. *)
Definition clear_argument (b : build) (o : usage) (w : list Z) : bool :=
  (init_takes b o || negb (named (init_names b) w)) &&
  (main_takes b o || negb (named (main_names b) w)) &&
  negb (named (scan_names b) w).

(** The options -l and -n are not what the network configuration makes of them. *)
Definition clashes (o : usage) : bool := match o with U_l | U_n _ => true | _ => false end.

Definition usable (b : build) (o : usage) : bool :=
  forallb (clear_argument b o) (usage_args o) && negb (NETWORK b && clashes o).

(** ** Both loops read the options *)

Lemma unnamed names w t : named names w = false → t ∈ names → streq w t = false.
Proof.
  intros Hn Ht. destruct (streq w t) eqn:E; [|done]. rewrite <- Hn. symmetry.
  apply existsb_exists. exists t. by rewrite <- list_elem_of_In.
Qed.

(** Rewrite the comparisons of a word that is not among the names. *)
Ltac no_option H :=
  repeat match goal with
  | |- context [streq ?w ?t] => rewrite (unnamed _ w t H) by (apply list_elem_of_In; cbn; tauto)
  end.

(** Compare two given names. *)
Ltac compare_names :=
  repeat match goal with
  | |- context [streq (chars ?s) ?t] =>
      let v := eval vm_compute in (streq (chars s) t) in change (streq (chars s) t) with v
  end.

Lemma init_step b opt rest s :
  init_loop b 0 (opt :: rest) s = '(s, argCount) ← init_option b opt rest s; init_loop b (argCount - 1) rest s.
Proof. done. Qed.
Lemma init_skip b k w rest s : init_loop b (S k) (w :: rest) s = init_loop b k rest s.
Proof. done. Qed.

Lemma main_step b opt rest :
  main_loop b 0 (opt :: rest) =
    match main_option b opt rest with
    | ((acts, Ok _), argCount) => call_then acts (main_loop b (argCount - 1) rest)
    | ((acts, Err e), _) => (acts, Err e)
    end.
Proof. done. Qed.
Lemma main_skip b k w rest : main_loop b (S k) (w :: rest) = main_loop b k rest.
Proof. done. Qed.

Lemma call_then_nil c : call_then [] c = c.
Proof. by destruct c. Qed.

Lemma init_unread b w rest s :
  named (init_names b) w = false → init_loop b 0 (w :: rest) s = init_loop b 0 rest s.
Proof.
  intros Hw. rewrite init_step. unfold init_option.
  destruct b as [th [] [] fs []]; cbn [USER_PROGRAM FILESYS_NEEDED NETWORK andb]; no_option Hw; rcbn; reflexivity.
Qed.

Lemma main_unread b w rest : named (main_names b) w = false → main_loop b 0 (w :: rest) = main_loop b 0 rest.
Proof.
  intros Hw. rewrite main_step. unfold main_option, user_option, filesys_option, network_option.
  destruct b as [th [] fn [] []]; cbn [USER_PROGRAM FILESYS NETWORK]; no_option Hw;
    cbn [and_then app mret Result_ret Nat.sub]; apply call_then_nil.
Qed.

Lemma scan_cons opt rest n t :
  scan_threadtest (opt :: rest) n t =
    match rest with
    | [] => (n, t)
    | v :: _ => if streq opt "-N" then scan_threadtest rest (atoi v) t
                else if streq opt "-q" then scan_threadtest rest n (Some (atoi v))
                else scan_threadtest rest n t
    end.
Proof. by destruct rest. Qed.

Lemma scan_unread w rest n t :
  named ["-N"; "-q"]%string w = false → scan_threadtest (w :: rest) n t = scan_threadtest rest n t.
Proof. intros Hw. rewrite scan_cons. no_option Hw. by destruct rest. Qed.

Section clear.
Context {b : build} {o : usage} {w : list Z}.
Hypothesis Hw : clear_argument b o w = true.

Lemma clear_init : init_takes b o = false → named (init_names b) w = false.
Proof using Hw. intros E. revert Hw. unfold clear_argument. rewrite E. by destruct (named (init_names b) w). Qed.
Lemma clear_main : main_takes b o = false → named (main_names b) w = false.
Proof using Hw.
  intros E. revert Hw. unfold clear_argument. rewrite E. by destruct (named (main_names b) w), (_ || _).
Qed.
Lemma clear_scan : THREADS b = HW1_THREADTEST → named ["-N"; "-q"]%string w = false.
Proof using Hw.
  intros E. revert Hw. unfold clear_argument, scan_names. rewrite E.
  by destruct (named ["-N"; "-q"]%string w), (_ || _), (_ || _).
Qed.
End clear.

Lemma usable_spec b o :
  usable b o = true → Forall (λ w, clear_argument b o w = true) (usage_args o) ∧ NETWORK b && clashes o = false.
Proof.
  unfold usable. intros [Hf Hc%negb_true_iff]%andb_true_iff. split; [|done].
  apply Forall_forall. intros w Hin. rewrite forallb_forall in Hf. apply Hf. by apply list_elem_of_In.
Qed.

(** The hypotheses on the arguments of a given option. *)
Ltac split_arguments :=
  repeat match goal with H : Forall _ (_ :: _) |- _ => apply Forall_cons in H as [? H] end.

Lemma init_words b o rest s :
  usable b o = true → init_loop b 0 (words o ++ rest) s = init_loop b 0 rest (documented_setting b o s).
Proof.
  intros [Hp Hn]%usable_spec. unfold words.
  destruct b as [th up fn fs []], o; try discriminate Hn; cbn [usage_args usage_name app] in *; split_arguments;
    rewrite init_step; unfold init_option; compare_names; rewrite ?andb_true_r, ?andb_false_r;
    cbn [argument documented_setting NETWORK]; rcbn; cbn [Nat.sub];
    rewrite ?init_skip; repeat (rewrite init_unread by (eapply clear_init; [eassumption|reflexivity])); reflexivity.
Qed.

Lemma main_words b o rest :
  usable b o = true →
  main_loop b 0 (words o ++ rest) =
    if is_console b o then (documented_action b o, Err Exit)
    else call_then (documented_action b o) (main_loop b 0 rest).
Proof.
  intros [Hp Hn]%usable_spec. unfold words. destruct o; cbn [usage_args usage_name app] in *; split_arguments;
    rewrite main_step; unfold main_option, user_option, filesys_option, network_option; compare_names;
    destruct b as [th [] fn [] []]; cbn [USER_PROGRAM FILESYS NETWORK is_console documented_action];
    cbn [and_then app Nat.sub mret Result_ret]; rewrite ?main_skip;
    repeat (rewrite main_unread by (eapply clear_main; [eassumption|reflexivity])); reflexivity.
Qed.

Lemma scan_words b o rest n t :
  usable b o = true → THREADS b = HW1_THREADTEST →
  scan_threadtest (words o ++ rest) n t =
    (let '(n, t) := threadtest_args [o] n t in scan_threadtest rest n t).
Proof.
  intros [Hp _]%usable_spec Hth. unfold words.
  destruct o; cbn [usage_args usage_name app threadtest_args] in *; split_arguments;
    rewrite scan_cons; compare_names; cbv iota;
    repeat (rewrite scan_unread by (eapply clear_scan; [eassumption|exact Hth])); first [reflexivity|by destruct rest].
Qed.

Lemma init_command_line b os s :
  Forall (λ o, usable b o = true) os → init_loop b 0 (command_line os) s = Ok (documented_settings b os s).
Proof.
  intros Hos. revert s. induction Hos as [|o os Ho _ IH]; intros s; [done|].
  cbn [command_line documented_settings]. by rewrite init_words, IH.
Qed.

Lemma main_command_line b os : Forall (λ o, usable b o = true) os → main_loop b 0 (command_line os) = documented_calls b os.
Proof.
  induction 1 as [|o os Ho _ IH]; [done|]. cbn [command_line documented_calls]. by rewrite main_words, IH.
Qed.

Lemma scan_command_line b os n t :
  Forall (λ o, usable b o = true) os → THREADS b = HW1_THREADTEST →
  scan_threadtest (command_line os) n t = threadtest_args os n t.
Proof.
  intros Hos Hth. revert n t. induction Hos as [|o os Ho _ IH]; intros n t; [done|].
  cbn [command_line]. rewrite (scan_words b) by done. destruct o; cbn [threadtest_args]; apply IH.
Qed.

(** ** Properties *)

(** C38: a command line made of the options of the usage message is read as
    documented in every configuration, provided that no argument of an option is
    the name of an option of a loop that does not skip it: [Initialize] ends with
    the settings of the options in their order, [main] makes the calls of the
    options in their order up to the console test, the thread test gets the last
    -N and -q, and options of parts that are not compiled in are ignored with
    their arguments.  In the configuration with a
    network this needs that -l and -n are not used. *)
Theorem command_line_documented b os :
  Forall (λ o, usable b o = true) os →
  main b (command_line os) =
    Ok (documented_settings b os no_settings, call_then (documented_threads b os) (documented_calls b os)).
Proof.
  intros Hos. unfold main, Initialize. rewrite init_command_line by done. rcbn.
  rewrite main_command_line by done. unfold threads_calls, documented_threads.
  destruct (THREADS b) eqn:Hth; [done..|]. by rewrite (scan_command_line b).
Qed.

(** The configurations of the Makefiles of filesys and network. *)
Definition filesys_build : build := mkBuild NO_TEST true true true false.
Definition network_build : build := mkBuild NO_TEST true true true true.

Lemma command_line_documented_witness :
  main filesys_build
    (command_line [U_f; U_cp (chars "-t") (chars "-p"); U_rs (chars "7"); U_d (chars "-f"); U_p (chars "-x")]) =
    Ok (mkSettings (chars "-f") (Some 7) false true None 0,
        ([CallCopy (chars "-t") (chars "-p"); CallPrint (chars "-x")], Ok ())).
Proof.
  exact (command_line_documented filesys_build
    [U_f; U_cp (chars "-t") (chars "-p"); U_rs (chars "7"); U_d (chars "-f"); U_p (chars "-x")]
    ltac:(repeat constructor)).
Defined.

(** [nachos -l] of the network configuration does not list the directory: the
    option is taken for the reliability and aborts for want of an argument.
    With an argument it lists the directory and sets the reliability, while the
    documented [-n] is ignored. *)
Example network_list_aborts :
  main network_build [chars "-l"] = Err AssertFailed ∧
  main network_build [chars "-l"; chars "0.5"] =
    Ok (mkSettings [] None false false (Some (chars "0.5")) 0, ([CallList], Ok ())) ∧
  main network_build [chars "-n"; chars "0.5"] = Ok (no_settings, ([], Ok ())).
Proof. by vm_compute. Qed.

(** The two loops do not skip the same words: a UNIX file called -f formats the
    disk, and debugging flags that look like an option are one. *)
Example arguments_taken_for_options :
  main filesys_build [chars "-cp"; chars "-f"; chars "b"] =
    Ok (set_format true no_settings, ([CallCopy (chars "-f") (chars "b")], Ok ())) ∧
  main filesys_build [chars "-d"; chars "-t"] =
    Ok (set_debugArgs (chars "-t") no_settings, ([CallPerformanceTest], Ok ())).
Proof. by vm_compute. Qed.

(** An option that needs arguments the command line does not have ends the
    program by a failed assertion, after the calls of the options before it and
    before any of its own.  ([-c] without any argument is the console test on
    standard input and output.) *)
Theorem missing_argument_aborts b os o present :
  Forall (λ o, usable b o = true) os → forallb (negb ∘ is_console b) os = true →
  main_takes b o = true → (length present < length (usage_args o))%nat →
  (∀ fin fout, o = U_c fin fout → present ≠ []) →
  main_loop b 0 (command_line os ++ chars (usage_name o) :: present) =
    (concat (documented_action b <$> os), Err AssertFailed).
Proof.
  intros Hos Hc Ht Hlen Hcons. induction Hos as [|o' os Ho' _ IH].
  - cbn [command_line app fmap list_fmap concat]. rewrite main_step.
    unfold main_option, user_option, filesys_option, network_option.
    destruct o; try discriminate; cbn [usage_name usage_args length] in *; compare_names;
      destruct b as [th [] fn [] []]; try discriminate Ht;
      destruct present as [|w1 [|w2 present]]; cbn [length] in Hlen; try lia;
      first [reflexivity|by destruct (Hcons _ _ eq_refl)].
  - cbn [forallb] in Hc. apply andb_true_iff in Hc as [Hc1 Hc2]. cbn [command_line fmap list_fmap concat].
    rewrite <- app_assoc, main_words by done. unfold compose in Hc1. destruct (is_console b o'); [done|].
    rewrite (IH Hc2). done.
Qed.

Lemma missing_argument_aborts_witness :
  main_loop filesys_build 0 (command_line [U_p (chars "b")] ++ [chars "-cp"; chars "a"]) =
    ([CallPrint [98]], Err AssertFailed).
Proof.
  refine (missing_argument_aborts filesys_build [U_p (chars "b")] (U_cp (chars "a") (chars "b")) [chars "a"] _ _ _ _ _).
  - repeat constructor.
  - reflexivity.
  - reflexivity.
  - apply Nat.ltb_lt. reflexivity.
  - discriminate.
Defined.
