(* ===== verification/Word32.v ===== *)
(** * Integers that agree in their low 32 bits

    The two simulators of the repository keep a register as a signed [int]
    (bin/execute.c) and as an unsigned word (machine/mipssim.cc).  The relation
    [≡₃₂] identifies the two; the operations of the instruction set that
    respect it are declared as such, so that it can be rewritten with.  The
    file also has the closure of [int] under the operations that cannot
    overflow. *)

From S2P Require Import Prelude Bytes.

Local Open Scope Z_scope.

Definition same_word (a b : Z) : Prop := u32 a = u32 b.
Infix "≡₃₂" := same_word (at level 70, no associativity) : Z_scope.

#[export] Instance same_word_equivalence : Equivalence same_word.
Proof. split; [done|by intros a b|]. intros a b c. unfold same_word. congruence. Qed.

Lemma same_word_divide a b : a ≡₃₂ b ↔ (2 ^ 32 | a - b).
Proof.
  unfold same_word, u32. split.
  - intros H. apply Z.mod_divide; [lia|]. rewrite Zminus_mod, H, Z.sub_diag. done.
  - intros [k Hk]. replace a with (b + k * 2 ^ 32) by lia. by rewrite Z_mod_plus_full.
Qed.

Lemma u32_same z : u32 z ≡₃₂ z.
Proof. apply u32_u32. Qed.

Lemma s32_same z : s32 z ≡₃₂ z.
Proof.
  unfold same_word, u32, s32. rewrite <- Zminus_mod_idemp_l, Z.mod_mod by lia.
  rewrite Zminus_mod_idemp_l. f_equal. lia.
Qed.

(** Within one range the low 32 bits say everything. *)
Lemma same_word_range a b lo : a ≡₃₂ b → lo ≤ a < lo + 2 ^ 32 → lo ≤ b < lo + 2 ^ 32 → a = b.
Proof. rewrite same_word_divide. intros [k Hk] Ha Hb. assert (k = 0) by nia. lia. Qed.

Lemma same_word_int a b : a ≡₃₂ b → is_int a → is_int b → a = b.
Proof. intros H Ha Hb. apply (same_word_range a b (- 2 ^ 31)); unfold is_int in *; [done|lia|lia]. Qed.

Lemma s32_int z : is_int (s32 z).
Proof. apply s32_range. Qed.

Lemma s32_u32_int z : is_int z → s32 (u32 z) = z.
Proof.
  intros Hz. apply same_word_int; [|apply s32_int|done].
  transitivity (u32 z); [apply s32_same|apply u32_same].
Qed.

(** A non-negative [int] is its own word. *)
Lemma u32_nonneg z : is_int z → 0 ≤ z → u32 z = z.
Proof. intros [? ?] ?. apply u32_small. lia. Qed.

Lemma u32_neg z : is_int z → z < 0 → u32 z = z + 2 ^ 32.
Proof.
  intros [? ?] ?. unfold u32. rewrite <- (Z_mod_plus_full z 1). apply Z.mod_small. lia.
Qed.

(** ** The operations of the ring *)

#[export] Instance add_same_word : Proper (same_word ==> same_word ==> same_word) Z.add.
Proof. intros a a' Ha b b' Hb. unfold same_word, u32 in *. by rewrite Zplus_mod, Ha, Hb, <- Zplus_mod. Qed.
#[export] Instance sub_same_word : Proper (same_word ==> same_word ==> same_word) Z.sub.
Proof. intros a a' Ha b b' Hb. unfold same_word, u32 in *. by rewrite Zminus_mod, Ha, Hb, <- Zminus_mod. Qed.
#[export] Instance mul_same_word : Proper (same_word ==> same_word ==> same_word) Z.mul.
Proof. intros a a' Ha b b' Hb. unfold same_word, u32 in *. by rewrite Zmult_mod, Ha, Hb, <- Zmult_mod. Qed.
#[export] Instance opp_same_word : Proper (same_word ==> same_word) Z.opp.
Proof. intros a a' Ha. rewrite <- (Z.sub_0_l a), <- (Z.sub_0_l a'). by rewrite Ha. Qed.
#[export] Instance s32_same_word : Proper (same_word ==> same_word) s32.
Proof. intros a a' Ha. by rewrite !s32_same. Qed.
#[export] Instance u32_same_word : Proper (same_word ==> same_word) u32.
Proof. intros a a' Ha. by rewrite !u32_same. Qed.

(** ** Bitwise operations *)

(** The low 32 bits, as bits. *)
Lemma same_word_bits a b : a ≡₃₂ b ↔ ∀ q, 0 ≤ q < 32 → Z.testbit a q = Z.testbit b q.
Proof.
  unfold same_word, u32. split.
  - intros H q Hq. rewrite <- (Z.mod_pow2_bits_low a 32 q), <- (Z.mod_pow2_bits_low b 32 q) by lia. by rewrite H.
  - intros H. apply Z.bits_inj'. intros q Hq. destruct (decide (q < 32)).
    + rewrite !Z.mod_pow2_bits_low by lia. apply H. lia.
    + by rewrite !Z.mod_pow2_bits_high by lia.
Qed.

#[export] Instance land_same_word : Proper (same_word ==> same_word ==> same_word) Z.land.
Proof.
  intros a a' Ha b b' Hb. rewrite same_word_bits in *. intros q Hq. rewrite !Z.land_spec. by rewrite Ha, Hb.
Qed.
#[export] Instance lor_same_word : Proper (same_word ==> same_word ==> same_word) Z.lor.
Proof.
  intros a a' Ha b b' Hb. rewrite same_word_bits in *. intros q Hq. rewrite !Z.lor_spec. by rewrite Ha, Hb.
Qed.
#[export] Instance lxor_same_word : Proper (same_word ==> same_word ==> same_word) Z.lxor.
Proof.
  intros a a' Ha b b' Hb. rewrite same_word_bits in *. intros q Hq. rewrite !Z.lxor_spec. by rewrite Ha, Hb.
Qed.
#[export] Instance lnot_same_word : Proper (same_word ==> same_word) Z.lnot.
Proof.
  intros a a' Ha. rewrite same_word_bits in *. intros q Hq. rewrite !Z.lnot_spec by lia. by rewrite Ha.
Qed.

Lemma shiftl_same_word a b n : 0 ≤ n → a ≡₃₂ b → Z.shiftl a n ≡₃₂ Z.shiftl b n.
Proof. intros Hn H. rewrite !Z.shiftl_mul_pow2 by done. by rewrite H. Qed.

(** A field of a word: [k] bits from bit [n] on. *)
Lemma field_same_word a b n k :
  0 ≤ n → 0 ≤ k → n + k ≤ 32 → a ≡₃₂ b → Z.land (Z.shiftr a n) (Z.ones k) = Z.land (Z.shiftr b n) (Z.ones k).
Proof.
  intros Hn Hk Hnk H. rewrite same_word_bits in H. apply Z.bits_inj'. intros q Hq.
  rewrite !Z.land_spec, !Z.shiftr_spec by done. destruct (decide (q < k)).
  - by rewrite H by lia.
  - by rewrite Z.ones_spec_high, !andb_false_r by lia.
Qed.

(** ** [int] is closed under the operations that cannot overflow *)

Lemma is_int_shiftr z : is_int z ↔ Z.shiftr z 31 = 0 ∨ Z.shiftr z 31 = -1.
Proof.
  unfold is_int. rewrite Z.shiftr_div_pow2 by lia. change (2 ^ 31) with 2147483648. split.
  - intros Hz. destruct (decide (0 ≤ z)); [left; apply Z.div_small; lia|right]. dlia.
  - intros [H|H]; dlia.
Qed.

Ltac int_bits :=
  rewrite !is_int_shiftr;
  rewrite ?Z.shiftr_land, ?Z.shiftr_lor, ?Z.shiftr_lxor, <- ?Z.lnot_shiftr by lia;
  repeat (intros [-> | ->]); cbn; tauto.

Lemma land_int a b : is_int a → is_int b → is_int (Z.land a b).
Proof. int_bits. Qed.
Lemma lor_int a b : is_int a → is_int b → is_int (Z.lor a b).
Proof. int_bits. Qed.
Lemma lxor_int a b : is_int a → is_int b → is_int (Z.lxor a b).
Proof. int_bits. Qed.
Lemma lnot_int a : is_int a → is_int (Z.lnot a).
Proof. unfold is_int, Z.lnot. lia. Qed.
Lemma shiftr_int a n : 0 ≤ n → is_int a → is_int (Z.shiftr a n).
Proof.
  unfold is_int. intros Hn Ha. rewrite Z.shiftr_div_pow2 by done.
  assert (0 < 2 ^ n) by (apply Z.pow_pos_nonneg; lia).
  split; [apply Z.div_le_lower_bound; nia|apply Z.div_lt_upper_bound; nia].
Qed.

Create HintDb ints.
#[export] Hint Resolve s32_int land_int lor_int lxor_int lnot_int shiftr_int : ints.
