(* ===== verification/NachList.v ===== *)
(** * threads/list.cc: the singly linked list with a tail pointer

    The list is modelled at pointer level: a shared store of [ListElement]
    cells, a [List] object holding [first] and [last], and one operation per
    method, with [new] and [delete] on the store.  A NULL, dangling or freed
    cell that is dereferenced is a [MemFault].

    [isList h l ps xs] says that in the store [h] the object [l] represents
    the sequence [xs] of (item, key) pairs in the cells [ps].  The second half
    of the file shows that every operation refines its counterpart on plain
    sequences and leaves every other cell of the store alone, which is what
    entitles the other files to use plain lists for the ready list, the wait
    queues and the pending interrupts. *)

From S2P Require Import Prelude.

Section list_cc.
Context {A : Type}.

(** [void *]: NULL or a pointer to something. *)
Abbreviation voidp := (option A).

Record ListElement := mkElement {
  next : option nat;
  key : Z;
  item : voidp;
}.

Record List := mkList {
  first : option nat;
  last : option nat;
}.

Abbreviation store := (gmap nat ListElement).

(** [new ListElement(item, sortKey)] *)
Definition new_ListElement (h : store) (itemPtr : voidp) (sortKey : Z)
  : store * nat :=
  let p := fresh (dom h) in
  (<[p := mkElement None sortKey itemPtr]> h, p).

(** [List::List] *)
Definition new_List : List := mkList None None.

(** [p->next = q] *)
Definition set_next (h : store) (p : nat) (q : option nat) : Result store :=
  e ← deref (h !! p);
  mret (<[p := mkElement q (key e) (item e)]> h).

Definition IsEmpty (l : List) : bool := bool_decide (first l = None).

Definition Append (h : store) (l : List) (it : voidp) : Result (store * List) :=
  let '(h, element) := new_ListElement h it 0 in
  if IsEmpty l then mret (h, mkList (Some element) (Some element))
  else
    la ← deref (last l);
    h ← set_next h la (Some element);
    mret (h, mkList (first l) (Some element)).

Definition Prepend (h : store) (l : List) (it : voidp) : Result (store * List) :=
  let '(h, element) := new_ListElement h it 0 in
  if IsEmpty l then mret (h, mkList (Some element) (Some element))
  else
    h ← set_next h element (first l);
    mret (h, mkList (Some element) (last l)).

(** The [for] loop of [SortedInsert]: [true] when it inserted and returned,
    [false] when it ran off the end. *)
Fixpoint insertLoop (fuel : nat) (h : store) (ptr element : nat) (sortKey : Z)
  : Result (store * bool) :=
  match fuel with
  | O => Err OutOfFuel
  | S fuel =>
      p ← deref (h !! ptr);
      match next p with
      | None => mret (h, false)
      | Some nx =>
          n ← deref (h !! nx);
          if bool_decide (sortKey < key n)%Z then
            h ← set_next h element (next p);
            h ← set_next h ptr (Some element);
            mret (h, true)
          else insertLoop fuel h nx element sortKey
      end
  end.

Definition SortedInsert (h : store) (l : List) (it : voidp) (sortKey : Z)
  : Result (store * List) :=
  let '(h, element) := new_ListElement h it sortKey in
  match first l with
  | None => mret (h, mkList (Some element) (Some element))
  | Some f =>
      fe ← deref (h !! f);
      if bool_decide (sortKey < key fe)%Z then
        h ← set_next h element (first l);
        mret (h, mkList (Some element) (last l))
      else
        '(h, returned) ← insertLoop (size h) h f element sortKey;
        if returned : bool then mret (h, l)
        else
          la ← deref (last l);
          h ← set_next h la (Some element);
          mret (h, mkList (first l) (Some element))
  end.

(** [SortedRemove(keyPtr)]: the removed item (NULL when the list is empty)
    and the value stored through [keyPtr], if any. *)
Definition SortedRemove (h : store) (l : List)
  : Result (store * List * voidp * option Z) :=
  match first l with
  | None => mret (h, l, None, None)
  | Some f =>
      e ← deref (h !! f);
      let l' := if decide (first l = last l) then mkList None None
                else mkList (next e) (last l) in
      mret (delete f h, l', item e, Some (key e))
  end.

Definition Remove (h : store) (l : List) : Result (store * List * voidp) :=
  '(h, l, it, _) ← SortedRemove h l; mret (h, l, it).

(** [Mapcar(func)]: the items [func] is applied to, in order. *)
Fixpoint mapcarLoop (fuel : nat) (h : store) (ptr : option nat) : Result (list voidp) :=
  match fuel, ptr with
  | _, None => mret []
  | O, Some _ => Err OutOfFuel
  | S fuel, Some p =>
      e ← deref (h !! p);
      rest ← mapcarLoop fuel h (next e);
      mret (item e :: rest)
  end.

Definition Mapcar (h : store) (l : List) : Result (list voidp) :=
  mapcarLoop (size h) h (first l).

(** [List::~List]: [while (Remove() != NULL) ;] *)
Fixpoint destroyLoop (fuel : nat) (h : store) (l : List) : Result (store * List) :=
  match fuel with
  | O => Err OutOfFuel
  | S fuel =>
      '(h, l, it) ← Remove h l;
      match it with
      | None => mret (h, l)
      | Some _ => destroyLoop fuel h l
      end
  end.

Definition destroy_List (h : store) (l : List) : Result (store * List) :=
  destroyLoop (S (size h)) h l.

(** ** The abstract list: a sequence of (item, key) *)

Fixpoint sorted_insert (x : voidp * Z) (xs : list (voidp * Z)) : list (voidp * Z) :=
  match xs with
  | [] => [x]
  | y :: ys => if bool_decide (x.2 < y.2)%Z then x :: y :: ys
               else y :: sorted_insert x ys
  end.

(** ** Representation *)

(** The cells [ps], linked from [p] and ending in [q], hold [xs]. *)
Fixpoint lseg (h : store) (p : option nat) (ps : list nat)
    (xs : list (voidp * Z)) (q : option nat) : Prop :=
  match ps, xs with
  | [], [] => p = q
  | a :: ps, x :: xs =>
      p = Some a ∧ ∃ nx, h !! a = Some (mkElement nx x.2 x.1) ∧ lseg h nx ps xs q
  | _, _ => False
  end.

Definition isList (h : store) (l : List) (ps : list nat) (xs : list (voidp * Z)) : Prop :=
  lseg h (first l) ps xs None ∧ NoDup ps ∧ last l = list.last ps.

(** What an operation on one list may do to the store: cells outside the
    list are untouched, cells it gains were free, cells it loses are freed. *)
Definition store_frame (h : store) (ps : list nat) (h' : store) (ps' : list nat) : Prop :=
  (∀ p, p ∉ ps → p ∉ ps' → h' !! p = h !! p) ∧
  (∀ p, p ∈ ps' → p ∈ ps ∨ h !! p = None) ∧
  (∀ p, p ∈ ps → p ∈ ps' ∨ h' !! p = None).

(** ** Lemmas on segments *)

Lemma lseg_frame h h' p ps xs q :
  lseg h p ps xs q → (∀ a, a ∈ ps → h' !! a = h !! a) → lseg h' p ps xs q.
Proof.
  revert p xs. induction ps as [|a ps IH]; intros p [|x xs]; cbn; try done.
  intros (-> & nx & Ha & Hseg) Hf. split; [done|]. exists nx. split.
  - rewrite Hf; [done|set_solver].
  - apply IH; [done|set_solver].
Qed.

Lemma lseg_alloc h p ps xs q a : lseg h p ps xs q → a ∈ ps → is_Some (h !! a).
Proof.
  revert p xs. induction ps as [|b ps IH]; intros p [|x xs]; cbn; try set_solver.
Qed.

Lemma lseg_app h p ps1 xs1 ps2 xs2 q :
  length ps1 = length xs1 →
  lseg h p (ps1 ++ ps2) (xs1 ++ xs2) q ↔ ∃ m, lseg h p ps1 xs1 m ∧ lseg h m ps2 xs2 q.
Proof.
  revert p xs1. induction ps1 as [|a ps IH]; intros p [|x xs] Hl; simplify_eq/=.
  - naive_solver.
  - setoid_rewrite IH; [|done]. naive_solver.
Qed.

Lemma lseg_length h p ps xs q : lseg h p ps xs q → length ps = length xs.
Proof.
  revert p xs. induction ps as [|a ps IH]; intros p [|x xs]; cbn; try done.
  intros (-> & nx & _ & ?). f_equal. eauto.
Qed.

Lemma alloc_size (h : store) ps :
  NoDup ps → (∀ a, a ∈ ps → is_Some (h !! a)) → length ps ≤ size h.
Proof.
  intros Hnd Hal. rewrite <- (size_list_to_set (C := gset nat) ps Hnd), <- size_dom.
  apply subseteq_size. intros a Ha%elem_of_list_to_set. apply elem_of_dom; eauto.
Qed.

Lemma fresh_lookup (h : store) : h !! fresh (dom h) = None.
Proof. apply not_elem_of_dom, is_fresh. Qed.

(** Link the last cell [la] of a segment to [q]. *)
Lemma lseg_set_next h p ps xs la x q :
  lseg h p (ps ++ [la]) (xs ++ [x]) None → NoDup (ps ++ [la]) →
  length ps = length xs →
  ∃ h', set_next h la q = Ok h' ∧ lseg h' p (ps ++ [la]) (xs ++ [x]) q ∧
    (∀ a, a ≠ la → h' !! a = h !! a).
Proof.
  intros Hseg Hnd Hl. apply lseg_app in Hseg as (m & H1 & H2); [|done]. cbn in H2.
  destruct H2 as (-> & nx & Hla & ->).
  apply NoDup_app in Hnd as (_ & Hni & _).
  unfold set_next. rewrite Hla. cbn. eexists. split; [done|].
  split; [|intros; by rewrite lookup_insert_ne].
  apply lseg_app; [done|]. exists (Some la). split.
  - eapply lseg_frame; [done|]. intros a Ha. rewrite lookup_insert_ne; [done|].
    intros <-. apply (Hni la); set_solver.
  - cbn. split; [done|]. exists q. by rewrite lookup_insert_eq.
Qed.

(** ** Per-operation refinement lemmas *)

Lemma isList_new h : isList h new_List [] [].
Proof. repeat split; constructor. Qed.

Lemma isList_nil_iff h l ps xs : isList h l ps xs → (first l = None ↔ xs = []).
Proof.
  intros (Hseg & _). destruct ps, xs; cbn in Hseg; try done.
  destruct Hseg as (-> & _). naive_solver.
Qed.

Lemma IsEmpty_spec h l ps xs : isList h l ps xs → IsEmpty l = bool_decide (xs = []).
Proof. intros H. unfold IsEmpty. by rewrite (bool_decide_ext _ _ (isList_nil_iff _ _ _ _ H)). Qed.

(** A one-cell list in a store that gained the cell [e]. *)
Lemma isList_single h e it k :
  isList (<[e := mkElement None k it]> h) (mkList (Some e) (Some e)) [e] [(it, k)].
Proof.
  repeat split; cbn; [|apply NoDup_singleton]. exists None. by rewrite lookup_insert_eq.
Qed.

Lemma store_frame_new (h : store) e ps c :
  h !! e = None → store_frame h ps (<[e := c]> h) (e :: ps).
Proof.
  intros He. repeat split.
  - intros p Hp Hp'. rewrite lookup_insert_ne; [done|set_solver].
  - intros p [->|?]%elem_of_cons; auto.
  - set_solver.
Qed.

Lemma isList_alloc h l ps xs a : isList h l ps xs → a ∈ ps → is_Some (h !! a).
Proof. intros (Hseg & _). by eapply lseg_alloc. Qed.

Lemma isList_fresh h l ps xs : isList h l ps xs → fresh (dom h) ∉ ps.
Proof.
  intros Hl Hin. destruct (isList_alloc _ _ _ _ _ Hl Hin) as [e He].
  by rewrite fresh_lookup in He.
Qed.

(** A nonempty represented list ends in the cell [last] points to. *)
Lemma isList_snoc h l ps xs :
  isList h l ps xs → xs ≠ [] →
  ∃ ps' la xs' x, ps = ps' ++ [la] ∧ xs = xs' ++ [x] ∧ length ps' = length xs' ∧
    last l = Some la.
Proof.
  intros (Hseg & Hnd & Hlast) Hne. apply lseg_length in Hseg as Hlen.
  destruct xs as [|x xs' _] using rev_ind; [done|].
  destruct ps as [|la ps' _] using rev_ind; [by rewrite length_app in Hlen; cbn in *; lia|].
  rewrite !length_app in Hlen. exists ps', la, xs', x. repeat split; [cbn in *; lia|].
  by rewrite Hlast, last_snoc.
Qed.

(** [last->next = element; last = element], shared by [Append] and
    [SortedInsert]. *)
Lemma link_last h l ps xs e it k :
  isList h l ps xs → xs ≠ [] → e ∉ ps → h !! e = None →
  ∃ la h', last l = Some la ∧
    set_next (<[e := mkElement None k it]> h) la (Some e) = Ok h' ∧
    isList h' (mkList (first l) (Some e)) (ps ++ [e]) (xs ++ [(it, k)]) ∧
    store_frame h ps h' (ps ++ [e]).
Proof.
  intros Hl Hne He Hfree.
  destruct (isList_snoc _ _ _ _ Hl Hne) as (ps' & la & xs' & x & -> & -> & Hlen & Hla).
  destruct Hl as (Hseg & Hnd & _).
  assert (lseg (<[e := mkElement None k it]> h) (first l) (ps' ++ [la]) (xs' ++ [x]) None)
    as Hseg'.
  { eapply lseg_frame; [done|]. intros a Ha. rewrite lookup_insert_ne; set_solver. }
  destruct (lseg_set_next _ _ _ _ _ _ (Some e) Hseg' Hnd Hlen) as (h' & Hset & Hs & Hfr).
  assert (e ≠ la) by set_solver.
  exists la, h'. repeat split; [done|done|..]; cbn.
  - apply lseg_app; [by rewrite !length_app, Hlen|]. exists (Some e). split; [done|].
    cbn. split; [done|]. exists None. by rewrite Hfr, lookup_insert_eq by done.
  - apply NoDup_app. split; [done|]. split; [set_solver|apply NoDup_singleton].
  - by rewrite last_snoc.
  - intros p Hp Hp'. rewrite Hfr, lookup_insert_ne by set_solver. done.
  - intros p [?|?]%elem_of_app; set_solver.
  - set_solver.
Qed.

Lemma Append_refines h l ps xs it :
  isList h l ps xs →
  ∃ h' l' ps', Append h l it = Ok (h', l') ∧ isList h' l' ps' (xs ++ [(it, 0%Z)]) ∧
    store_frame h ps h' ps'.
Proof.
  intros Hl. pose proof (isList_fresh _ _ _ _ Hl). pose proof (fresh_lookup h).
  unfold Append. cbn. rewrite (IsEmpty_spec _ _ _ _ Hl). case_bool_decide as Hxs.
  - subst xs. assert (ps = []) as -> by (destruct Hl as (Hs & _); by destruct ps).
    do 3 eexists. split; [done|]. split; [apply isList_single|]. by apply store_frame_new.
  - destruct (link_last h l ps xs (fresh (dom h)) it 0 Hl) as (la & h' & -> & Hset & ? & ?);
      [done..|]. cbn. rewrite Hset. cbn. eauto 10.
Qed.

(** [element->next = first; first = element]. *)
Lemma link_first h l ps xs e it k :
  isList h l ps xs → xs ≠ [] → e ∉ ps → h !! e = None →
  ∃ h', set_next (<[e := mkElement None k it]> h) e (first l) = Ok h' ∧
    isList h' (mkList (Some e) (last l)) (e :: ps) ((it, k) :: xs) ∧
    store_frame h ps h' (e :: ps).
Proof.
  intros Hl Hne He Hfree.
  destruct (isList_snoc _ _ _ _ Hl Hne) as (ps' & la & xs' & x & -> & -> & _ & Hla).
  destruct Hl as (Hseg & Hnd & _).
  unfold set_next. rewrite lookup_insert_eq. cbn. eexists. split; [done|].
  rewrite insert_insert_eq. split; [|by apply store_frame_new]. repeat split; cbn.
  - exists (first l). rewrite lookup_insert_eq. split; [done|].
    eapply lseg_frame; [done|]. intros a Ha. rewrite lookup_insert_ne; set_solver.
  - by constructor.
  - by rewrite Hla, app_comm_cons, last_snoc.
Qed.

Lemma Prepend_refines h l ps xs it :
  isList h l ps xs →
  ∃ h' l' ps', Prepend h l it = Ok (h', l') ∧ isList h' l' ps' ((it, 0%Z) :: xs) ∧
    store_frame h ps h' ps'.
Proof.
  intros Hl. pose proof (isList_fresh _ _ _ _ Hl). pose proof (fresh_lookup h).
  unfold Prepend. cbn. rewrite (IsEmpty_spec _ _ _ _ Hl). case_bool_decide as Hxs.
  - subst xs. assert (ps = []) as -> by (destruct Hl as (Hs & _); by destruct ps).
    do 3 eexists. split; [done|]. split; [apply isList_single|]. by apply store_frame_new.
  - destruct (link_first h l ps xs (fresh (dom h)) it 0 Hl) as (h' & Hset & ? & ?);
      [done..|]. rewrite Hset. cbn. eauto 10.
Qed.

Lemma SortedRemove_refines h l ps xs :
  isList h l ps xs →
  ∃ h' l' ps', SortedRemove h l =
      Ok (h', l', head xs ≫= fst, snd <$> head xs) ∧
    isList h' l' ps' (tail xs) ∧ store_frame h ps h' ps'.
Proof.
  intros (Hseg & Hnd & Hlast). unfold SortedRemove.
  destruct ps as [|a ps], xs as [|[it k] xs]; cbn in Hseg; try done.
  - rewrite Hseg. exists h, l, []. split; [done|].
    split; [by repeat split; [cbn; rewrite Hseg|constructor|]|].
    repeat split; set_solver.
  - destruct Hseg as (-> & nx & Ha & Hseg). rewrite Ha. cbn.
    apply NoDup_cons in Hnd as [Ha' Hnd].
    do 3 eexists. split; [done|].
    assert (lseg (delete a h) nx ps xs None) as Hseg'.
    { eapply lseg_frame; [done|]. intros b Hb. rewrite lookup_delete_ne; set_solver. }
    split.
    + rewrite Hlast. destruct ps as [|b ps]; cbn.
      * rewrite decide_True by done. destruct xs; [|done]. apply isList_new.
      * rewrite last_cons_cons in *. rewrite decide_False.
        { repeat split; cbn; done. }
        intros Heq. symmetry in Heq. apply last_Some_elem_of in Heq. done.
    + repeat split; [|set_solver|].
      * intros p Hp Hp'. rewrite lookup_delete_ne; set_solver.
      * intros p [->|?]%elem_of_cons; [|auto]. right. apply lookup_delete_eq.
Qed.

Lemma Remove_refines h l ps xs :
  isList h l ps xs →
  ∃ h' l' ps', Remove h l = Ok (h', l', head xs ≫= fst) ∧
    isList h' l' ps' (tail xs) ∧ store_frame h ps h' ps'.
Proof.
  intros Hl. destruct (SortedRemove_refines _ _ _ _ Hl) as (h' & l' & ps' & E & ? & ?).
  unfold Remove. rewrite E. cbn. eauto 10.
Qed.

(** The insertion loop started at cell [a], whose key is at most [k]. *)
Lemma insertLoop_spec fuel h a ps x xs e it k :
  lseg h (Some a) (a :: ps) (x :: xs) None → NoDup (a :: ps) → e ∉ a :: ps →
  h !! e = Some (mkElement None k it) → length ps < fuel →
  (insertLoop fuel h a e k = Ok (h, false) ∧ sorted_insert (it, k) xs = xs ++ [(it, k)]) ∨
  (∃ h' ps', insertLoop fuel h a e k = Ok (h', true) ∧
     lseg h' (Some a) (a :: ps') (x :: sorted_insert (it, k) xs) None ∧
     ps' ≡ₚ e :: ps ∧ list.last (a :: ps') = list.last (a :: ps) ∧
     (∀ b, b ∉ e :: a :: ps → h' !! b = h !! b)).
Proof.
  revert a ps x xs. induction fuel as [|fuel IH]; intros a ps x xs Hseg Hnd He Hhe Hfuel; [lia|].
  cbn [insertLoop]. destruct Hseg as (_ & nx & Ha & Hseg). rewrite Ha. cbn.
  destruct ps as [|b ps], xs as [|y xs]; cbn in Hseg; try done.
  - subst nx. cbn. auto.
  - pose proof Hseg as (-> & nx' & Hb & Hseg'). rewrite Hb. cbn.
    apply NoDup_cons in Hnd as [Ha' Hnd].
    case_bool_decide as Hk.
    + right. unfold set_next. rewrite Hhe. cbn. rewrite lookup_insert_ne by set_solver.
      rewrite Ha. cbn. eexists _, (e :: b :: ps). split; [done|]. split; [|split; [done|split]].
      * split; [done|]. exists (Some e). rewrite lookup_insert_eq. split; [done|].
        split; [done|]. exists (Some b).
        rewrite lookup_insert_ne, lookup_insert_eq by set_solver. split; [done|].
        eapply (lseg_frame h); [by repeat (split || eexists)|].
        intros c Hc. rewrite !lookup_insert_ne; set_solver.
      * by rewrite !last_cons_cons.
      * intros c Hc. rewrite !lookup_insert_ne; set_solver.
    + destruct (IH b ps y xs) as [[E Es]|(h' & ps' & E & Hs & Hp & Hl & Hfr)];
        [done|done|set_solver|done|cbn in *; lia| |].
      * left. by rewrite E, Es.
      * right. exists h', (b :: ps'). split; [done|]. split; [|split; [|split]].
        -- split; [done|]. exists (Some b). split; [rewrite Hfr; set_solver|done].
        -- rewrite Hp. by constructor.
        -- by rewrite !last_cons_cons.
        -- intros c Hc. apply Hfr. set_solver.
Qed.

Lemma SortedInsert_refines h l ps xs it k :
  isList h l ps xs →
  ∃ h' l' ps', SortedInsert h l it k = Ok (h', l') ∧
    isList h' l' ps' (sorted_insert (it, k) xs) ∧ store_frame h ps h' ps'.
Proof.
  intros Hl. pose proof (isList_fresh _ _ _ _ Hl) as He. pose proof (fresh_lookup h) as Hfree.
  unfold SortedInsert. cbn. set (e := fresh (dom h)) in *.
  set (h0 := <[e := mkElement None k it]> h).
  destruct xs as [|x xs].
  { rewrite (proj2 (isList_nil_iff _ _ _ _ Hl)) by done.
    assert (ps = []) as -> by (destruct Hl as (Hs & _); by destruct ps).
    do 3 eexists. split; [done|]. split; [apply isList_single|]. by apply store_frame_new. }
  pose proof Hl as (Hseg & Hnd & Hlast).
  destruct ps as [|a ps]; [done|]. destruct (first l) as [f|] eqn:Hf; [|by destruct Hseg].
  assert (f = a) as -> by (destruct Hseg; congruence).
  assert (lseg h0 (Some a) (a :: ps) (x :: xs) None) as Hseg0.
  { eapply lseg_frame; [done|]. intros b Hb. unfold h0. rewrite lookup_insert_ne; set_solver. }
  pose proof Hseg0 as (_ & nx & Ha & _). rewrite Ha. cbn. case_bool_decide as Hk.
  - destruct (link_first h l (a :: ps) (x :: xs) e it k Hl) as (h' & Hset & ? & ?); [done..|].
    rewrite Hf in Hset. fold h0 in Hset. rewrite Hset. cbn. eauto 10.
  - destruct (insertLoop_spec (size h0) h0 a ps x xs e it k)
      as [[E Es]|(h' & ps' & E & Hs & Hp & Hla & Hfr)]; try done.
    + unfold h0. by rewrite lookup_insert_eq.
    + assert (length (e :: a :: ps) ≤ size h0); [|cbn in *; lia].
      apply alloc_size; [by constructor|]. intros b [->|Hb]%elem_of_cons.
      * unfold h0. rewrite lookup_insert_eq. eauto.
      * by eapply lseg_alloc.
    + rewrite E. cbn. rewrite Es.
      destruct (link_last h l (a :: ps) (x :: xs) e it k Hl) as (la & h' & -> & Hset & Hl' & ?);
        [done..|]. cbn. fold h0 in Hset. rewrite Hset. cbn. rewrite Hf in Hl'. eauto 10.
    + rewrite E. cbn. exists h', l, (a :: ps'). split; [done|]. split.
      * split; [by rewrite Hf|split; [|by rewrite Hla]].
        rewrite Hp. apply NoDup_cons in Hnd as [??]. apply not_elem_of_cons in He as [??].
        rewrite !NoDup_cons, not_elem_of_cons. auto.
      * repeat split.
        -- intros b Hb Hb'. rewrite Hp in Hb'. apply not_elem_of_cons in Hb as [??].
           apply not_elem_of_cons in Hb' as [_ [??]%not_elem_of_cons].
           rewrite Hfr by (rewrite !not_elem_of_cons; tauto).
           unfold h0. by rewrite lookup_insert_ne.
        -- intros b. rewrite Hp, !elem_of_cons. intros [->|[->|?]]; auto.
        -- intros b. rewrite Hp, !elem_of_cons. tauto.
Qed.

Lemma mapcarLoop_spec fuel h p ps xs :
  lseg h p ps xs None → length ps ≤ fuel → mapcarLoop fuel h p = Ok (xs.*1).
Proof.
  revert p ps xs. induction fuel as [|fuel IH]; intros p [|a ps] [|x xs] Hseg Hfuel;
    cbn in Hseg, Hfuel; try done; try lia; try (subst p; done).
  destruct Hseg as (-> & nx & Ha & Hseg). cbn. rewrite Ha. cbn.
  rewrite (IH nx ps xs) by (done || lia). done.
Qed.

Lemma Mapcar_refines h l ps xs : isList h l ps xs → Mapcar h l = Ok (xs.*1).
Proof.
  intros Hl. pose proof Hl as (Hseg & Hnd & _). eapply mapcarLoop_spec; [done|].
  apply alloc_size; [done|]. intros a. by apply (isList_alloc _ _ _ _ a Hl).
Qed.

Lemma store_frame_trans h0 ps0 h1 ps1 h2 ps2 :
  (∀ a, a ∈ ps1 → is_Some (h1 !! a)) →
  store_frame h0 ps0 h1 ps1 → store_frame h1 ps1 h2 ps2 → store_frame h0 ps0 h2 ps2.
Proof.
  intros Hal (F1 & F2 & F3) (G1 & G2 & G3). repeat split; intros p.
  - intros Hp Hp'. destruct (decide (p ∈ ps1)) as [Hin|Hin].
    + destruct (F2 p Hin) as [?| ->]; [done|]. by destruct (G3 p Hin).
    + by rewrite G1, F1.
  - intros Hp. destruct (G2 p Hp) as [Hin|Hn]; [auto|].
    destruct (decide (p ∈ ps0)) as [?|Hin0]; [auto|]. right.
    destruct (decide (p ∈ ps1)) as [Hin|Hin]; [|by rewrite <- F1].
    destruct (Hal p Hin). congruence.
  - intros Hp. destruct (decide (p ∈ ps2)) as [?|Hn2]; [auto|]. right.
    destruct (decide (p ∈ ps1)) as [Hin|Hin]; [by destruct (G3 p Hin)|].
    rewrite G1 by done. by destruct (F3 p Hp).
Qed.

Lemma store_frame_refl h ps : store_frame h ps h ps.
Proof. repeat split; auto. Qed.

Lemma destroyLoop_spec fuel h l ps xs :
  isList h l ps xs → Forall (λ x, is_Some x.1) xs → length xs < fuel →
  ∃ h' l', destroyLoop fuel h l = Ok (h', l') ∧ isList h' l' [] [] ∧ store_frame h ps h' [].
Proof.
  revert h l ps xs. induction fuel as [|fuel IH]; intros h l ps xs Hl Hall Hfuel; [lia|].
  destruct (Remove_refines _ _ _ _ Hl) as (h1 & l1 & ps1 & E & Hl1 & Hfr). cbn. rewrite E. cbn.
  destruct xs as [|x xs]; cbn in *.
  - exists h1, l1. destruct Hl1 as (Hs & Hnd & Hla). destruct ps1; [|done].
    repeat split; try done; apply Hfr.
  - apply Forall_cons in Hall as [[y ->] Hall].
    destruct (IH h1 l1 ps1 xs Hl1 Hall) as (h' & l' & -> & ? & Hfr'); [lia|].
    exists h', l'. split; [done|]. split; [done|].
    eapply store_frame_trans; [|done|done]. intros a. by eapply isList_alloc.
Qed.

(** ** Sequences of operations *)

Inductive list_op :=
| OpAppend (it : voidp)
| OpPrepend (it : voidp)
| OpSortedInsert (it : voidp) (k : Z)
| OpRemove
| OpSortedRemove
| OpIsEmpty
| OpMapcar.

Inductive list_out :=
| OutUnit
| OutItem (it : voidp)
| OutItemKey (it : voidp) (k : option Z)
| OutBool (b : bool)
| OutItems (its : list voidp).

(** One call on the pointer structure. *)
Definition exec_op (o : list_op) (h : store) (l : List) : Result (store * List * list_out) :=
  match o with
  | OpAppend it => '(h, l) ← Append h l it; mret (h, l, OutUnit)
  | OpPrepend it => '(h, l) ← Prepend h l it; mret (h, l, OutUnit)
  | OpSortedInsert it k => '(h, l) ← SortedInsert h l it k; mret (h, l, OutUnit)
  | OpRemove => '(h, l, it) ← Remove h l; mret (h, l, OutItem it)
  | OpSortedRemove => '(h, l, it, k) ← SortedRemove h l; mret (h, l, OutItemKey it k)
  | OpIsEmpty => mret (h, l, OutBool (IsEmpty l))
  | OpMapcar => its ← Mapcar h l; mret (h, l, OutItems its)
  end.

(** The same call on the abstract sequence. *)
Definition spec_op (o : list_op) (xs : list (voidp * Z)) : list (voidp * Z) * list_out :=
  match o with
  | OpAppend it => (xs ++ [(it, 0%Z)], OutUnit)
  | OpPrepend it => ((it, 0%Z) :: xs, OutUnit)
  | OpSortedInsert it k => (sorted_insert (it, k) xs, OutUnit)
  | OpRemove => (tail xs, OutItem (head xs ≫= fst))
  | OpSortedRemove => (tail xs, OutItemKey (head xs ≫= fst) (snd <$> head xs))
  | OpIsEmpty => (xs, OutBool (bool_decide (xs = [])))
  | OpMapcar => (xs, OutItems (xs.*1))
  end.

Fixpoint exec_ops (os : list list_op) (h : store) (l : List)
  : Result (store * List * list list_out) :=
  match os with
  | [] => mret (h, l, [])
  | o :: os =>
      '(h, l, out) ← exec_op o h l;
      '(h, l, outs) ← exec_ops os h l;
      mret (h, l, out :: outs)
  end.

Fixpoint spec_ops (os : list list_op) (xs : list (voidp * Z))
  : list (voidp * Z) * list list_out :=
  match os with
  | [] => (xs, [])
  | o :: os =>
      let '(xs, out) := spec_op o xs in
      let '(xs, outs) := spec_ops os xs in
      (xs, out :: outs)
  end.

Arguments Append : simpl never.
Arguments Prepend : simpl never.
Arguments SortedInsert : simpl never.
Arguments Remove : simpl never.
Arguments SortedRemove : simpl never.
Arguments Mapcar : simpl never.

Lemma exec_op_refines o h l ps xs :
  isList h l ps xs →
  ∃ h' l' ps', exec_op o h l = Ok (h', l', (spec_op o xs).2) ∧
    isList h' l' ps' (spec_op o xs).1 ∧ store_frame h ps h' ps'.
Proof.
  intros Hl. destruct o; cbn.
  - destruct (Append_refines _ _ _ _ it Hl) as (? & ? & ? & -> & ? & ?). cbn. eauto 10.
  - destruct (Prepend_refines _ _ _ _ it Hl) as (? & ? & ? & -> & ? & ?). cbn. eauto 10.
  - destruct (SortedInsert_refines _ _ _ _ it k Hl) as (? & ? & ? & -> & ? & ?).
    cbn. eauto 10.
  - destruct (Remove_refines _ _ _ _ Hl) as (? & ? & ? & -> & ? & ?). cbn. eauto 10.
  - destruct (SortedRemove_refines _ _ _ _ Hl) as (? & ? & ? & -> & ? & ?). cbn. eauto 10.
  - rewrite (IsEmpty_spec _ _ _ _ Hl). eauto 10 using store_frame_refl.
  - rewrite (Mapcar_refines _ _ _ _ Hl). cbn. eauto 10 using store_frame_refl.
Qed.

Lemma exec_ops_refines os h l ps xs :
  isList h l ps xs →
  ∃ h' l' ps', exec_ops os h l = Ok (h', l', (spec_ops os xs).2) ∧
    isList h' l' ps' (spec_ops os xs).1 ∧ store_frame h ps h' ps'.
Proof.
  revert h l ps xs. induction os as [|o os IH]; intros h l ps xs Hl; cbn.
  { eauto 10 using store_frame_refl. }
  destruct (exec_op_refines o _ _ _ _ Hl) as (h1 & l1 & ps1 & -> & Hl1 & Hf1). cbn.
  destruct (spec_op o xs) as [xs1 out1]; cbn in *.
  destruct (IH _ _ _ _ Hl1) as (h2 & l2 & ps2 & -> & Hl2 & Hf2). cbn.
  destruct (spec_ops os xs1) as [xs2 outs]; cbn in *.
  exists h2, l2, ps2. split; [done|]. split; [done|].
  eapply store_frame_trans; [|done|done]. intros a. by eapply isList_alloc.
Qed.

(** ** Sorted lists *)

Abbreviation keys_le := (λ x y : voidp * Z, (x.2 ≤ y.2)%Z).

Lemma sorted_insert_perm x xs : sorted_insert x xs ≡ₚ x :: xs.
Proof.
  induction xs as [|y ys IH]; cbn; [done|]. case_bool_decide; [done|].
  rewrite IH. apply Permutation_swap.
Qed.

Lemma sorted_insert_Sorted x xs :
  StronglySorted keys_le xs → StronglySorted keys_le (sorted_insert x xs).
Proof.
  induction 1 as [|y ys Hs IH Hall]; cbn; [by repeat constructor|].
  case_bool_decide as Hk.
  - constructor; [by constructor|]. constructor; [lia|].
    eapply Forall_impl; [done|]. cbn. lia.
  - constructor; [done|]. rewrite sorted_insert_perm. constructor; [lia|done].
Qed.

(** Items with equal keys leave in the order they were inserted. *)
Lemma sorted_insert_stable x xs k :
  StronglySorted keys_le xs →
  filter (λ y, y.2 = k) (sorted_insert x xs) =
  filter (λ y, y.2 = k) xs ++ filter (λ y, y.2 = k) [x].
Proof.
  induction 1 as [|y ys Hs IH Hall]; cbn [sorted_insert]; [done|].
  case_bool_decide as Hk.
  - rewrite (filter_cons _ x (y :: ys)), (filter_cons _ x []), filter_nil.
    case_decide as Hx; [|by rewrite app_nil_r].
    assert (filter (λ z, z.2 = k) (y :: ys) = []) as ->; [|done].
    apply filter_none. constructor; [lia|].
    eapply Forall_impl; [done|]. cbn. lia.
  - rewrite !(filter_cons _ y), IH. by case_decide.
Qed.
End list_cc.

(** ** Properties *)

(** C27: Refinement of list.cc by sequences.  In any store, any sequence of
    calls on a freshly constructed [List] runs without a memory fault and
    without exhausting a loop bound, returns exactly what the same calls
    return on a plain sequence (FIFO for Append/Remove, ordered for
    SortedInsert/SortedRemove, NULL on an empty list), ends in a well formed
    structure representing that sequence, and neither touches nor leaks a
    cell of the store that the list does not own. *)
Theorem list_refines_sequence {A} (os : list (list_op (A := A))) (h : gmap nat (ListElement (A := A))) :
  ∃ h' l' ps, exec_ops os h new_List = Ok (h', l', (spec_ops os []).2) ∧
    isList h' l' ps (spec_ops os []).1 ∧ store_frame h [] h' ps.
Proof. apply exec_ops_refines, isList_new. Qed.

(** [SortedInsert] on a list sorted by key keeps it sorted, adds exactly
    the new item, and is stable: among equal keys the new item comes last. *)
Theorem SortedInsert_sorted_stable {A} (h : gmap nat (ListElement (A := A))) l ps xs it k :
  isList h l ps xs → StronglySorted (λ x y, (x.2 ≤ y.2)%Z) xs →
  ∃ h' l' ps' xs', SortedInsert h l it k = Ok (h', l') ∧ isList h' l' ps' xs' ∧
    StronglySorted (λ x y, (x.2 ≤ y.2)%Z) xs' ∧ xs' ≡ₚ (it, k) :: xs ∧
    (∀ k', filter (λ y, y.2 = k') xs' =
       filter (λ y, y.2 = k') xs ++ filter (λ y, y.2 = k') [(it, k)]).
Proof.
  intros Hl Hs. destruct (SortedInsert_refines h l ps xs it k Hl) as (h' & l' & ps' & E & ? & _).
  exists h', l', ps', (sorted_insert (it, k) xs). split_and!; auto.
  - by apply sorted_insert_Sorted.
  - apply sorted_insert_perm.
  - intros k'. by apply sorted_insert_stable.
Qed.

(** [List::~List] frees every cell of the list and nothing else, provided
    no NULL item was ever put on the list. *)
Theorem destroy_List_frees {A} (h : gmap nat (ListElement (A := A))) l ps xs :
  isList h l ps xs → Forall (λ x, is_Some x.1) xs →
  ∃ h' l', destroy_List h l = Ok (h', l') ∧ isList h' l' [] [] ∧
    (∀ p, p ∈ ps → h' !! p = None) ∧ (∀ p, p ∉ ps → h' !! p = h !! p).
Proof.
  intros Hl Hall. destruct (destroyLoop_spec (S (size h)) h l ps xs Hl Hall)
    as (h' & l' & E & ? & F1 & _ & F3).
  - pose proof Hl as (Hseg & Hnd & _). rewrite <- (lseg_length _ _ _ _ _ Hseg).
    enough (length ps ≤ size h) by lia. apply alloc_size; [done|].
    intros a. by eapply isList_alloc.
  - exists h', l'. split_and!; auto.
    + intros p Hp. destruct (F3 p Hp) as [[]%elem_of_nil|]; done.
    + intros p Hp. apply F1; [done|apply not_elem_of_nil].
Qed.

(** The hypothesis on NULL items is needed: a NULL item stops the loop and the
    cells behind it stay allocated. *)
Example destroy_List_null_item_leaks :
  ∃ (h h' : gmap nat (ListElement (A := nat))) l l',
    (exec_ops [OpAppend None; OpAppend (Some 1)] ∅ new_List = Ok (h, l, [OutUnit; OutUnit])) ∧
    destroy_List h l = Ok (h', l') ∧ size h' = 1.
Proof. do 4 eexists. split; [vm_compute; reflexivity|]. split; vm_compute; reflexivity. Qed.

(** ** Witnesses *)

Definition example_store : gmap nat (ListElement (A := nat)) :=
  {[ 0 := mkElement (Some 1) 3 (Some 7); 1 := mkElement None 5 (Some 8) ]}.

Lemma example_isList : isList example_store (mkList (Some 0) (Some 1)) [0; 1] [(Some 7, 3%Z); (Some 8, 5%Z)].
Proof.
  split_and!; [|repeat constructor; set_solver|done].
  split; [done|]. exists (Some 1). split; [done|]. split; [done|]. by exists None.
Defined.

Lemma SortedInsert_sorted_stable_witness :
  ∃ h' l' ps' xs', SortedInsert example_store (mkList (Some 0) (Some 1)) (Some 9) 5 = Ok (h', l') ∧
    isList h' l' ps' xs' ∧ StronglySorted (λ x y, (x.2 ≤ y.2)%Z) xs' ∧
    xs' ≡ₚ (Some 9, 5%Z) :: [(Some 7, 3%Z); (Some 8, 5%Z)] ∧
    (∀ k', filter (λ y, y.2 = k') xs' =
       filter (λ y, y.2 = k') [(Some 7, 3%Z); (Some 8, 5%Z)]
       ++ filter (λ y, y.2 = k') [(Some 9, 5%Z)]).
Proof.
  apply (SortedInsert_sorted_stable example_store _ [0; 1]); [apply example_isList|].
  repeat constructor; cbn; lia.
Defined.

Lemma destroy_List_frees_witness :
  ∃ h' l', destroy_List example_store (mkList (Some 0) (Some 1)) = Ok (h', l') ∧
    isList h' l' [] [] ∧
    (∀ p, p ∈ [0; 1] → h' !! p = None) ∧ (∀ p, p ∉ [0; 1] → h' !! p = example_store !! p).
Proof.
  apply (destroy_List_frees example_store _ [0; 1] _ example_isList).
  repeat constructor; eauto.
Defined.
