(* ===== verification/Bitmap.v ===== *)
(** * userprog/bitmap.cc: an array of bits in 32-bit words

    The object is modelled with its machine representation: [numBits],
    [numWords] and the array of unsigned words; every index goes through the
    source's [/ BitsInWord], [% BitsInWord], shift and mask.  [abs] is the
    abstract map: one boolean per bit.  The lemmas show that each operation
    implements its counterpart on [abs]. *)

From S2P Require Import Prelude.

Local Open Scope Z_scope.

Definition BitsInByte : Z := 8.
Definition BitsInWord : Z := 32.

Record BitMap := mkBitMap {
  numBits : Z;
  numWords : Z;
  map : list Z;
}.

(** [1 << (which % BitsInWord)], converted to unsigned. *)
Definition bitmask (which : Z) : Z := u32 (Z.shiftl 1 (which `rem` BitsInWord)).

Definition wordIndex (which : Z) : nat := Z.to_nat (which `quot` BitsInWord).

Definition in_range (b : BitMap) (which : Z) : bool :=
  bool_decide (0 ≤ which) && bool_decide (which < numBits b).

Definition Mark (b : BitMap) (which : Z) : Result BitMap :=
  ASSERT (in_range b which);;
  w ← deref (map b !! wordIndex which);
  mret (mkBitMap (numBits b) (numWords b)
    (<[wordIndex which := Z.lor w (bitmask which)]> (map b))).

Definition Clear (b : BitMap) (which : Z) : Result BitMap :=
  ASSERT (in_range b which);;
  w ← deref (map b !! wordIndex which);
  mret (mkBitMap (numBits b) (numWords b)
    (<[wordIndex which := Z.land w (u32 (Z.lnot (bitmask which)))]> (map b))).

Definition Test (b : BitMap) (which : Z) : Result bool :=
  ASSERT (in_range b which);;
  w ← deref (map b !! wordIndex which);
  mret (bool_decide (Z.land w (bitmask which) ≠ 0)).

(** The loop of the constructor: [Clear(i)] for [i], [i + 1], ... *)
Fixpoint clearLoop (n : nat) (i : Z) (b : BitMap) : Result BitMap :=
  match n with
  | O => mret b
  | S n => b ← Clear b i; clearLoop n (i + 1) b
  end.

(** [BitMap::BitMap(nitems)]; [garbage] is what [new unsigned int[numWords]]
    finds in memory. *)
Definition new_BitMap (garbage : nat → Z) (nitems : Z) : Result BitMap :=
  let words := divRoundUp nitems BitsInWord in
  clearLoop (Z.to_nat nitems) 0
    (mkBitMap nitems words ((λ i, u32 (garbage i)) <$> seq 0 (Z.to_nat words))).

(** [for (int i = 0; i < numBits; i++) if (!Test(i)) { Mark(i); return i; }] *)
Fixpoint findLoop (n : nat) (i : Z) (b : BitMap) : Result (BitMap * Z) :=
  match n with
  | O => mret (b, -1)
  | S n =>
      t ← Test b i;
      if t : bool then findLoop n (i + 1) b
      else b ← Mark b i; mret (b, i)
  end.

Definition Find (b : BitMap) : Result (BitMap * Z) :=
  findLoop (Z.to_nat (numBits b)) 0 b.

Fixpoint numClearLoop (n : nat) (i count : Z) (b : BitMap) : Result Z :=
  match n with
  | O => mret count
  | S n => t ← Test b i; numClearLoop n (i + 1) (if t : bool then count else count + 1) b
  end.

Definition NumClear (b : BitMap) : Result Z :=
  numClearLoop (Z.to_nat (numBits b)) 0 0 b.

(** [BitMap::Print]: the numbers of the set bits, in order. *)
Fixpoint printLoop (n : nat) (i : Z) (b : BitMap) : Result (list Z) :=
  match n with
  | O => mret []
  | S n =>
      t ← Test b i;
      rest ← printLoop n (i + 1) b;
      mret (if t : bool then i :: rest else rest)
  end.

Definition Print (b : BitMap) : Result (list Z) :=
  printLoop (Z.to_nat (numBits b)) 0 b.

(** ** Well-formedness and the abstract map *)

Definition wf (b : BitMap) : Prop :=
  0 ≤ numBits b ∧ numWords b = divRoundUp (numBits b) BitsInWord ∧
  Z.of_nat (length (map b)) = numWords b ∧
  Forall (λ w, 0 ≤ w < 2 ^ 32) (map b).

Definition getbit (b : BitMap) (i : nat) : bool :=
  Z.testbit (nth (i / 32) (map b) 0) (Z.of_nat (i mod 32)%nat).

(** The bits of the map, lowest number first. *)
Definition abs (b : BitMap) : list bool := getbit b <$> seq 0 (Z.to_nat (numBits b)).

(** ** Bit-level lemmas *)

Lemma bitmask_spec (i : nat) k :
  0 ≤ k → Z.testbit (bitmask (Z.of_nat i)) k = bool_decide (k = Z.of_nat (i mod 32)%nat).
Proof.
  intros Hk. unfold bitmask, BitsInWord, u32.
  rewrite Z.rem_mod_nonneg by lia.
  replace (Z.of_nat i `mod` 32) with (Z.of_nat (i mod 32)%nat) by dlia.
  assert (i mod 32 < 32)%nat by (apply Nat.mod_upper_bound; lia).
  destruct (decide (k < 32)).
  - rewrite Z.mod_pow2_bits_low, Z.shiftl_spec by lia.
    destruct (decide (k = Z.of_nat (i mod 32)%nat)) as [->|Hne].
    + rewrite Z.sub_diag. by rewrite bool_decide_true.
    + rewrite bool_decide_false by done.
      destruct (decide (k < Z.of_nat (i mod 32)%nat)); [by apply Z.testbit_neg_r; lia|].
      apply (Z.bits_above_log2 1); [lia|]. change (Z.log2 1) with 0. lia.
  - rewrite Z.mod_pow2_bits_high, bool_decide_false by lia. done.
Qed.

Lemma wordIndex_nat (i : nat) : wordIndex (Z.of_nat i) = (i / 32)%nat.
Proof. unfold wordIndex, BitsInWord. rewrite Z.quot_div_nonneg by lia. dlia. Qed.

Lemma in_range_nat b (i : nat) :
  in_range b (Z.of_nat i) = bool_decide (i < Z.to_nat (numBits b))%nat.
Proof.
  unfold in_range. rewrite (bool_decide_true (0 ≤ Z.of_nat i)) by lia.
  apply bool_decide_ext. lia.
Qed.

Lemma wf_word b (i : nat) :
  wf b → (i < Z.to_nat (numBits b))%nat →
  ∃ w, map b !! (i / 32)%nat = Some w ∧ nth (i / 32) (map b) 0 = w ∧ 0 ≤ w < 2 ^ 32.
Proof.
  intros (Hn & Hw & Hl & Hall) Hi.
  pose proof (divRoundUp_spec (numBits b) BitsInWord Hn ltac:(done)) as Hd.
  unfold BitsInWord in *.
  destruct (lookup_lt_is_Some_2 (map b) (i / 32)%nat) as [w Hwd]; [dlia|].
  exists w. split; [done|]. split; [by erewrite nth_lookup_Some|].
  by eapply Forall_lookup_1 in Hall.
Qed.

Lemma land_mask_nonzero w (i : nat) :
  bool_decide (Z.land w (bitmask (Z.of_nat i)) ≠ 0) = Z.testbit w (Z.of_nat (i mod 32)%nat).
Proof.
  destruct (Z.testbit w _) eqn:E.
  - apply bool_decide_true. intros H0.
    assert (Z.testbit (Z.land w (bitmask (Z.of_nat i))) (Z.of_nat (i mod 32)%nat) = false)
      as Hb by (rewrite H0; apply Z.bits_0).
    rewrite Z.land_spec, E, bitmask_spec, bool_decide_true in Hb by lia. done.
  - apply bool_decide_false. intros []. apply Z.bits_inj_0. intros k.
    destruct (decide (0 ≤ k)); [|by apply Z.testbit_neg_r; lia].
    rewrite Z.land_spec, bitmask_spec by done. case_bool_decide; [subst|by rewrite andb_false_r].
    by rewrite E.
Qed.

Lemma Test_spec b (i : nat) :
  wf b → (i < Z.to_nat (numBits b))%nat → Test b (Z.of_nat i) = Ok (getbit b i).
Proof.
  intros Hwf Hi. destruct (wf_word b i Hwf Hi) as (w & Hw & Hn & _).
  unfold Test, getbit. rewrite in_range_nat, bool_decide_true, wordIndex_nat, Hw by done. rcbn.
  by rewrite land_mask_nonzero, Hn.
Qed.

(** ** Behaviour of each operation *)

Lemma getbit_insert b (i j : nat) w :
  wf b → (i < Z.to_nat (numBits b))%nat → 
  getbit (mkBitMap (numBits b) (numWords b) (<[(i / 32)%nat := w]> (map b))) j =
  if decide (i / 32 = j / 32)%nat then Z.testbit w (Z.of_nat (j mod 32)%nat) else getbit b j.
Proof.
  intros Hwf Hi. destruct (wf_word b i Hwf Hi) as (w0 & Hw & _). unfold getbit; cbn [map].
  rewrite !nth_lookup. case_decide as Hij.
  - rewrite <- Hij, list_lookup_insert_eq; [done|]. by eapply lookup_lt_Some.
  - by rewrite list_lookup_insert_ne.
Qed.

Lemma wf_insert b (k : nat) w :
  wf b → 0 ≤ w < 2 ^ 32 →
  wf (mkBitMap (numBits b) (numWords b) (<[k := w]> (map b))).
Proof.
  intros (Hn & Hw & Hl & Hall) Hr. split_and!; cbn; try done.
  - by rewrite length_insert.
  - by apply Forall_insert.
Qed.

Lemma eq_div_mod (i j : nat) : (i / 32 = j / 32 → i mod 32 = j mod 32 → i = j)%nat.
Proof. dlia. Qed.

Lemma land_range a m : 0 ≤ a < 2 ^ 32 → 0 ≤ m → 0 ≤ Z.land a m < 2 ^ 32.
Proof.
  intros Ha Hm. split; [apply Z.land_nonneg; lia|].
  destruct (decide (Z.land a m = 0)); [lia|].
  assert (0 ≤ Z.land a m) by (apply Z.land_nonneg; lia).
  apply Z.log2_lt_pow2; [lia|]. pose proof (Z.log2_land a m ltac:(lia) Hm).
  destruct (decide (a = 0)) as [->|]; [by rewrite Z.land_0_l in *|].
  assert (Z.log2 a < 32) by (apply Z.log2_lt_pow2; lia). lia.
Qed.

Lemma lor_range a m : 0 ≤ a < 2 ^ 32 → 0 ≤ m < 2 ^ 32 → 0 ≤ Z.lor a m < 2 ^ 32.
Proof.
  intros Ha Hm. assert (0 ≤ Z.lor a m) by (apply Z.lor_nonneg; lia). split; [done|].
  destruct (decide (Z.lor a m = 0)); [lia|].
  apply Z.log2_lt_pow2; [lia|]. rewrite Z.log2_lor by lia.
  assert (∀ x, 0 ≤ x < 2 ^ 32 → Z.log2 x < 32) as Hlog.
  { intros x Hx. destruct (decide (x = 0)) as [->|]; [done|]. apply Z.log2_lt_pow2; lia. }
  pose proof (Hlog a Ha). pose proof (Hlog m Hm). lia.
Qed.

Lemma Mark_spec b (i : nat) :
  wf b → (i < Z.to_nat (numBits b))%nat →
  ∃ b', Mark b (Z.of_nat i) = Ok b' ∧ wf b' ∧ numBits b' = numBits b ∧
    ∀ j, getbit b' j = if decide (i = j) then true else getbit b j.
Proof.
  intros Hwf Hi. destruct (wf_word b i Hwf Hi) as (w & Hw & Hn & Hr).
  unfold Mark. rewrite in_range_nat, bool_decide_true, wordIndex_nat, Hw by done. rcbn.
  eexists. split; [done|]. split; [|split; [done|]].
  - apply wf_insert; [done|]. apply lor_range; [done|]. apply u32_range.
  - intros j. rewrite getbit_insert by done. case_decide as Hd.
    + rewrite Z.lor_spec, bitmask_spec by lia. unfold getbit. rewrite <- Hd, Hn.
      case_bool_decide as Hm; case_decide; try (exfalso; naive_solver lia);
        [by rewrite orb_true_r| |by rewrite orb_false_r].
      exfalso. eauto using eq_div_mod with lia.
    + rewrite decide_False; [done|]. intros ->. done.
Qed.

Lemma Clear_spec b (i : nat) :
  wf b → (i < Z.to_nat (numBits b))%nat →
  ∃ b', Clear b (Z.of_nat i) = Ok b' ∧ wf b' ∧ numBits b' = numBits b ∧
    ∀ j, getbit b' j = if decide (i = j) then false else getbit b j.
Proof.
  intros Hwf Hi. destruct (wf_word b i Hwf Hi) as (w & Hw & Hn & Hr).
  unfold Clear. rewrite in_range_nat, bool_decide_true, wordIndex_nat, Hw by done. rcbn.
  eexists. split; [done|]. split; [|split; [done|]].
  - apply wf_insert; [done|]. apply land_range; [done|]. apply u32_range.
  - intros j. rewrite getbit_insert by done. case_decide as Hd.
    + assert (j mod 32 < 32)%nat by (apply Nat.mod_upper_bound; lia).
      rewrite Z.land_spec. unfold u32 at 1.
      rewrite Z.mod_pow2_bits_low, Z.lnot_spec, bitmask_spec by lia.
      unfold getbit. rewrite <- Hd, Hn.
      case_bool_decide as Hm; case_decide; [by rewrite andb_false_r| | |by rewrite andb_true_r].
      * exfalso. eauto using eq_div_mod with lia.
      * subst j. done.
    + rewrite decide_False; [done|]. intros ->. done.
Qed.

(** ** The operations on the abstract map *)

Lemma length_abs b : length (abs b) = Z.to_nat (numBits b).
Proof. unfold abs. by rewrite length_fmap, length_seq. Qed.

Lemma abs_lookup b (i : nat) :
  (i < Z.to_nat (numBits b))%nat → abs b !! i = Some (getbit b i).
Proof. intros Hi. unfold abs. by rewrite list_lookup_fmap, lookup_seq_lt. Qed.

Lemma abs_update b b' (i : nat) v :
  (i < Z.to_nat (numBits b))%nat → numBits b' = numBits b →
  (∀ j, getbit b' j = if decide (i = j) then v else getbit b j) →
  abs b' = <[i := v]> (abs b).
Proof.
  intros Hi Hn Hg. apply list_eq_same_length with (length (abs b));
    [by rewrite length_insert|by rewrite !length_abs, Hn|].
  intros j x y Hj Hx Hy. rewrite length_abs in Hj.
  rewrite abs_lookup in Hx by (rewrite Hn; done). injection Hx as <-. rewrite Hg.
  case_decide; subst.
  - rewrite list_lookup_insert_eq in Hy by (by rewrite length_abs). congruence.
  - rewrite list_lookup_insert_ne, abs_lookup in Hy by done. congruence.
Qed.

Lemma Mark_abs b (i : nat) :
  wf b → (i < length (abs b))%nat →
  ∃ b', Mark b (Z.of_nat i) = Ok b' ∧ wf b' ∧ numBits b' = numBits b ∧
    abs b' = <[i := true]> (abs b).
Proof.
  intros Hwf Hi. rewrite length_abs in Hi. destruct (Mark_spec b i Hwf Hi) as (b' & ? & ? & ? & ?).
  exists b'. split_and!; auto. by apply abs_update.
Qed.

Lemma Clear_abs b (i : nat) :
  wf b → (i < length (abs b))%nat →
  ∃ b', Clear b (Z.of_nat i) = Ok b' ∧ wf b' ∧ numBits b' = numBits b ∧
    abs b' = <[i := false]> (abs b).
Proof.
  intros Hwf Hi. rewrite length_abs in Hi. destruct (Clear_spec b i Hwf Hi) as (b' & ? & ? & ? & ?).
  exists b'. split_and!; auto. by apply abs_update.
Qed.

Lemma Test_abs b (i : nat) v : wf b → abs b !! i = Some v → Test b (Z.of_nat i) = Ok v.
Proof.
  intros Hwf Hv. pose proof (lookup_lt_Some _ _ _ Hv) as Hi. rewrite length_abs in Hi.
  rewrite abs_lookup in Hv by done. injection Hv as <-. by apply Test_spec.
Qed.

(** Out of range, every operation trips its [ASSERT]. *)
Lemma out_of_range_asserts b which :
  in_range b which = false →
  Mark b which = Err AssertFailed ∧ Clear b which = Err AssertFailed ∧
  Test b which = Err AssertFailed.
Proof. intros H. unfold Mark, Clear, Test. by rewrite H. Qed.

Lemma findLoop_spec n (i : nat) b :
  wf b → (i + n = Z.to_nat (numBits b))%nat →
  match list_find (λ x, x = false) (getbit b <$> seq i n) with
  | Some (k, _) => findLoop n (Z.of_nat i) b =
      (b' ← Mark b (Z.of_nat (i + k)); mret (b', Z.of_nat (i + k)))
  | None => findLoop n (Z.of_nat i) b = Ok (b, -1)
  end.
Proof.
  intros Hwf. revert i. induction n as [|n IH]; intros i Hn; [done|].
  cbn [seq fmap list_fmap list_find findLoop]. rewrite Test_spec by (done || lia). rcbn.
  destruct (getbit b i) eqn:E; [rewrite decide_False by done|rewrite decide_True by done].
  - specialize (IH (S i) ltac:(lia)). replace (Z.of_nat i + 1) with (Z.of_nat (S i)) by lia.
    destruct (list_find _ _) as [[k x]|]; [|done].
    cbn [fmap option_fmap option_map prod_map fst]. rewrite IH.
    by replace (i + S k)%nat with (S i + k)%nat by lia.
  - by rewrite Nat.add_0_r.
Qed.

Lemma Find_abs b :
  wf b →
  match list_find (λ x, x = false) (abs b) with
  | Some (i, _) => ∃ b', Find b = Ok (b', Z.of_nat i) ∧ wf b' ∧ numBits b' = numBits b ∧
      abs b' = <[i := true]> (abs b)
  | None => Find b = Ok (b, -1)
  end.
Proof.
  intros Hwf. pose proof (findLoop_spec (Z.to_nat (numBits b)) 0 b Hwf eq_refl) as HF.
  unfold Find, abs in *. destruct (list_find _ _) as [[i x]|] eqn:E; [|done].
  change (Z.of_nat 0) with 0 in HF. rewrite HF. cbn [Nat.add].
  apply list_find_Some in E as (Hi & _). apply lookup_lt_Some in Hi.
  destruct (Mark_abs b i Hwf Hi) as (b' & -> & ? & ? & ?). rcbn. eauto.
Qed.

Lemma numClearLoop_spec n (i : nat) c b :
  wf b → (i + n = Z.to_nat (numBits b))%nat →
  numClearLoop n (Z.of_nat i) c b =
  Ok (c + Z.of_nat (length (filter (λ x, x = false) (getbit b <$> seq i n)))).
Proof.
  intros Hwf. revert i c. induction n as [|n IH]; intros i c Hn; [cbn; f_equal; lia|].
  cbn [seq fmap list_fmap numClearLoop]. rewrite Test_spec by (done || lia). rcbn.
  replace (Z.of_nat i + 1) with (Z.of_nat (S i)) by lia. rewrite IH by lia.
  rewrite filter_cons. destruct (getbit b i); case_decide; try done. cbn [length]. f_equal. lia.
Qed.

Lemma NumClear_abs b :
  wf b → NumClear b = Ok (Z.of_nat (length (filter (λ x, x = false) (abs b)))).
Proof. intros Hwf. unfold NumClear. by rewrite (numClearLoop_spec _ 0%nat 0). Qed.

Lemma printLoop_spec n (i : nat) b :
  wf b → (i + n = Z.to_nat (numBits b))%nat →
  printLoop n (Z.of_nat i) b = Ok (Z.of_nat <$> filter (λ j, getbit b j = true) (seq i n)).
Proof.
  intros Hwf. revert i. induction n as [|n IH]; intros i Hn; [done|].
  cbn [seq printLoop]. rewrite Test_spec by (done || lia). rcbn.
  replace (Z.of_nat i + 1) with (Z.of_nat (S i)) by lia. rewrite IH by lia. rcbn.
  rewrite filter_cons. destruct (getbit b i) eqn:E; case_decide; try congruence; done.
Qed.

Lemma clearLoop_spec n (i : nat) b :
  wf b → (i + n = Z.to_nat (numBits b))%nat →
  ∃ b', clearLoop n (Z.of_nat i) b = Ok b' ∧ wf b' ∧ numBits b' = numBits b ∧
    ∀ j, getbit b' j = if decide (i ≤ j < i + n)%nat then false else getbit b j.
Proof.
  revert i b. induction n as [|n IH]; intros i b Hwf Hn.
  - exists b. split_and!; [done..|]. intros j. rewrite decide_False; [done|lia].
  - cbn [clearLoop]. destruct (Clear_spec b i Hwf) as (b1 & -> & Hwf1 & Hn1 & Hg1); [lia|]. rcbn.
    replace (Z.of_nat i + 1) with (Z.of_nat (S i)) by lia.
    destruct (IH (S i) b1 Hwf1) as (b' & -> & ? & ? & Hg); [rewrite Hn1; lia|].
    exists b'. split_and!; [done|done|congruence|]. intros j. rewrite Hg, Hg1.
    repeat case_decide; try done; lia.
Qed.

Lemma new_BitMap_abs garbage nitems :
  0 ≤ nitems →
  ∃ b, new_BitMap garbage nitems = Ok b ∧ wf b ∧ numBits b = nitems ∧
    abs b = replicate (Z.to_nat nitems) false.
Proof.
  intros Hn. unfold new_BitMap. set (b0 := mkBitMap _ _ _).
  assert (wf b0) as Hwf.
  { pose proof (divRoundUp_nonneg nitems BitsInWord Hn ltac:(done)).
    split_and!; cbn; [done|done| |].
    - rewrite length_fmap, length_seq. lia.
    - apply Forall_fmap, Forall_true. intros. apply u32_range. }
  destruct (clearLoop_spec (Z.to_nat nitems) 0 b0 Hwf eq_refl) as (b & E & ? & Hb & Hg).
  change (Z.of_nat 0) with 0 in E. rewrite E. cbn in Hb. exists b. split_and!; auto.
  apply list_eq_same_length with (length (abs b));
    [by rewrite length_replicate, length_abs, Hb|done|].
  intros j x y Hj Hx Hy. rewrite length_abs in Hj. rewrite abs_lookup in Hx by done.
  apply lookup_replicate in Hy as [-> _]. injection Hx as <-. rewrite Hg, decide_True; [done|]. lia.
Qed.

Lemma count_insert (l : list bool) (i : nat) :
  l !! i = Some false →
  length (filter (λ x, x = false) l) = S (length (filter (λ x, x = false) (<[i := true]> l))).
Proof.
  revert i. induction l as [|x l IH]; intros [|i] Hi; simplify_eq/=; [done|].
  rewrite !filter_cons. case_decide; cbn [length]; by rewrite (IH i Hi).
Qed.

(** ** Properties *)

(** [BitMap::Find] returns the lowest clear bit, sets that bit and no
    other, and lowers [NumClear] by one; it returns -1, and changes nothing,
    exactly when [NumClear] is zero. *)
Theorem Find_lowest_clear b :
  wf b →
  (∃ (i : nat) b', Find b = Ok (b', Z.of_nat i) ∧ wf b' ∧ numBits b' = numBits b ∧
     Test b (Z.of_nat i) = Ok false ∧
     (∀ j : nat, (j < i)%nat → Test b (Z.of_nat j) = Ok true) ∧
     (∀ j : nat, (j < Z.to_nat (numBits b))%nat →
        Test b' (Z.of_nat j) = if decide (i = j) then Ok true else Test b (Z.of_nat j)) ∧
     ∃ n, NumClear b = Ok (n + 1) ∧ NumClear b' = Ok n) ∨
  (Find b = Ok (b, -1) ∧ NumClear b = Ok 0 ∧
     ∀ j : nat, (j < Z.to_nat (numBits b))%nat → Test b (Z.of_nat j) = Ok true).
Proof.
  intros Hwf. pose proof (Find_abs b Hwf) as HF.
  destruct (list_find _ _) as [[i x]|] eqn:E.
  - left. destruct HF as (b' & HF & Hwf' & Hn & Habs). exists i, b'.
    apply list_find_Some in E as (Hi & -> & Hlow). split_and!; auto.
    + by apply Test_abs.
    + intros j Hj. assert (j < length (abs b))%nat as Hl by (apply lookup_lt_Some in Hi; lia).
      destruct (lookup_lt_is_Some_2 _ _ Hl) as [[] Hb]; [by apply Test_abs|].
      by destruct (Hlow j false Hb Hj).
    + intros j Hj. rewrite <- length_abs in Hj. destruct (lookup_lt_is_Some_2 _ _ Hj) as [v Hv].
      case_decide; subst.
      * apply Test_abs; [done|]. by rewrite Habs, list_lookup_insert_eq.
      * rewrite (Test_abs b j v) by done. apply Test_abs; [done|].
        by rewrite Habs, list_lookup_insert_ne.
    + rewrite !NumClear_abs by done. rewrite (count_insert _ i), Habs by done.
      eexists. split; [|done]. f_equal. lia.
  - right. apply list_find_None in E. split; [done|]. split.
    + by rewrite NumClear_abs, filter_none.
    + intros j Hj. rewrite <- length_abs in Hj. destruct (lookup_lt_is_Some_2 _ _ Hj) as [[] Hv].
      * by apply Test_abs.
      * by eapply Forall_lookup_1 in E.
Qed.

(** A new bitmap of any size is all clear whatever was in memory, and
    [Mark], [Clear] and [Test] then behave as independent bits: after setting
    bit [i] to [v], testing [j] gives [v] when [j = i] and the old value
    otherwise, and an out-of-range bit number fails the [ASSERT]. *)
Theorem bitmap_bits_independent garbage nitems :
  0 ≤ nitems →
  ∃ b, new_BitMap garbage nitems = Ok b ∧ wf b ∧ numBits b = nitems ∧
    (∀ i : nat, (i < Z.to_nat nitems)%nat → Test b (Z.of_nat i) = Ok false) ∧
  ∀ b', wf b' → numBits b' = nitems →
    (∀ i : nat, (i < Z.to_nat nitems)%nat → ∀ v : bool,
      ∃ b'', (if v then Mark b' (Z.of_nat i) else Clear b' (Z.of_nat i)) = Ok b'' ∧ wf b'' ∧
        numBits b'' = nitems ∧
        ∀ j : nat, (j < Z.to_nat nitems)%nat →
          Test b'' (Z.of_nat j) = if decide (i = j) then Ok v else Test b' (Z.of_nat j)) ∧
    (∀ which, which < 0 ∨ nitems ≤ which →
      Mark b' which = Err AssertFailed ∧ Clear b' which = Err AssertFailed ∧
      Test b' which = Err AssertFailed).
Proof.
  intros Hn. destruct (new_BitMap_abs garbage nitems Hn) as (b & E & Hwf & Hb & Habs).
  exists b. split_and!; auto.
  { intros i Hi. apply Test_abs; [done|]. rewrite Habs. by apply lookup_replicate_2. }
  intros b' Hwf' Hb'. split.
  - intros i Hi v. rewrite <- Hb' in Hi.
    assert (∃ b'', (if v then Mark b' (Z.of_nat i) else Clear b' (Z.of_nat i)) = Ok b'' ∧
      wf b'' ∧ numBits b'' = numBits b' ∧
      ∀ j, getbit b'' j = if decide (i = j) then v else getbit b' j) as (b'' & E' & ? & Hn'' & Hg)
      by (destruct v; [by apply Mark_spec|by apply Clear_spec]).
    exists b''. split_and!; [done..|congruence|]. intros j Hj.
    rewrite !Test_spec, Hg by (done || congruence || (rewrite ?Hn'', Hb'; done)).
    by case_decide.
  - intros which Hw. apply out_of_range_asserts. unfold in_range. rewrite Hb'.
    destruct Hw; [rewrite bool_decide_false by lia; done|].
    rewrite (bool_decide_false (which < nitems)) by lia. apply andb_false_r.
Qed.

(** ** Witnesses *)

Definition example_map : BitMap := mkBitMap 40 2 [4294967295; 5].

Lemma example_map_wf : wf example_map.
Proof. split_and!; cbn; [lia|reflexivity|reflexivity|repeat constructor; lia]. Qed.

Lemma Find_lowest_clear_witness :
  ∃ (i : nat) b', i = 33%nat ∧ Find example_map = Ok (b', Z.of_nat i).
Proof.
  destruct (Find_lowest_clear example_map example_map_wf)
    as [(i & b' & E & _)|(E & _)].
  - exists i, b'. split; [|done].
    replace (Find example_map) with (Ok (mkBitMap 40 2 [4294967295; 7], 33)) in E
      by (vm_compute; reflexivity).
    injection E as _ E. lia.
  - exfalso. vm_compute in E. discriminate.
Defined.

Lemma bitmap_bits_independent_witness :
  ∃ b, new_BitMap (λ _, 77) 1024 = Ok b ∧ wf b ∧ numBits b = 1024.
Proof.
  destruct (bitmap_bits_independent (λ _, 77) 1024) as (b & ? & ? & ? & _); [lia|eauto].
Defined.
