(* ===== verification/Kernel.v ===== *)
(** * The thread kernel: interrupts, scheduler, threads and synchronization

    This file models, as one machine, machine/interrupt.cc, machine/timer.cc,
    machine/stats.h, threads/scheduler.cc, threads/thread.cc and
    threads/synch.cc, in the THREADS configuration (no USER_PROGRAM code in
    [Scheduler::Run]).

    Every thread has a stack of [frame]s: the resume points of the kernel
    routines it is inside of.  A routine that cannot be switched out is a plain
    function on the kernel state; a routine that can be (it calls
    [Scheduler::Run], or re-enables interrupts, which may yield) is cut at
    those points and the rest of it is a frame.  [kstep] runs the top frame of
    the current thread.  [SWITCH] changes [currentThread]; the new thread then
    continues with its own top frame.

    The code that uses the kernel (threadtest.cc and so on) is a parameter, the
    class [Client]: a piece of straight-line C++ up to its next kernel call.
    Interrupts are only taken inside kernel calls, so such a piece is atomic.

    Thread and semaphore objects are named by numbers that are never reused
    ([CNewSem] of a name in use is an error of the model).  Semaphore values
    and times, which are [int]s in the source, are unbounded integers here;
    [KernelClock.v] has the computations of times at their width. *)

From S2P Require Import Prelude NachList.

Local Open Scope Z_scope.

(** ** Enumerations of interrupt.h and thread.h *)

Inductive IntStatus := IntOff | IntOn.
Inductive MachineStatus := IdleMode | SystemMode | UserMode.
Inductive IntType :=
  TimerInt | DiskInt | ConsoleWriteInt | ConsoleReadInt | NetworkSendInt | NetworkRecvInt.
Inductive ThreadStatus := JUST_CREATED | RUNNING | READY | BLOCKED.

#[export] Instance IntStatus_eq_dec : EqDecision IntStatus.
Proof. solve_decision. Defined.
#[export] Instance MachineStatus_eq_dec : EqDecision MachineStatus.
Proof. solve_decision. Defined.
#[export] Instance IntType_eq_dec : EqDecision IntType.
Proof. solve_decision. Defined.
#[export] Instance ThreadStatus_eq_dec : EqDecision ThreadStatus.
Proof. solve_decision. Defined.

(** Time constants of stats.h. *)
Definition UserTick : Z := 1.
Definition SystemTick : Z := 10.
Definition TimerTicks : Z := 100.

(** A semaphore is either one a client made or the private semaphore of a lock
    ([Lock::semaphore]). *)
Inductive semid := SemId (n : nat) | LockSem (l : nat).

#[export] Instance semid_eq_dec : EqDecision semid.
Proof. solve_decision. Defined.
#[export] Instance semid_countable : Countable semid.
Proof.
  apply (inj_countable' (λ s, match s with SemId n => inl n | LockSem l => inr l end)
    (λ x, match x with inl n => SemId n | inr l => LockSem l end)).
  by intros [].
Defined.

(** ** The code above the kernel *)

(** A kernel call made by client code; [CReturn] is the return of the forked
    procedure (or of [main]). *)
Inductive call (L D : Type) :=
| CNewSem (s : nat) (initialValue : Z)
| CP (s : nat)
| CV (s : nat)
| CAcquire (l : nat)
| CRelease (l : nat)
| CWait (c l : nat)
| CSignal (c l : nat)
| CBroadcast (c l : nat)
| CYield
| CFork (start : L)
| CSchedule (d : D) (fromNow : Z) (type : IntType)
| CReturn.
Arguments CNewSem {L D} _ _.
Arguments CP {L D} _.
Arguments CV {L D} _.
Arguments CAcquire {L D} _.
Arguments CRelease {L D} _.
Arguments CWait {L D} _ _.
Arguments CSignal {L D} _ _.
Arguments CBroadcast {L D} _ _.
Arguments CYield {L D}.
Arguments CFork {L D} _.
Arguments CSchedule {L D} _ _ _.
Arguments CReturn {L D}.

(** [client_step t now l g]: thread [t], resuming at [l] when
    [stats->totalTicks] is [now], runs on the globals [g] up to its next kernel
    call.  [device_handler] is the interrupt handler of a device: the new
    globals, the interrupts it schedules, the semaphores it [V]s. *)
Class Client := {
  local : Type;
  globals : Type;
  device : Type;
  client_step : nat → Z → local → globals → Result (globals * local * call local device);
  device_handler : device → globals →
    Result (globals * list (device * Z * IntType) * list nat);
}.

(** ** Resume points *)

Inductive frame :=
| FClient                          (**r the client's own code *)
| FFinish                          (**r [ThreadFinish], or the end of [main] *)
| FSetLevel (now : IntStatus)      (**r [(void) interrupt->SetLevel(now)] *)
| FTick (old : MachineStatus)      (**r the end of [OneTick]: [status = old] *)
| FYield                           (**r a call of [currentThread->Yield()] *)
| FSleep                           (**r the [while] loop of [Thread::Sleep] *)
| FRun                             (**r [Scheduler::Run] after [SWITCH] *)
| FP (s : semid)                   (**r a call of [Semaphore::P] *)
| FPLoop (s : semid)               (**r its [while (value == 0)] *)
| FV (s : semid)                   (**r a call of [Semaphore::V] *)
| FAcquire (l : nat)               (**r a call of [Lock::Acquire] *)
| FOwner (l : nat)                 (**r [owner = currentThread] *)
| FRelease (l : nat)               (**r a call of [Lock::Release] *)
| FWait (c l : nat)                (**r a call of [Condition::Wait] *)
| FWaitSleep (c : nat)             (**r its [queue->Append; Sleep()] *)
| FSignal (c l : nat)              (**r a call of [Condition::Signal] *)
| FBroadcast (c l : nat).          (**r a call of [Condition::Broadcast] *)

#[export] Instance frame_eq_dec : EqDecision frame.
Proof. solve_decision. Defined.

Record Semaphore := mkSem { value : Z; queue : list nat }.

(** [Lock] without its semaphore, which is [LockSem l]. *)
Record Lock := mkLock { owner : option nat }.

Record Condition := mkCond { cqueue : list nat }.

Record Statistics := mkStats {
  totalTicks : Z;
  idleTicks : Z;
  systemTicks : Z;
  userTicks : Z;
}.

Section kernel.
Context {C : Client}.

(** What [Random()] returns, call by call, and whether the timer was created
    with [doRandom]. *)
Context (rnd : nat → Z) (randomize : bool).

(** [VoidFunctionPtr handler] of a pending interrupt. *)
Inductive handler := HTimer | HDevice (d : device).

Record PendingInterrupt := mkPending {
  phandler : handler;
  when : Z;
  type : IntType;
}.

Record Interrupt := mkInterrupt {
  level : IntStatus;
  pending : list (option PendingInterrupt * Z);
  inHandler : bool;
  yieldOnReturn : bool;
  mstatus : MachineStatus;
}.

Record Thread := mkThread {
  status : ThreadStatus;
  stack : list frame;
  resume : local;
}.

Record kernel := mkKernel {
  threads : gmap nat Thread;
  nextThread : nat;
  currentThread : nat;
  threadToBeDestroyed : option nat;
  readyList : list nat;
  interrupt : Interrupt;
  stats : Statistics;
  sems : gmap semid Semaphore;
  locks : gmap nat Lock;
  conds : gmap nat Condition;
  shared : globals;
  randoms : nat;
}.

(** ** Field updates *)

Definition set_threads v k := mkKernel v (nextThread k) (currentThread k)
  (threadToBeDestroyed k) (readyList k) (interrupt k) (stats k) (sems k) (locks k)
  (conds k) (shared k) (randoms k).
Definition set_nextThread v k := mkKernel (threads k) v (currentThread k)
  (threadToBeDestroyed k) (readyList k) (interrupt k) (stats k) (sems k) (locks k)
  (conds k) (shared k) (randoms k).
Definition set_currentThread v k := mkKernel (threads k) (nextThread k) v
  (threadToBeDestroyed k) (readyList k) (interrupt k) (stats k) (sems k) (locks k)
  (conds k) (shared k) (randoms k).
Definition set_destroyed v k := mkKernel (threads k) (nextThread k) (currentThread k)
  v (readyList k) (interrupt k) (stats k) (sems k) (locks k)
  (conds k) (shared k) (randoms k).
Definition set_readyList v k := mkKernel (threads k) (nextThread k) (currentThread k)
  (threadToBeDestroyed k) v (interrupt k) (stats k) (sems k) (locks k)
  (conds k) (shared k) (randoms k).
Definition set_interrupt v k := mkKernel (threads k) (nextThread k) (currentThread k)
  (threadToBeDestroyed k) (readyList k) v (stats k) (sems k) (locks k)
  (conds k) (shared k) (randoms k).
Definition set_stats v k := mkKernel (threads k) (nextThread k) (currentThread k)
  (threadToBeDestroyed k) (readyList k) (interrupt k) v (sems k) (locks k)
  (conds k) (shared k) (randoms k).
Definition set_sems v k := mkKernel (threads k) (nextThread k) (currentThread k)
  (threadToBeDestroyed k) (readyList k) (interrupt k) (stats k) v (locks k)
  (conds k) (shared k) (randoms k).
Definition set_locks v k := mkKernel (threads k) (nextThread k) (currentThread k)
  (threadToBeDestroyed k) (readyList k) (interrupt k) (stats k) (sems k) v
  (conds k) (shared k) (randoms k).
Definition set_conds v k := mkKernel (threads k) (nextThread k) (currentThread k)
  (threadToBeDestroyed k) (readyList k) (interrupt k) (stats k) (sems k) (locks k)
  v (shared k) (randoms k).
Definition set_shared v k := mkKernel (threads k) (nextThread k) (currentThread k)
  (threadToBeDestroyed k) (readyList k) (interrupt k) (stats k) (sems k) (locks k)
  (conds k) v (randoms k).
Definition set_randoms v k := mkKernel (threads k) (nextThread k) (currentThread k)
  (threadToBeDestroyed k) (readyList k) (interrupt k) (stats k) (sems k) (locks k)
  (conds k) (shared k) v.

Definition set_level v k := set_interrupt (mkInterrupt v (pending (interrupt k))
  (inHandler (interrupt k)) (yieldOnReturn (interrupt k)) (mstatus (interrupt k))) k.
Definition set_pending v k := set_interrupt (mkInterrupt (level (interrupt k)) v
  (inHandler (interrupt k)) (yieldOnReturn (interrupt k)) (mstatus (interrupt k))) k.
Definition set_inHandler v k := set_interrupt (mkInterrupt (level (interrupt k))
  (pending (interrupt k)) v (yieldOnReturn (interrupt k)) (mstatus (interrupt k))) k.
Definition set_yieldOnReturn v k := set_interrupt (mkInterrupt (level (interrupt k))
  (pending (interrupt k)) (inHandler (interrupt k)) v (mstatus (interrupt k))) k.
Definition set_mstatus v k := set_interrupt (mkInterrupt (level (interrupt k))
  (pending (interrupt k)) (inHandler (interrupt k)) (yieldOnReturn (interrupt k)) v) k.

(** [thread->setStatus(st)] *)
Definition setStatus (t : nat) (st : ThreadStatus) (k : kernel) : Result kernel :=
  th ← deref (threads k !! t);
  mret (set_threads (<[t := mkThread st (stack th) (resume th)]> (threads k)) k).

(** Replace the stack of the current thread. *)
Definition set_stack (fs : list frame) (k : kernel) : Result kernel :=
  th ← deref (threads k !! currentThread k);
  mret (set_threads (<[currentThread k := mkThread (status th) fs (resume th)]> (threads k)) k).

(** The current thread calls routines: their frames go on its stack. *)
Definition push (fs : list frame) (k : kernel) : Result kernel :=
  th ← deref (threads k !! currentThread k);
  set_stack (fs ++ stack th) k.

(** ** threads/scheduler.cc *)

Definition ReadyToRun (t : nat) (k : kernel) : Result kernel :=
  k ← setStatus t READY k;
  mret (set_readyList (readyList k ++ [t]) k).

Definition FindNextToRun (k : kernel) : option nat * kernel :=
  match readyList k with
  | [] => (None, k)
  | t :: ts => (Some t, set_readyList ts k)
  end.

(** [Scheduler::Run] up to and including [SWITCH]; the caller's stack gets the
    frame [FRun] for the part after it. *)
Definition Run (next : nat) (k : kernel) : Result kernel :=
  k ← push [FRun] k;
  setStatus next RUNNING (set_currentThread next k).

(** The part of [Scheduler::Run] after [SWITCH]: delete the carcass of a
    finished thread ([Thread::~Thread] asserts [this != currentThread]). *)
Definition RunTail (k : kernel) : Result kernel :=
  match threadToBeDestroyed k with
  | None => mret k
  | Some d =>
      ASSERT (bool_decide (d ≠ currentThread k));;
      _ ← deref (threads k !! d);
      mret (set_destroyed None (set_threads (delete d (threads k)) k))
  end.

(** ** machine/interrupt.cc and machine/timer.cc *)

Definition Schedule (h : handler) (fromNow : Z) (ty : IntType) (k : kernel) : Result kernel :=
  let w := totalTicks (stats k) + fromNow in
  ASSERT (bool_decide (fromNow > 0));;
  mret (set_pending (sorted_insert (Some (mkPending h w ty), w) (pending (interrupt k))) k).

Definition YieldOnReturn (k : kernel) : Result kernel :=
  ASSERT (inHandler (interrupt k));;
  mret (set_yieldOnReturn true k).

Definition TimeOfNextInterrupt (k : kernel) : Z * kernel :=
  if randomize then
    (1 + rnd (randoms k) `rem` (TimerTicks * 2), set_randoms (S (randoms k)) k)
  else (TimerTicks, k).

(** [TimerInterruptHandler] of threads/system.cc. *)
Definition TimerInterruptHandler (k : kernel) : Result kernel :=
  if decide (mstatus (interrupt k) = IdleMode) then mret k else YieldOnReturn k.

Definition TimerExpired (k : kernel) : Result kernel :=
  let '(fromNow, k) := TimeOfNextInterrupt k in
  k ← Schedule HTimer fromNow TimerInt k;
  TimerInterruptHandler k.

(** [Semaphore::V] between its two calls of [SetLevel]. *)
Definition V_body (s : semid) (k : kernel) : Result kernel :=
  sem ← deref (sems k !! s);
  k ← match queue sem with
      | [] => mret k
      | t :: _ => ReadyToRun t k
      end;
  mret (set_sems (<[s := mkSem (value sem + 1) (tail (queue sem))]> (sems k)) k).

(** [Semaphore::V] called with interrupts already off: [SetLevel] leaves them
    off and time does not advance. *)
Fixpoint V_all (ss : list nat) (k : kernel) : Result kernel :=
  match ss with
  | [] => mret k
  | s :: ss => k ← V_body (SemId s) k; V_all ss k
  end.

Fixpoint Schedule_all (ds : list (device * Z * IntType)) (k : kernel) : Result kernel :=
  match ds with
  | [] => mret k
  | (d, fromNow, ty) :: ds => k ← Schedule (HDevice d) fromNow ty k; Schedule_all ds k
  end.

(** The call through [toOccur->handler]. *)
Definition run_handler (h : handler) (k : kernel) : Result kernel :=
  match h with
  | HTimer => TimerExpired k
  | HDevice d =>
      '(g, ds, ss) ← device_handler d (shared k);
      k ← Schedule_all ds (set_shared g k);
      V_all ss k
  end.

(** [pending->SortedInsert(toOccur, when)] *)
Definition put_back (toOccur : PendingInterrupt) (w : Z) (k : kernel) : kernel :=
  set_pending (sorted_insert (Some toOccur, w) (pending (interrupt k))) k.

(** The second half of [CheckIfDue], once it is time for [toOccur]; [old] is
    the machine status on entry. *)
Definition fire (toOccur : PendingInterrupt) (w : Z) (old : MachineStatus) (k : kernel)
  : Result (bool * kernel) :=
  if bool_decide (mstatus (interrupt k) = IdleMode) &&
     bool_decide (type toOccur = TimerInt) && bool_decide (pending (interrupt k) = [])
  then mret (false, put_back toOccur w k)
  else
    k ← run_handler (phandler toOccur) (set_mstatus SystemMode (set_inHandler true k));
    mret (true, set_inHandler false (set_mstatus old k)).

Definition CheckIfDue (advanceClock : bool) (k : kernel) : Result (bool * kernel) :=
  let old := mstatus (interrupt k) in
  ASSERT (bool_decide (level (interrupt k) = IntOff));;
  match pending (interrupt k) with
  | [] => mret (false, k)
  | (None, _) :: rest => mret (false, set_pending rest k)
  | (Some toOccur, w) :: rest =>
      let k := set_pending rest k in
      let total := totalTicks (stats k) in
      if advanceClock && bool_decide (w > total) then
        fire toOccur w old
          (set_stats (mkStats w (idleTicks (stats k) + (w - total))
             (systemTicks (stats k)) (userTicks (stats k))) k)
      else if bool_decide (w > total) then mret (false, put_back toOccur w k)
      else fire toOccur w old k
  end.

(** [while (CheckIfDue(FALSE)) ;] *)
Fixpoint checkLoop (fuel : nat) (k : kernel) : Result kernel :=
  match fuel with
  | O => Err OutOfFuel
  | S fuel =>
      '(due, k) ← CheckIfDue false k;
      if due : bool then checkLoop fuel k else mret k
  end.

Definition check_fuel (k : kernel) : nat := S (length (pending (interrupt k))).

(** [OneTick]; when a time slice was asked for, the call of [Yield] and the
    restoration of [status] are left on the stack. *)
Definition OneTick (k : kernel) : Result kernel :=
  let old := mstatus (interrupt k) in
  let st := stats k in
  let k := set_stats
    (if decide (old = SystemMode) then
       mkStats (totalTicks st + SystemTick) (idleTicks st) (systemTicks st + SystemTick) (userTicks st)
     else
       mkStats (totalTicks st + UserTick) (idleTicks st) (systemTicks st) (userTicks st + UserTick)) k in
  let k := set_level IntOff k in
  k ← checkLoop (check_fuel k) k;
  let k := set_level IntOn k in
  if yieldOnReturn (interrupt k) then
    push [FYield; FTick old] (set_mstatus SystemMode (set_yieldOnReturn false k))
  else mret k.

Definition SetLevel (now : IntStatus) (k : kernel) : Result kernel :=
  let old := level (interrupt k) in
  ASSERT (bool_decide (now = IntOff) || negb (inHandler (interrupt k)));;
  let k := set_level now k in
  if decide (now = IntOn ∧ old = IntOff) then OneTick k else mret k.

(** [Interrupt::Idle]; [Halt] ends in [Exit(0)]. *)
Definition Idle (k : kernel) : Result kernel :=
  '(due, k) ← CheckIfDue true (set_mstatus IdleMode k);
  if due : bool then
    k ← checkLoop (check_fuel k) k;
    mret (set_mstatus SystemMode (set_yieldOnReturn false k))
  else Err Exit.

(** ** threads/thread.cc *)

(** [Thread::Sleep] up to its loop. *)
Definition Sleep (k : kernel) : Result kernel :=
  ASSERT (bool_decide (level (interrupt k) = IntOff));;
  k ← setStatus (currentThread k) BLOCKED k;
  push [FSleep] k.

(** One test of the loop of [Sleep]. *)
Definition SleepLoop (k : kernel) : Result kernel :=
  match FindNextToRun k with
  | (None, k) => k ← Idle k; push [FSleep] k
  | (Some t, k) => Run t k
  end.

Definition Yield (k : kernel) : Result kernel :=
  let oldLevel := level (interrupt k) in
  k ← SetLevel IntOff k;
  k ← push [FSetLevel oldLevel] k;
  match FindNextToRun k with
  | (None, k) => mret k
  | (Some t, k) => k ← ReadyToRun (currentThread k) k; Run t k
  end.

Definition Finish (k : kernel) : Result kernel :=
  k ← SetLevel IntOff k;
  Sleep (set_destroyed (Some (currentThread k)) k).

(** [new Thread] then [Fork]: the stack is set up so that the first [SWITCH]
    to the thread enters [ThreadRoot], which enables interrupts, calls the
    procedure and then [ThreadFinish]. *)
Definition ThreadRoot : list frame := [FSetLevel IntOn; FClient; FFinish].

Definition Fork (start : local) (k : kernel) : Result kernel :=
  let t := nextThread k in
  let k := set_nextThread (S t)
    (set_threads (<[t := mkThread JUST_CREATED ThreadRoot start]> (threads k)) k) in
  let oldLevel := level (interrupt k) in
  k ← SetLevel IntOff k;
  k ← ReadyToRun t k;
  push [FSetLevel oldLevel] k.

(** ** threads/synch.cc *)

Definition new_Semaphore (s : semid) (initialValue : Z) (k : kernel) : kernel :=
  set_sems (<[s := mkSem initialValue []]> (sems k)) k.

Definition P (s : semid) (k : kernel) : Result kernel :=
  let oldLevel := level (interrupt k) in
  k ← SetLevel IntOff k;
  push [FPLoop s; FSetLevel oldLevel] k.

(** One test of [while (value == 0)], and [value--] when it ends. *)
Definition PLoop (s : semid) (k : kernel) : Result kernel :=
  sem ← deref (sems k !! s);
  if decide (value sem = 0) then
    k ← push [FPLoop s] (set_sems (<[s := mkSem 0 (queue sem ++ [currentThread k])]> (sems k)) k);
    Sleep k
  else mret (set_sems (<[s := mkSem (value sem - 1) (queue sem)]> (sems k)) k).

Definition V (s : semid) (k : kernel) : Result kernel :=
  let oldLevel := level (interrupt k) in
  k ← SetLevel IntOff k;
  k ← V_body s k;
  push [FSetLevel oldLevel] k.

Definition isHeldByCurrentThread (l : nat) (k : kernel) : Result bool :=
  lk ← deref (locks k !! l);
  mret (bool_decide (owner lk = Some (currentThread k))).

Definition set_owner (l : nat) (o : option nat) (k : kernel) : Result kernel :=
  _ ← deref (locks k !! l);
  mret (set_locks (<[l := mkLock o]> (locks k)) k).

Definition Acquire (l : nat) (k : kernel) : Result kernel :=
  held ← isHeldByCurrentThread l k;
  ASSERT (negb held);;
  push [FP (LockSem l); FOwner l] k.

Definition Release (l : nat) (k : kernel) : Result kernel :=
  held ← isHeldByCurrentThread l k;
  ASSERT held;;
  k ← set_owner l None k;
  push [FV (LockSem l)] k.

Definition Wait (c l : nat) (k : kernel) : Result kernel :=
  held ← isHeldByCurrentThread l k;
  ASSERT held;;
  push [FRelease l; FWaitSleep c; FAcquire l] k.

(** [Wait] between [Release] and [Acquire]: append the thread to the queue and
    [Sleep]. *)
Definition WaitSleep (c : nat) (k : kernel) : Result kernel :=
  cv ← deref (conds k !! c);
  Sleep (set_conds (<[c := mkCond (cqueue cv ++ [currentThread k])]> (conds k)) k).

Definition Signal (c l : nat) (k : kernel) : Result kernel :=
  held ← isHeldByCurrentThread l k;
  ASSERT held;;
  let oldLevel := level (interrupt k) in
  k ← SetLevel IntOff k;
  cv ← deref (conds k !! c);
  let k := set_conds (<[c := mkCond (tail (cqueue cv))]> (conds k)) k in
  k ← match cqueue cv with
      | [] => mret k
      | t :: _ => ReadyToRun t k
      end;
  push [FSetLevel oldLevel] k.

Fixpoint ReadyAll (ts : list nat) (k : kernel) : Result kernel :=
  match ts with
  | [] => mret k
  | t :: ts => k ← ReadyToRun t k; ReadyAll ts k
  end.

Definition Broadcast (c l : nat) (k : kernel) : Result kernel :=
  held ← isHeldByCurrentThread l k;
  ASSERT held;;
  let oldLevel := level (interrupt k) in
  k ← SetLevel IntOff k;
  cv ← deref (conds k !! c);
  let k := set_conds (<[c := mkCond []]> (conds k)) k in
  k ← ReadyAll (cqueue cv) k;
  push [FSetLevel oldLevel] k.

(** ** The client's call, and one step of the machine *)

Definition do_call (c : call local device) (k : kernel) : Result kernel :=
  match c with
  | CNewSem s v =>
      if sems k !! SemId s then Err MemFault
      else push [FClient] (new_Semaphore (SemId s) v k)
  | CP s => push [FP (SemId s); FClient] k
  | CV s => push [FV (SemId s); FClient] k
  | CAcquire l => push [FAcquire l; FClient] k
  | CRelease l => push [FRelease l; FClient] k
  | CWait c l => push [FWait c l; FClient] k
  | CSignal c l => push [FSignal c l; FClient] k
  | CBroadcast c l => push [FBroadcast c l; FClient] k
  | CYield => push [FYield; FClient] k
  | CFork start => k ← push [FClient] k; Fork start k
  | CSchedule d fromNow ty => k ← Schedule (HDevice d) fromNow ty k; push [FClient] k
  | CReturn => mret k
  end.

Definition client_code (k : kernel) : Result kernel :=
  th ← deref (threads k !! currentThread k);
  '(g, l, c) ← client_step (currentThread k) (totalTicks (stats k)) (resume th) (shared k);
  do_call c (set_shared g
    (set_threads (<[currentThread k := mkThread (status th) (stack th) l]> (threads k)) k)).

Definition exec (f : frame) (k : kernel) : Result kernel :=
  match f with
  | FClient => client_code k
  | FFinish => Finish k
  | FSetLevel now => SetLevel now k
  | FTick old => mret (set_mstatus old k)
  | FYield => Yield k
  | FSleep => SleepLoop k
  | FRun => RunTail k
  | FP s => P s k
  | FPLoop s => PLoop s k
  | FV s => V s k
  | FAcquire l => Acquire l k
  | FOwner l => set_owner l (Some (currentThread k)) k
  | FRelease l => Release l k
  | FWait c l => Wait c l k
  | FWaitSleep c => WaitSleep c k
  | FSignal c l => Signal c l k
  | FBroadcast c l => Broadcast c l k
  end.

(** Pop the top frame of the current thread and run it. *)
Definition kstep (k : kernel) : Result kernel :=
  th ← deref (threads k !! currentThread k);
  match stack th with
  | [] => Err MemFault
  | f :: fs => k ← set_stack fs k; exec f k
  end.

(** ** Initialize (threads/system.cc)

    The locks and condition variables the client allocates statically are given
    by number; [useTimer] is the command line option -rs. *)
Definition initial (useTimer : bool) (nlocks nconds : nat) (g : globals) (main : local)
  : Result kernel :=
  let k := mkKernel {[0%nat := mkThread RUNNING ThreadRoot main]} 1 0 None []
    (mkInterrupt IntOff [] false false SystemMode) (mkStats 0 0 0 0)
    (list_to_map ((λ l, (LockSem l, mkSem 1 [])) <$> seq 0 nlocks))
    (list_to_map ((λ l, (l, mkLock None)) <$> seq 0 nlocks))
    (list_to_map ((λ c, (c, mkCond [])) <$> seq 0 nconds))
    g 0 in
  if useTimer then
    let '(fromNow, k) := TimeOfNextInterrupt k in Schedule HTimer fromNow TimerInt k
  else mret k.
End kernel.
