(* ===== verification/KernelInv.v ===== *)
(** * Invariants of the thread kernel

    [wf] is the invariant of the machine of [Kernel.v]; this file proves that
    every step preserves it, whatever the client does. *)

From S2P Require Import Prelude NachList Kernel.

Local Open Scope Z_scope.

(** ** Stack shapes

    A stack is typed by the interrupt level its top frame runs at.  Kernel
    calls are entered with interrupts on; the routines that switch threads run
    with interrupts off and end in [SetLevel(IntOn)]. *)

Inductive typed : IntStatus → list frame → Prop :=
| typed_Finish : typed IntOn [FFinish]
| typed_Client : typed IntOn [FClient; FFinish]
| typed_Tick o fs : typed IntOn fs → typed IntOn (FTick o :: fs)
| typed_Yield fs : typed IntOn fs → typed IntOn (FYield :: fs)
| typed_P n fs : typed IntOn fs → typed IntOn (FP (SemId n) :: fs)
| typed_PLock l fs : typed IntOn fs → typed IntOn (FP (LockSem l) :: FOwner l :: fs)
| typed_V s fs : typed IntOn fs → typed IntOn (FV s :: fs)
| typed_Acquire l fs : typed IntOn fs → typed IntOn (FAcquire l :: fs)
| typed_Owner l fs : typed IntOn fs → typed IntOn (FOwner l :: fs)
| typed_Release l fs : typed IntOn fs → typed IntOn (FRelease l :: fs)
| typed_Wait c l fs : typed IntOn fs → typed IntOn (FWait c l :: fs)
| typed_WaitSleep c fs : typed IntOn fs → typed IntOn (FWaitSleep c :: fs)
| typed_Signal c l fs : typed IntOn fs → typed IntOn (FSignal c l :: fs)
| typed_Broadcast c l fs : typed IntOn fs → typed IntOn (FBroadcast c l :: fs)
| typed_SetLevel fs : typed IntOn fs → typed IntOff (FSetLevel IntOn :: fs)
| typed_PLoop n fs :
    typed IntOn fs → typed IntOff (FPLoop (SemId n) :: FSetLevel IntOn :: fs)
| typed_PLoopLock l fs :
    typed IntOn fs →
    typed IntOff (FPLoop (LockSem l) :: FSetLevel IntOn :: FOwner l :: fs)
| typed_Run fs : typed IntOff fs → typed IntOff (FRun :: fs).

(** What lies below the [FSleep] or [FRun] of a sleeping thread: nothing if it
    finished, the loop of [P] otherwise. *)
Definition sleeping (fs : list frame) : Prop :=
  fs = [] ∨ ∃ s fs', fs = FPLoop s :: fs' ∧ typed IntOff fs.

(** The semaphore a sleeping thread waits for. *)
Definition waiting (fs : list frame) : option semid :=
  match fs with
  | FPLoop s :: _ | FRun :: FPLoop s :: _ | FSleep :: FPLoop s :: _ => Some s
  | _ => None
  end.

(** 1 when the thread is about to test [value == 0] of [s]. *)
Definition at_loop (s : semid) (fs : list frame) : Z :=
  match fs with
  | FPLoop s' :: _ | FRun :: FPLoop s' :: _ | FSleep :: FPLoop s' :: _ =>
      if decide (s = s') then 1 else 0
  | _ => 0
  end.

(** The units of lock [l] on a stack: a call of [P] will take one, a call of
    [V] will give one back, [owner = currentThread] turns one into ownership. *)
Fixpoint units (l : nat) (fs : list frame) : Z :=
  match fs with
  | [] => 0
  | FOwner l' :: fs => units l fs + (if decide (l = l') then 1 else 0)
  | FV (LockSem l') :: fs => units l fs + (if decide (l = l') then 1 else 0)
  | FP (LockSem l') :: fs | FPLoop (LockSem l') :: fs =>
      units l fs - (if decide (l = l') then 1 else 0)
  | _ :: fs => units l fs
  end.

Lemma units_nonneg l lv fs : typed lv fs → 0 ≤ units l fs.
Proof. induction 1; cbn in *; repeat case_match; lia. Qed.

Lemma units_owner l lv fs : typed lv (FOwner l :: fs) → 1 ≤ units l (FOwner l :: fs).
Proof.
  intros Ht. inversion Ht; subst. cbn. rewrite decide_True by done.
  enough (0 ≤ units l fs) by lia. by eapply units_nonneg.
Qed.

Lemma units_sleeping l fs : sleeping fs → 0 ≤ units l fs.
Proof. intros [->|(s & fs' & -> & Ht)]; [done|]. by eapply units_nonneg. Qed.

Lemma at_loop_nonneg s fs : 0 ≤ at_loop s fs.
Proof.
  unfold at_loop. repeat case_match; try lia.
Qed.

Lemma waiting_at_loop s fs : waiting fs = Some s → at_loop s fs = 1.
Proof.
  intros H. destruct fs as [|[] [|[] fs]]; simplify_eq/=; by rewrite decide_True.
Qed.

Section invariant.
Context {C : Client}.
Implicit Types (k : kernel) (th : Thread) (t : nat) (s : semid).

(** ** The global part of the invariant

    [δ l] is what is missing from the units of lock [l], and [ε s] from the
    threads at the loop of [s], because the top frame of the current thread was
    popped and is being executed. *)

Definition woken (s : semid) (th : Thread) : Z :=
  if decide (status th = BLOCKED) then 0 else at_loop s (stack th).

Definition owned (lk : Lock) : Z := if owner lk then 1 else 0.

(** A thread that does not have the CPU: ready to resume with interrupts off,
    or asleep inside [Scheduler::Run]. *)
Definition parked (th : Thread) : Prop :=
  (status th = READY ∧ typed IntOff (stack th)) ∨
  (status th = BLOCKED ∧ ∃ fs, stack th = FRun :: fs ∧ sleeping fs).

Record winv (δ : nat → Z) (ε : semid → Z) (k : kernel) : Prop := mkWinv {
  w_cur : is_Some (threads k !! currentThread k);
  w_ids t th : threads k !! t = Some th → (t < nextThread k)%nat;
  w_parked t th : threads k !! t = Some th → t ≠ currentThread k → parked th;
  w_ready_nodup : NoDup (readyList k);
  w_ready t : t ∈ readyList k ↔ ∃ th, threads k !! t = Some th ∧ status th = READY;
  w_queue_nodup s sem : sems k !! s = Some sem → NoDup (queue sem);
  w_queue s sem t : sems k !! s = Some sem →
    t ∈ queue sem ↔ ∃ th, threads k !! t = Some th ∧ status th = BLOCKED ∧ waiting (stack th) = Some s;
  w_exists t th s : threads k !! t = Some th → status th = BLOCKED →
    waiting (stack th) = Some s → is_Some (sems k !! s);
  w_value s sem : sems k !! s = Some sem → 0 ≤ value sem;
  w_wake s sem : sems k !! s = Some sem → queue sem ≠ [] →
    value sem ≤ total (woken s) (threads k) + ε s;
  w_conds c cv : conds k !! c = Some cv → cqueue cv = [];
  w_locksem l : is_Some (sems k !! LockSem l) ↔ is_Some (locks k !! l);
  w_units l lk sem : locks k !! l = Some lk → sems k !! LockSem l = Some sem →
    value sem + owned lk + total (units l ∘ stack) (threads k) + δ l = 1;
  w_destroyed d : threadToBeDestroyed k = Some d →
    ∃ th, threads k !! d = Some th ∧ status th = BLOCKED ∧ waiting (stack th) = None;
}.

(** ** Interrupts *)

(** Pending interrupts are sorted by the time they fire. *)
Definition pending_ok (k : kernel) : Prop :=
  StronglySorted (λ x y, x.2 ≤ y.2) (pending (interrupt k)) ∧
  Forall (λ x, is_Some x.1) (pending (interrupt k)).

(** How many pending interrupts are due. *)
Definition due (k : kernel) : nat :=
  length (filter (λ x, x.2 ≤ totalTicks (stats k)) (pending (interrupt k))).

(** ** The invariant *)

Definition cur_ok (k : kernel) : Prop :=
  ∃ th, threads k !! currentThread k = Some th ∧
    ((status th = RUNNING ∧ typed (level (interrupt k)) (stack th)) ∨
     (level (interrupt k) = IntOff ∧ (status th = BLOCKED ∨ status th = READY) ∧
      ∃ fs, stack th = FSleep :: fs ∧ sleeping fs ∧ (status th = READY → fs ≠ []))).

Definition calm (k : kernel) : Prop :=
  inHandler (interrupt k) = false ∧ yieldOnReturn (interrupt k) = false.

Definition wf (k : kernel) : Prop :=
  winv (λ _, 0) (λ _, 0) k ∧ cur_ok k ∧ calm k ∧ pending_ok k.


(** ** Elementary updates *)

(** Blocked threads wait for semaphores that exist. *)
Ltac solve_exists :=
  intros ??????; cbn in *; rewrite ?lookup_insert in *;
  repeat case_decide; simplify_eq/=; eauto.

(** The fields [winv] speaks about. *)
Definition same_core k k' : Prop :=
  threads k' = threads k ∧ nextThread k' = nextThread k ∧
  currentThread k' = currentThread k ∧ threadToBeDestroyed k' = threadToBeDestroyed k ∧
  readyList k' = readyList k ∧ sems k' = sems k ∧ locks k' = locks k ∧ conds k' = conds k.

Lemma winv_core δ ε k k' : same_core k k' → winv δ ε k → winv δ ε k'.
Proof.
  intros (E1 & E2 & E3 & E4 & E5 & E6 & E7 & E8) [].
  constructor; rewrite ?E1, ?E2, ?E3, ?E4, ?E5, ?E6, ?E7, ?E8; done.
Qed.

Lemma winv_weaken δ ε δ' ε' k :
  (∀ l, δ l = δ' l) → (∀ s, ε s ≤ ε' s) → winv δ ε k → winv δ' ε' k.
Proof.
  intros Hδ Hε []. constructor; auto.
  - intros s sem Hs Hq. specialize (w_wake0 s sem Hs Hq). specialize (Hε s). lia.
  - intros l lk sem Hl Hs. rewrite <- Hδ. eauto.
Qed.

Lemma woken_nonneg s th : 0 ≤ woken s th.
Proof. unfold woken. case_decide; [lia|]. apply at_loop_nonneg. Qed.

Definition upd_cur (th : Thread) k : kernel :=
  set_threads (<[currentThread k := th]> (threads k)) k.

(** The current thread changes its own stack and resume point.  If it is
    asleep, what it waits for stays the same. *)
Lemma winv_upd_cur δ ε k th fs l :
  winv δ ε k → threads k !! currentThread k = Some th →
  (status th = BLOCKED → waiting fs = waiting (stack th)) →
  winv (λ n, δ n + units n (stack th) - units n fs)
       (λ s, ε s + woken s th - woken s (mkThread (status th) fs l))
       (upd_cur (mkThread (status th) fs l) k).
Proof.
  intros [] Hth Hwait. constructor; cbn; try done.
  - rewrite lookup_insert_eq. eauto.
  - intros t th'. rewrite lookup_insert. case_decide; [|eauto].
    subst. intros [= <-]. eauto.
  - intros t th' Ht Hne. rewrite lookup_insert_ne in Ht by done. eauto.
  - intros t. rewrite w_ready0. rewrite lookup_insert. case_decide; [|done].
    subst. rewrite Hth. split; [intros (th' & [= <-] & ?)|intros (th' & [= <-] & ?)]; eauto.
  - intros s sem t Hs. rewrite (w_queue0 s sem t Hs), lookup_insert. case_decide; [|done].
    subst. rewrite Hth.
    split; intros (th' & [= <-] & Hb & Hw); eexists; split_and!; [done|done| |done|done|].
    + by rewrite <- Hw; apply Hwait.
    + by rewrite <- Hw; symmetry; apply Hwait.
  - intros t th' s. rewrite lookup_insert. case_decide; [|eauto]. subst.
    intros [= <-] Hb. cbn. rewrite Hwait by done. eauto.
  - intros s sem Hs Hq. rewrite (total_update _ _ _ th) by done.
    specialize (w_wake0 s sem Hs Hq). lia.
  - intros n lk sem Hl Hs. rewrite (total_update _ _ _ th) by done.
    specialize (w_units0 n lk sem Hl Hs). unfold compose at 2 3; cbn. lia.
  - intros d Hd. destruct (w_destroyed0 d Hd) as (th' & E & Hb & Hw). rewrite lookup_insert.
    case_decide; [|eauto]. subst. rewrite Hth in E. injection E as <-.
    eexists. split_and!; [done|done|]. cbn. rewrite <- Hw. by apply Hwait.
Qed.

(** Statuses only move from asleep to ready, and only for threads waiting in
    [P]; nothing else of a thread changes. *)
Definition wakes (th th' : Thread) : Prop :=
  stack th' = stack th ∧ resume th' = resume th ∧
  (status th' = status th ∨
   status th = BLOCKED ∧ status th' = READY ∧ is_Some (waiting (stack th))).

Definition grows k k' : Prop :=
  currentThread k' = currentThread k ∧ nextThread k' = nextThread k ∧
  threadToBeDestroyed k' = threadToBeDestroyed k ∧ locks k' = locks k ∧ conds k' = conds k ∧
  ∀ t, option_Forall2 wakes (threads k !! t) (threads k' !! t).

Lemma wakes_refl th : wakes th th.
Proof. repeat split; auto. Qed.

Lemma wakes_trans th1 th2 th3 : wakes th1 th2 → wakes th2 th3 → wakes th1 th3.
Proof.
  intros (E1 & E2 & H1) (E3 & E4 & H2). split_and!; [congruence..|].
  rewrite E1 in H2. destruct H1 as [?|(?&?&?)], H2 as [?|(?&?&?)]; [left; congruence|..].
  - right. split_and!; congruence || done.
  - right. split_and!; congruence || done.
  - congruence.
Qed.

Lemma grows_refl k : grows k k.
Proof. split_and!; try done. intros t. destruct (threads k !! t); constructor. apply wakes_refl. Qed.

Lemma grows_trans k1 k2 k3 : grows k1 k2 → grows k2 k3 → grows k1 k3.
Proof.
  intros (E1 & E2 & E3 & E4 & E5 & H1) (F1 & F2 & F3 & F4 & F5 & H2). split_and!; [congruence..|].
  intros t. specialize (H1 t). specialize (H2 t).
  destruct H1; inversion H2; subst; constructor. eauto using wakes_trans.
Qed.

Lemma grows_core k k' : same_core k k' → grows k k'.
Proof.
  intros (E1 & E2 & E3 & E4 & E5 & E6 & E7 & E8). split_and!; try done.
  intros t. rewrite E1. destruct (threads k !! t); constructor. apply wakes_refl.
Qed.

Lemma parked_wakes th s :
  parked th → status th = BLOCKED → waiting (stack th) = Some s →
  parked (mkThread READY (stack th) (resume th)).
Proof.
  intros [[? _]|(_ & fs & E & Hs)] Hb Hw; [congruence|]. left. cbn. split; [done|].
  rewrite E in *. destruct Hs as [->|(s' & fs' & -> & ?)]; [done|]. by constructor.
Qed.

(** What [V_body s] changes, as one state. *)
Definition V_state s sem k : kernel :=
  let sems' := <[s := mkSem (value sem + 1) (tail (queue sem))]> (sems k) in
  match queue sem with
  | [] => set_sems sems' k
  | t :: _ =>
      match threads k !! t with
      | None => k
      | Some th =>
          set_sems sems' (set_readyList (readyList k ++ [t])
            (set_threads (<[t := mkThread READY (stack th) (resume th)]> (threads k)) k))
      end
  end.

Lemma V_body_state s k k' :
  V_body s k = Ok k' → ∃ sem, sems k !! s = Some sem ∧ k' = V_state s sem k.
Proof.
  unfold V_body, V_state. intros H. invert_ok. eexists. split; [done|].
  destruct (queue x) as [|t q]; invert_ok; [done|].
  unfold ReadyToRun, setStatus in *. invert_ok. by case_match; simplify_eq.
Qed.

Definition lock_unit (s : semid) (l : nat) : Z := if decide (s = LockSem l) then 1 else 0.


(** A value is incremented and nobody waits. *)
Lemma winv_value_incr δ ε k s sem :
  winv δ ε k → sems k !! s = Some sem → queue sem = [] →
  winv (λ l, δ l - lock_unit s l) ε (set_sems (<[s := mkSem (value sem + 1) []]> (sems k)) k).
Proof.
  intros [] Hs Hq. constructor; cbn; try done.
  - intros s' sem'. rewrite lookup_insert. case_decide; [|eauto]. intros [= <-]. constructor.
  - intros s' sem' t. rewrite lookup_insert. case_decide; [|eauto]. subst s'. intros [= <-]. cbn.
    rewrite <- (w_queue0 s sem t Hs), Hq. done.
  - solve_exists.
  - intros s' sem'. rewrite lookup_insert. case_decide; [|eauto]. intros [= <-]. cbn.
    specialize (w_value0 s sem Hs). lia.
  - intros s' sem'. rewrite lookup_insert. case_decide; [|eauto]. intros [= <-]. done.
  - intros l. rewrite <- w_locksem0, lookup_insert. case_decide; [|done]. subst.
    rewrite Hs. split; eauto.
  - intros l lk sem' Hl. rewrite lookup_insert. unfold lock_unit.
    case_decide as Hd; [subst s|].
    + intros [= <-]. cbn. specialize (w_units0 l lk sem Hl Hs). lia.
    + intros Hs'. specialize (w_units0 l lk sem' Hl Hs'). lia.
Qed.

(** A value is incremented and the first waiter becomes ready. *)
Lemma winv_value_wake δ ε k s sem t q th :
  winv δ ε k → sems k !! s = Some sem → queue sem = t :: q → threads k !! t = Some th →
  winv (λ l, δ l - lock_unit s l) ε
    (set_sems (<[s := mkSem (value sem + 1) q]> (sems k)) (set_readyList (readyList k ++ [t])
      (set_threads (<[t := mkThread READY (stack th) (resume th)]> (threads k)) k))).
Proof.
  intros [] Hs Hq Hth.
  assert (status th = BLOCKED ∧ waiting (stack th) = Some s) as [Hb Hw].
  { destruct (proj1 (w_queue0 s sem t Hs)) as (th' & E & ? & ?); [rewrite Hq; constructor|].
    rewrite Hth in E. by injection E as <-. }
  assert (t ∉ q ∧ NoDup q) as [Htq Hnd].
  { specialize (w_queue_nodup0 s sem Hs). rewrite Hq in *. by apply NoDup_cons. }
  constructor; cbn; try done.
  - rewrite lookup_insert. case_decide; eauto.
  - intros t' th'. rewrite lookup_insert. case_decide; [|eauto]. subst. intros _. eauto.
  - intros t' th'. rewrite lookup_insert. case_decide; [|eauto]. subst. intros [= <-] Hne.
    eapply parked_wakes; eauto.
  - apply NoDup_app. split_and!; [done| |apply NoDup_singleton].
    intros x Hx ->%list_elem_of_singleton. apply w_ready0 in Hx as (th' & E & ?). congruence.
  - intros t'. rewrite elem_of_app, list_elem_of_singleton, w_ready0, lookup_insert.
    case_decide; subst; naive_solver.
  - intros s' sem'. rewrite lookup_insert. case_decide; [|eauto]. by intros [= <-].
  - intros s' sem' t'. rewrite !lookup_insert. case_decide as Hd; [subst s'; intros [= <-]|intros Hs'].
    + cbn. case_decide as Ht; [subst t'|].
      * split; [done|]. intros (th' & [= <-] & ? & ?). done.
      * rewrite <- (w_queue0 s sem t' Hs), Hq, elem_of_cons. naive_solver.
    + rewrite (w_queue0 s' sem' t' Hs'). case_decide as Ht; [subst t'|done].
      rewrite Hth. split; naive_solver.
  - solve_exists.
  - intros s' sem'. rewrite lookup_insert. case_decide; [|eauto]. subst s'. intros [= <-]. cbn.
    specialize (w_value0 s sem Hs). lia.
  - intros s' sem' Hs' Hne. rewrite (total_update _ _ _ th) by done.
    unfold woken at 2 3. cbn. rewrite Hb, decide_True, decide_False by done.
    rewrite lookup_insert in Hs'. case_decide as Hd; [subst s'; injection Hs' as <-|].
    + rewrite (waiting_at_loop _ _ Hw). cbn. specialize (w_wake0 s sem Hs). rewrite Hq in w_wake0.
      specialize (w_wake0 ltac:(done)). lia.
    + specialize (w_wake0 s' sem' Hs' Hne). pose proof (at_loop_nonneg s' (stack th)). lia.
  - intros l. rewrite <- w_locksem0, lookup_insert. case_decide; [|done]. subst.
    rewrite Hs. split; eauto.
  - intros l lk sem' Hl. rewrite (total_update _ _ _ th) by done. unfold compose at 2 3; cbn.
    rewrite lookup_insert. unfold lock_unit. case_decide as Hd; [subst s|].
    + intros [= <-]. cbn. specialize (w_units0 l lk sem Hl Hs). lia.
    + intros Hs'. specialize (w_units0 l lk sem' Hl Hs'). lia.
  - intros d Hd. destruct (w_destroyed0 d Hd) as (th' & E & ? & ?). exists th'.
    rewrite lookup_insert_ne; [done|]. intros <-. congruence.
Qed.

Lemma V_body_winv δ ε k k' s :
  winv δ ε k → V_body s k = Ok k' → winv (λ l, δ l - lock_unit s l) ε k'.
Proof.
  intros Hw HV. apply V_body_state in HV as (sem & Hs & ->). unfold V_state.
  destruct (queue sem) as [|t q] eqn:Hq; [by apply winv_value_incr|].
  destruct (proj1 (w_queue _ _ _ Hw s sem t Hs)) as (th & E & _); [rewrite Hq; constructor|].
  rewrite E. by eapply winv_value_wake.
Qed.

Lemma V_body_grows δ ε k k' s : winv δ ε k → V_body s k = Ok k' → grows k k'.
Proof.
  intros Hw HV. apply V_body_state in HV as (sem & Hs & ->). unfold V_state.
  destruct (queue sem) as [|t q] eqn:Hq; [by apply (grows_refl k)|].
  destruct (proj1 (w_queue _ _ _ Hw s sem t Hs)) as (th & E & Hb & Hwt); [rewrite Hq; constructor|].
  rewrite E. split_and!; try done. intros t'. cbn. rewrite lookup_insert. case_decide.
  - subst. rewrite E. constructor. split_and!; [done..|]. right. cbn. eauto.
  - destruct (threads k !! t'); constructor. apply wakes_refl.
Qed.

(** [V_body] touches neither the interrupt hardware nor the clock. *)
Lemma V_body_frame s k k' :
  V_body s k = Ok k' →
  interrupt k' = interrupt k ∧ stats k' = stats k ∧ shared k' = shared k ∧ randoms k' = randoms k.
Proof.
  intros (sem & Hs & ->)%V_body_state. unfold V_state. repeat case_match; done.
Qed.
(** ** Interrupt handlers *)

Lemma Schedule_Ok h n ty k k' :
  Schedule h n ty k = Ok k' →
  0 < n ∧ k' = set_pending (sorted_insert
    (Some (mkPending h (totalTicks (stats k) + n) ty), totalTicks (stats k) + n)
    (pending (interrupt k))) k.
Proof. unfold Schedule. intros H. invert_ok. apply bool_decide_eq_true in H0. split; [lia|done]. Qed.

Lemma pending_ok_insert (x : option PendingInterrupt * Z) k :
  is_Some x.1 → pending_ok k →
  pending_ok (set_pending (sorted_insert x (pending (interrupt k))) k).
Proof.
  intros Hx [Hs Hall]. split; cbn; [by apply sorted_insert_Sorted|].
  rewrite sorted_insert_perm. by constructor.
Qed.

(** What a handler leaves alone: everything but the pending list, the request
    to yield, and threads it wakes. *)
Record quiet (k k' : kernel) : Prop := {
  q_grows : grows k k';
  q_level : level (interrupt k') = level (interrupt k);
  q_inHandler : inHandler (interrupt k') = inHandler (interrupt k);
  q_mstatus : mstatus (interrupt k') = mstatus (interrupt k);
  q_stats : stats k' = stats k;
  q_due : due k' = due k;
}.

Lemma quiet_refl k : quiet k k.
Proof. constructor; auto using grows_refl. Qed.

Lemma quiet_trans k1 k2 k3 : quiet k1 k2 → quiet k2 k3 → quiet k1 k3.
Proof. intros [] []. constructor; [by eapply grows_trans|congruence..]. Qed.

Lemma Schedule_quiet δ ε h n ty k k' :
  winv δ ε k → pending_ok k → Schedule h n ty k = Ok k' →
  winv δ ε k' ∧ pending_ok k' ∧ quiet k k'.
Proof.
  intros Hw Hp (Hn & ->)%Schedule_Ok. split_and!.
  - by apply (winv_core _ _ k).
  - by apply pending_ok_insert; cbn; eauto.
  - constructor; try done; [by apply grows_core|].
    unfold due; cbn. rewrite sorted_insert_perm, filter_cons_False; [done|]. cbn. lia.
Qed.

Lemma Schedule_all_quiet δ ε ds k k' :
  winv δ ε k → pending_ok k → Schedule_all ds k = Ok k' →
  winv δ ε k' ∧ pending_ok k' ∧ quiet k k'.
Proof.
  revert k. induction ds as [|[[d n] ty] ds IH]; intros k Hw Hp H; cbn in H; invert_ok.
  { auto using quiet_refl. }
  apply (Schedule_quiet δ ε) in H0 as (? & ? & ?); [|done..].
  apply IH in H as (? & ? & ?); [|done..]. eauto using quiet_trans.
Qed.

Lemma V_all_quiet δ ε ss k k' :
  winv δ ε k → pending_ok k → V_all ss k = Ok k' →
  winv δ ε k' ∧ pending_ok k' ∧ quiet k k'.
Proof.
  revert k. induction ss as [|s ss IH]; intros k Hw Hp H; cbn in H; invert_ok.
  { auto using quiet_refl. }
  pose proof (V_body_grows _ _ _ _ _ Hw H0). pose proof (V_body_frame _ _ _ H0) as (E1 & E2 & _).
  apply (V_body_winv δ ε) in H0; [|done].
  assert (winv δ ε x) as Hw'.
  { eapply winv_weaken; [|done|done]. intros l. unfold lock_unit. cbn. rewrite decide_False by done. lia. }
  apply IH in H as (? & ? & ?); [|done|].
  - split_and!; auto. eapply quiet_trans; [|done].
    constructor; try congruence. unfold due. by rewrite E1, E2.
  - unfold pending_ok. by rewrite E1.
Qed.

Context (rnd : nat → Z) (randomize : bool).

Lemma TimerExpired_quiet δ ε k k' :
  winv δ ε k → pending_ok k → TimerExpired rnd randomize k = Ok k' →
  winv δ ε k' ∧ pending_ok k' ∧ quiet k k'.
Proof.
  intros Hw Hp H. unfold TimerExpired in H.
  assert (∃ n r, TimeOfNextInterrupt rnd randomize k = (n, set_randoms r k)) as (n & r & E).
  { unfold TimeOfNextInterrupt. destruct randomize; eauto. by exists TimerTicks, (randoms k); destruct k. }
  rewrite E in H. invert_ok.
  apply (Schedule_quiet δ ε) in H0 as (Hw' & Hp' & Hq);
    [|by apply (winv_core _ _ k)|done].
  assert (quiet k x) as Hq' by (destruct Hq; constructor; done).
  unfold TimerInterruptHandler, YieldOnReturn in H. case_decide; invert_ok; [done|].
  split_and!; [by apply (winv_core _ _ x)|done|]. destruct Hq'. constructor; done.
Qed.

Lemma run_handler_quiet δ ε h k k' :
  winv δ ε k → pending_ok k → run_handler rnd randomize h k = Ok k' →
  winv δ ε k' ∧ pending_ok k' ∧ quiet k k'.
Proof.
  intros Hw Hp H. destruct h as [|d]; cbn in H; [by eapply TimerExpired_quiet|]. invert_ok.
  apply (Schedule_all_quiet δ ε) in H1 as (? & ? & Hq); [|by apply (winv_core _ _ k)|done].
  apply (V_all_quiet δ ε) in H as (? & ? & ?); [|done..]. split_and!; auto.
  eapply quiet_trans; [|done]. destruct Hq; constructor; done.
Qed.
Record checked (k k' : kernel) : Prop := {
  c_grows : grows k k';
  c_level : level (interrupt k') = level (interrupt k);
  c_inHandler : inHandler (interrupt k') = false;
  c_mstatus : mstatus (interrupt k') = mstatus (interrupt k);
  c_time : totalTicks (stats k) ≤ totalTicks (stats k');
}.

Lemma checked_trans k1 k2 k3 : checked k1 k2 → checked k2 k3 → checked k1 k3.
Proof. intros [] []. constructor; [by eapply grows_trans|congruence..|lia]. Qed.

(** Firing an interrupt that was taken off the pending list. *)
Lemma fire_checked δ ε h k k' :
  winv δ ε k → pending_ok k →
  run_handler rnd randomize h (set_mstatus SystemMode (set_inHandler true k)) = Ok k' →
  let k'' := set_inHandler false (set_mstatus (mstatus (interrupt k)) k') in
  winv δ ε k'' ∧ pending_ok k'' ∧ checked k k'' ∧ due k'' = due k ∧ stats k'' = stats k.
Proof.
  intros Hw Hp H. apply (run_handler_quiet δ ε) in H as (? & ? & Hq);
    [|by apply (winv_core _ _ k)|done].
  split_and!; [by apply (winv_core _ _ k')|done| | |]; destruct Hq; [constructor|..]; try done.
  cbn in *. rewrite q_stats0. done.
Qed.

Lemma put_back_checked δ ε x k k0 :
  pending (interrupt k0) = x :: pending (interrupt k) → same_core k0 k →
  winv δ ε k0 → pending_ok k0 → inHandler (interrupt k) = false →
  level (interrupt k) = level (interrupt k0) → mstatus (interrupt k) = mstatus (interrupt k0) →
  totalTicks (stats k0) ≤ totalTicks (stats k) →
  let k' := set_pending (sorted_insert x (pending (interrupt k))) k in
  winv δ ε k' ∧ pending_ok k' ∧ checked k0 k'.
Proof.
  intros Hpe Hc Hw [Hs Hall] Hin Hl Hm Ht. rewrite Hpe in *.
  apply StronglySorted_inv in Hs as [Hs _]. apply Forall_cons in Hall as [Hx Hall].
  split_and!.
  - by apply (winv_core _ _ k0).
  - by apply pending_ok_insert.
  - constructor; try done. by apply grows_core.
Qed.

Lemma fire_ok δ ε p w rest st k b k' :
  pending (interrupt k) = (Some p, w) :: rest →
  winv δ ε k → pending_ok k → inHandler (interrupt k) = false →
  totalTicks (stats k) ≤ totalTicks st →
  fire rnd randomize p w (mstatus (interrupt k)) (set_stats st (set_pending rest k)) = Ok (b, k') →
  winv δ ε k' ∧ pending_ok k' ∧ checked k k' ∧ stats k' = st ∧
  (b = true → due k' = length (filter (λ x, x.2 ≤ totalTicks st) rest)).
Proof.
  intros Hpe Hw Hp Hin Hle Hf. pose proof Hp as [Hs Hall]. rewrite Hpe in Hs, Hall.
  apply StronglySorted_inv in Hs as [Hs _]. apply Forall_cons in Hall as [_ Hall].
  unfold fire in Hf. case_match.
  - injection Hf as <- <-.
    destruct (put_back_checked δ ε (Some p, w) (set_stats st (set_pending rest k)) k)
      as (? & ? & ?); done.
  - apply bind_Ok in Hf as (k2 & Hh & Hf). injection Hf as <- <-.
    apply (fire_checked δ ε) in Hh as (? & ? & Hc & ? & ?);
      [|by apply (winv_core _ _ k)|by split].
    split_and!; auto. destruct Hc; constructor; try done. cbn in *. lia.
Qed.

Lemma CheckIfDue_checked δ ε adv k b k' :
  winv δ ε k → pending_ok k → inHandler (interrupt k) = false →
  CheckIfDue rnd randomize adv k = Ok (b, k') →
  winv δ ε k' ∧ pending_ok k' ∧ checked k k' ∧
  (adv = false → stats k' = stats k ∧ (b = true → S (due k') = due k)).
Proof.
  intros Hw Hp Hin H. unfold CheckIfDue in H. apply bind_Ok in H as ([] & _ & H).
  destruct (pending (interrupt k)) as [|[[p|] w] rest] eqn:Hpe.
  - injection H as <- <-. split_and!; [done..| |done].
    constructor; try done. apply grows_refl.
  - destruct (decide (w > totalTicks (stats k))) as [Hd|Hd].
    + cbn in H. rewrite bool_decide_true in H by done. destruct adv; cbn in H.
      * eapply fire_ok in H as (? & ? & ? & ? & ?); [|done..|cbn; lia]. done.
      * injection H as <- <-.
        destruct (put_back_checked δ ε (Some p, w) (set_pending rest k) k) as (? & ? & ?); try done.
    + cbn in H. rewrite bool_decide_false, andb_false_r in H by done.
      replace (set_pending rest k) with (set_stats (stats k) (set_pending rest k)) in H by done.
      eapply fire_ok in H as (? & ? & ? & ? & Hdue); [|done..].
      split_and!; auto. intros _. split; [done|]. intros Hb. rewrite (Hdue Hb).
      unfold due. rewrite Hpe, (filter_cons_True _ (Some p, w)); [done|]. cbn. lia.
  - exfalso. destruct Hp as [_ Hall]. rewrite Hpe in Hall.
    apply Forall_cons in Hall as [[? ?] _]. done.
Qed.

Lemma checkLoop_checked δ ε fuel k k' :
  winv δ ε k → pending_ok k → inHandler (interrupt k) = false →
  checkLoop rnd randomize fuel k = Ok k' →
  winv δ ε k' ∧ pending_ok k' ∧ checked k k'.
Proof.
  revert k. induction fuel as [|fuel IH]; intros k Hw Hp Hin H; cbn in H; [done|].
  invert_ok. apply (CheckIfDue_checked δ ε) in H0 as (? & ? & Hc & _); [|done..].
  destruct b; invert_ok; [|done]. apply IH in H as (? & ? & ?); [|done|done|by destruct Hc].
  split_and!; auto. by eapply checked_trans.
Qed.
(** ** The current thread inside a routine *)

Lemma at_loop_On s fs : typed IntOn fs → at_loop s fs = 0.
Proof. by inversion 1. Qed.

(** The current thread runs, with [fs] left on its stack. *)
Definition active δ ε k fs l : Prop :=
  winv δ ε k ∧ threads k !! currentThread k = Some (mkThread RUNNING fs l) ∧
  calm k ∧ pending_ok k.

Lemma active_wf k fs l :
  active (λ _, 0) (λ _, 0) k fs l → typed (level (interrupt k)) fs → wf k.
Proof. intros (Hw & Hth & Hc & Hp) Ht. split_and!; try done. eexists. split; [done|]. by left. Qed.

Lemma active_weaken δ ε δ' ε' k fs l :
  (∀ n, δ n = δ' n) → (∀ s, ε s ≤ ε' s) → active δ ε k fs l → active δ' ε' k fs l.
Proof. intros ?? (Hw & ?). split; [|done]. by eapply winv_weaken. Qed.

(** Replace the rest of the stack (and the resume point). *)
Lemma active_upd δ ε k fs l fs' l' :
  active δ ε k fs l →
  active (λ n, δ n + units n fs - units n fs') (λ s, ε s + at_loop s fs - at_loop s fs')
    (upd_cur (mkThread RUNNING fs' l') k) fs' l'.
Proof.
  intros (Hw & Hth & Hc & Hp).
  eapply (winv_upd_cur _ _ _ _ fs' l') in Hw; [|exact Hth|done]. split_and!; [exact Hw| |done|done].
  cbn. by rewrite lookup_insert_eq.
Qed.

Lemma push_active δ ε k fs l fs' :
  active δ ε k fs l → push fs' k = Ok (upd_cur (mkThread RUNNING (fs' ++ fs) l) k).
Proof. intros (Hw & Hth & _). unfold push, set_stack. by rewrite Hth. Qed.

Lemma active_core δ ε k k' fs l :
  same_core k k' → calm k' → pending_ok k' → active δ ε k fs l → active δ ε k' fs l.
Proof.
  intros Hc ?? (Hw & Hth & _). split_and!; [by apply (winv_core _ _ k)| |done|done].
  destruct Hc as (-> & _ & -> & _). done.
Qed.

Lemma SetLevel_Off k k' : SetLevel rnd randomize IntOff k = Ok k' → k' = set_level IntOff k.
Proof. unfold SetLevel. cbn. rewrite decide_False by naive_solver. by intros [= <-]. Qed.

Lemma active_level δ ε k fs l lv : active δ ε k fs l → active δ ε (set_level lv k) fs l.
Proof. intros H. apply (active_core _ _ k); [done|apply H..|done]. Qed.

(** A pending interrupt never disturbs the stack of the running thread. *)
Lemma grows_running k k' fs l :
  grows k k' → threads k !! currentThread k = Some (mkThread RUNNING fs l) →
  threads k' !! currentThread k' = Some (mkThread RUNNING fs l).
Proof.
  intros (E & _ & _ & _ & _ & H) Hth. rewrite E. specialize (H (currentThread k)).
  rewrite Hth in H. inversion H as [? [] (? & ? & [?|(? & _)])|]; simplify_eq/=; done.
Qed.

Lemma OneTick_active δ ε k fs l k' :
  active δ ε k fs l → typed IntOn fs → OneTick rnd randomize k = Ok k' →
  ∃ fs', active δ ε k' fs' l ∧ level (interrupt k') = IntOn ∧ typed IntOn fs' ∧
    (fs' = fs ∨ ∃ o, fs' = FYield :: FTick o :: fs).
Proof.
  intros Ha Ht H. unfold OneTick in H. apply bind_Ok in H as (k1 & Hl & H).
  destruct Ha as (Hw & Hth & [Hin Hy] & Hp).
  apply (checkLoop_checked δ ε) in Hl as (Hw1 & Hp1 & Hc); [|by apply (winv_core _ _ k)|done|done].
  destruct Hc. apply grows_running with (fs := fs) (l := l) in c_grows0; [|done].
  case_match eqn:Hy1.
  - erewrite (push_active δ ε _ fs l) in H.
    + injection H as <-. exists ([FYield; FTick (mstatus (interrupt k))] ++ fs). split_and!.
      * eapply active_weaken; [| |apply active_upd with (fs := fs) (l := l)].
        3: { split_and!; [by apply (winv_core _ _ k1)|done|done|done]. }
        -- intros n. cbn. lia.
        -- intros s. cbn. rewrite at_loop_On by done. lia.
      * done.
      * by repeat constructor.
      * eauto.
    + split_and!; [by apply (winv_core _ _ k1)|done|done|done].
  - injection H as <-. exists fs. split_and!; auto.
    split_and!; [by apply (winv_core _ _ k1)|done|done|done].
Qed.

Lemma SetLevel_On_wf k fs l k' :
  active (λ _, 0) (λ _, 0) k fs l → typed IntOn fs → level (interrupt k) = IntOff →
  SetLevel rnd randomize IntOn k = Ok k' → wf k'.
Proof.
  intros Ha Ht Hlv H. unfold SetLevel in H. rewrite Hlv in H. apply bind_Ok in H as (_ & _ & H).
  rewrite decide_True in H by done.
  eapply OneTick_active in H as (fs' & Ha' & Hlv' & Ht' & _); [|by apply active_level|done].
  eapply active_wf; [done|]. by rewrite Hlv'.
Qed.

(** [push] then leave the routine: the stack grows by frames of known weight. *)
Lemma push_wf δ ε k fs l fs' k' :
  active δ ε k fs l → push fs' k = Ok k' →
  (∀ n, δ n + units n fs = units n (fs' ++ fs)) →
  (∀ s, ε s + at_loop s fs ≤ at_loop s (fs' ++ fs)) →
  typed (level (interrupt k)) (fs' ++ fs) → wf k'.
Proof.
  intros Ha H Hu Hl Ht. rewrite (push_active _ _ _ _ _ _ Ha) in H. injection H as <-.
  eapply active_wf; [|done]. eapply active_weaken; [| |by eapply active_upd].
  - intros n. cbn. specialize (Hu n). lia.
  - intros s. cbn. specialize (Hl s). lia.
Qed.
(** ** Context switches *)

(** What a thread must look like when it calls [Scheduler::Run]. *)
Definition leaving (th : Thread) : Prop :=
  (status th = READY ∧ typed IntOff (stack th) ∨ status th = BLOCKED ∧ sleeping (stack th)) ∧
  waiting (FRun :: stack th) = waiting (stack th) ∧
  ∀ s, at_loop s (FRun :: stack th) = at_loop s (stack th).

Lemma leaving_sleeping th :
  status th = BLOCKED ∨ status th = READY → sleeping (stack th) →
  (status th = READY → stack th ≠ []) → leaving th.
Proof.
  intros Hst Hs Hne. unfold leaving.
  destruct Hs as [E|(s & fs & E & Ht)]; rewrite E in *; (split; [|done]).
  - destruct Hst as [?|Hr]; [|by destruct (Hne Hr)]. right. split; [done|by left].
  - destruct Hst; [right|left]; (split; [done|]); [right; eauto|done].
Qed.

(** Dispatching [t], the first ready thread. *)
Lemma Run_wf t k th k' :
  winv (λ _, 0) (λ _, 0) (set_readyList (t :: readyList k) k) →
  threads k !! currentThread k = Some th → leaving th →
  level (interrupt k) = IntOff → calm k → pending_ok k →
  Run t k = Ok k' → wf k'.
Proof.
  intros Hw Hth (Hst & Hwait & Hat) Hlv Hc Hp H.
  set (th1 := mkThread (status th) (FRun :: stack th) (resume th)).
  eapply (winv_upd_cur _ _ _ th (FRun :: stack th) (resume th)) in Hw; [|done|done].
  apply (winv_weaken _ _ (λ _, 0) (λ _, 0)) in Hw;
    [|intros n; cbn; lia|intros s; unfold woken; cbn [status stack]; rewrite Hat; case_decide; lia].
  assert (parked th1) as Hpk.
  { destruct Hst as [[? ?]|[? ?]]; [left|right]; cbn; eauto using typed. }
  unfold Run, push, set_stack in H. rewrite Hth in H. cbn in H.
  unfold setStatus in H. cbn in H. fold th1 in H. apply bind_Ok in H as (tht & Ht & H).
  apply deref_Ok in Ht. injection H as <-. cbn in Hw. fold th1 in Hw.
  set (T := <[currentThread k := th1]> (threads k)) in *. unfold upd_cur in Hw; cbn in Hw. fold T in Hw.
  destruct Hw. cbn in *.
  assert (status tht = READY) as Hrt.
  { destruct (proj1 (w_ready0 t)) as (x & E & ?); [constructor|]. congruence. }
  assert (typed IntOff (stack tht)) as Htt.
  { assert (parked tht) as [[_ ?]|[? _]]; [|done|congruence].
    destruct (decide (t = currentThread k)) as [->|]; [|by eapply w_parked0].
    unfold T in Ht. rewrite lookup_insert_eq in Ht. by injection Ht as <-. }
  split_and!; [constructor; cbn; try done| |done|done].
  - rewrite lookup_insert_eq. eauto.
  - intros t' th'. rewrite lookup_insert. case_decide; [|eauto]. subst. intros _. eauto.
  - intros t' th' Ht' Hne. rewrite lookup_insert_ne in Ht' by done.
    destruct (decide (t' = currentThread k)) as [->|]; [|by eapply w_parked0].
    unfold T in Ht'. rewrite lookup_insert_eq in Ht'. by injection Ht' as <-.
  - by apply NoDup_cons in w_ready_nodup0 as [_ ?].
  - intros t'. apply NoDup_cons in w_ready_nodup0 as [Hni _].
    specialize (w_ready0 t'). rewrite elem_of_cons in w_ready0. rewrite lookup_insert.
    case_decide; subst; naive_solver.
  - intros s sem t' Hs. rewrite (w_queue0 s sem t' Hs), lookup_insert. case_decide; [|done].
    subst. rewrite Ht. naive_solver congruence.
  - solve_exists.
  - intros s sem Hs Hq. specialize (w_wake0 s sem Hs Hq). rewrite (total_update _ _ _ tht) by done.
    unfold woken at 2 3. rewrite Hrt. cbn. rewrite !decide_False by done. lia.
  - intros n lk sem Hl Hs. specialize (w_units0 n lk sem Hl Hs).
    rewrite (total_update _ _ _ tht) by done. unfold compose at 2 3. cbn. lia.
  - intros d Hd. destruct (w_destroyed0 d Hd) as (x & E & ? & ?). exists x.
    rewrite lookup_insert_ne; [done|]. intros <-. congruence.
  - eexists. cbn. rewrite lookup_insert_eq. split; [done|]. left. cbn. by rewrite Hlv.
Qed.

(** The running thread puts itself at the end of the ready list. *)
Lemma winv_requeue δ ε k fs l :
  winv δ ε k → threads k !! currentThread k = Some (mkThread RUNNING fs l) →
  winv δ ε (set_readyList (readyList k ++ [currentThread k])
    (upd_cur (mkThread READY fs l) k)).
Proof.
  intros [] Hth. constructor; cbn; try done.
  - rewrite lookup_insert_eq. eauto.
  - intros t th'. rewrite lookup_insert. case_decide; [|eauto]. subst. intros _. eauto.
  - intros t th' Ht Hne. rewrite lookup_insert_ne in Ht by done. eauto.
  - apply NoDup_app. split_and!; [done| |apply NoDup_singleton].
    intros x Hx ->%list_elem_of_singleton. apply w_ready0 in Hx as (th' & E & ?).
    rewrite Hth in E. by injection E as <-.
  - intros t. rewrite elem_of_app, list_elem_of_singleton, w_ready0, lookup_insert.
    case_decide; subst; naive_solver.
  - intros s sem t Hs. rewrite (w_queue0 s sem t Hs), lookup_insert. case_decide; [|done].
    subst. rewrite Hth. naive_solver.
  - solve_exists.
  - intros s sem Hs Hq. specialize (w_wake0 s sem Hs Hq).
    rewrite (total_update _ _ _ (mkThread RUNNING fs l)) by done.
    change (woken s (mkThread READY fs l)) with (woken s (mkThread RUNNING fs l)). lia.
  - intros n lk sem Hl Hs. specialize (w_units0 n lk sem Hl Hs).
    rewrite (total_update _ _ _ (mkThread RUNNING fs l)) by done. unfold compose at 2 3. cbn. lia.
  - intros d Hd. destruct (w_destroyed0 d Hd) as (x & E & ? & ?). exists x.
    rewrite lookup_insert_ne; [done|]. intros <-. rewrite Hth in E. by injection E as <-.
Qed.

Lemma Yield_wf k fs l k' :
  active (λ _, 0) (λ _, 0) k fs l → typed IntOn fs → level (interrupt k) = IntOn →
  Yield rnd randomize k = Ok k' → wf k'.
Proof.
  intros Ha Ht Hlv H. unfold Yield in H. rewrite Hlv in H. apply bind_Ok in H as (k0 & E & H).
  apply SetLevel_Off in E as ->. apply (active_level _ _ _ _ _ IntOff) in Ha.
  rewrite (push_active _ _ _ _ _ _ Ha) in H.
  apply bind_Ok in H as (? & [= <-] & H). cbn [app] in H.
  eapply (active_upd _ _ _ _ _ (FSetLevel IntOn :: fs) l) in Ha.
  apply (active_weaken _ _ (λ _, 0) (λ _, 0)) in Ha;
    [|intros n; cbn; lia|intros s; cbn; rewrite at_loop_On by done; lia].
  set (k1 := upd_cur _ _) in *. assert (level (interrupt k1) = IntOff) as Hlv1 by done.
  clearbody k1. assert (typed IntOff (FSetLevel IntOn :: fs)) by (by constructor).
  unfold FindNextToRun in H. destruct (readyList k1) as [|t ts] eqn:Hr.
  { injection H as <-. eapply active_wf; [done|]. by rewrite Hlv1. }
  destruct Ha as (Hw & Hth & Hc & Hp). apply bind_Ok in H as (k2 & HR & H).
  unfold ReadyToRun, setStatus in HR. cbn in HR. rewrite Hth in HR. cbn in HR. injection HR as <-.
  apply winv_requeue with (fs := FSetLevel IntOn :: fs) (l := l) in Hw; [|done].
  eapply Run_wf in H; [done| | | |done..].
  - cbn. eapply winv_core; [|exact Hw]. rewrite Hr. done.
  - cbn. by rewrite lookup_insert_eq.
  - split; [left; done|done].
Qed.

(** ** Going to sleep *)

Notation none := (λ _, 0).

(** The current thread is inside the loop of [Sleep]. *)
Definition asleep k st fs l : Prop :=
  winv none none k ∧ threads k !! currentThread k = Some (mkThread st fs l) ∧
  (st = BLOCKED ∨ st = READY) ∧ sleeping fs ∧ (st = READY → fs ≠ []) ∧
  level (interrupt k) = IntOff ∧ calm k ∧ pending_ok k.

Lemma asleep_push k st fs l k' : asleep k st fs l → push [FSleep] k = Ok k' → wf k'.
Proof.
  intros (Hw & Hth & Hst & Hs & Hne & Hlv & Hc & Hp) H.
  assert (waiting (FSleep :: fs) = waiting fs ∧ ∀ s, at_loop s (FSleep :: fs) = at_loop s fs)
    as [Ew El] by (destruct Hs as [->|(? & ? & -> & _)]; done).
  unfold push, set_stack in H. rewrite Hth in H. injection H as <-.
  eapply (winv_upd_cur _ _ _ _ (FSleep :: fs) l) in Hw; [|exact Hth|done].
  split_and!; [|eexists; cbn; rewrite lookup_insert_eq; split; [done|]; right|done|done].
  - eapply winv_weaken; [| |exact Hw]; [intros n; cbn; lia|].
    intros s. unfold woken. cbn [status stack]. rewrite El. case_decide; lia.
  - split_and!; [done..|]. exists fs. auto.
Qed.

Lemma winv_block k s sem fs l :
  winv none none k → threads k !! currentThread k = Some (mkThread RUNNING (FPLoop s :: fs) l) →
  sems k !! s = Some sem → value sem = 0 →
  winv none none (set_sems (<[s := mkSem 0 (queue sem ++ [currentThread k])]> (sems k))
    (upd_cur (mkThread BLOCKED (FPLoop s :: fs) l) k)).
Proof.
  intros [] Hth Hs Hv. constructor; cbn; try done.
  - rewrite lookup_insert_eq. eauto.
  - intros t th'. rewrite lookup_insert. case_decide; [|eauto]. subst. intros _. eauto.
  - intros t th' Ht Hne. rewrite lookup_insert_ne in Ht by done. eauto.
  - intros t. rewrite w_ready0, lookup_insert. case_decide; [|done].
    subst. rewrite Hth. split; intros (? & [= <-] & ?); done.
  - intros s' sem'. rewrite lookup_insert. case_decide; [|eauto]. intros [= <-]. cbn.
    apply NoDup_app. split_and!; [eauto| |apply NoDup_singleton].
    intros x Hx ->%list_elem_of_singleton. apply (w_queue0 s sem _ Hs) in Hx as (? & E & ? & _).
    rewrite Hth in E. by injection E as <-.
  - intros s' sem' t. rewrite !lookup_insert. case_decide as Hd; [subst s'; intros [= <-]|intros Hs'].
    + cbn. rewrite elem_of_app, list_elem_of_singleton, (w_queue0 s sem t Hs).
      case_decide; [|naive_solver]. subst. split; [|by right]. eauto.
    + rewrite (w_queue0 s' sem' t Hs'). case_decide; [|done]. subst. rewrite Hth.
      split; intros (? & [= <-] & ?); naive_solver.
  - solve_exists.
  - intros s' sem'. rewrite lookup_insert. case_decide; [|eauto]. intros [= <-]. done.
  - intros s' sem'. rewrite lookup_insert, (total_update _ _ _ _ _ Hth).
    case_decide; [intros [= <-] _; subst s'|intros Hs' Hq].
    + cbn. rewrite <- (total_update (woken s) _ _ _ (mkThread BLOCKED (FPLoop s :: fs) l) Hth).
      rewrite Z.add_0_r. apply total_nonneg. intros ???. apply woken_nonneg.
    + specialize (w_wake0 s' sem' Hs' Hq).
      assert (∀ st, woken s' (mkThread st (FPLoop s :: fs) l) = 0) as E.
      { intros st. unfold woken. cbn. rewrite (decide_False (P := s' = s)) by done. by case_decide. }
      rewrite !E. lia.
  - intros n. rewrite <- w_locksem0, lookup_insert. case_decide; [|done]. subst.
    rewrite Hs. split; eauto.
  - intros n lk sem' Hl. rewrite (total_update _ _ _ _ _ Hth), lookup_insert.
    unfold compose at 2 3. cbn [stack]. case_decide; [intros [= <-]; subst s|intros Hs'].
    + specialize (w_units0 n lk sem Hl Hs). cbn [value]. lia.
    + specialize (w_units0 n lk sem' Hl Hs'). lia.
  - intros d Hd. destruct (w_destroyed0 d Hd) as (x & E & ? & ?). exists x.
    rewrite lookup_insert_ne; [done|]. intros <-. rewrite Hth in E. by injection E as <-.
Qed.

Lemma winv_finish k l :
  winv none none k → threads k !! currentThread k = Some (mkThread RUNNING [] l) →
  winv none none (set_destroyed (Some (currentThread k)) (upd_cur (mkThread BLOCKED [] l) k)).
Proof.
  intros [] Hth. constructor; cbn; try done.
  - rewrite lookup_insert_eq. eauto.
  - intros t th'. rewrite lookup_insert. case_decide; [|eauto]. subst. intros _. eauto.
  - intros t th' Ht Hne. rewrite lookup_insert_ne in Ht by done. eauto.
  - intros t. rewrite w_ready0, lookup_insert. case_decide; [|done].
    subst. rewrite Hth. split; intros (? & [= <-] & ?); done.
  - intros s sem t Hs. rewrite (w_queue0 s sem t Hs), lookup_insert. case_decide; [|done].
    subst. rewrite Hth. split; intros (? & [= <-] & ? & ?); done.
  - solve_exists.
  - intros s sem Hs Hq. rewrite (total_update _ _ _ _ _ Hth). specialize (w_wake0 s sem Hs Hq).
    change (woken s (mkThread BLOCKED [] l)) with (woken s (mkThread RUNNING [] l)). lia.
  - intros n lk sem Hl Hs. rewrite (total_update _ _ _ _ _ Hth).
    specialize (w_units0 n lk sem Hl Hs). unfold compose at 2 3. cbn. lia.
  - intros d [= <-]. rewrite lookup_insert_eq. eauto.
Qed.

Lemma Idle_asleep k fs l st k' :
  asleep k st fs l → Idle rnd randomize k = Ok k' → ∃ st', asleep k' st' fs l.
Proof.
  intros (Hw & Hth & Hst & Hs & Hne & Hlv & [Hin Hy] & Hp) H. unfold Idle in H.
  apply bind_Ok in H as ([due k1] & HC & H). destruct due; [|done].
  apply bind_Ok in H as (k2 & HL & H). injection H as <-.
  apply (CheckIfDue_checked none none) in HC as (Hw1 & Hp1 & Hc1 & _);
    [|by apply (winv_core _ _ k)|done|done].
  apply (checkLoop_checked none none) in HL as (Hw2 & Hp2 & Hc2); [|done|done|apply Hc1].
  pose proof (checked_trans _ _ _ Hc1 Hc2) as [Hg Hl' Hin' _ _]. cbn in Hl'.
  destruct Hg as (Ec & _ & _ & _ & _ & Hwk). specialize (Hwk (currentThread k)). cbn in *.
  rewrite Hth in Hwk. inversion Hwk as [? th' (E1 & E2 & Hs') E3 E4|]; subst. cbn in *.
  exists (status th'). split_and!; try done.
  - by apply (winv_core _ _ k2).
  - cbn. rewrite Ec, <- E4. by destruct th'; simplify_eq/=.
  - destruct Hs' as [->|(_ & -> & _)]; auto.
  - destruct Hs' as [->|(_ & _ & [? Hx])]; [done|]. by intros _ ->.
  - cbn; congruence.
Qed.

Lemma SleepLoop_wf k st fs l k' :
  asleep k st fs l → SleepLoop rnd randomize k = Ok k' → wf k'.
Proof.
  intros Ha H. unfold SleepLoop, FindNextToRun in H. destruct (readyList k) as [|t ts] eqn:Hr.
  - apply bind_Ok in H as (k1 & HI & H). eapply Idle_asleep in HI as [st' HI]; [|done].
    by eapply asleep_push.
  - destruct Ha as (Hw & Hth & Hst & Hs & Hne & Hlv & Hc & Hp).
    eapply Run_wf in H; [done| |done| |done..].
    + cbn. rewrite <- Hr. by apply (winv_core _ _ k).
    + by apply leaving_sleeping.
Qed.

(** ** Frames popped from the stack *)

Definition popδ f fs : nat → Z := λ n, units n (f :: fs) - units n fs.
Definition popε f fs : semid → Z := λ s, at_loop s (f :: fs) - at_loop s fs.

Lemma winv_value_decr δ ε k s sem :
  winv δ ε k → sems k !! s = Some sem → value sem ≠ 0 →
  winv (λ l, δ l + lock_unit s l) (λ s', ε s' - (if decide (s' = s) then 1 else 0))
    (set_sems (<[s := mkSem (value sem - 1) (queue sem)]> (sems k)) k).
Proof.
  intros [] Hs Hv. constructor; cbn; try done.
  - intros s' sem'. rewrite lookup_insert. case_decide; [|eauto]. intros [= <-]. cbn. eauto.
  - intros s' sem' t. rewrite lookup_insert. case_decide; [|eauto]. subst s'. intros [= <-]. cbn. eauto.
  - solve_exists.
  - intros s' sem'. rewrite lookup_insert. case_decide; [|eauto]. intros [= <-]. cbn.
    specialize (w_value0 s sem Hs). lia.
  - intros s' sem'. rewrite lookup_insert. destruct (decide (s = s')) as [<-|Hd].
    + intros [= <-]. cbn. intros Hq. rewrite decide_True by done.
      specialize (w_wake0 s sem Hs Hq). lia.
    + intros Hs' Hq. rewrite decide_False by congruence. specialize (w_wake0 s' sem' Hs' Hq). lia.
  - intros l. rewrite <- w_locksem0, lookup_insert. case_decide; [|done]. subst.
    rewrite Hs. split; eauto.
  - intros l lk sem' Hl. rewrite lookup_insert. unfold lock_unit.
    case_decide as Hd; [subst s|].
    + intros [= <-]. cbn. specialize (w_units0 l lk sem Hl Hs). lia.
    + intros Hs'. specialize (w_units0 l lk sem' Hl Hs'). lia.
Qed.

Lemma units_PLoop n s fs : units n (FPLoop s :: fs) = units n fs - lock_unit s n.
Proof.
  destruct s; unfold lock_unit; cbn; repeat case_decide; simplify_eq; congruence || lia.
Qed.

Lemma PLoop_wf s k fs l k' :
  active (popδ (FPLoop s) fs) (popε (FPLoop s) fs) k fs l →
  typed IntOff (FPLoop s :: fs) → level (interrupt k) = IntOff →
  PLoop s k = Ok k' → wf k'.
Proof.
  intros Ha Ht Hlv H. unfold PLoop in H. apply bind_Ok in H as (sem & Hs & H).
  apply deref_Ok in Hs. case_decide as Hv.
  - destruct Ha as (Hw & Hth & Hc & Hp).
    eapply (winv_upd_cur _ _ _ _ (FPLoop s :: fs) l) in Hw; [|exact Hth|done].
    apply (winv_weaken _ _ none none) in Hw;
      [|intros n; unfold popδ; cbn [stack]; lia
       |intros s'; unfold popε, woken; cbn [stack status]; case_decide; [done|lia]].
    eapply winv_block in Hw; [|cbn; by rewrite lookup_insert_eq|done|done].
    unfold push, set_stack in H. cbn in H. rewrite Hth in H. cbn in H.
    unfold Sleep in H. cbn in H. rewrite bool_decide_true in H by done. cbn in H.
    unfold setStatus in H. cbn in H. rewrite lookup_insert_eq in H. cbn in H.
    eapply asleep_push in H; [done|]. split_and!.
    + eapply winv_core; [|exact Hw]. done.
    + cbn. by rewrite lookup_insert_eq.
    + by left.
    + right. eauto.
    + done.
    + done.
    + done.
    + done.
  - injection H as <-.
    apply (active_wf _ fs l); [|cbn; rewrite Hlv; inversion Ht; subst; by repeat constructor].
    destruct Ha as (Hw & Hth & Hc & Hp). split_and!; [|done..].
    eapply winv_weaken; [| |by apply winv_value_decr].
    + intros n. unfold popδ. cbn beta. rewrite units_PLoop. lia.
    + intros s'. unfold popε. cbn. pose proof (at_loop_nonneg s' fs). case_decide; lia.
Qed.

Lemma Finish_wf k l k' :
  active none none k [] l → Finish rnd randomize k = Ok k' → wf k'.
Proof.
  intros Ha H. unfold Finish in H. apply bind_Ok in H as (k1 & E & H).
  apply SetLevel_Off in E as ->. apply (active_level _ _ _ _ _ IntOff) in Ha.
  destruct Ha as (Hw & Hth & Hc & Hp). unfold Sleep in H. apply bind_Ok in H as (_ & _ & H).
  unfold setStatus in H. cbn in H, Hth. rewrite Hth in H. cbn in H.
  apply winv_finish with (l := l) in Hw; [|done].
  eapply asleep_push in H; [done|]. split_and!.
  - eapply winv_core; [|exact Hw]. done.
  - cbn. by rewrite lookup_insert_eq.
  - by left.
  - by left.
  - done.
  - done.
  - done.
  - done.
Qed.

(** ** The other routines *)

(** Deleting the carcass of a finished thread. *)
Lemma winv_delete δ ε k d :
  winv δ ε k → threadToBeDestroyed k = Some d → d ≠ currentThread k →
  winv δ ε (set_destroyed None (set_threads (delete d (threads k)) k)).
Proof.
  intros [] Hd Hne. destruct (w_destroyed0 d Hd) as (th & Hth & Hb & Hw).
  assert (∃ fs, stack th = FRun :: fs ∧ fs = []) as (fs & Es & ->).
  { destruct (w_parked0 d th Hth Hne) as [[? _]|(_ & fs & E & Hs)]; [congruence|].
    exists fs. split; [done|]. destruct Hs as [|(? & ? & -> & _)]; [done|]. by rewrite E in Hw. }
  constructor; cbn; try done.
  - rewrite lookup_delete_ne by done. done.
  - intros t th' [_ ?]%lookup_delete_Some. eauto.
  - intros t th' [_ ?]%lookup_delete_Some. eauto.
  - intros t. rewrite w_ready0. setoid_rewrite lookup_delete_Some. split; [|naive_solver].
    intros (th' & ? & ?). exists th'. split_and!; [|done..]. intros <-. congruence.
  - intros s sem t Hs. rewrite (w_queue0 s sem t Hs). setoid_rewrite lookup_delete_Some.
    split; [|naive_solver]. intros (th' & ? & ? & ?). exists th'. split_and!; [|done..].
    intros <-. congruence.
  - intros t th' s [_ ?]%lookup_delete_Some. eauto.
  - intros s sem Hs Hq. rewrite (total_delete _ _ _ _ Hth). specialize (w_wake0 s sem Hs Hq).
    unfold woken at 2. rewrite decide_True by done. lia.
  - intros n lk sem Hl Hs. rewrite (total_delete _ _ _ _ Hth). specialize (w_units0 n lk sem Hl Hs).
    unfold compose at 2. rewrite Es. cbn. lia.
Qed.

Lemma RunTail_wf k fs l k' :
  active none none k fs l → typed IntOff fs → level (interrupt k) = IntOff →
  RunTail k = Ok k' → wf k'.
Proof.
  intros Ha Ht Hlv H. unfold RunTail in H. destruct (threadToBeDestroyed k) as [d|] eqn:Hd.
  - invert_ok. apply bool_decide_eq_true in H0. destruct Ha as (Hw & Hth & Hc & Hp).
    apply (active_wf _ fs l); [|cbn; by rewrite Hlv]. split_and!; [by apply winv_delete| |done..].
    cbn. by rewrite lookup_delete_ne.
  - injection H as <-. apply (active_wf _ fs l); [done|by rewrite Hlv].
Qed.

Lemma units_FV n s fs : units n (FV s :: fs) = units n fs + lock_unit s n.
Proof. destruct s; unfold lock_unit; cbn; repeat case_decide; simplify_eq; congruence || lia. Qed.

Lemma units_FP n s fs : units n (FP s :: fs) = units n fs - lock_unit s n.
Proof. destruct s; unfold lock_unit; cbn; repeat case_decide; simplify_eq; congruence || lia. Qed.

(** Ending a routine with [SetLevel(IntOn)]. *)
Lemma push_SetLevel_wf k fs l k' :
  active none none k fs l → typed IntOn fs → level (interrupt k) = IntOff →
  push [FSetLevel IntOn] k = Ok k' → wf k'.
Proof.
  intros Ha Ht Hlv H. eapply push_wf; [done|done|intros n; cbn; lia|intros s; cbn|cbn].
  - rewrite at_loop_On by done. lia.
  - rewrite Hlv. by constructor.
Qed.

Lemma V_wf s k fs l k' :
  active (popδ (FV s) fs) (popε (FV s) fs) k fs l → typed IntOn fs →
  level (interrupt k) = IntOn → V rnd randomize s k = Ok k' → wf k'.
Proof.
  intros Ha Ht Hlv H. unfold V in H. rewrite Hlv in H. apply bind_Ok in H as (k0 & E & H).
  apply SetLevel_Off in E as ->. apply (active_level _ _ _ _ _ IntOff) in Ha.
  destruct Ha as (Hw & Hth & Hc & Hp). apply bind_Ok in H as (k1 & HV & H).
  pose proof (V_body_grows _ _ _ _ _ Hw HV) as Hg. pose proof (V_body_frame _ _ _ HV) as (Ei & _).
  apply V_body_winv with (δ := popδ (FV s) fs) (ε := popε (FV s) fs) in HV; [|done].
  eapply push_SetLevel_wf in H; [done| |done|by rewrite Ei].
  split_and!; [|by eapply grows_running|unfold calm; by rewrite Ei|unfold pending_ok; by rewrite Ei].
  eapply winv_weaken; [| |exact HV].
  - intros n. unfold popδ. cbn beta. rewrite units_FV. lia.
  - intros s'. unfold popε. rewrite (at_loop_On _ fs) by done. done.
Qed.

Lemma P_wf s k fs l k' :
  active (popδ (FP s) fs) (popε (FP s) fs) k fs l → typed IntOn (FP s :: fs) →
  level (interrupt k) = IntOn → P rnd randomize s k = Ok k' → wf k'.
Proof.
  intros Ha Ht Hlv H. unfold P in H. rewrite Hlv in H. apply bind_Ok in H as (k0 & E & H).
  apply SetLevel_Off in E as ->. apply (active_level _ _ _ _ _ IntOff) in Ha.
  eapply push_wf in H; [done|done| | |].
  - intros n. unfold popδ. cbn [app]. rewrite units_FP, units_PLoop. cbn. lia.
  - intros s'. unfold popε. assert (typed IntOn fs) by (inversion Ht; subst; by repeat constructor).
    rewrite (at_loop_On _ fs) by done. cbn. case_decide; lia.
  - cbn. inversion Ht; subst; by constructor.
Qed.

(** Calling a routine with interrupts on. *)
Lemma push_On_wf fs fs' k l k' :
  active none none k fs l → level (interrupt k) = IntOn →
  typed IntOn fs → typed IntOn (fs' ++ fs) →
  (∀ n, units n (fs' ++ fs) = units n fs) → push fs' k = Ok k' → wf k'.
Proof.
  intros Ha Hlv Ht Ht' Hu H. eapply push_wf; [done|done| | |by rewrite Hlv].
  - intros n. rewrite Hu. lia.
  - intros s. rewrite (at_loop_On _ fs), (at_loop_On _ (fs' ++ fs)) by done. lia.
Qed.

Lemma set_locks_active δ δ' ε k fs l n lk o :
  active δ ε k fs l → locks k !! n = Some lk →
  (∀ m, δ' m = δ m + (if decide (m = n) then owned lk - owned (mkLock o) else 0)) →
  active δ' ε (set_locks (<[n := mkLock o]> (locks k)) k) fs l.
Proof.
  intros (Hw & Hth & Hc & Hp) Hl Hδ. split_and!; [|done..]. destruct Hw. constructor; cbn; try done.
  - intros m. rewrite w_locksem0, lookup_insert. case_decide; [|done]. subst. rewrite Hl. split; eauto.
  - intros m lk' sem. rewrite lookup_insert, Hδ. destruct (decide (n = m)) as [<-|].
    + intros [= <-] Hs. rewrite decide_True by done. specialize (w_units0 n lk sem Hl Hs). lia.
    + intros Hl' Hs. rewrite decide_False by done. specialize (w_units0 m lk' sem Hl' Hs). lia.
Qed.

(** No stack holds a negative number of units. *)
Lemma units_total_nonneg δ ε k fs l lv n :
  active δ ε k fs l → typed lv fs → 0 ≤ total (units n ∘ stack) (threads k).
Proof.
  intros (Hw & Hth & _) Ht. apply total_nonneg. intros t th E. unfold compose.
  destruct (decide (t = currentThread k)) as [->|Hne].
  - rewrite Hth in E. injection E as <-. by eapply units_nonneg.
  - destruct (w_parked _ _ _ Hw t th E Hne) as [[_ ?]|(_ & fs' & -> & Hs)].
    + by eapply units_nonneg.
    + cbn. by apply units_sleeping.
Qed.

(** When a thread is about to become the owner, there is no owner. *)
Lemma owner_free ε k fs l n lk :
  active (popδ (FOwner n) fs) ε k fs l → typed IntOn fs → locks k !! n = Some lk → owner lk = None.
Proof.
  intros Ha Ht Hl. pose proof (units_total_nonneg _ _ _ _ _ _ n Ha Ht) as Hu.
  destruct Ha as (Hw & _). destruct (proj2 (w_locksem _ _ _ Hw n)) as [sem Hs]; [by eexists|].
  pose proof (w_units _ _ _ Hw n lk sem Hl Hs) as E. pose proof (w_value _ _ _ Hw _ _ Hs).
  unfold popδ in E. cbn in E. rewrite decide_True in E by done.
  unfold owned in E. destruct (owner lk); [lia|done].
Qed.

Lemma Owner_wf n k fs l k' :
  active (popδ (FOwner n) fs) (popε (FOwner n) fs) k fs l → typed IntOn fs →
  level (interrupt k) = IntOn → set_owner n (Some (currentThread k)) k = Ok k' → wf k'.
Proof.
  intros Ha Ht Hlv H. unfold set_owner in H. invert_ok.
  pose proof (owner_free _ _ _ _ _ _ Ha Ht H0) as Ho.
  apply (active_wf _ fs l); [|cbn; by rewrite Hlv].
  eapply active_weaken; [done| |eapply set_locks_active; [exact Ha|done|]].
  - intros s. unfold popε. cbn. rewrite at_loop_On by done. lia.
  - intros m. unfold popδ, owned. rewrite Ho. cbn. case_decide; lia.
Qed.

Lemma Acquire_wf n k fs l k' :
  active none none k fs l → typed IntOn fs →
  level (interrupt k) = IntOn → Acquire n k = Ok k' → wf k'.
Proof.
  intros Ha Ht Hlv H. unfold Acquire in H. apply bind_Ok in H as (held & _ & H).
  apply bind_Ok in H as (_ & _ & H).
  eapply push_On_wf in H; [done|exact Ha|done|done|by repeat constructor|].
  intros m. cbn. case_decide; lia.
Qed.

Lemma isHeld_true n k lk :
  isHeldByCurrentThread n k = Ok true → locks k !! n = Some lk → owner lk = Some (currentThread k).
Proof.
  unfold isHeldByCurrentThread. intros H Hl. rewrite Hl in H. cbn in H. injection H as H.
  by apply bool_decide_eq_true in H.
Qed.

Lemma Release_wf n k fs l k' :
  active none none k fs l → typed IntOn fs →
  level (interrupt k) = IntOn → Release n k = Ok k' → wf k'.
Proof.
  intros Ha Ht Hlv H. unfold Release in H. apply bind_Ok in H as (held & Hh & H).
  apply bind_Ok in H as ([] & Ha' & H). apply ASSERT_Ok in Ha' as ->.
  apply bind_Ok in H as (k1 & HO & H). unfold set_owner in HO. invert_ok.
  pose proof (isHeld_true _ _ _ Hh H0) as Ho.
  eapply push_wf in H;
    [done|eapply (set_locks_active _ (λ m, if decide (m = n) then 1 else 0)); [exact Ha|done|]| | |].
  - intros m. unfold owned. rewrite Ho. cbn. case_decide; lia.
  - intros m. cbn. repeat case_decide; lia.
  - intros s. cbn. rewrite at_loop_On by done. lia.
  - cbn. rewrite Hlv. by constructor.
Qed.

Lemma Wait_wf c n k fs l k' :
  active none none k fs l → typed IntOn fs →
  level (interrupt k) = IntOn → Wait c n k = Ok k' → wf k'.
Proof.
  intros Ha Ht Hlv H. unfold Wait in H. apply bind_Ok in H as (held & _ & H).
  apply bind_Ok in H as (_ & _ & H).
  by eapply push_On_wf in H; [|exact Ha|done|done|by repeat constructor|].
Qed.

(** [Condition::Wait] calls [Sleep] with interrupts on. *)
Lemma WaitSleep_fails c k k' : level (interrupt k) = IntOn → WaitSleep c k ≠ Ok k'.
Proof.
  intros Hlv H. unfold WaitSleep, Sleep in H. apply bind_Ok in H as (cv & _ & H). cbn in H.
  rewrite Hlv in H. done.
Qed.

(** [FSignal] and [FBroadcast]: nobody ever waits on a condition variable. *)
Lemma set_conds_active δ ε k fs l c :
  active δ ε k fs l → active δ ε (set_conds (<[c := mkCond []]> (conds k)) k) fs l.
Proof.
  intros (Hw & Hth & Hc & Hp). split_and!; [|done..]. destruct Hw. constructor; cbn; try done.
  intros c' cv. rewrite lookup_insert. case_decide; [|eauto]. by intros [= <-].
Qed.

Lemma Signal_wf c n k fs l k' :
  active none none k fs l → typed IntOn fs →
  level (interrupt k) = IntOn → Signal rnd randomize c n k = Ok k' → wf k'.
Proof.
  intros Ha Ht Hlv H. unfold Signal in H. rewrite Hlv in H. apply bind_Ok in H as (held & _ & H).
  apply bind_Ok in H as (_ & _ & H). apply bind_Ok in H as (k0 & E & H).
  apply SetLevel_Off in E as ->. apply (active_level _ _ _ _ _ IntOff) in Ha.
  apply bind_Ok in H as (cv & Hcv & H). apply deref_Ok in Hcv.
  rewrite (w_conds _ _ _ (proj1 Ha) _ _ Hcv) in H. apply bind_Ok in H as (? & [= <-] & H).
  eapply push_SetLevel_wf in H; [done|exact (set_conds_active _ _ _ _ _ c Ha)|done|done].
Qed.

Lemma Broadcast_wf c n k fs l k' :
  active none none k fs l → typed IntOn fs →
  level (interrupt k) = IntOn → Broadcast rnd randomize c n k = Ok k' → wf k'.
Proof.
  intros Ha Ht Hlv H. unfold Broadcast in H. rewrite Hlv in H. apply bind_Ok in H as (held & _ & H).
  apply bind_Ok in H as (_ & _ & H). apply bind_Ok in H as (k0 & E & H).
  apply SetLevel_Off in E as ->. apply (active_level _ _ _ _ _ IntOff) in Ha.
  apply bind_Ok in H as (cv & Hcv & H). apply deref_Ok in Hcv.
  rewrite (w_conds _ _ _ (proj1 Ha) _ _ Hcv) in H. apply bind_Ok in H as (? & [= <-] & H).
  eapply push_SetLevel_wf in H; [done|exact (set_conds_active _ _ _ _ _ c Ha)|done|done].
Qed.

Lemma winv_fork δ ε k start :
  winv δ ε k →
  winv δ ε (set_readyList (readyList k ++ [nextThread k]) (set_nextThread (S (nextThread k))
    (set_threads (<[nextThread k := mkThread READY ThreadRoot start]> (threads k)) k))).
Proof.
  intros []. assert (threads k !! nextThread k = None) as Hnew.
  { destruct (threads k !! nextThread k) as [th|] eqn:E; [|done]. apply w_ids0 in E. lia. }
  assert (currentThread k ≠ nextThread k) as Hne by (destruct w_cur0; congruence).
  constructor; cbn; try done.
  - by rewrite lookup_insert_ne.
  - intros t th. rewrite lookup_insert. case_decide; [lia|]. intros E%w_ids0. lia.
  - intros t th. rewrite lookup_insert. case_decide; [|eauto]. intros [= <-] _. left. cbn.
    split; [done|]. repeat constructor.
  - apply NoDup_app. split_and!; [done| |apply NoDup_singleton].
    intros x Hx ->%list_elem_of_singleton. apply w_ready0 in Hx as (th' & E & ?). congruence.
  - intros t. rewrite elem_of_app, list_elem_of_singleton, w_ready0, lookup_insert.
    case_decide; subst; naive_solver.
  - intros s sem t Hs. rewrite (w_queue0 s sem t Hs), lookup_insert. case_decide; [|done].
    subst. rewrite Hnew. naive_solver.
  - solve_exists.
  - intros s sem Hs Hq. rewrite total_insert_new by done. specialize (w_wake0 s sem Hs Hq).
    pose proof (woken_nonneg s (mkThread READY ThreadRoot start)). lia.
  - intros n lk sem Hl Hs. rewrite total_insert_new by done.
    specialize (w_units0 n lk sem Hl Hs). unfold compose at 1. cbn. lia.
  - intros d Hd. destruct (w_destroyed0 d Hd) as (x & E & ? & ?). exists x.
    rewrite lookup_insert_ne; [done|]. congruence.
Qed.

Lemma Fork_wf start k fs l k' :
  active none none k fs l → typed IntOn fs →
  level (interrupt k) = IntOn → Fork rnd randomize start k = Ok k' → wf k'.
Proof.
  intros (Hw & Hth & Hc & Hp) Ht Hlv H. unfold Fork in H. apply bind_Ok in H as (k0 & E & H).
  apply SetLevel_Off in E as ->. cbn in H. rewrite Hlv in H.
  apply bind_Ok in H as (k1 & HR & H). unfold ReadyToRun, setStatus in HR. cbn in HR.
  rewrite lookup_insert_eq in HR. cbn in HR. rewrite insert_insert_eq in HR. injection HR as <-.
  assert (currentThread k ≠ nextThread k) as Hne.
  { apply (w_ids _ _ _ Hw) in Hth. lia. }
  apply (winv_fork _ _ _ start) in Hw.
  eapply (push_SetLevel_wf _ fs l) in H; [done| |done|done].
  split_and!; [|cbn; by rewrite lookup_insert_ne|done|done]. eapply winv_core; [|exact Hw]. done.
Qed.

Lemma new_Semaphore_active n v k fs l :
  active none none k fs l → typed IntOn fs → sems k !! SemId n = None → 0 ≤ v →
  active none none (new_Semaphore (SemId n) v k) fs l.
Proof.
  intros (Hw & Hth & Hc & Hp) Ht Hn Hv. split_and!; [|done..]. destruct Hw. constructor; cbn; try done.
  - intros s sem. rewrite lookup_insert. case_decide; [|eauto]. intros [= <-]. constructor.
  - intros s sem t. rewrite lookup_insert. case_decide; [subst s|eauto]. intros [= <-]. cbn.
    split; [by intros ?%elem_of_nil|]. intros (th & E & Hb & Hw).
    destruct (w_exists0 _ _ _ E Hb Hw). congruence.
  - solve_exists.
  - intros s sem. rewrite lookup_insert. case_decide; [|eauto]. by intros [= <-].
  - intros s sem. rewrite lookup_insert. case_decide; [|eauto]. by intros [= <-].
  - intros n'. by rewrite lookup_insert_ne.
  - intros n' lk sem Hl. rewrite lookup_insert_ne by done. eauto.
Qed.

(** ** Clients

    The only thing asked of a client: semaphores start with a value that is not
    negative. *)
Class SaneClient : Prop :=
  sane_sem t now l g g' l' (s : nat) v : client_step t now l g = Ok (g', l', CNewSem s v) → 0 ≤ v.

Lemma do_call_wf c k l k' :
  active none none k [FFinish] l → level (interrupt k) = IntOn →
  (∀ (s : nat) v, c = CNewSem s v → 0 ≤ v) → do_call rnd randomize c k = Ok k' → wf k'.
Proof.
  intros Ha Hlv Hsane H.
  assert (∀ fs' k'', typed IntOn (fs' ++ [FFinish]) → (∀ n, units n (fs' ++ [FFinish]) = 0) →
    active none none k'' [FFinish] l → level (interrupt k'') = IntOn →
    push fs' k'' = Ok k' → wf k') as Hpush.
  { intros fs' k'' Ht Hu Hk Hlv' HH. eapply push_wf; [exact Hk|done| | |by rewrite Hlv'].
    - intros n. by rewrite Hu.
    - intros s. cbn. apply at_loop_nonneg. }
  assert (typed IntOn [FClient; FFinish]) as Htc by constructor.
  destruct c; cbn in H;
    try (eapply Hpush; [| |exact Ha|done|exact H]; [by repeat constructor|done]).
  - case_match; [done|]. eapply Hpush; [| |apply new_Semaphore_active| |exact H]; try done; eauto.
    repeat constructor.
  - apply bind_Ok in H as (k1 & HP & H). rewrite (push_active _ _ _ _ _ _ Ha) in HP. injection HP as <-.
    eapply Fork_wf in H; [done| |exact Htc|done].
    eapply active_weaken; [| |eapply active_upd; exact Ha]; done.
  - apply bind_Ok in H as (k1 & HS & H). pose proof HS as (_ & E)%Schedule_Ok.
    apply (Schedule_quiet none none) in HS as (Hw1 & Hp1 & Hq); [|apply Ha..].
    eapply Hpush; [| | |by rewrite (q_level _ _ Hq)|exact H]; [done|done|].
    destruct Ha as (_ & Hth & Hc & _). subst k1. split_and!; done.
  - injection H as <-. eapply active_wf; [exact Ha|]. rewrite Hlv. constructor.
Qed.

Lemma client_code_wf {Hsane : SaneClient} k l k' :
  active none none k [FFinish] l → level (interrupt k) = IntOn →
  client_code rnd randomize k = Ok k' → wf k'.
Proof.
  intros Ha Hlv H. unfold client_code in H. pose proof Ha as (_ & Hth & _). rewrite Hth in H. cbn in H.
  apply bind_Ok in H as ([[g l'] c] & Hc & H).
  eapply do_call_wf in H; [done| |done|intros s v ->; by eapply sane_sem].
  eapply active_core; [| | |eapply active_weaken; [| |eapply (active_upd _ _ _ _ _ [FFinish] l'); exact Ha]];
    done || apply Ha.
Qed.

(** The current thread after its top frame is popped. *)
Lemma wf_pop k k0 f fs th :
  wf k → threads k !! currentThread k = Some th → stack th = f :: fs →
  set_stack fs k = Ok k0 →
  (typed (level (interrupt k0)) (f :: fs) ∧ active (popδ f fs) (popε f fs) k0 fs (resume th)) ∨
  (f = FSleep ∧ asleep k0 (status th) fs (resume th)).
Proof.
  intros (Hw & (th' & Hth' & Hcur) & Hc & Hp) Hth Est H. rewrite Hth in Hth'. injection Hth' as <-.
  unfold set_stack in H. rewrite Hth in H. injection H as <-.
  destruct Hcur as [[Hr Ht]|(Hlv & Hst & fs' & E & Hs & Hne)].
  - left. rewrite Est in Ht. split; [done|].
    eapply (winv_upd_cur _ _ _ _ fs (resume th)) in Hw; [|exact Hth|congruence].
    split_and!; [|by cbn; rewrite lookup_insert_eq, Hr|done|done].
    eapply winv_weaken; [| |exact Hw]; unfold popδ, popε, woken; cbn [stack status]; rewrite Est.
    + done.
    + intros s. rewrite Hr. case_decide; [done|lia].
  - right. rewrite E in Est. injection Est as <- <-. split; [done|].
    eapply (winv_upd_cur _ _ _ _ fs' (resume th)) in Hw; [|exact Hth|].
    + split_and!; [|by cbn; rewrite lookup_insert_eq|done..].
      eapply winv_weaken; [| |exact Hw]; cbn.
      * intros n. rewrite E. cbn. lia.
      * intros s. unfold woken. cbn [status stack]. rewrite E.
        destruct Hs as [->|(? & ? & -> & _)]; cbn; case_decide; lia.
    + intros _. rewrite E. destruct Hs as [->|(? & ? & -> & _)]; done.
Qed.

Lemma at_loop_Run s fs : at_loop s (FRun :: fs) ≤ at_loop s fs.
Proof. destruct fs as [|[] fs]; apply at_loop_nonneg || done. Qed.

Lemma popped_plain f fs k l :
  (∀ n, units n (f :: fs) = units n fs) → (∀ s, at_loop s (f :: fs) ≤ at_loop s fs) →
  active (popδ f fs) (popε f fs) k fs l → active none none k fs l.
Proof.
  intros Hu Hl Ha. eapply active_weaken; [| |exact Ha].
  - intros n. unfold popδ. rewrite Hu. lia.
  - intros s. unfold popε. specialize (Hl s). lia.
Qed.

(** Every step of the machine, whatever the client, preserves the invariant. *)
Lemma kstep_wf {Hsane : SaneClient} k k' : wf k → kstep rnd randomize k = Ok k' → wf k'.
Proof.
  intros Hwf H. unfold kstep in H. apply bind_Ok in H as (th & Hth & H). apply deref_Ok in Hth.
  destruct (stack th) as [|f fs] eqn:Est; [done|]. apply bind_Ok in H as (k0 & Hk0 & H).
  destruct (wf_pop _ _ _ _ _ Hwf Hth Est Hk0) as [[Ht Ha]|[-> Ha]]; [|by eapply SleepLoop_wf].
  destruct (level (interrupt k0)) eqn:Hlv; inversion Ht; subst; cbn in H;
    try (pose proof Ha as Ha'; apply popped_plain in Ha'; [|by cbn; intros; lia|
      by intros; apply at_loop_Run || apply at_loop_nonneg]).
  - by eapply SetLevel_On_wf.
  - by eapply PLoop_wf.
  - by eapply PLoop_wf.
  - by eapply RunTail_wf.
  - by eapply Finish_wf.
  - by eapply client_code_wf.
  - injection H as <-. apply (active_wf _ fs (resume th)); [|cbn; by rewrite Hlv].
    by apply active_core with (k := k0); try apply Ha'.
  - by eapply Yield_wf.
  - by eapply P_wf.
  - by eapply P_wf.
  - by eapply V_wf.
  - by eapply Acquire_wf.
  - by eapply Owner_wf.
  - by eapply Release_wf.
  - by eapply Wait_wf.
  - by apply WaitSleep_fails in H.
  - by eapply Signal_wf.
  - by eapply Broadcast_wf.
Qed.
End invariant.
