(* ===== verification/KernelSpec.v ===== *)
(** * Theorems about the thread kernel

    Consequences of the invariant of [KernelInv.v] for every reachable state:
    which faults a step can have, what semaphores and locks promise, and how
    the scheduler treats threads. *)

From stdpp Require Import relations.
From S2P Require Import Prelude NachList Kernel KernelInv.

Local Open Scope Z_scope.

(** ** The initial state *)

Section spec.
Context {C : Client}.
Context (rnd : nat → Z) (randomize : bool).
Implicit Types (k : kernel) (th : Thread) (t : nat) (s : semid).

Lemma lookup_seq_map {A} (f : nat → A) n i (a : A) :
  (list_to_map ((λ l, (l, f l)) <$> seq 0 n) : gmap nat A) !! i = Some a ↔ (i < n)%nat ∧ a = f i.
Proof.
  rewrite <- elem_of_list_to_map.
  - rewrite list_elem_of_fmap. setoid_rewrite elem_of_seq.
    split; [intros (? & [= -> ->] & ?); split; [lia|done]|intros [? ->]]. exists i. split; [done|lia].
  - rewrite <- list_fmap_compose. rewrite (list_fmap_ext _ id), list_fmap_id; [apply NoDup_seq|done].
Qed.

Lemma lookup_sem_map n s (a : Semaphore) :
  (list_to_map ((λ l, (LockSem l, mkSem 1 [])) <$> seq 0 n) : gmap semid Semaphore) !! s = Some a ↔
  ∃ i, s = LockSem i ∧ (i < n)%nat ∧ a = mkSem 1 [].
Proof.
  rewrite <- elem_of_list_to_map.
  - rewrite list_elem_of_fmap. setoid_rewrite elem_of_seq.
    split; [intros (? & [= -> ->] & ?)|intros (i & -> & ? & ->)]; eexists; split_and!; try done; lia.
  - rewrite <- list_fmap_compose. apply NoDup_fmap_2; [|apply NoDup_seq]. by intros ?? [= ->].
Qed.

Lemma initial_wf useTimer nlocks nconds g main k :
  initial rnd randomize useTimer nlocks nconds g main = Ok k → wf k.
Proof.
  intros H. unfold initial in H. set (k0 := mkKernel _ _ _ _ _ _ _ _ _ _ _ _) in H.
  assert (wf k0) as (Hw & Hcur & Hc & Hp).
  { split_and!; [constructor; cbn [k0 threads nextThread currentThread threadToBeDestroyed
      readyList sems locks conds]| | |]; try done.
    - intros t th [<- _]%lookup_singleton_Some. lia.
    - intros t th [<- _]%lookup_singleton_Some. done.
    - constructor.
    - intros t. split; [by intros ?%elem_of_nil|]. by intros (th & [_ <-]%lookup_singleton_Some & ?).
    - intros s sem (i & _ & _ & ->)%lookup_sem_map. constructor.
    - intros s sem t (i & _ & _ & ->)%lookup_sem_map. split; [by intros ?%elem_of_nil|].
      intros (th & [_ <-]%lookup_singleton_Some & Hb & _). done.
    - intros t th s [_ <-]%lookup_singleton_Some Hb. done.
    - by intros s sem (i & _ & _ & ->)%lookup_sem_map.
    - by intros s sem (i & _ & _ & ->)%lookup_sem_map.
    - by intros c cv [_ ->]%lookup_seq_map.
    - intros l. unfold is_Some. setoid_rewrite lookup_sem_map. setoid_rewrite lookup_seq_map.
      naive_solver.
    - intros l lk sem [_ ->]%lookup_seq_map (i & _ & _ & ->)%lookup_sem_map. done.
    - eexists. cbn [k0 threads currentThread]. rewrite lookup_singleton_eq. split; [done|]. left. repeat constructor.
    - split; constructor. }
  destruct useTimer; [|by injection H as <-].
  assert (∃ n r, TimeOfNextInterrupt rnd randomize k0 = (n, set_randoms r k0)) as (n & r & E).
  { unfold TimeOfNextInterrupt. destruct randomize; eauto. }
  rewrite E in H. pose proof H as (_ & Ek)%Schedule_Ok.
  apply (Schedule_quiet (λ _, 0) (λ _, 0)) in H as (? & ? & _); [|by apply (winv_core _ _ k0)|done].
  subst k. by split_and!.
Qed.

(** States the machine can be in. *)
Definition reachable k : Prop :=
  ∃ useTimer nlocks nconds g main k0,
    initial rnd randomize useTimer nlocks nconds g main = Ok k0 ∧ steps (kstep rnd randomize) k0 k.

Lemma reachable_wf {Hsane : SaneClient} k : reachable k → wf k.
Proof.
  intros (useTimer & nlocks & nconds & g & main & k0 & Hi & Hs).
  eapply steps_inv; [|exact Hs|by eapply initial_wf]. intros. by eapply kstep_wf.
Qed.

(** ** Which steps can fail

    The devices of a configuration are safe when their handlers, now and after
    any number of interrupts, return, ask for interrupts in the future, and
    signal semaphores that exist. *)
Definition handled (g g' : globals) : Prop := ∃ d ds ss, device_handler d g = Ok (g', ds, ss).

Definition devices_safe k : Prop :=
  ∀ d g, rtc handled (shared k) g → ∃ g' ds ss, device_handler d g = Ok (g', ds, ss) ∧
    Forall (λ x : device * Z * IntType, 0 < x.1.2) ds ∧
    Forall (λ n : nat, is_Some (sems k !! SemId n)) ss.

(** [Random()] is [rand()], which is never negative. *)
Hypothesis rnd_nonneg : ∀ n, 0 ≤ rnd n.

Definition same_sems k k' : Prop := ∀ s, is_Some (sems k !! s) ↔ is_Some (sems k' !! s).

Lemma devices_safe_sems k k' :
  same_sems k k' → rtc handled (shared k) (shared k') → devices_safe k → devices_safe k'.
Proof.
  intros Hss Hr Hd d g Hg. destruct (Hd d g) as (g' & ds & ss & ? & ? & Hall); [by etrans|]. exists g', ds, ss.
  split_and!; [done..|]. eapply Forall_impl; [exact Hall|]. intros n. apply Hss.
Qed.

Lemma V_body_total δ ε s k :
  winv δ ε k → is_Some (sems k !! s) → ∃ k', V_body s k = Ok k' ∧ same_sems k k' ∧ shared k' = shared k.
Proof.
  intros Hw [sem Hs]. unfold V_body. rewrite Hs. cbn.
  assert (∀ s', is_Some (sems k !! s') ↔
    is_Some (<[s := mkSem (value sem + 1) (tail (queue sem))]> (sems k) !! s')) as Hss.
  { intros s'. rewrite lookup_insert. case_decide; [|done]. subst. rewrite Hs. split; eauto. }
  destruct (queue sem) as [|t q] eqn:Hq; [by eexists|].
  destruct (proj1 (w_queue _ _ _ Hw s sem t Hs)) as (th & E & _); [rewrite Hq; constructor|].
  unfold ReadyToRun, setStatus. rewrite E. cbn. by eexists.
Qed.

Lemma V_all_total δ ε ss k :
  winv δ ε k → pending_ok k → Forall (λ n : nat, is_Some (sems k !! SemId n)) ss →
  ∃ k', V_all ss k = Ok k' ∧ same_sems k k' ∧ shared k' = shared k.
Proof.
  revert k. induction ss as [|n ss IH]; intros k Hw Hp Hall; cbn; [by eexists|].
  apply Forall_cons in Hall as [Hn Hall].
  destruct (V_body_total _ _ _ _ Hw Hn) as (k1 & E & Hss & Esh). rewrite E. cbn.
  assert (V_all [n] k = Ok k1) as E' by (cbn; by rewrite E).
  apply (V_all_quiet δ ε) in E' as (Hw1 & Hp1 & _); [|done..].
  destruct (IH k1) as (k2 & ? & Hss2 & Esh2); [done|done| |].
  - eapply Forall_impl; [exact Hall|]. intros m. apply Hss.
  - exists k2. split; [done|]. split; [|congruence]. intros s. by rewrite (Hss s).
Qed.

Lemma Schedule_total h n ty k :
  0 < n → ∃ k', Schedule h n ty k = Ok k' ∧ same_sems k k' ∧ shared k' = shared k ∧
    inHandler (interrupt k') = inHandler (interrupt k).
Proof. intros Hn. unfold Schedule. rewrite bool_decide_true by lia. by eexists. Qed.

Lemma Schedule_all_total δ ε ds k :
  winv δ ε k → pending_ok k → Forall (λ x : device * Z * IntType, 0 < x.1.2) ds →
  ∃ k', Schedule_all ds k = Ok k' ∧ same_sems k k' ∧ shared k' = shared k.
Proof.
  revert k. induction ds as [|[[d n] ty] ds IH]; intros k Hw Hp Hall; cbn; [by eexists|].
  apply Forall_cons in Hall as [Hn Hall].
  destruct (Schedule_total (HDevice d) n ty k Hn) as (k1 & E & Hss & Esh & _). rewrite E. cbn.
  apply (Schedule_quiet δ ε) in E as (Hw1 & Hp1 & _); [|done..].
  destruct (IH k1) as (k2 & ? & Hss2 & Esh2); [done..|]. exists k2. split; [done|].
  split; [|congruence]. intros s. by rewrite (Hss s).
Qed.

Lemma TimeOfNextInterrupt_pos k : 0 < (TimeOfNextInterrupt rnd randomize k).1.
Proof.
  unfold TimeOfNextInterrupt. destruct randomize; cbn; [|done].
  pose proof (Z.rem_nonneg (rnd (randoms k)) (TimerTicks * 2) ltac:(done) (rnd_nonneg _)). lia.
Qed.

Lemma TimerExpired_total k :
  inHandler (interrupt k) = true → ∃ k', TimerExpired rnd randomize k = Ok k' ∧ same_sems k k' ∧ shared k' = shared k.
Proof.
  intros Hin. unfold TimerExpired. pose proof (TimeOfNextInterrupt_pos k) as Hpos.
  assert (∃ n r, TimeOfNextInterrupt rnd randomize k = (n, set_randoms r k)) as (n & r & E).
  { unfold TimeOfNextInterrupt. destruct randomize; eauto. by exists TimerTicks, (randoms k); destruct k. }
  rewrite E in *. destruct (Schedule_total HTimer n TimerInt (set_randoms r k) Hpos)
    as (k1 & -> & Hss & Esh & Hin1). cbn.
  unfold TimerInterruptHandler, YieldOnReturn. case_decide; [by eexists|].
  rewrite Hin1. cbn. rewrite Hin. by eexists.
Qed.

Lemma run_handler_total δ ε h k :
  winv δ ε k → pending_ok k → devices_safe k → inHandler (interrupt k) = true →
  ∃ k', run_handler rnd randomize h k = Ok k' ∧ devices_safe k'.
Proof.
  intros Hw Hp Hd Hin. destruct h as [|d].
  { destruct (TimerExpired_total k Hin) as (k' & E & Hs & Esh). exists k'. split; [done|].
    eapply devices_safe_sems; [exact Hs|by rewrite Esh|done]. }
  cbn. destruct (Hd d (shared k)) as (g' & ds & ss & Eh & Hds & Hss); [done|]. rewrite Eh. cbn.
  destruct (Schedule_all_total δ ε ds (set_shared g' k)) as (k1 & E & Hs1 & Esh1);
    [by apply (winv_core _ _ k)|done|done|]. rewrite E. cbn.
  apply (Schedule_all_quiet δ ε) in E as (Hw1 & Hp1 & _); [|by apply (winv_core _ _ k)|done].
  destruct (V_all_total δ ε ss k1) as (k2 & -> & Hs2 & Esh2); [done|done| |].
  - eapply Forall_impl; [exact Hss|]. intros n. apply Hs1.
  - exists k2. split; [done|]. eapply devices_safe_sems; [| |exact Hd].
    + intros s. by rewrite <- (Hs2 s), <- (Hs1 s).
    + apply rtc_once. rewrite Esh2, Esh1. by exists d, ds, ss.
Qed.

Lemma fire_total δ ε p w old k :
  winv δ ε k → pending_ok k → devices_safe k →
  ∃ b k', fire rnd randomize p w old k = Ok (b, k') ∧ devices_safe k'.
Proof.
  intros Hw Hp Hd. unfold fire. case_match; [by eexists _, _|].
  destruct (run_handler_total δ ε (phandler p) (set_mstatus SystemMode (set_inHandler true k)))
    as (k1 & -> & Hs); [by apply (winv_core _ _ k)|done..|]. cbn. by eexists _, _.
Qed.

Lemma pending_ok_tail k x rest :
  pending_ok k → pending (interrupt k) = x :: rest → pending_ok (set_pending rest k).
Proof.
  intros [Hs Hall] E. rewrite E in *. apply StronglySorted_inv in Hs as [Hs _].
  by apply Forall_cons in Hall as [_ Hall].
Qed.

Lemma CheckIfDue_total δ ε adv k :
  winv δ ε k → pending_ok k → devices_safe k → level (interrupt k) = IntOff →
  ∃ b k', CheckIfDue rnd randomize adv k = Ok (b, k') ∧ devices_safe k'.
Proof.
  intros Hw Hp Hd Hlv. unfold CheckIfDue. rewrite bool_decide_true by done. cbn.
  destruct (pending (interrupt k)) as [|[[p|] w] rest] eqn:Hpe; [by eexists _, _| |by eexists _, _].
  pose proof (pending_ok_tail _ _ _ Hp Hpe) as Hp'.
  case_match; [|case_match; [by eexists _, _|]].
  - edestruct (fire_total δ ε p w) as (b & k1 & E & Hs1); [..|exists b, k1; split; [exact E|exact Hs1]];
      [by apply (winv_core _ _ k)|done..].
  - edestruct (fire_total δ ε p w) as (b & k1 & E & Hs1); [..|exists b, k1; split; [exact E|exact Hs1]];
      [by apply (winv_core _ _ k)|done..].
Qed.

(** The loop over the interrupts that are due ends: a handler only schedules
    interrupts in the future. *)
Lemma checkLoop_total δ ε fuel k :
  winv δ ε k → pending_ok k → devices_safe k → level (interrupt k) = IntOff →
  inHandler (interrupt k) = false → (due k < fuel)%nat →
  ∃ k', checkLoop rnd randomize fuel k = Ok k' ∧ devices_safe k'.
Proof.
  revert k. induction fuel as [|fuel IH]; intros k Hw Hp Hd Hlv Hin Hf; [lia|]. cbn.
  destruct (CheckIfDue_total δ ε false k) as (b & k1 & E & Hs1); [done..|]. rewrite E. cbn.
  apply (CheckIfDue_checked _ _ δ ε) in E as (Hw1 & Hp1 & Hc & Hdue); [|done..].
  destruct b; [|by eexists]. destruct (Hdue eq_refl) as [_ HS]. specialize (HS eq_refl).
  destruct Hc. destruct (IH k1) as (k2 & -> & Hs2); [done|done|done|congruence|done|lia|].
  by exists k2.
Qed.

Lemma due_check_fuel k : (due k < check_fuel k)%nat.
Proof. unfold due, check_fuel. pose proof (length_filter (λ x, x.2 ≤ totalTicks (stats k)) (pending (interrupt k))). lia. Qed.

Lemma push_total fs k : is_Some (threads k !! currentThread k) → ∃ k', push fs k = Ok k'.
Proof. intros [th E]. unfold push, set_stack. rewrite E. cbn. by eexists. Qed.

Lemma OneTick_total fs l k :
  active (λ _, 0) (λ _, 0) k fs l → devices_safe k → ∃ k', OneTick rnd randomize k = Ok k'.
Proof.
  intros (Hw & Hth & [Hin Hy] & Hp) Hd. unfold OneTick. cbv zeta.
  match goal with |- context [checkLoop _ _ (check_fuel ?x) ?x] =>
    destruct (checkLoop_total (λ _, 0) (λ _, 0) (check_fuel x) x) as (k1 & E & _) end;
    [by apply (winv_core _ _ k)|done|done|done|done|apply due_check_fuel|]. rewrite E. rcbn.
  apply (checkLoop_checked _ _ (λ _, 0) (λ _, 0)) in E as (Hw1 & _); [|by apply (winv_core _ _ k)|done..].
  case_match; [|by eexists]. apply push_total, Hw1.
Qed.

Lemma SetLevel_total fs l now k :
  active (λ _, 0) (λ _, 0) k fs l → devices_safe k → ∃ k', SetLevel rnd randomize now k = Ok k'.
Proof.
  intros Ha Hd. pose proof Ha as (_ & _ & [Hin _] & _).
  unfold SetLevel. rewrite Hin, orb_true_r. rcbn.
  destruct (decide _); [|by eexists]. eapply OneTick_total; [by apply active_level|done].
Qed.

(** Who is to blame when a step fails: the frame that runs and what is wrong. *)
Definition idle_forever k : Prop :=
  readyList k = [] ∧
  (pending (interrupt k) = [] ∨ ∃ p w, pending (interrupt k) = [(Some p, w)] ∧ type p = TimerInt).

Definition not_held l k : Prop := ∃ lk, locks k !! l = Some lk ∧ owner lk ≠ Some (currentThread k).

Definition fault (f : frame) (e : stop) k : Prop :=
  match f, e with
  | FClient, e => ∃ th, threads k !! currentThread k = Some th ∧
      (client_step (currentThread k) (totalTicks (stats k)) (resume th) (shared k) = Err e ∨
       ∃ g l c, client_step (currentThread k) (totalTicks (stats k)) (resume th) (shared k) = Ok (g, l, c) ∧
         ((∃ (n : nat) v, c = CNewSem n v ∧ is_Some (sems k !! SemId n) ∧ e = MemFault) ∨
          (∃ d n ty, c = CSchedule d n ty ∧ n ≤ 0 ∧ e = AssertFailed)))
  | FSleep, Exit => idle_forever k
  | (FPLoop s | FV s), MemFault => sems k !! s = None
  | FAcquire l, AssertFailed => ∃ lk, locks k !! l = Some lk ∧ owner lk = Some (currentThread k)
  | (FRelease l | FWait _ l | FSignal _ l | FBroadcast _ l), AssertFailed => not_held l k
  | FWaitSleep c, AssertFailed => is_Some (conds k !! c)
  | (FAcquire l | FOwner l | FRelease l | FWait _ l), MemFault => locks k !! l = None
  | (FSignal c l | FBroadcast c l), MemFault => locks k !! l = None ∨ conds k !! c = None
  | FWaitSleep c, MemFault => conds k !! c = None
  | _, _ => False
  end.

(** A piece of client code that returns with a call in order is not to blame. *)
Lemma client_no_fault k th g l c e :
  threads k !! currentThread k = Some th →
  client_step (currentThread k) (totalTicks (stats k)) (resume th) (shared k) = Ok (g, l, c) →
  (∀ n v, c ≠ CNewSem n v) → (∀ d n ty, c = CSchedule d n ty → 0 < n) → ¬ fault FClient e k.
Proof.
  intros Hth Er Hns Hsc (th' & Hth' & Hf). rewrite Hth in Hth'. injection Hth' as <-.
  destruct Hf as [Hf|(? & ? & ? & Hf & Hcase)]; rewrite Er in Hf; [done|].
  injection Hf as <- <- <-. destruct Hcase as [(n & v & -> & _)|(d & n & ty & -> & Hn & _)].
  - by destruct (Hns n v).
  - specialize (Hsc _ _ _ eq_refl). lia.
Qed.

Lemma SetLevel_Off_total k : SetLevel rnd randomize IntOff k = Ok (set_level IntOff k).
Proof. unfold SetLevel. cbn. by rewrite decide_False by naive_solver. Qed.

Lemma Run_total t k :
  is_Some (threads k !! currentThread k) → is_Some (threads k !! t) → ∃ k', Run t k = Ok k'.
Proof.
  intros [th Hth] [th' Ht]. unfold Run, push, set_stack, setStatus. rewrite Hth. cbn.
  rewrite lookup_insert. case_decide; [by eexists|]. rewrite Ht. by eexists.
Qed.

Lemma ready_exists δ ε k t ts : winv δ ε k → readyList k = t :: ts → is_Some (threads k !! t).
Proof.
  intros Hw E. destruct (proj1 (w_ready _ _ _ Hw t)) as (th & ? & _); [rewrite E; constructor|eauto].
Qed.

Lemma Yield_total k fs l : active (λ _, 0) (λ _, 0) k fs l → ∃ k', Yield rnd randomize k = Ok k'.
Proof.
  intros Ha. unfold Yield. rewrite SetLevel_Off_total. rcbn.
  apply (active_level _ _ _ _ _ IntOff) in Ha. rewrite (push_active _ _ _ _ _ _ Ha). rcbn.
  destruct Ha as (Hw & Hth & _). unfold FindNextToRun. cbn [upd_cur readyList set_threads].
  destruct (readyList _) as [|t ts] eqn:Hr; [by eexists|].
  apply (ready_exists _ _ _ _ _ Hw) in Hr. unfold ReadyToRun, setStatus. cbn.
  rewrite lookup_insert_eq. cbn. apply Run_total; cbn.
  - rewrite lookup_insert_eq. eauto.
  - rewrite !lookup_insert. repeat case_decide; eauto.
Qed.

Lemma RunTail_total k fs l : active (λ _, 0) (λ _, 0) k fs l → ∃ k', RunTail k = Ok k'.
Proof.
  intros (Hw & Hth & _). unfold RunTail. destruct (threadToBeDestroyed k) as [d|] eqn:Hd; [|by eexists].
  destruct (w_destroyed _ _ _ Hw d Hd) as (th & E & Hb & _).
  rewrite bool_decide_true, E; [by eexists|]. intros ->. rewrite Hth in E. by injection E as <-.
Qed.

Lemma Finish_total k fs l : active (λ _, 0) (λ _, 0) k fs l → ∃ k', Finish rnd randomize k = Ok k'.
Proof.
  intros (Hw & Hth & _). unfold Finish, Sleep. rewrite SetLevel_Off_total. rcbn.
  rewrite bool_decide_true by done. rcbn. unfold setStatus. cbn. rewrite Hth. rcbn.
  apply push_total. cbn. rewrite lookup_insert_eq. eauto.
Qed.

Lemma CheckIfDue_idle k k' :
  pending_ok k → mstatus (interrupt k) = IdleMode →
  CheckIfDue rnd randomize true k = Ok (false, k') →
  pending (interrupt k) = [] ∨ ∃ p w, pending (interrupt k) = [(Some p, w)] ∧ type p = TimerInt.
Proof.
  intros [_ Hall] Hm H. unfold CheckIfDue in H. apply bind_Ok in H as (_ & _ & H).
  destruct (pending (interrupt k)) as [|[[p|] w] rest] eqn:Hpe; [by left| |].
  2: { apply Forall_cons in Hall as [[? ?] _]. done. }
  assert (∀ k1, pending (interrupt k1) = rest →
    fire rnd randomize p w (mstatus (interrupt k)) k1 = Ok (false, k') →
    rest = [] ∧ type p = TimerInt) as Hf.
  { intros k1 E Hf. unfold fire in Hf. case_match eqn:Hb.
    - rewrite !andb_true_iff, !bool_decide_eq_true in Hb. rewrite E in Hb. naive_solver.
    - by apply bind_Ok in Hf as (? & _ & ?). }
  right. exists p, w. cbn [andb] in H. case_match.
  - apply Hf in H as [-> ?]; done.
  - apply Hf in H as [-> ?]; done.
Qed.

Lemma SleepLoop_fault k st fs l e :
  asleep k st fs l → devices_safe k → SleepLoop rnd randomize k = Err e → fault FSleep e k.
Proof.
  intros Ha Hd H. pose proof Ha as (Hw & Hth & _ & _ & _ & Hlv & [Hin Hy] & Hp).
  unfold SleepLoop, FindNextToRun in H. destruct (readyList k) as [|t ts] eqn:Hr.
  - apply bind_Err in H as [H|(k1 & HI & H)].
    2: { eapply Idle_asleep in HI as [st' (Hw1 & _)]; [|done].
         destruct (push_total [FSleep] k1) as [? E]; [apply Hw1|]. congruence. }
    unfold Idle in H.
    destruct (CheckIfDue_total (λ _, 0) (λ _, 0) true (set_mstatus IdleMode k))
      as (b & k1 & E & Hs1); [by apply (winv_core _ _ k)|done..|].
    apply bind_Err in H as [H|(? & E' & H)]; [congruence|]. rewrite E in E'. injection E' as <-.
    destruct b; [|injection H as <-; split; [done|]; by eapply CheckIfDue_idle in E].
    apply (CheckIfDue_checked _ _ (λ _, 0) (λ _, 0)) in E as (Hw1 & Hp1 & Hc & _);
      [|by apply (winv_core _ _ k)|done..].
    destruct Hc. destruct (checkLoop_total (λ _, 0) (λ _, 0) (check_fuel k1) k1) as (k2 & E2 & _);
      [done|done|done|by rewrite c_level|done|apply due_check_fuel|].
    by rewrite E2 in H.
  - edestruct (Run_total t) as [k1 E]; [| |rewrite E in H; done].
    + by eexists.
    + by eapply (ready_exists _ _ k).
Qed.

Lemma isHeld_Err l k e : isHeldByCurrentThread l k = Err e → locks k !! l = None ∧ e = MemFault.
Proof.
  unfold isHeldByCurrentThread. intros H.
  apply bind_Err in H as [H|(? & _ & ?)]; [|done]. by apply deref_Err in H.
Qed.

Lemma isHeld_Ok l k b : isHeldByCurrentThread l k = Ok b →
  ∃ lk, locks k !! l = Some lk ∧ b = bool_decide (owner lk = Some (currentThread k)).
Proof. unfold isHeldByCurrentThread. intros H. invert_ok. eauto. Qed.

(** The guard of [Release], [Wait], [Signal] and [Broadcast]. *)
Lemma held_guard {A} l k (m : Result A) e :
  (held ← isHeldByCurrentThread l k; ASSERT held;; m) = Err e →
  (locks k !! l = None ∧ e = MemFault) ∨ (not_held l k ∧ e = AssertFailed) ∨
  (is_Some (locks k !! l) ∧ m = Err e).
Proof.
  intros H. apply bind_Err in H as [H|(b & Hb & H)]; [left; by apply isHeld_Err|right].
  apply isHeld_Ok in Hb as (lk & Hl & ->). destruct (bool_decide _) eqn:Hb; cbn in H.
  - right. eauto.
  - left. injection H as <-. split; [|done]. exists lk. by apply bool_decide_eq_false in Hb.
Qed.

Lemma push_no_fault fs k e : is_Some (threads k !! currentThread k) → push fs k ≠ Err e.
Proof. intros Hk H. destruct (push_total fs k Hk). congruence. Qed.

Lemma V_fault s k fs l δ ε e :
  active δ ε k fs l → V rnd randomize s k = Err e → sems k !! s = None ∧ e = MemFault.
Proof.
  intros Ha H. unfold V in H. rewrite SetLevel_Off_total in H.
  apply bind_Err in H as [?|(? & [= <-] & H)]; [done|].
  apply (active_level _ _ _ _ _ IntOff) in Ha. pose proof Ha as (Hw & Hth & _).
  destruct (sems k !! s) as [sem|] eqn:Hs.
  - destruct (V_body_total _ _ s _ Hw) as (k1 & E & _); [by eexists|].
    rewrite E in H. apply bind_Err in H as [?|(? & [= <-] & H)]; [done|].
    apply push_no_fault in H; [done|]. pose proof (V_body_grows _ _ _ _ _ Hw E) as Hg.
    eapply grows_running in Hg; [|done]. by eexists.
  - unfold V_body in H. cbn in H. rewrite Hs in H. by injection H as <-.
Qed.

Lemma PLoop_fault s k e :
  is_Some (threads k !! currentThread k) → level (interrupt k) = IntOff →
  PLoop s k = Err e → sems k !! s = None ∧ e = MemFault.
Proof.
  intros [th Hth] Hlv H. unfold PLoop in H. destruct (sems k !! s) as [sem|] eqn:Hs;
    [|by injection H as <-]. exfalso. cbn in H. case_decide; [|done].
  unfold push, set_stack, Sleep in H. cbn in H. rewrite Hth in H. cbn in H.
  rewrite bool_decide_true in H by done. unfold setStatus in H. cbn in H.
  rewrite lookup_insert_eq in H. apply push_no_fault in H; [done|]. cbn.
  rewrite lookup_insert_eq. by eexists.
Qed.

Lemma Signal_fault c l k fs r e :
  active (λ _, 0) (λ _, 0) k fs r → Signal rnd randomize c l k = Err e → fault (FSignal c l) e k.
Proof.
  intros Ha [[? ->]|[[? ->]|[_ H]]]%held_guard; [by left|done|].
  rewrite SetLevel_Off_total in H. apply bind_Err in H as [?|(? & [= <-] & H)]; [done|].
  apply bind_Err in H as [[? ->]%deref_Err|(cv & Hcv%deref_Ok & H)]; [by right|exfalso].
  destruct Ha as (Hw & Hth & _). rewrite (w_conds _ _ _ Hw _ _ Hcv) in H.
  apply bind_Err in H as [?|(? & [= <-] & H)]; [done|].
  apply push_no_fault in H; [done|]. by eexists.
Qed.

Lemma Broadcast_fault c l k fs r e :
  active (λ _, 0) (λ _, 0) k fs r → Broadcast rnd randomize c l k = Err e →
  fault (FBroadcast c l) e k.
Proof.
  intros Ha [[? ->]|[[? ->]|[_ H]]]%held_guard; [by left|done|].
  rewrite SetLevel_Off_total in H. apply bind_Err in H as [?|(? & [= <-] & H)]; [done|].
  apply bind_Err in H as [[? ->]%deref_Err|(cv & Hcv%deref_Ok & H)]; [by right|exfalso].
  destruct Ha as (Hw & Hth & _). rewrite (w_conds _ _ _ Hw _ _ Hcv) in H.
  apply bind_Err in H as [?|(? & [= <-] & H)]; [done|].
  apply push_no_fault in H; [done|]. by eexists.
Qed.

Lemma WaitSleep_fault c k e :
  level (interrupt k) = IntOn → WaitSleep c k = Err e → fault (FWaitSleep c) e k.
Proof.
  intros Hlv H. unfold WaitSleep, Sleep in H.
  apply bind_Err in H as [[? ->]%deref_Err|(cv & Hcv%deref_Ok & H)]; [done|]. cbn in H.
  rewrite Hlv in H. injection H as <-. by eexists.
Qed.

Lemma ReadyToRun_total t k :
  is_Some (threads k !! t) → is_Some (threads k !! currentThread k) →
  ∃ k', ReadyToRun t k = Ok k' ∧ is_Some (threads k' !! currentThread k').
Proof.
  intros [th Ht] [th' Hk]. unfold ReadyToRun, setStatus. rewrite Ht. rcbn. eexists. split; [done|].
  cbn. rewrite lookup_insert. case_decide; eauto.
Qed.

Lemma Fork_no_fault start k e :
  is_Some (threads k !! currentThread k) → Fork rnd randomize start k ≠ Err e.
Proof.
  intros Hk H. unfold Fork in H. cbv zeta in H. rewrite SetLevel_Off_total in H.
  apply bind_Err in H as [?|(k1 & [= <-] & H)]; [done|].
  edestruct ReadyToRun_total as (k2 & E & Hk2); [| |rewrite E in H];
    [cbn; rewrite lookup_insert_eq; eauto|cbn; rewrite lookup_insert; case_decide; eauto|].
  by apply push_no_fault in H.
Qed.

Lemma client_fault k fs l e :
  active (λ _, 0) (λ _, 0) k fs l → client_code rnd randomize k = Err e → fault FClient e k.
Proof.
  intros (Hw & Hth & _) H. unfold client_code in H. rewrite Hth in H. cbn in H.
  exists (mkThread RUNNING fs l). split; [done|].
  apply bind_Err in H as [H|([[g l'] c] & Hc & H)]; [by left|right]. exists g, l', c. split; [done|].
  assert (∀ fs' k', threads k' = <[currentThread k := mkThread RUNNING fs l']> (threads k) →
    currentThread k' = currentThread k → push fs' k' ≠ Err e) as Hpush.
  { intros fs' k' E1 E2. apply push_no_fault. rewrite E1, E2, lookup_insert_eq. eauto. }
  destruct c; cbn in H; try by apply Hpush in H.
  - left. case_match; [|by apply Hpush in H]. injection H as <-. eauto.
  - exfalso. apply bind_Err in H as [H|(k1 & E & H)]; [by apply Hpush in H|].
    unfold push, set_stack in E. cbn in E. rewrite lookup_insert_eq in E. injection E as <-.
    apply Fork_no_fault in H; [done|]. cbn. rewrite lookup_insert_eq. eauto.
  - right. unfold Schedule in H. cbn in H. destruct (bool_decide (fromNow > 0)) eqn:Hn; cbn in H.
    + by apply Hpush in H.
    + injection H as <-. apply bool_decide_eq_false in Hn. eexists _, _, _. split_and!; [done|lia|done].
  - done.
Qed.

Lemma fault_pop f fs k k0 e : set_stack fs k = Ok k0 → fault f e k0 → fault f e k.
Proof.
  unfold set_stack. intros H. invert_ok. destruct f, e; cbn; try done;
    rewrite lookup_insert_eq; intros (th & [= <-] & Hf); exists x; done.
Qed.

(** A step of a well-formed machine fails only for the reasons of [fault]. *)
Lemma kstep_fault k e :
  wf k → devices_safe k → kstep rnd randomize k = Err e →
  ∃ th f fs, threads k !! currentThread k = Some th ∧ stack th = f :: fs ∧ fault f e k.
Proof.
  intros Hwf Hd H. pose proof Hwf as (_ & (th & Hth & Hcur) & _). exists th.
  unfold kstep in H. rewrite Hth in H. cbn in H.
  destruct (stack th) as [|f fs] eqn:Est.
  { exfalso. destruct Hcur as [[_ Ht]|(_ & _ & ? & ? & _)]; [inversion Ht|done]. }
  exists f, fs. split_and!; [done..|].
  apply bind_Err in H as [H|(k0 & Hk0 & H)].
  { unfold set_stack in H. by rewrite Hth in H. }
  assert (devices_safe k0) as Hd0.
  { unfold set_stack in Hk0. by invert_ok. }
  eapply fault_pop; [exact Hk0|].
  destruct (wf_pop rnd _ _ _ _ _ Hwf Hth Est Hk0) as [[Ht Ha]|[-> Ha]]; [|by eapply SleepLoop_fault].
  assert (is_Some (threads k0 !! currentThread k0)) as Hk by apply Ha.
  destruct (level (interrupt k0)) eqn:Hlv; inversion Ht; subst; cbn [exec] in H;
    try (pose proof Ha as Ha'; apply (popped_plain rnd) in Ha'; [|by cbn; intros; lia|
      by intros; apply at_loop_Run || apply at_loop_nonneg]).
  - destruct (SetLevel_total _ _ IntOn _ Ha' Hd0). congruence.
  - apply PLoop_fault in H as [? ->]; done.
  - apply PLoop_fault in H as [? ->]; done.
  - destruct (RunTail_total _ _ _ Ha'). congruence.
  - destruct (Finish_total _ _ _ Ha'). congruence.
  - by eapply client_fault.
  - done.
  - destruct (Yield_total _ _ _ Ha'). congruence.
  - unfold P in H. rewrite SetLevel_Off_total in H. by apply push_no_fault in H.
  - unfold P in H. rewrite SetLevel_Off_total in H. by apply push_no_fault in H.
  - by eapply V_fault in H as [? ->].
  - unfold Acquire in H. apply bind_Err in H as [[? ->]%isHeld_Err|(b & Hb & H)]; [done|].
    apply isHeld_Ok in Hb as (lk & Hl & ->). destruct (bool_decide _) eqn:Hb; cbn in H.
    + injection H as <-. apply bool_decide_eq_true in Hb. by exists lk.
    + by apply push_no_fault in H.
  - unfold set_owner in H. apply bind_Err in H as [[? ->]%deref_Err|(? & _ & ?)]; done.
  - apply held_guard in H as [[? ->]|[[? ->]|[[lk Hl] H]]]; [done..|exfalso].
    unfold set_owner in H. rewrite Hl in H. by apply push_no_fault in H.
  - apply held_guard in H as [[? ->]|[[? ->]|[_ H]]]; [done..|]. by apply push_no_fault in H.
  - by apply WaitSleep_fault.
  - by eapply Signal_fault.
  - by eapply Broadcast_fault.
Qed.

(** ** What a step leaves alone

    No step turns the clock back, and no step but [FOwner] and [FRelease]
    changes the owner of a lock. *)
Definition calmly k k' : Prop :=
  locks k' = locks k ∧ totalTicks (stats k) ≤ totalTicks (stats k').

Lemma calmly_refl k : calmly k k.
Proof. by split. Qed.

Lemma calmly_trans k1 k2 k3 : calmly k1 k2 → calmly k2 k3 → calmly k1 k3.
Proof. intros [? ?] [? ?]. split; [congruence|lia]. Qed.

Lemma push_calmly fs k k' : push fs k = Ok k' → calmly k k'.
Proof. unfold push, set_stack. intros H. by invert_ok. Qed.

Lemma ReadyToRun_calmly t k k' : ReadyToRun t k = Ok k' → calmly k k'.
Proof. unfold ReadyToRun, setStatus. intros H. by invert_ok. Qed.

Lemma Run_calmly t k k' : Run t k = Ok k' → calmly k k'.
Proof. unfold Run, push, set_stack, setStatus. intros H. by invert_ok. Qed.

Lemma Sleep_calmly k k' : Sleep k = Ok k' → calmly k k'.
Proof. unfold Sleep, push, set_stack, setStatus. intros H. by invert_ok. Qed.

Lemma checked_calmly k k' : checked k k' → calmly k k'.
Proof. intros [(_ & _ & _ & ? & _) _ _ _ ?]. by split. Qed.

Lemma OneTick_calmly fs l k k' :
  active (λ _, 0) (λ _, 0) k fs l → OneTick rnd randomize k = Ok k' → calmly k k'.
Proof.
  intros (Hw & Hth & [Hin Hy] & Hp) H. unfold OneTick in H. cbv zeta in H.
  apply bind_Ok in H as (k1 & Hc & H).
  apply (checkLoop_checked _ _ (λ _, 0) (λ _, 0)) in Hc as (_ & _ & [E1 E2]%checked_calmly);
    [|by apply (winv_core _ _ k)|done..]. cbn [locks stats set_level set_stats set_interrupt] in E1, E2.
  assert (calmly k k1) as Hk.
  { split; [done|]. destruct (decide _); cbn in E2; unfold SystemTick, UserTick in *; lia. }
  eapply calmly_trans; [exact Hk|]. case_match; [|by injection H as <-].
  by apply push_calmly in H.
Qed.

Lemma SetLevel_calmly fs l now k k' :
  active (λ _, 0) (λ _, 0) k fs l → SetLevel rnd randomize now k = Ok k' → calmly k k'.
Proof.
  intros Ha H. unfold SetLevel in H. apply bind_Ok in H as (_ & _ & H).
  destruct (decide _); [|by injection H as <-].
  apply (active_level _ _ _ _ _ now) in Ha. eapply OneTick_calmly in H; [|done]. done.
Qed.

Lemma SleepLoop_calmly st fs l k k' :
  asleep k st fs l → SleepLoop rnd randomize k = Ok k' → calmly k k'.
Proof.
  intros (Hw & _ & _ & _ & _ & _ & [Hin _] & Hp) H. unfold SleepLoop, FindNextToRun in H.
  destruct (readyList k); [|by apply Run_calmly in H]. unfold Idle in H.
  apply bind_Ok in H as (k3 & HI & H%push_calmly).
  apply bind_Ok in HI as ([b k1] & HC & HI). destruct b; [|done].
  apply bind_Ok in HI as (k2 & HL & [= <-]).
  apply (CheckIfDue_checked _ _ (λ _, 0) (λ _, 0)) in HC as (Hw1 & Hp1 & Hc1 & _);
    [|by apply (winv_core _ _ k)|done..].
  apply (checkLoop_checked _ _ (λ _, 0) (λ _, 0)) in HL as (_ & _ & Hc2); [|done|done|apply Hc1].
  eapply calmly_trans; [|exact H]. apply (calmly_trans _ k1); [exact (checked_calmly _ _ Hc1)|].
  exact (checked_calmly _ _ Hc2).
Qed.

Lemma Yield_calmly k k' : Yield rnd randomize k = Ok k' → calmly k k'.
Proof.
  intros H. unfold Yield in H. rewrite SetLevel_Off_total in H.
  apply bind_Ok in H as (? & [= <-] & H). apply bind_Ok in H as (k1 & [E1 E2]%push_calmly & H).
  apply (calmly_trans _ k1); [done|]. unfold FindNextToRun in H.
  destruct (readyList k1); [by injection H as <-|].
  apply bind_Ok in H as (k2 & [? ?]%ReadyToRun_calmly & [? ?]%Run_calmly).
  split; cbn in *; [congruence|lia].
Qed.

Lemma V_calmly δ ε s k k' : winv δ ε k → V rnd randomize s k = Ok k' → calmly k k'.
Proof.
  intros Hw H. unfold V in H. rewrite SetLevel_Off_total in H.
  apply bind_Ok in H as (? & [= <-] & H). apply bind_Ok in H as (k1 & HV & H%push_calmly).
  apply (calmly_trans _ k1); [|done]. pose proof (V_body_frame _ _ _ HV) as (_ & Es & _).
  apply (V_body_grows δ ε) in HV as (_ & _ & _ & ? & _); [|by apply (winv_core _ _ k)].
  split; [done|]. by rewrite Es.
Qed.

Lemma PLoop_calmly s k k' : PLoop s k = Ok k' → calmly k k'.
Proof.
  unfold PLoop. intros H. apply bind_Ok in H as (sem & _ & H). case_decide; [|by injection H as <-].
  apply bind_Ok in H as (k1 & [? ?]%push_calmly & [? ?]%Sleep_calmly). split; cbn in *; [congruence|lia].
Qed.

Lemma ReadyAll_calmly ts k k' : ReadyAll ts k = Ok k' → calmly k k'.
Proof.
  revert k. induction ts as [|t ts IH]; intros k H; cbn in H; [by injection H as <-|].
  apply bind_Ok in H as (k1 & H1%ReadyToRun_calmly & H2%IH). by eapply calmly_trans.
Qed.

Lemma Fork_calmly start k k' : Fork rnd randomize start k = Ok k' → calmly k k'.
Proof.
  intros H. unfold Fork in H. cbv zeta in H. rewrite SetLevel_Off_total in H.
  apply bind_Ok in H as (? & [= <-] & H).
  apply bind_Ok in H as (k1 & [? ?]%ReadyToRun_calmly & [? ?]%push_calmly).
  split; cbn in *; [congruence|lia].
Qed.

Lemma client_calmly k k' : client_code rnd randomize k = Ok k' → calmly k k'.
Proof.
  intros H. unfold client_code in H. apply bind_Ok in H as (th & _ & H).
  apply bind_Ok in H as ([[g l] c] & _ & H). set (k0 := set_shared _ _) in H.
  assert (calmly k0 k') as [? ?]; [|by split].
  clearbody k0. destruct c; cbn in H; try by apply push_calmly in H.
  - case_match; [done|]. by apply push_calmly in H.
  - apply bind_Ok in H as (k1 & H1%push_calmly & H2%Fork_calmly). by eapply calmly_trans.
  - apply bind_Ok in H as (k1 & (_ & ->)%Schedule_Ok & H%push_calmly). done.
  - by injection H as <-.
Qed.

Lemma Signal_calmly c l k k' : Signal rnd randomize c l k = Ok k' → calmly k k'.
Proof.
  intros H. unfold Signal in H. apply bind_Ok in H as (held & _ & H).
  apply bind_Ok in H as (_ & _ & H). rewrite SetLevel_Off_total in H.
  apply bind_Ok in H as (? & [= <-] & H). apply bind_Ok in H as (cv & _ & H).
  apply bind_Ok in H as (k1 & H1 & [? ?]%push_calmly).
  assert (calmly k k1) as [? ?]; [|split; [congruence|lia]].
  case_match; [by injection H1 as <-|]. by apply ReadyToRun_calmly in H1.
Qed.

Lemma Broadcast_calmly c l k k' : Broadcast rnd randomize c l k = Ok k' → calmly k k'.
Proof.
  intros H. unfold Broadcast in H. apply bind_Ok in H as (held & _ & H).
  apply bind_Ok in H as (_ & _ & H). rewrite SetLevel_Off_total in H.
  apply bind_Ok in H as (? & [= <-] & H). apply bind_Ok in H as (cv & _ & H).
  apply bind_Ok in H as (k1 & [? ?]%ReadyAll_calmly & [? ?]%push_calmly).
  split; cbn in *; [congruence|lia].
Qed.

Lemma Release_owner l k k' :
  Release l k = Ok k' → ∃ lk, locks k !! l = Some lk ∧ owner lk = Some (currentThread k) ∧
    locks k' = <[l := mkLock None]> (locks k) ∧ totalTicks (stats k) ≤ totalTicks (stats k').
Proof.
  unfold Release. intros H. apply bind_Ok in H as (held & Hh & H).
  apply bind_Ok in H as ([] & Ha%ASSERT_Ok & H). subst held.
  apply bind_Ok in H as (k1 & HO & [E3 E4]%push_calmly). unfold set_owner in HO.
  apply bind_Ok in HO as (lk & Hl & [= <-]). apply deref_Ok in Hl.
  exists lk. split_and!; [done|by eapply isHeld_true|done|done].
Qed.

(** How the owners of locks change in one step. *)
Definition owners_step k k' : Prop :=
  locks k' = locks k ∨
  ∃ th f fs l lk, threads k !! currentThread k = Some th ∧ stack th = f :: fs ∧
    locks k !! l = Some lk ∧
    ((f = FOwner l ∧ owner lk = None ∧ locks k' = <[l := mkLock (Some (currentThread k))]> (locks k)) ∨
     (f = FRelease l ∧ owner lk = Some (currentThread k) ∧ locks k' = <[l := mkLock None]> (locks k))).

Lemma kstep_frame k k' :
  wf k → kstep rnd randomize k = Ok k' →
  totalTicks (stats k) ≤ totalTicks (stats k') ∧ owners_step k k'.
Proof.
  intros Hwf H. unfold kstep in H. apply bind_Ok in H as (th & Hth & H). apply deref_Ok in Hth.
  destruct (stack th) as [|f fs] eqn:Est; [done|]. apply bind_Ok in H as (k0 & Hk0 & H).
  assert (calmly k k0 ∧ currentThread k0 = currentThread k) as [[E0 E1] E2].
  { unfold set_stack in Hk0. by invert_ok. }
  assert (calmly k0 k' → totalTicks (stats k) ≤ totalTicks (stats k') ∧ owners_step k k') as Hcalm.
  { intros [? ?]. split; [lia|]. left. congruence. }
  destruct (wf_pop rnd _ _ _ _ _ Hwf Hth Est Hk0) as [[Ht Ha]|[-> Ha]];
    [|by apply Hcalm; eapply SleepLoop_calmly].
  destruct (level (interrupt k0)) eqn:Hlv; inversion Ht; subst; cbn [exec] in H;
    try (pose proof Ha as Ha'; apply (popped_plain rnd) in Ha'; [|by cbn; intros; lia|
      by intros; apply at_loop_Run || apply at_loop_nonneg]).
  - apply Hcalm. by eapply SetLevel_calmly.
  - apply Hcalm. by eapply PLoop_calmly.
  - apply Hcalm. by eapply PLoop_calmly.
  - apply Hcalm. unfold RunTail in H. case_match; [by invert_ok|by injection H as <-].
  - apply Hcalm. unfold Finish in H. rewrite SetLevel_Off_total in H.
    apply bind_Ok in H as (? & [= <-] & H%Sleep_calmly). done.
  - apply Hcalm. by apply client_calmly.
  - apply Hcalm. by injection H as <-.
  - apply Hcalm. by apply Yield_calmly.
  - apply Hcalm. unfold P in H. rewrite SetLevel_Off_total in H. by apply push_calmly in H.
  - apply Hcalm. unfold P in H. rewrite SetLevel_Off_total in H. by apply push_calmly in H.
  - apply Hcalm. destruct Ha as (Hw & _). by eapply V_calmly.
  - apply Hcalm. unfold Acquire in H. apply bind_Ok in H as (held & _ & H).
    apply bind_Ok in H as (_ & _ & H). by apply push_calmly in H.
  - unfold set_owner in H. apply bind_Ok in H as (lk & Hl & [= <-]). apply deref_Ok in Hl.
    pose proof (owner_free rnd _ _ _ _ _ _ Ha ltac:(done) Hl) as Ho. split; [done|]. right.
    rewrite E0 in Hl. eexists th, _, fs, _, lk. split_and!; [done..|]. left. cbn. by rewrite E0, E2.
  - apply Release_owner in H as (lk & Hl & Ho & E3 & E4). split; [lia|]. right.
    rewrite E0 in *. rewrite E2 in Ho. eexists th, _, fs, _, lk. split_and!; [done..|]. right. done.
  - apply Hcalm. unfold Wait in H. apply bind_Ok in H as (held & _ & H).
    apply bind_Ok in H as (_ & _ & H). by apply push_calmly in H.
  - by apply WaitSleep_fails in H.
  - apply Hcalm. by eapply Signal_calmly.
  - apply Hcalm. by eapply Broadcast_calmly.
Qed.

Lemma wf_units_nonneg k n : wf k → 0 ≤ total (units n ∘ stack) (threads k).
Proof.
  intros (Hw & (th & Hth & Hcur) & _). apply total_nonneg. intros t th' E. unfold compose.
  destruct (decide (t = currentThread k)) as [->|Hne].
  - rewrite Hth in E. injection E as <-. destruct Hcur as [[_ ?]|(_ & _ & fs & -> & Hs & _)].
    + by eapply units_nonneg.
    + cbn. by apply units_sleeping.
  - destruct (w_parked _ _ _ Hw t th' E Hne) as [[_ ?]|(_ & fs & -> & Hs)].
    + by eapply units_nonneg.
    + cbn. by apply units_sleeping.
Qed.

(** ** Theorems *)

(** C1: the scheduler's data structures agree with the threads in every
    reachable state: the ready list has no duplicates and holds exactly the
    READY threads, the queue of a semaphore exactly the threads blocked in its
    [P], and a thread that is not current is READY or BLOCKED. *)
Theorem scheduler_consistent {Hsane : SaneClient} k :
  reachable k →
  NoDup (readyList k) ∧
  (∀ t, t ∈ readyList k ↔ ∃ th, threads k !! t = Some th ∧ status th = READY) ∧
  (∀ s sem, sems k !! s = Some sem → NoDup (queue sem) ∧
    ∀ t, t ∈ queue sem ↔ ∃ th, threads k !! t = Some th ∧ status th = BLOCKED ∧
      waiting (stack th) = Some s) ∧
  (∀ t th, threads k !! t = Some th → t ≠ currentThread k → status th = READY ∨ status th = BLOCKED).
Proof.
  intros (Hw & _)%reachable_wf. split_and!; [apply Hw..| |].
  - intros s sem Hs. split; [by eapply w_queue_nodup|]. intros t. by apply (w_queue _ _ _ Hw).
  - intros t th Ht Hne. destruct (w_parked _ _ _ Hw t th Ht Hne) as [[? _]|[? _]]; auto.
Qed.

(** C5: a step from a reachable state fails only for a reason listed in
    [fault]: the client's own code, an object that does not exist, a lock
    acquired by its owner or released, waited with, signalled or broadcast by a
    thread that does not hold it, [Condition::Wait], or [Halt] when nothing is
    left to do.  In particular the assertions of [Interrupt], [Scheduler],
    [Thread] and [Semaphore] hold and the loops over due interrupts end.  This
    is for devices whose handlers return, ask for interrupts at positive delays
    only and signal semaphores that exist ([devices_safe]), for a [Random()] that
    is not negative, and for the unbounded clock of [Kernel.v]: [KernelClock.v]
    shows that the clock of the source, an [int], does the same until it comes
    within the longest delay of 2^31, and that the loop does not end then. *)
Theorem kernel_faults_only {Hsane : SaneClient} k e :
  reachable k → devices_safe k → kstep rnd randomize k = Err e →
  ∃ th f fs, threads k !! currentThread k = Some th ∧ stack th = f :: fs ∧ fault f e k.
Proof using rnd_nonneg. intros Hr. apply kstep_fault. by apply reachable_wf. Qed.

(** C6: no wakeup is lost: as long as some thread waits on a semaphore, its
    value is at most the number of threads already woken and about to test it
    again; and when moreover the machine is about to idle (nothing is ready and
    the current thread is blocked) the value is 0, so that nobody waits for a
    unit that is there. *)
Theorem no_lost_wakeup {Hsane : SaneClient} k s sem :
  reachable k → sems k !! s = Some sem → queue sem ≠ [] →
  value sem ≤ total (woken s) (threads k) ∧
  (∀ th, readyList k = [] → threads k !! currentThread k = Some th → status th = BLOCKED →
    value sem = 0).
Proof.
  intros (Hw & _)%reachable_wf Hs Hq. pose proof (w_wake _ _ _ Hw s sem Hs Hq) as Hle.
  cbn beta in Hle. split; [lia|]. intros th Hr Hth Hb. pose proof (w_value _ _ _ Hw s sem Hs).
  rewrite (total_zero (woken s)) in Hle; [lia|]. intros t th' Ht. unfold woken.
  case_decide as Hnb; [done|]. exfalso. destruct (decide (t = currentThread k)) as [->|Hne].
  - rewrite Hth in Ht. by injection Ht as <-.
  - destruct (w_parked _ _ _ Hw t th' Ht Hne) as [[? _]|[? _]]; [|done].
    assert (t ∈ readyList k) as Hin by (apply (w_ready _ _ _ Hw); eauto).
    rewrite Hr in Hin. by apply elem_of_nil in Hin.
Qed.

(** C7: mutual exclusion of locks: an owned lock stays with its owner until
    that owner, as the current thread, executes [Release] on it, and a thread
    becomes owner only of a lock that nobody owned. *)
Theorem lock_mutual_exclusion {Hsane : SaneClient} k k' l lk lk' :
  reachable k → kstep rnd randomize k = Ok k' →
  locks k !! l = Some lk → locks k' !! l = Some lk' →
  (∀ t, owner lk = Some t → owner lk' = Some t ∨
    (owner lk' = None ∧ currentThread k = t ∧
     ∃ th fs, threads k !! t = Some th ∧ stack th = FRelease l :: fs)) ∧
  (∀ t, owner lk' = Some t → owner lk = Some t ∨ (owner lk = None ∧ currentThread k = t)).
Proof.
  intros Hr%reachable_wf Hst Hl Hl'. destruct (kstep_frame _ _ Hr Hst) as [_ [E|Hex]].
  { rewrite E, Hl in Hl'. injection Hl' as <-. auto. }
  destruct Hex as (th & f & fs & n & lk0 & Hth & Es & Hn & Hcase).
  destruct (decide (n = l)) as [->|Hne].
  - rewrite Hl in Hn. injection Hn as <-.
    destruct Hcase as [(-> & Ho & E)|(-> & Ho & E)];
      rewrite E, lookup_insert_eq in Hl'; injection Hl' as <-; rewrite Ho; cbn.
    + split; [done|]. intros t [= <-]. auto.
    + split; [|done]. intros t [= <-]. right. split_and!; [done..|]. by exists th, fs.
  - assert (locks k' !! l = locks k !! l) as E
      by (destruct Hcase as [(_ & _ & ->)|(_ & _ & ->)]; by rewrite lookup_insert_ne).
    rewrite E, Hl in Hl'. injection Hl' as <-. auto.
Qed.

(** The semaphore of a lock is binary and is taken while the lock has an
    owner. *)
Theorem lock_binary {Hsane : SaneClient} k l lk sem :
  reachable k → locks k !! l = Some lk → sems k !! LockSem l = Some sem →
  (value sem = 0 ∨ value sem = 1) ∧ (is_Some (owner lk) → value sem = 0).
Proof.
  intros Hr%reachable_wf Hl Hs. pose proof (wf_units_nonneg _ l Hr) as Hu. destruct Hr as (Hw & _).
  pose proof (w_units _ _ _ Hw l lk sem Hl Hs) as E. pose proof (w_value _ _ _ Hw _ _ Hs).
  cbn beta in E. unfold owned in E. destruct (owner lk); split; [lia|lia|lia|by intros [? ?]].
Qed.

(** [Condition::Wait] never waits: no thread is ever on the queue of a
    condition variable, and a thread that reaches the point of [Wait] where it
    would go to sleep fails the assertion of [Thread::Sleep] that interrupts
    are off. *)
Theorem condition_wait_aborts {Hsane : SaneClient} k th c fs :
  reachable k → threads k !! currentThread k = Some th → stack th = FWaitSleep c :: fs →
  (∀ c' cv, conds k !! c' = Some cv → cqueue cv = []) ∧
  (is_Some (conds k !! c) → kstep rnd randomize k = Err AssertFailed).
Proof.
  intros Hr%reachable_wf Hth Est. split; [destruct Hr as (Hw & _); by apply Hw|]. intros [cv Hcv].
  destruct Hr as (_ & (th' & E & Hcur) & _). rewrite Hth in E. injection E as <-.
  assert (level (interrupt k) = IntOn) as Hlv.
  { destruct Hcur as [[_ Ht]|(_ & _ & ? & E & _)]; [|congruence].
    rewrite Est in Ht. by inversion Ht. }
  unfold kstep. rewrite Hth. rcbn. rewrite Est. unfold set_stack. rewrite Hth. rcbn.
  unfold exec, WaitSleep, Sleep. cbn. rewrite Hcv. cbn. by rewrite Hlv.
Qed.

(** The clock never runs backwards, and the pending interrupts are always
    sorted by the time at which they fire. *)
Theorem clock_and_interrupts {Hsane : SaneClient} k k' :
  reachable k → steps (kstep rnd randomize) k k' →
  totalTicks (stats k) ≤ totalTicks (stats k') ∧
  StronglySorted (λ x y, x.2 ≤ y.2) (pending (interrupt k')).
Proof.
  intros Hr%reachable_wf Hs. revert Hr. induction Hs as [k|k k1 k' H1 _ IH]; intros Hwf.
  - split; [lia|]. by destruct Hwf as (_ & _ & _ & ? & _).
  - destruct IH as [? ?]; [by eapply kstep_wf|]. destruct (kstep_frame _ _ Hwf H1) as [? _].
    split; [lia|done].
Qed.

(** [Yield] is round robin: the first ready thread gets the CPU and the
    thread that yields goes to the end of the ready list, or keeps the CPU when
    nothing else is ready. *)
Theorem Yield_round_robin {Hsane : SaneClient} k th fs :
  reachable k → threads k !! currentThread k = Some th → stack th = FYield :: fs →
  ∃ k', kstep rnd randomize k = Ok k' ∧
    match readyList k with
    | [] => currentThread k' = currentThread k ∧ readyList k' = []
    | t :: ts => currentThread k' = t ∧ readyList k' = ts ++ [currentThread k]
    end.
Proof.
  intros Hr%reachable_wf Hth Est. unfold kstep. rewrite Hth. rcbn. rewrite Est.
  destruct (set_stack fs k) as [k0|] eqn:Hk0; [|unfold set_stack in Hk0; by rewrite Hth in Hk0].
  rcbn. cbn [exec].
  destruct (wf_pop rnd _ _ _ _ _ Hr Hth Est Hk0) as [[_ Ha]|[? _]]; [|done].
  apply (popped_plain rnd) in Ha; [|by cbn; intros; lia|intros; apply at_loop_nonneg].
  destruct (Yield_total _ _ _ Ha) as [k' E]. exists k'. split; [done|].
  unfold Yield in E. rewrite SetLevel_Off_total in E. apply bind_Ok in E as (? & [= <-] & E).
  apply (active_level _ _ _ _ _ IntOff) in Ha. rewrite (push_active _ _ _ _ _ _ Ha) in E.
  apply bind_Ok in E as (? & [= <-] & E).
  assert (readyList k0 = readyList k ∧ currentThread k0 = currentThread k) as [E1 E2]
    by (unfold set_stack in Hk0; by invert_ok).
  unfold FindNextToRun in E. cbn [readyList upd_cur set_threads set_level set_interrupt] in E.
  rewrite E1 in E. destruct (readyList k) as [|t ts].
  - injection E as <-. cbn. by rewrite E1, E2.
  - unfold ReadyToRun, Run, push, set_stack, setStatus in E. invert_ok. by rewrite E2.
Qed.

(** [V] on a semaphore adds one to its value and moves exactly the thread
    that has waited longest, if there is one, to the end of the ready list. *)
Theorem V_wakes_first {Hsane : SaneClient} k th s sem fs :
  reachable k → threads k !! currentThread k = Some th → stack th = FV s :: fs →
  sems k !! s = Some sem →
  ∃ k', kstep rnd randomize k = Ok k' ∧
    sems k' = <[s := mkSem (value sem + 1) (tail (queue sem))]> (sems k) ∧
    readyList k' = readyList k ++ take 1 (queue sem) ∧ currentThread k' = currentThread k.
Proof.
  intros Hr%reachable_wf Hth Est Hs. unfold kstep. rewrite Hth. rcbn. rewrite Est.
  destruct (set_stack fs k) as [k0|] eqn:Hk0; [|unfold set_stack in Hk0; by rewrite Hth in Hk0].
  rcbn. cbn [exec].
  destruct (wf_pop rnd _ _ _ _ _ Hr Hth Est Hk0) as [[_ Ha]|[? _]]; [|done].
  assert (readyList k0 = readyList k ∧ currentThread k0 = currentThread k ∧ sems k0 = sems k)
    as (E1 & E2 & E3) by (unfold set_stack in Hk0; by invert_ok).
  destruct (V rnd randomize s k0) as [k'|e] eqn:E.
  2: { eapply V_fault in E as [E _]; [|exact Ha]. congruence. }
  exists k'. split; [done|]. unfold V in E. rewrite SetLevel_Off_total in E.
  apply bind_Ok in E as (? & [= <-] & E). apply bind_Ok in E as (k1 & HV & E).
  assert (sems k' = sems k1 ∧ readyList k' = readyList k1 ∧ currentThread k' = currentThread k1)
    as (-> & -> & ->) by (unfold push, set_stack in E; by invert_ok).
  unfold V_body in HV. cbn in HV. rewrite E3, Hs in HV. cbn in HV.
  unfold ReadyToRun, setStatus in HV. destruct (queue sem) as [|t q]; invert_ok; rewrite ?app_nil_r, ?E1, ?E2, ?E3; done.
Qed.
End spec.
