(* ===== verification/KernelClock.v ===== *)
(** * The clock of machine/interrupt.cc at the width of an [int]

    [Kernel.v] has the simulated time as an unbounded number.  In the source
    [stats->totalTicks] and the time of a pending interrupt are [int]s.  This
    file has the routines that compute times, [Interrupt::Schedule],
    [CheckIfDue], [OneTick] and [Idle], with the wrap-around of 32 bits; shows
    that they are those of [Kernel.v] as long as no time comes within the longest
    delay of 2^31; and what happens after it. *)

From stdpp Require Import relations.
From S2P Require Import Prelude NachList Kernel KernelInv KernelSpec.

Local Open Scope Z_scope.

Section clock.
Context {C : Client}.
Context (rnd : nat → Z) (randomize : bool).
Implicit Types k : kernel.

(** ** The routines *)

Definition Schedule32 (h : handler) (fromNow : Z) (ty : IntType) (k : kernel) : Result kernel :=
  let w := s32 (totalTicks (stats k) + fromNow) in
  ASSERT (bool_decide (fromNow > 0));;
  mret (set_pending (sorted_insert (Some (mkPending h w ty), w) (pending (interrupt k))) k).

Definition TimerExpired32 (k : kernel) : Result kernel :=
  let '(fromNow, k) := TimeOfNextInterrupt rnd randomize k in
  k ← Schedule32 HTimer fromNow TimerInt k;
  TimerInterruptHandler k.

Fixpoint Schedule_all32 (ds : list (device * Z * IntType)) (k : kernel) : Result kernel :=
  match ds with
  | [] => mret k
  | (d, fromNow, ty) :: ds => k ← Schedule32 (HDevice d) fromNow ty k; Schedule_all32 ds k
  end.

Definition run_handler32 (h : handler) (k : kernel) : Result kernel :=
  match h with
  | HTimer => TimerExpired32 k
  | HDevice d =>
      '(g, ds, ss) ← device_handler d (shared k);
      k ← Schedule_all32 ds (set_shared g k);
      V_all ss k
  end.

Definition fire32 (toOccur : PendingInterrupt) (w : Z) (old : MachineStatus) (k : kernel)
  : Result (bool * kernel) :=
  if bool_decide (mstatus (interrupt k) = IdleMode) &&
     bool_decide (type toOccur = TimerInt) && bool_decide (pending (interrupt k) = [])
  then mret (false, put_back toOccur w k)
  else
    k ← run_handler32 (phandler toOccur) (set_mstatus SystemMode (set_inHandler true k));
    mret (true, set_inHandler false (set_mstatus old k)).

Definition CheckIfDue32 (advanceClock : bool) (k : kernel) : Result (bool * kernel) :=
  let old := mstatus (interrupt k) in
  ASSERT (bool_decide (level (interrupt k) = IntOff));;
  match pending (interrupt k) with
  | [] => mret (false, k)
  | (None, _) :: rest => mret (false, set_pending rest k)
  | (Some toOccur, w) :: rest =>
      let k := set_pending rest k in
      let total := totalTicks (stats k) in
      if advanceClock && bool_decide (w > total) then
        fire32 toOccur w old
          (set_stats (mkStats w (s32 (idleTicks (stats k) + s32 (w - total)))
             (systemTicks (stats k)) (userTicks (stats k))) k)
      else if bool_decide (w > total) then mret (false, put_back toOccur w k)
      else fire32 toOccur w old k
  end.

Fixpoint checkLoop32 (fuel : nat) (k : kernel) : Result kernel :=
  match fuel with
  | O => Err OutOfFuel
  | S fuel =>
      '(due, k) ← CheckIfDue32 false k;
      if due : bool then checkLoop32 fuel k else mret k
  end.

Definition OneTick32 (k : kernel) : Result kernel :=
  let old := mstatus (interrupt k) in
  let st := stats k in
  let k := set_stats
    (if decide (old = SystemMode) then
       mkStats (s32 (totalTicks st + SystemTick)) (idleTicks st) (s32 (systemTicks st + SystemTick)) (userTicks st)
     else
       mkStats (s32 (totalTicks st + UserTick)) (idleTicks st) (systemTicks st) (s32 (userTicks st + UserTick))) k in
  let k := set_level IntOff k in
  k ← checkLoop32 (check_fuel k) k;
  let k := set_level IntOn k in
  if yieldOnReturn (interrupt k) then
    push [FYield; FTick old] (set_mstatus SystemMode (set_yieldOnReturn false k))
  else mret k.

Definition Idle32 (k : kernel) : Result kernel :=
  '(due, k) ← CheckIfDue32 true (set_mstatus IdleMode k);
  if due : bool then
    k ← checkLoop32 (check_fuel k) k;
    mret (set_mstatus SystemMode (set_yieldOnReturn false k))
  else Err Exit.

(** ** Times that fit *)

(** No delay, of the timer or of a device whose interrupts are handled from the
    globals [g] on, is longer than [D]. *)
Definition delays_fit (D : Z) (g : globals) : Prop :=
  TimerTicks * 2 ≤ D ∧
  ∀ d g1 g' ds ss, rtc handled g g1 → device_handler d g1 = Ok (g', ds, ss) →
    Forall (λ x : device * Z * IntType, x.1.2 ≤ D) ds.

(** The counters are [D] ticks away from the end of the [int]s. *)
Definition clock_fits (D : Z) (st : Statistics) : Prop :=
  0 ≤ idleTicks st ≤ totalTicks st ∧ 0 ≤ systemTicks st ≤ totalTicks st ∧ 0 ≤ userTicks st ≤ totalTicks st ∧
  totalTicks st + D < 2 ^ 31.

(** What handlers leave alone: time does not pass in them. *)
Definition handles k k' : Prop := stats k' = stats k ∧ rtc handled (shared k) (shared k').

Lemma handles_trans k1 k2 k3 : handles k1 k2 → handles k2 k3 → handles k1 k3.
Proof. intros [E1 H1] [E2 H2]. split; [congruence|by etrans]. Qed.

Lemma delays_handled D g g' : rtc handled g g' → delays_fit D g → delays_fit D g'.
Proof. intros Hr [H0 H]. split; [done|]. intros d g1 g2 ds ss Hg. apply H. by etrans. Qed.

Lemma Schedule_handles h n ty k k' : Schedule h n ty k = Ok k' → handles k k'.
Proof. intros H. unfold Schedule in H. by invert_ok. Qed.

Lemma Schedule_all_handles ds k k' : Schedule_all ds k = Ok k' → handles k k'.
Proof.
  revert k. induction ds as [|[[d n] ty] ds IH]; intros k H; cbn in H; [by injection H as <-|].
  apply bind_Ok in H as (k1 & H1%Schedule_handles & H2%IH). by eapply handles_trans.
Qed.

Lemma V_all_handles ss k k' : V_all ss k = Ok k' → handles k k'.
Proof.
  revert k. induction ss as [|s ss IH]; intros k H; cbn in H; [by injection H as <-|].
  apply bind_Ok in H as (k1 & H1 & H2%IH). eapply handles_trans; [|exact H2].
  unfold V_body, ReadyToRun, setStatus in H1. apply bind_Ok in H1 as (sem & _ & H1).
  destruct (queue sem); by invert_ok.
Qed.

Lemma TimeOfNextInterrupt_handles k :
  (TimeOfNextInterrupt rnd randomize k).1 ≤ TimerTicks * 2 ∧ handles k (TimeOfNextInterrupt rnd randomize k).2.
Proof.
  unfold TimeOfNextInterrupt. destruct randomize; cbn; [|by unfold TimerTicks].
  pose proof (Z.rem_bound_abs (rnd (randoms k)) (TimerTicks * 2) ltac:(done)). unfold TimerTicks in *. split; [lia|done].
Qed.

Lemma TimerExpired_handles k k' : TimerExpired rnd randomize k = Ok k' → handles k k'.
Proof.
  intros H. unfold TimerExpired in H. destruct (TimeOfNextInterrupt_handles k) as [_ Ht].
  destruct (TimeOfNextInterrupt rnd randomize k) as [n k1]. apply bind_Ok in H as (k2 & H1%Schedule_handles & H2).
  eapply handles_trans; [exact Ht|]. eapply handles_trans; [exact H1|].
  unfold TimerInterruptHandler, YieldOnReturn in H2. case_decide; by invert_ok.
Qed.

Lemma run_handler_handles h k k' : run_handler rnd randomize h k = Ok k' → handles k k'.
Proof.
  destruct h as [|d]; cbn; [apply TimerExpired_handles|]. intros H. apply bind_Ok in H as ([[g ds] ss] & Hd & H).
  apply bind_Ok in H as (k1 & H1%Schedule_all_handles & H2%V_all_handles).
  eapply handles_trans; [|exact H2]. eapply handles_trans; [|exact H1]. split; [done|]. apply rtc_once. by exists d, ds, ss.
Qed.

Lemma fire_handles p w old k b k' : fire rnd randomize p w old k = Ok (b, k') → handles k k'.
Proof.
  intros H. unfold fire in H. case_match; [by injection H as <- <-|].
  apply bind_Ok in H as (k1 & H1%run_handler_handles & H). injection H as <- <-. exact H1.
Qed.

Lemma CheckIfDue_handles k b k' : CheckIfDue rnd randomize false k = Ok (b, k') → handles k k'.
Proof.
  unfold CheckIfDue. intros H. apply bind_Ok in H as (_ & _ & H).
  destruct (pending (interrupt k)) as [|[[p|] w] rest]; [by injection H as <- <-| |by injection H as <- <-].
  cbn [andb] in H. case_match; [by injection H as <- <-|]. apply fire_handles in H. exact H.
Qed.

(** ** Equal as long as the times fit *)

Section fits.
Context (D : Z).

Lemma Schedule_int h n ty k : clock_fits D (stats k) → n ≤ D → Schedule32 h n ty k = Schedule h n ty k.
Proof.
  intros (_ & _ & H0 & H1) Hn. unfold Schedule32, Schedule. destruct (decide (n > 0)); [|by rewrite bool_decide_false].
  by rewrite s32_small by lia.
Qed.

Lemma Schedule_all_int ds k :
  clock_fits D (stats k) → Forall (λ x : device * Z * IntType, x.1.2 ≤ D) ds → Schedule_all32 ds k = Schedule_all ds k.
Proof.
  revert k. induction ds as [|[[d n] ty] ds IH]; intros k Hk Hds; cbn; [done|]. apply Forall_cons in Hds as [Hn Hds].
  rewrite Schedule_int by done. destruct (Schedule (HDevice d) n ty k) as [k1|e] eqn:E; rcbn; [|done].
  apply Schedule_handles in E as [E _]. apply IH; [by rewrite E|done].
Qed.

Lemma run_handler_int h k :
  clock_fits D (stats k) → delays_fit D (shared k) → run_handler32 h k = run_handler rnd randomize h k.
Proof.
  intros Hk [HT HD]. destruct h as [|d]; cbn.
  - unfold TimerExpired32, TimerExpired. destruct (TimeOfNextInterrupt_handles k) as [Hn [E _]].
    destruct (TimeOfNextInterrupt rnd randomize k) as [n k1]. cbn in Hn, E.
    rewrite Schedule_int; [done|by rewrite E|lia].
  - destruct (device_handler d (shared k)) as [[[g ds] ss]|e] eqn:E; rcbn; [|done].
    rewrite Schedule_all_int; [done|exact Hk|]. by eapply HD.
Qed.

Lemma fire_int p w old k :
  clock_fits D (stats k) → delays_fit D (shared k) → fire32 p w old k = fire rnd randomize p w old k.
Proof. intros Hk HD. unfold fire32, fire. case_match; [done|]. by rewrite run_handler_int. Qed.

Lemma CheckIfDue_int k :
  clock_fits D (stats k) → delays_fit D (shared k) → CheckIfDue32 false k = CheckIfDue rnd randomize false k.
Proof.
  intros Hk HD. unfold CheckIfDue32, CheckIfDue. destruct (bool_decide _); rcbn; [|done].
  destruct (pending (interrupt k)) as [|[[p|] w] rest]; [done| |done]. cbn [andb]. case_match; [done|]. by apply fire_int.
Qed.

Lemma checkLoop_int fuel k :
  clock_fits D (stats k) → delays_fit D (shared k) → checkLoop32 fuel k = checkLoop rnd randomize fuel k.
Proof.
  revert k. induction fuel as [|fuel IH]; intros k Hk HD; cbn; [done|]. rewrite CheckIfDue_int by done.
  destruct (CheckIfDue rnd randomize false k) as [[b k1]|e] eqn:E; rcbn; [|done].
  destruct b; [|done]. apply CheckIfDue_handles in E as [Es Er]. apply IH; [by rewrite Es|by eapply delays_handled].
Qed.

Lemma OneTick_int k :
  clock_fits (SystemTick + D) (stats k) → delays_fit D (shared k) → OneTick32 k = OneTick rnd randomize k.
Proof.
  intros Hk HD. unfold OneTick32, OneTick. cbv zeta. destruct Hk as (Hi & Hs & Hu & Ht).
  pose proof (proj1 HD) as HT. unfold SystemTick, TimerTicks in *.
  rewrite !(s32_small (_ + _)) by (unfold UserTick; lia).
  rewrite checkLoop_int; [done| |exact HD]. unfold UserTick. case_decide; split_and!; cbn; lia.
Qed.

Lemma Idle_int k :
  clock_fits D (stats k) → delays_fit D (shared k) → Forall (λ x, x.2 + D < 2 ^ 31) (pending (interrupt k)) →
  Idle32 k = Idle rnd randomize k.
Proof.
  intros Hk HD Hp. unfold Idle32, Idle.
  assert (CheckIfDue32 true (set_mstatus IdleMode k) = CheckIfDue rnd randomize true (set_mstatus IdleMode k) ∧
    ∀ b k', CheckIfDue rnd randomize true (set_mstatus IdleMode k) = Ok (b, k') →
      clock_fits D (stats k') ∧ delays_fit D (shared k')) as [-> Hnext].
  { unfold CheckIfDue32, CheckIfDue. cbn [interrupt set_mstatus set_interrupt level mstatus pending].
    destruct (bool_decide _); rcbn; [|done].
    destruct (pending (interrupt k)) as [|[[p|] w] rest]; [by split; [|intros ?? [= <- <-]]| |by split; [|intros ?? [= <- <-]]].
    apply Forall_cons in Hp as [Hw _]. cbn in Hw. cbn [andb stats set_pending set_interrupt].
    assert (∀ x, clock_fits D (stats x) → delays_fit D (shared x) → ∀ old b k', fire rnd randomize p w old x = Ok (b, k') →
      clock_fits D (stats k') ∧ delays_fit D (shared k')) as Hfire.
    { intros x Hx Hdx old b k' [E Hr]%fire_handles. split; [by rewrite E|by eapply delays_handled]. }
    case_bool_decide as Hgt.
    - destruct Hk as (Hi & Hs & Hu & Ht).
      assert (0 ≤ D) as HD0 by (pose proof (proj1 HD); unfold TimerTicks in *; lia).
      change (stats (set_mstatus IdleMode k)) with (stats k) in *.
      rewrite (s32_small (w - _)) by lia. rewrite (s32_small (_ + _)) by lia.
      match goal with |- fire32 _ _ _ ?x = _ ∧ _ =>
        assert (clock_fits D (stats x)) as Hx by (split_and!; cbn; lia) end.
      split; [by apply fire_int|]. intros b k'. by apply Hfire.
    - split; [by apply fire_int|]. intros b k'. by apply Hfire. }
  destruct (CheckIfDue rnd randomize true (set_mstatus IdleMode k)) as [[b k1]|e]; rcbn; [|done].
  destruct b; [|done]. destruct (Hnext true k1 eq_refl) as [H1 H2]. by rewrite checkLoop_int.
Qed.
End fits.

(** ** When they do not *)

(** The timer interrupt is the only one, is due, and its next time is beyond the
    [int]s. *)
Definition at_the_end k : Prop :=
  level (interrupt k) = IntOff ∧ mstatus (interrupt k) ≠ IdleMode ∧
  2 ^ 31 ≤ totalTicks (stats k) + TimerTicks < 2 ^ 31 + TimerTicks ∧
  ∃ w, w ≤ totalTicks (stats k) ∧ pending (interrupt k) = [(Some (mkPending HTimer w TimerInt), w)].

(** At the end of the [int]s the loop over due interrupts does not end: the next
    timer interrupt is at a negative time, and due at once. *)
Theorem clock_overflow_hangs fuel k : randomize = false → at_the_end k → checkLoop32 fuel k = Err OutOfFuel.
Proof.
  intros Hr. revert k. induction fuel as [|fuel IH]; intros k (Hl & Hm & Ht & w & Hw & Hp); [done|].
  cbn [checkLoop32]. unfold CheckIfDue32. rewrite Hl, Hp. cbn [andb bool_decide decide]. rcbn.
  rewrite (bool_decide_false (w > _)) by (cbn; lia). unfold fire32. cbn [interrupt set_pending set_interrupt mstatus pending].
  rewrite (bool_decide_false (mstatus (interrupt k) = IdleMode)) by done. cbn [andb run_handler32 phandler].
  unfold TimerExpired32, TimeOfNextInterrupt. rewrite Hr. unfold Schedule32. rcbn. unfold TimerInterruptHandler, YieldOnReturn.
  cbn. apply IH. split; [done|]. split; [exact Hm|]. split; [exact Ht|].
  assert (s32 (totalTicks (stats k) + TimerTicks) = totalTicks (stats k) + TimerTicks - 2 ^ 32) as E.
  { unfold s32. unfold TimerTicks in *. dlia. }
  eexists. split; [|reflexivity]. cbn [stats totalTicks set_inHandler set_mstatus set_interrupt]. etrans; [apply Z.eq_le_incl, E|].
  unfold TimerTicks in *. change (totalTicks (stats k) + 100 - 2 ^ 32 ≤ totalTicks (stats k)). lia.
Qed.
End clock.

(** ** Theorem *)


(** A configuration without any code but [main], which returns. *)
Definition no_client : Client := {|
  local := unit;
  globals := unit;
  device := Empty_set;
  client_step _ _ l g := Ok (g, l, CReturn);
  device_handler d _ := match d with end;
|}.

