(* ===== verification/KernelMachine.v ===== *)
(** * The kernel as an abstract machine of threads, semaphores and locks

    [amachine] is what the kernel offers to the code that uses it, without the
    scheduler, the ready list, interrupt levels and time: threads that run
    interleaved, semaphores whose [P] takes a positive value in one step, locks
    with an owner, and device interrupts that may arrive at any moment once
    they are scheduled.  [kstep_simulates] shows that every step of the kernel
    of [Kernel.v] is a sequence of steps of this machine; [machine_invariant]
    turns it into a proof rule for programs that use the kernel. *)

From stdpp Require Import relations.
From S2P Require Import Prelude NachList Kernel KernelInv KernelSpec.

Local Open Scope Z_scope.

(** ** The machine *)

Section machine.
Context {C : Client}.

Record amachine := mkAMachine {
  clients : gmap nat (list frame * local);  (**r calls in progress, resume point *)
  avalues : gmap semid Z;
  owners : gmap nat (option nat);
  irqs : list (device * IntType);           (**r scheduled device interrupts *)
  aglobals : globals;
}.

(** The order of the scheduled interrupts does not matter. *)
#[global] Instance amachine_equiv : Equiv amachine := λ a b,
  clients a = clients b ∧ avalues a = avalues b ∧ owners a = owners b ∧
  irqs a ≡ₚ irqs b ∧ aglobals a = aglobals b.

#[global] Instance amachine_equivalence : Equivalence (≡@{amachine}).
Proof.
  split; unfold equiv, amachine_equiv; [by intros ?; split_and!|intros ?? (? & ? & ? & ? & ?); by split_and!|].
  intros ??? (-> & -> & -> & -> & ->) (? & ? & ? & ? & ?). by split_and!.
Qed.

(** The thread [t] has the calls [ws] in progress; with none left it is gone. *)
Definition put (t : nat) (ws : list frame) (pc : local) (m : gmap nat (list frame * local)) :=
  match ws with
  | [] => delete t m
  | _ => <[t := (ws, pc)]> m
  end.

Definition with_client t ws pc (a : amachine) : amachine :=
  mkAMachine (put t ws pc (clients a)) (avalues a) (owners a) (irqs a) (aglobals a).
Definition with_value s v (a : amachine) : amachine :=
  mkAMachine (clients a) (<[s := v]> (avalues a)) (owners a) (irqs a) (aglobals a).
Definition with_owner l o (a : amachine) : amachine :=
  mkAMachine (clients a) (avalues a) (<[l := o]> (owners a)) (irqs a) (aglobals a).
Definition with_irqs ds (a : amachine) : amachine :=
  mkAMachine (clients a) (avalues a) (owners a) ds (aglobals a).
Definition with_globals g (a : amachine) : amachine :=
  mkAMachine (clients a) (avalues a) (owners a) (irqs a) g.

#[global] Instance with_client_proper t ws pc : Proper ((≡) ==> (≡)) (with_client t ws pc).
Proof. intros ?? (E & ? & ? & ? & ?). split_and!; try done. cbn. by rewrite E. Qed.
#[global] Instance with_value_proper s v : Proper ((≡) ==> (≡)) (with_value s v).
Proof. intros ?? (? & E & ? & ? & ?). split_and!; try done. cbn. by rewrite E. Qed.
#[global] Instance with_owner_proper l o : Proper ((≡) ==> (≡)) (with_owner l o).
Proof. intros ?? (? & ? & E & ? & ?). split_and!; try done. cbn. by rewrite E. Qed.

(** What a kernel call leaves of its caller: the call, then the caller's code. *)
Definition call_frames (c : call local device) : list frame :=
  match c with
  | CP s => [FP (SemId s); FClient]
  | CV s => [FV (SemId s); FClient]
  | CAcquire l => [FAcquire l; FClient]
  | CRelease l => [FRelease l; FClient]
  | CWait c l => [FWait c l; FClient]
  | CSignal c l => [FSignal c l; FClient]
  | CBroadcast c l => [FBroadcast c l; FClient]
  | CReturn => []
  | _ => [FClient]
  end.

(** The rest of its effect: a new semaphore, thread or scheduled interrupt. *)
Inductive call_effect : call local device → amachine → amachine → Prop :=
| E_NewSem s v a :
    avalues a !! SemId s = None → call_effect (CNewSem s v) a (with_value (SemId s) v a)
| E_Fork n start a :
    clients a !! n = None → call_effect (CFork start) a (with_client n [FClient] start a)
| E_Schedule d n ty a : call_effect (CSchedule d n ty) a (with_irqs ((d, ty) :: irqs a) a)
| E_plain c a :
    match c with CNewSem _ _ | CFork _ | CSchedule _ _ _ => False | _ => True end →
    call_effect c a a.

(** [V] of several semaphores. *)
Fixpoint bump (ss : list nat) (m : gmap semid Z) : option (gmap semid Z) :=
  match ss with
  | [] => Some m
  | s :: ss => v ← m !! SemId s; bump ss (<[SemId s := v + 1]> m)
  end.

(** What is scheduled, without the time. *)
Definition called (e : device * Z * IntType) : device * IntType := (e.1.1, e.2).

Inductive astep : amachine → amachine → Prop :=
| A_equiv a a' : a ≡ a' → astep a a'
| A_client t now pc g pc' c a a' :
    clients a !! t = Some ([FClient], pc) →
    client_step t now pc (aglobals a) = Ok (g, pc', c) →
    call_effect c (with_client t (call_frames c) pc' (with_globals g a)) a' →
    astep a a'
| A_P t s ws pc v a :
    clients a !! t = Some (FP s :: ws, pc) → avalues a !! s = Some v → v ≠ 0 →
    astep a (with_value s (v - 1) (with_client t ws pc a))
| A_V t s ws pc v a :
    clients a !! t = Some (FV s :: ws, pc) → avalues a !! s = Some v →
    astep a (with_value s (v + 1) (with_client t ws pc a))
| A_acquire t l ws pc o a :
    clients a !! t = Some (FAcquire l :: ws, pc) → owners a !! l = Some o → o ≠ Some t →
    astep a (with_client t (FP (LockSem l) :: FOwner l :: ws) pc a)
| A_owner t l ws pc a :
    clients a !! t = Some (FOwner l :: ws, pc) → owners a !! l = Some None →
    astep a (with_owner l (Some t) (with_client t ws pc a))
| A_release t l ws pc a :
    clients a !! t = Some (FRelease l :: ws, pc) → owners a !! l = Some (Some t) →
    astep a (with_owner l None (with_client t (FV (LockSem l) :: ws) pc a))
| A_wait t c l ws pc a :
    clients a !! t = Some (FWait c l :: ws, pc) → owners a !! l = Some (Some t) →
    astep a (with_client t (FRelease l :: FWaitSleep c :: FAcquire l :: ws) pc a)
| A_signal t f c l ws pc a :
    clients a !! t = Some (f :: ws, pc) → f = FSignal c l ∨ f = FBroadcast c l →
    owners a !! l = Some (Some t) → astep a (with_client t ws pc a)
| A_device d ty ds g es ss vs a :
    irqs a = (d, ty) :: ds → device_handler d (aglobals a) = Ok (g, es, ss) →
    bump ss (avalues a) = Some vs →
    astep a (mkAMachine (clients a) vs (owners a) ((called <$> es) ++ ds) g).

(** ** The machine a kernel state implements *)

(** The frames the machine sees; the loop of [P] is still the call of [P]. *)
Definition watch (f : frame) : option frame :=
  match f with
  | FFinish | FSetLevel _ | FTick _ | FYield | FSleep | FRun => None
  | FPLoop s => Some (FP s)
  | _ => Some f
  end.

Definition obs (th : Thread) : option (list frame * local) :=
  match omap watch (stack th) with
  | [] => None
  | ws => Some (ws, resume th)
  end.

Definition device_of (x : option PendingInterrupt * Z) : option (device * IntType) :=
  match x.1 with
  | Some (mkPending (HDevice d) _ ty) => Some (d, ty)
  | _ => None
  end.

Definition absf (k : kernel) : amachine :=
  mkAMachine (omap obs (threads k)) (value <$> sems k) (owner <$> locks k)
    (omap device_of (pending (interrupt k))) (shared k).

(** ** Steps the machine does not see *)

Section simulation.
Context (rnd : nat → Z) (randomize : bool).
Implicit Types (k : kernel) (th : Thread) (t : nat).

Lemma put_put t ws pc ws' pc' m : put t ws pc (put t ws' pc' m) = put t ws pc m.
Proof.
  destruct ws, ws'; cbn; by rewrite ?insert_insert_eq, ?insert_delete_eq, ?delete_insert_eq, ?delete_delete_eq.
Qed.

Lemma with_client_twice t ws pc ws' pc' a :
  with_client t ws pc (with_client t ws' pc' a) = with_client t ws pc a.
Proof. unfold with_client. cbn. by rewrite put_put. Qed.

(** A thread of the kernel is replaced. *)
Lemma absf_update t th k :
  absf (set_threads (<[t := th]> (threads k)) k) =
  with_client t (omap watch (stack th)) (resume th) (absf k).
Proof.
  unfold absf, with_client. cbn. f_equal. rewrite omap_insert. unfold obs at 1, put.
  by destruct (omap watch (stack th)).
Qed.

Lemma absf_same t th k :
  threads k !! t = Some th → with_client t (omap watch (stack th)) (resume th) (absf k) = absf k.
Proof. intros H. rewrite <- absf_update, insert_id by done. by destruct k. Qed.

Lemma absf_lookup t th k f ws :
  threads k !! t = Some th → omap watch (stack th) = f :: ws →
  clients (absf k) !! t = Some (f :: ws, resume th).
Proof. intros H E. cbn. rewrite lookup_omap, H. cbn. unfold obs. by rewrite E. Qed.

Lemma setStatus_absf t st k k' : setStatus t st k = Ok k' → absf k' = absf k.
Proof. 
  unfold setStatus. intros H. apply bind_Ok in H as (th & Hth%deref_Ok & [= <-]).
  rewrite absf_update. by apply (absf_same t th).
Qed.

Lemma set_stack_absf fs th k k' :
  threads k !! currentThread k = Some th → set_stack fs k = Ok k' →
  absf k' = with_client (currentThread k) (omap watch fs) (resume th) (absf k).
Proof. intros Hth H. unfold set_stack in H. rewrite Hth in H. injection H as <-. by rewrite absf_update. Qed.

Lemma omap_app {A B} (f : A → option B) l1 l2 : omap f (l1 ++ l2) = omap f l1 ++ omap f l2.
Proof. induction l1 as [|x l1 IH]; cbn; [done|]. destruct (f x); cbn; by rewrite IH. Qed.

Lemma push_absf fs th k k' :
  threads k !! currentThread k = Some th → push fs k = Ok k' →
  absf k' = with_client (currentThread k) (omap watch fs ++ omap watch (stack th)) (resume th) (absf k).
Proof.
  intros Hth H. unfold push in H. rewrite Hth in H. cbn in H.
  rewrite <- omap_app. by apply set_stack_absf.
Qed.

Lemma push_hidden fs k k' : omap watch fs = [] → push fs k = Ok k' → absf k' = absf k.
Proof.
  intros E H. destruct (threads k !! currentThread k) as [th|] eqn:Hth;
    [|unfold push in H; by rewrite Hth in H].
  rewrite (push_absf _ _ _ _ Hth H), E. by apply absf_same.
Qed.

Lemma ReadyToRun_absf t k k' : ReadyToRun t k = Ok k' → absf k' = absf k.
Proof. unfold ReadyToRun. intros H. apply bind_Ok in H as (k1 & <-%setStatus_absf & [= <-]). done. Qed.

Lemma ReadyAll_absf ts k k' : ReadyAll ts k = Ok k' → absf k' = absf k.
Proof.
  revert k. induction ts as [|t ts IH]; intros k H; cbn in H; [by injection H as <-|].
  apply bind_Ok in H as (k1 & <-%ReadyToRun_absf & H%IH). done.
Qed.

Lemma Run_absf t k k' : Run t k = Ok k' → absf k' = absf k.
Proof.
  unfold Run. intros H. apply bind_Ok in H as (k1 & H1 & H2%setStatus_absf).
  rewrite H2. by apply push_hidden in H1.
Qed.

Lemma Sleep_absf k k' : Sleep k = Ok k' → absf k' = absf k.
Proof.
  unfold Sleep. intros H. apply bind_Ok in H as (_ & _ & H).
  apply bind_Ok in H as (k1 & <-%setStatus_absf & H). by apply push_hidden in H.
Qed.

Lemma Yield_absf k k' : Yield rnd randomize k = Ok k' → absf k' = absf k.
Proof.
  intros H. unfold Yield in H. rewrite SetLevel_Off_total in H.
  apply bind_Ok in H as (? & [= <-] & H). apply bind_Ok in H as (k1 & H1 & H).
  apply push_hidden in H1; [|done]. trans (absf k1); [|done]. unfold FindNextToRun in H.
  destruct (readyList k1); [by injection H as <-|].
  apply bind_Ok in H as (k2 & H2%ReadyToRun_absf & H3%Run_absf). by rewrite H3, H2.
Qed.

(** Deleting a carcass: its only frame is the [FRun] it will never return from. *)
Lemma RunTail_absf δ ε k k' : winv δ ε k → RunTail k = Ok k' → absf k' = absf k.
Proof.
  intros Hw H. unfold RunTail in H. destruct (threadToBeDestroyed k) as [d|] eqn:Hd;
    [|by injection H as <-].
  apply bind_Ok in H as ([] & Hne%ASSERT_Ok & H). apply bool_decide_eq_true in Hne.
  apply bind_Ok in H as (th' & _ & [= <-]). unfold absf. cbn. f_equal.
  rewrite omap_delete. apply delete_id. rewrite lookup_omap.
  destruct (w_destroyed _ _ _ Hw d Hd) as (th & E & Hb & Hwt). rewrite E. cbn.
  destruct (w_parked _ _ _ Hw d th E Hne) as [[? _]|(_ & fs & Es & Hs)]; [congruence|].
  destruct Hs as [->|(? & ? & -> & _)]; [|by rewrite Es in Hwt].
  unfold obs. by rewrite Es.
Qed.

(** ** Interrupts *)

Lemma V_body_absf s k k' :
  V_body s k = Ok k' →
  ∃ v, avalues (absf k) !! s = Some v ∧ absf k' = with_value s (v + 1) (absf k).
Proof.
  unfold V_body. intros H. apply bind_Ok in H as (sem & Hs%deref_Ok & H).
  apply bind_Ok in H as (k1 & H1 & [= <-]). exists (value sem). cbn. rewrite lookup_fmap, Hs.
  split; [done|]. assert (absf k1 = absf k ∧ sems k1 = sems k) as [E1 E2].
  { destruct (queue sem); [by injection H1 as <-|]. split; [by eapply ReadyToRun_absf|].
    unfold ReadyToRun, setStatus in H1. by invert_ok. }
  rewrite <- E1. unfold absf, with_value. cbn. by rewrite fmap_insert.
Qed.

Lemma V_all_absf ss k k' :
  V_all ss k = Ok k' →
  ∃ vs, bump ss (avalues (absf k)) = Some vs ∧
    absf k' = mkAMachine (clients (absf k)) vs (owners (absf k)) (irqs (absf k)) (aglobals (absf k)).
Proof.
  revert k. induction ss as [|s ss IH]; intros k H; cbn [V_all] in H.
  - injection H as <-. by eexists.
  - apply bind_Ok in H as (k1 & (v & Hv & E)%V_body_absf & (vs & Hb & ->)%IH).
    exists vs. cbn [bump]. rewrite Hv. rewrite E in Hb |- *. by split.
Qed.

Lemma Schedule_absf h n ty k k' :
  Schedule h n ty k = Ok k' →
  absf k' ≡ with_irqs (omap device_of [(Some (mkPending h 0 ty), 0)] ++ irqs (absf k)) (absf k).
Proof.
  intros (_ & ->)%Schedule_Ok. unfold absf. cbn. split_and!; try done. cbn.
  rewrite sorted_insert_perm. by destruct h.
Qed.

Lemma Schedule_all_absf es k k' :
  Schedule_all es k = Ok k' → absf k' ≡ with_irqs ((called <$> es) ++ irqs (absf k)) (absf k).
Proof.
  revert k. induction es as [|[[d n] ty] es IH]; intros k H; cbn [Schedule_all] in H.
  - by injection H as <-.
  - apply bind_Ok in H as (k1 & (E1 & E2 & E3 & E4 & E5)%Schedule_absf & ->%IH).
    cbn in *. split_and!; try done. cbn. rewrite E4. by rewrite Permutation_middle.
Qed.

(** The machine can follow the kernel from [k] to [k']. *)
Definition follows k k' : Prop := rtc astep (absf k) (absf k').

Lemma follows_equiv k k' : absf k' ≡ absf k → follows k k'.
Proof. intros H. apply rtc_once, A_equiv. by symmetry. Qed.

Lemma TimerExpired_absf k k' : TimerExpired rnd randomize k = Ok k' → absf k' ≡ absf k.
Proof.
  unfold TimerExpired. intros H. destruct (TimeOfNextInterrupt rnd randomize k) as [n k1] eqn:E.
  assert (absf k1 = absf k) as <-.
  { unfold TimeOfNextInterrupt in E. destruct randomize; by injection E as <- <-. }
  apply bind_Ok in H as (k2 & E2%Schedule_absf & H). rewrite <- E2.
  unfold TimerInterruptHandler, YieldOnReturn in H. case_decide; invert_ok; done.
Qed.

Lemma put_back_absf p w k :
  absf (put_back p w k) ≡ with_irqs (omap device_of [(Some p, w)] ++ irqs (absf k)) (absf k).
Proof. split_and!; try done. cbn. rewrite sorted_insert_perm. cbn. by destruct p as [[] ? ?]. Qed.

(** Running the handler of an interrupt that was at the head of the queue. *)
Lemma run_handler_follows p w k k1 k' :
  absf k ≡ with_irqs (omap device_of [(Some p, w)] ++ irqs (absf k1)) (absf k1) →
  run_handler rnd randomize (phandler p) k1 = Ok k' → follows k k'.
Proof.
  intros E H. destruct p as [[|d] pw ty]; cbn in E, H.
  - apply TimerExpired_absf in H. apply follows_equiv. rewrite E. by rewrite H.
  - apply bind_Ok in H as ([[g es] ss] & Hd & H).
    apply bind_Ok in H as (k2 & (E1 & E2 & E3 & E4 & E5)%Schedule_all_absf & (vs & Hb & Ek')%V_all_absf).
    apply rtc_l with (y := with_irqs ((d, ty) :: irqs (absf k1)) (absf k1)); [by apply A_equiv|].
    eapply rtc_l; [eapply A_device; [done|exact Hd|]|].
    + rewrite E2 in Hb. exact Hb.
    + apply rtc_once, A_equiv. rewrite Ek'. by split_and!.
Qed.

Lemma fire_follows p w old k k1 b k' :
  absf k ≡ with_irqs (omap device_of [(Some p, w)] ++ irqs (absf k1)) (absf k1) →
  fire rnd randomize p w old k1 = Ok (b, k') → follows k k'.
Proof.
  intros E H. unfold fire in H. case_match.
  - injection H as <- <-. apply follows_equiv. rewrite E. apply put_back_absf.
  - apply bind_Ok in H as (k2 & H & [= <- <-]). by eapply run_handler_follows in H.
Qed.

Lemma CheckIfDue_follows adv k b k' : CheckIfDue rnd randomize adv k = Ok (b, k') → follows k k'.
Proof.
  intros H. unfold CheckIfDue in H. apply bind_Ok in H as (_ & _ & H).
  destruct (pending (interrupt k)) as [|[[p|] w] rest] eqn:Ep.
  - injection H as <- <-. apply rtc_refl.
  - assert (∀ k1, absf k1 = absf (set_pending rest k) →
      absf k ≡ with_irqs (omap device_of [(Some p, w)] ++ irqs (absf k1)) (absf k1)) as E.
    { intros k1 ->. split_and!; try done. cbn. rewrite Ep. cbn. by destruct p as [[] ? ?]. }
    repeat case_match;
      [eapply fire_follows; [|exact H]; by apply E| |eapply fire_follows; [|exact H]; by apply E].
    injection H as <- <-. apply follows_equiv. rewrite (E (set_pending rest k)) by done.
    apply put_back_absf.
  - injection H as <- <-. apply follows_equiv. split_and!; try done. cbn. by rewrite Ep.
Qed.

Lemma checkLoop_follows fuel k k' : checkLoop rnd randomize fuel k = Ok k' → follows k k'.
Proof.
  revert k. induction fuel as [|fuel IH]; intros k H; cbn in H; [done|].
  apply bind_Ok in H as ([b k1] & H1%CheckIfDue_follows & H).
  destruct b; [apply IH in H; unfold follows in *; by etrans|]. by injection H as <-.
Qed.

Lemma OneTick_follows k k' : OneTick rnd randomize k = Ok k' → follows k k'.
Proof.
  intros H. unfold OneTick in H. cbv zeta in H. apply bind_Ok in H as (k1 & Hc%checkLoop_follows & H).
  assert (absf k' = absf k1) as E; [|by unfold follows in *; rewrite E].
  case_match; [by apply push_hidden in H|]. by injection H as <-.
Qed.

Lemma SetLevel_follows now k k' : SetLevel rnd randomize now k = Ok k' → follows k k'.
Proof.
  intros H. unfold SetLevel in H. apply bind_Ok in H as (_ & _ & H).
  case_decide; [by apply OneTick_follows in H|injection H as <-; apply rtc_refl].
Qed.

Lemma SleepLoop_follows k k' : SleepLoop rnd randomize k = Ok k' → follows k k'.
Proof.
  intros H. unfold SleepLoop, FindNextToRun in H.
  destruct (readyList k); [|apply Run_absf in H; apply follows_equiv; by rewrite H]. unfold Idle in H.
  apply bind_Ok in H as (k3 & HI & H). apply push_hidden in H; [|done].
  apply bind_Ok in HI as ([b k1] & HC%CheckIfDue_follows & HI). destruct b; [|done].
  apply bind_Ok in HI as (k2 & HL%checkLoop_follows & [= <-]).
  unfold follows in *. rewrite H. by etrans.
Qed.

(** ** Steps the machine sees *)

Lemma isHeld_owner l k b :
  isHeldByCurrentThread l k = Ok b →
  ∃ o, owners (absf k) !! l = Some o ∧ b = bool_decide (o = Some (currentThread k)).
Proof.
  intros (lk & Hl & ->)%isHeld_Ok. exists (owner lk). cbn. rewrite lookup_fmap, Hl. by split.
Qed.

Lemma held_owner l k : isHeldByCurrentThread l k = Ok true → owners (absf k) !! l = Some (Some (currentThread k)).
Proof. intros (o & -> & Hb)%isHeld_owner. symmetry in Hb. by apply bool_decide_eq_true in Hb as ->. Qed.

Lemma set_owner_absf l o k k' : set_owner l o k = Ok k' → absf k' = with_owner l o (absf k).
Proof.
  unfold set_owner. intros H. apply bind_Ok in H as (lk & _ & [= <-]).
  unfold absf, with_owner. cbn. by rewrite fmap_insert.
Qed.

Lemma PLoop_absf s k k' th :
  threads k !! currentThread k = Some th → PLoop s k = Ok k' →
  absf k' = with_client (currentThread k) (FP s :: omap watch (stack th)) (resume th) (absf k) ∨
  ∃ v, avalues (absf k) !! s = Some v ∧ v ≠ 0 ∧ absf k' = with_value s (v - 1) (absf k).
Proof.
  intros Hth H. unfold PLoop in H. apply bind_Ok in H as (sem & Hs%deref_Ok & H). case_decide as Hv.
  - left. apply bind_Ok in H as (k1 & H1 & ->%Sleep_absf).
    eapply push_absf in H1 as ->; [|exact Hth]. cbn.
    enough (absf (set_sems (<[s:=mkSem 0 (queue sem ++ [currentThread k])]> (sems k)) k) = absf k) as -> by done.
    unfold absf. cbn. rewrite fmap_insert, insert_id; [done|]. cbn. by rewrite lookup_fmap, Hs, <- Hv.
  - right. injection H as <-. exists (value sem). cbn. rewrite lookup_fmap, Hs. split_and!; [done..|].
    unfold absf, with_value. cbn. by rewrite fmap_insert.
Qed.

Lemma Signal_absf c l k k' :
  Signal rnd randomize c l k = Ok k' ∨ Broadcast rnd randomize c l k = Ok k' →
  owners (absf k) !! l = Some (Some (currentThread k)) ∧ absf k' = absf k.
Proof.
  intros [H|H]; [unfold Signal in H|unfold Broadcast in H]; apply bind_Ok in H as (held & Hh & H);
    apply bind_Ok in H as ([] & ->%ASSERT_Ok & H); apply held_owner in Hh; (split; [done|]);
    rewrite SetLevel_Off_total in H; apply bind_Ok in H as (? & [= <-] & H);
    apply bind_Ok in H as (cv & _ & H); apply bind_Ok in H as (k1 & H1 & H2);
    apply push_hidden in H2 as ->; try done.
  - destruct (cqueue cv); [by injection H1 as <-|by apply ReadyToRun_absf in H1].
  - by apply ReadyAll_absf in H1.
Qed.

Lemma Fork_absf start k k' :
  Fork rnd randomize start k = Ok k' → absf k' = with_client (nextThread k) [FClient] start (absf k).
Proof.
  intros H. unfold Fork in H. cbv zeta in H. rewrite SetLevel_Off_total in H.
  apply bind_Ok in H as (? & [= <-] & H). apply bind_Ok in H as (k1 & H1%ReadyToRun_absf & H2).
  apply push_hidden in H2 as ->; [|done]. rewrite H1. unfold absf, with_client. cbn. by rewrite omap_insert.
Qed.

Lemma do_call_absf c k k' th :
  threads k !! currentThread k = Some th → omap watch (stack th) = [] →
  threads k !! nextThread k = None → do_call rnd randomize c k = Ok k' →
  ∃ a, call_effect c (with_client (currentThread k) (call_frames c) (resume th) (absf k)) a ∧ absf k' ≡ a.
Proof.
  intros Hth En Hfresh H.
  assert (∀ fs k1, push fs k = Ok k1 →
    absf k1 = with_client (currentThread k) (omap watch fs) (resume th) (absf k)) as Hp.
  { intros fs k1 H1. rewrite (push_absf _ _ _ _ Hth H1), En. by rewrite app_nil_r. }
  destruct c; cbn in H;
    try (eexists; split; [by apply E_plain|]; by rewrite (Hp _ _ H)).
  - destruct (sems k !! SemId s) eqn:Es; [done|]. eexists. split.
    { apply E_NewSem. cbn. by rewrite lookup_fmap, Es. }
    eapply push_absf in H as ->; [|exact Hth]. rewrite En. unfold absf, with_client, with_value. cbn.
    by rewrite fmap_insert.
  - apply bind_Ok in H as (k1 & H1 & ->%Fork_absf).
    assert (currentThread k ≠ nextThread k) by (intros E; rewrite E in Hth; congruence).
    assert (nextThread k1 = nextThread k) as -> by (unfold push, set_stack in H1; by invert_ok).
    rewrite (Hp _ _ H1). eexists. split; [|done]. apply E_Fork. cbn.
    rewrite lookup_insert_ne by done. by rewrite lookup_omap, Hfresh.
  - apply bind_Ok in H as (k1 & H1 & H2). eexists. split; [apply E_Schedule|].
    assert (threads k1 = threads k ∧ currentThread k1 = currentThread k) as [E1 E2]
      by (apply Schedule_Ok in H1 as (_ & ->); done).
    apply Schedule_absf in H1. rewrite <- E1, <- E2 in Hth. eapply push_absf in H2 as ->; [|exact Hth].
    rewrite En, E2, H1. done.
  - injection H as <-. eexists. split; [by apply E_plain|]. cbn [call_frames].
    rewrite <- En. by rewrite absf_same.
Qed.

(** The client's own code. *)
Lemma client_follows k k0 k' fs th :
  threads k !! currentThread k = Some th → stack th = FClient :: fs → omap watch fs = [] →
  threads k !! nextThread k = None → set_stack fs k = Ok k0 → client_code rnd randomize k0 = Ok k' →
  follows k k'.
Proof.
  intros Hth Est En Hfresh H0 H.
  assert (clients (absf k) !! currentThread k = Some ([FClient], resume th)) as Hc
    by (apply (absf_lookup _ th); [done|by rewrite Est; cbn; rewrite En]).
  pose proof (set_stack_absf _ _ _ _ Hth H0) as E0. rewrite En in E0.
  unfold set_stack in H0. rewrite Hth in H0. injection H0 as <-. unfold client_code in H. cbn in H.
  rewrite lookup_insert_eq in H. cbn in H. apply bind_Ok in H as ([[g pc'] c] & Hs & H).
  eapply do_call_absf in H as (a & He & E); [|cbn; by rewrite lookup_insert_eq|done|]; cbn in *.
  2: { assert (currentThread k ≠ nextThread k) by (intros E; rewrite E in Hth; congruence).
       by rewrite !lookup_insert_ne. }
  eapply rtc_l; [eapply A_client; [exact Hc|exact Hs|]|apply rtc_once, A_equiv; by symmetry].
  match type of He with call_effect _ ?x _ => match goal with |- call_effect _ ?y _ =>
    replace y with x; [exact He|] end end.
  unfold absf, with_client, with_globals. cbn. rewrite insert_insert_eq, omap_insert.
  unfold obs at 1. cbn. rewrite En. f_equal. apply (put_put _ _ _ [] pc').
Qed.

(** The state [k0] between popping the frame [f] off the current thread's
    stack and running it. *)
Definition popped (f : frame) (fs : list frame) (pc : local) k k0 : Prop :=
  currentThread k0 = currentThread k ∧
  (∃ st, threads k0 !! currentThread k0 = Some (mkThread st fs pc)) ∧
  (watch f = None → absf k0 = absf k) ∧
  ∀ f', watch f = Some f' →
    clients (absf k) !! currentThread k = Some (f' :: omap watch fs, pc) ∧
    absf k0 = with_client (currentThread k) (omap watch fs) pc (absf k).

Lemma set_stack_popped f fs th k k0 :
  threads k !! currentThread k = Some th → stack th = f :: fs → set_stack fs k = Ok k0 →
  popped f fs (resume th) k k0.
Proof.
  intros Hth Est H. pose proof (set_stack_absf _ _ _ _ Hth H) as E.
  unfold set_stack in H. rewrite Hth in H. injection H as <-.
  split_and!; [done|eexists; cbn; by rewrite lookup_insert_eq| |].
  - intros Ef. rewrite E. rewrite <- (absf_same _ _ _ Hth) at 2. rewrite Est. cbn. by rewrite Ef.
  - intros f' Ef. split; [|exact E]. apply (absf_lookup _ th); [done|]. rewrite Est. cbn. by rewrite Ef.
Qed.

(** The current thread pushes [gs] in place of [f]. *)
Lemma popped_push f f' fs pc k k0 gs k' :
  popped f fs pc k k0 → watch f = Some f' → push gs k0 = Ok k' →
  absf k' = with_client (currentThread k) (omap watch gs ++ omap watch fs) pc (absf k).
Proof.
  intros (Ec & [st Hth] & _ & Hw) Ef H. destruct (Hw _ Ef) as [_ Ek].
  eapply push_absf in H; [|exact Hth]. rewrite H, Ec, Ek. apply with_client_twice.
Qed.

(** The machine does not see a hidden frame run. *)
Lemma popped_hidden f fs pc k k0 k' :
  popped f fs pc k k0 → watch f = None → follows k0 k' → follows k k'.
Proof. intros (_ & _ & Hn & _) Ef. unfold follows. by rewrite (Hn Ef). Qed.

Lemma popped_back f f' fs pc k k0 :
  popped f fs pc k k0 → watch f = Some f' →
  with_client (currentThread k) (f' :: omap watch fs) pc (absf k) = absf k.
Proof.
  intros (_ & _ & _ & Hw) Ef. destruct (Hw _ Ef) as [Hc _].
  unfold with_client, put. rewrite insert_id by done. by destruct (absf k).
Qed.

Lemma P_follows s fs pc k k0 k' : popped (FP s) fs pc k k0 → P rnd randomize s k0 = Ok k' → follows k k'.
Proof.
  intros Hp H. unfold P in H. rewrite SetLevel_Off_total in H. apply follows_equiv.
  eapply popped_push in H; [|exact Hp|done].
  assert (absf k' = absf k) as -> by (etrans; [exact H|]; by eapply (popped_back (FP s))).
  done.
Qed.

Lemma PLoop_follows s fs pc k k0 k' : popped (FPLoop s) fs pc k k0 → PLoop s k0 = Ok k' → follows k k'.
Proof.
  intros Hp H. pose proof Hp as (Ec & [st Hth] & _ & Hw). destruct (Hw _ eq_refl) as [Hc Ek].
  eapply PLoop_absf in H as [H|(v & Hv & Hne & H)]; [| |exact Hth].
  - apply follows_equiv. rewrite H, Ec, Ek, with_client_twice. cbn.
    by rewrite (popped_back _ _ _ _ _ _ Hp eq_refl).
  - apply rtc_once. rewrite H, Ek. rewrite Ek in Hv. by apply A_P.
Qed.

Lemma V_follows s fs pc k k0 k' : popped (FV s) fs pc k k0 → V rnd randomize s k0 = Ok k' → follows k k'.
Proof.
  intros (_ & _ & _ & Hw) H. destruct (Hw _ eq_refl) as [Hc Ek].
  unfold V in H. rewrite SetLevel_Off_total in H. apply bind_Ok in H as (? & [= <-] & H).
  apply bind_Ok in H as (k1 & (v & Hv & E1)%V_body_absf & H). apply push_hidden in H; [|done].
  change (absf (set_level IntOff k0)) with (absf k0) in *. rewrite Ek in *.
  apply rtc_once. rewrite H, E1. by apply A_V.
Qed.

Lemma Acquire_follows l fs pc k k0 k' :
  popped (FAcquire l) fs pc k k0 → Acquire l k0 = Ok k' → follows k k'.
Proof.
  intros Hp H. pose proof Hp as (Ec & _ & _ & Hw). destruct (Hw _ eq_refl) as [Hc Ek].
  unfold Acquire in H. apply bind_Ok in H as (held & (o & Ho & ->)%isHeld_owner & H).
  apply bind_Ok in H as ([] & Hb%ASSERT_Ok & H). apply negb_true_iff, bool_decide_eq_false in Hb.
  eapply popped_push in H; [|exact Hp|done]. rewrite Ek in Ho. rewrite Ec in Hb.
  apply rtc_once. rewrite H. by eapply A_acquire.
Qed.

Lemma Owner_follows l fs pc k k0 k' :
  popped (FOwner l) fs pc k k0 → owners (absf k0) !! l = Some None →
  set_owner l (Some (currentThread k0)) k0 = Ok k' → follows k k'.
Proof.
  intros (Ec & _ & _ & Hw) Ho H%set_owner_absf. destruct (Hw _ eq_refl) as [Hc Ek].
  rewrite Ek, Ec in *. apply rtc_once. rewrite H. by apply A_owner.
Qed.

Lemma Release_follows l fs pc k k0 k' :
  popped (FRelease l) fs pc k k0 → Release l k0 = Ok k' → follows k k'.
Proof.
  intros (Ec & [st Hth] & _ & Hw) H. destruct (Hw _ eq_refl) as [Hc Ek].
  unfold Release in H. apply bind_Ok in H as (held & Hh & H).
  apply bind_Ok in H as ([] & ->%ASSERT_Ok & H). apply held_owner in Hh. rewrite Ek, Ec in Hh.
  apply bind_Ok in H as (k1 & H1 & H2). pose proof H1 as E1. apply set_owner_absf in E1.
  assert (threads k1 = threads k0 ∧ currentThread k1 = currentThread k0) as [E2 E3]
    by (unfold set_owner in H1; by invert_ok).
  rewrite <- E2, <- E3 in Hth. eapply push_absf in H2; [|exact Hth].
  rewrite E1, E3, Ec, Ek in H2. apply rtc_once. rewrite H2.
  assert (∀ ws ws' m o, with_client (currentThread k) ws pc (with_owner l o (with_client
    (currentThread k) ws' pc m)) = with_owner l o (with_client (currentThread k) ws pc m)) as ->.
  { intros. unfold with_client, with_owner. cbn. by rewrite put_put. }
  by apply A_release.
Qed.

Lemma Wait_follows c l fs pc k k0 k' :
  popped (FWait c l) fs pc k k0 → Wait c l k0 = Ok k' → follows k k'.
Proof.
  intros Hp H. pose proof Hp as (Ec & _ & _ & Hw). destruct (Hw _ eq_refl) as [Hc Ek].
  unfold Wait in H. apply bind_Ok in H as (held & Hh & H).
  apply bind_Ok in H as ([] & ->%ASSERT_Ok & H). apply held_owner in Hh. rewrite Ek, Ec in Hh.
  eapply popped_push in H; [|exact Hp|done]. apply rtc_once. rewrite H. by eapply A_wait.
Qed.

Lemma Signal_follows f c l fs pc k k0 k' :
  popped f fs pc k k0 → f = FSignal c l ∨ f = FBroadcast c l →
  Signal rnd randomize c l k0 = Ok k' ∨ Broadcast rnd randomize c l k0 = Ok k' → follows k k'.
Proof.
  intros (Ec & _ & _ & Hw) Hf [Ho E]%Signal_absf.
  destruct (Hw f) as [Hc Ek]; [by destruct Hf as [-> | ->]|].
  rewrite Ek, Ec in *. apply rtc_once. rewrite E. by eapply A_signal.
Qed.

(** Every step of the kernel is a sequence of steps of the machine. *)
Lemma kstep_follows k k' : wf k → kstep rnd randomize k = Ok k' → follows k k'.
Proof.
  intros Hwf H. unfold kstep in H. apply bind_Ok in H as (th & Hth & H). apply deref_Ok in Hth.
  destruct (stack th) as [|f fs] eqn:Est; [done|]. apply bind_Ok in H as (k0 & Hk0 & H).
  pose proof (set_stack_popped _ _ _ _ _ Hth Est Hk0) as Hp.
  assert (watch f = None → absf k' = absf k0 → follows k k') as He
    by (intros ? E; eapply popped_hidden; [done..|]; apply follows_equiv; by rewrite E).
  destruct (wf_pop rnd _ _ _ _ _ Hwf Hth Est Hk0) as [[Ht Ha]|[-> Ha]];
    [|by eapply popped_hidden, SleepLoop_follows].
  destruct f as [| |now|old| | | |s|s|s|l|l|l|c l|c|c l|c l]; cbn [exec] in H;
    eauto using P_follows, PLoop_follows, V_follows, Acquire_follows, Release_follows, Wait_follows,
      Signal_follows.
  - eapply client_follows; [done..| | |exact Hk0|done]; [by inversion Ht|].
    destruct (threads k !! nextThread k) as [th'|] eqn:E; [|done].
    destruct Hwf as (Hwk & _). apply (w_ids _ _ _ Hwk) in E. lia.
  - apply He; [done|]. unfold Finish in H. rewrite SetLevel_Off_total in H.
    apply bind_Ok in H as (? & [= <-] & ->%Sleep_absf). done.
  - by eapply popped_hidden, SetLevel_follows.
  - apply He; [done|]. by injection H as <-.
  - apply He; [done|]. by apply Yield_absf in H as ->.
  - by eapply popped_hidden, SleepLoop_follows.
  - apply He; [done|]. destruct Ha as (Hw & _). by eapply RunTail_absf in H as ->.
  - eapply Owner_follows; [exact Hp| |done]. unfold set_owner in H.
    apply bind_Ok in H as (lk & Hl%deref_Ok & _). inversion Ht as [| | | | | | | |? ? Hfs| | | | | | | | |]; subst.
    cbn. rewrite lookup_fmap, Hl. cbn. f_equal. by eapply owner_free.
  - apply WaitSleep_fails in H; [done|]. by inversion Ht.
Qed.

(** ** Executions *)

(** [Initialize]: [main] runs, the locks are free. *)
Definition ainit (nlocks : nat) (g : globals) (main : local) : amachine :=
  mkAMachine {[0%nat := ([FClient], main)]}
    (list_to_map ((λ l, (LockSem l, 1)) <$> seq 0 nlocks))
    (list_to_map ((λ l, (l, None)) <$> seq 0 nlocks)) [] g.

Lemma ainit_client nlocks g main t ws pc :
  clients (ainit nlocks g main) !! t = Some (ws, pc) → t = 0%nat ∧ ws = [FClient] ∧ pc = main.
Proof. unfold ainit. cbn [clients]. by intros [<- [= <- <-]]%lookup_singleton_Some. Qed.

Lemma ainit_sem nlocks g main (s : nat) : avalues (ainit nlocks g main) !! SemId s = None.
Proof.
  unfold ainit. cbn [avalues]. apply not_elem_of_list_to_map_1.
  rewrite <- list_fmap_compose, list_elem_of_fmap. by intros (l & ? & _).
Qed.

Lemma initial_absf useTimer nlocks nconds g main k :
  initial rnd randomize useTimer nlocks nconds g main = Ok k → absf k ≡ ainit nlocks g main.
Proof.
  intros H. unfold initial in H. set (k0 := mkKernel _ _ _ _ _ _ _ _ _ _ _ _) in H.
  assert (absf k0 = ainit nlocks g main) as <-.
  { subst k0. unfold absf, ainit. cbn [threads sems locks interrupt pending shared].
    rewrite <- !list_to_map_fmap, <- !list_fmap_compose.
    by erewrite omap_singleton_Some by reflexivity. }
  destruct useTimer; [|by injection H as <-].
  destruct (TimeOfNextInterrupt rnd randomize k0) as [n k1] eqn:E.
  apply Schedule_absf in H. rewrite H. unfold TimeOfNextInterrupt in E.
  destruct randomize; by injection E as <- <-.
Qed.

Context {Hsane : SaneClient}.

Lemma steps_follow useTimer nlocks nconds g main k0 k :
  initial rnd randomize useTimer nlocks nconds g main = Ok k0 →
  steps (kstep rnd randomize) k0 k → rtc astep (ainit nlocks g main) (absf k).
Proof.
  intros Hi Hs.
  assert (wf k ∧ rtc astep (ainit nlocks g main) (absf k)) as [_ ?]; [|done].
  eapply (steps_inv (kstep rnd randomize) (λ k, wf k ∧ rtc astep (ainit nlocks g main) (absf k)));
    [|exact Hs|].
  - intros k1 k2 [Hw Hr] H. split; [by eapply kstep_wf|]. etrans; [exact Hr|]. by apply kstep_follows.
  - split; [by eapply initial_wf|]. apply rtc_once, A_equiv. symmetry. by eapply initial_absf.
Qed.

(** The proof rule: what every step of the machine preserves holds of every
    state of the kernel. *)
Lemma machine_invariant (J : amachine → Prop) useTimer nlocks nconds g main k0 k :
  initial rnd randomize useTimer nlocks nconds g main = Ok k0 →
  steps (kstep rnd randomize) k0 k → J (ainit nlocks g main) →
  (∀ a a', J a → astep a a' → J a') → J (absf k).
Proof.
  intros Hi Hs H0 Hstep. eapply rtc_ind_r; [exact H0| |by eapply steps_follow].
  intros a a' _ ? ?. by eapply Hstep.
Qed.

(** C4: the kernel refines the machine of interleaved threads: whatever the
    scheduler, the interrupts and the timer do, what the threads do, the values
    of the semaphores, the owners of the locks and the pending device
    interrupts go through an execution of [astep], in which [P] waits for a
    positive value and takes one in a single step. *)
Theorem kernel_refines_machine useTimer nlocks nconds g main k0 k :
  initial rnd randomize useTimer nlocks nconds g main = Ok k0 →
  steps (kstep rnd randomize) k0 k → rtc astep (ainit nlocks g main) (absf k).
Proof. apply steps_follow. Qed.
End simulation.
End machine.
