(* ===== verification/KernelLocks.v ===== *)
(** * Lock discipline

    A client that acquires only locks it does not hold, and releases, waits
    with or signals only locks it holds, says so by giving the set of locks
    each of its resume points holds (the class [LockDiscipline]).  For such
    clients the owner of a lock is exactly the thread that is inside the
    section the lock protects, and the assertions of [Lock] and [Condition]
    about ownership never fail. *)

From stdpp Require Import relations.
From S2P Require Import Prelude NachList Kernel KernelInv KernelSpec KernelMachine.

Local Open Scope Z_scope.

(** What a call does to the locks its caller holds: [H] before, [H'] after;
    [start] gives the locks a forked thread starts with. *)
Definition lock_call {L D} (start : L → gset nat) (H : gset nat) (c : call L D) (H' : gset nat) : Prop :=
  match c with
  | CAcquire l => l ∉ H ∧ H' = {[l]} ∪ H
  | CRelease l => l ∈ H ∧ H' = H ∖ {[l]}
  | CWait _ l | CSignal _ l | CBroadcast _ l => l ∈ H ∧ H' = H
  | CFork s => start s = ∅ ∧ H' = H
  | CReturn => H = ∅
  | _ => H' = H
  end.

Class LockDiscipline (C : Client) := {
  holds : local → gset nat;
  holds_call t now pc g g' pc' c :
    client_step t now pc g = Ok (g', pc', c) → lock_call holds (holds pc) c (holds pc');
}.

(** The locks held by a thread with the calls [ws] in progress, when it will
    hold [H] after them. *)
Fixpoint held (ws : list frame) (H : gset nat) : gset nat :=
  match ws with
  | [] => H
  | FAcquire l :: ws | FOwner l :: ws => held ws H ∖ {[l]}
  | FRelease l :: ws => {[l]} ∪ held ws H
  | _ :: ws => held ws H
  end.

(** The calls in progress respect the discipline; at the bottom is the client. *)
Fixpoint frames_ok (ws : list frame) (H : gset nat) : Prop :=
  match ws with
  | [] => False
  | FClient :: ws => ws = []
  | (FAcquire l | FOwner l | FWait _ l | FSignal _ l | FBroadcast _ l) :: ws =>
      l ∈ held ws H ∧ frames_ok ws H
  | FRelease l :: ws => l ∉ held ws H ∧ frames_ok ws H
  | _ :: ws => frames_ok ws H
  end.

Section discipline.
Context {C : Client} {D : LockDiscipline C}.
Implicit Types (a : amachine) (t l : nat).

(** The locks thread [t] holds. *)
Definition holding a t : gset nat :=
  match clients a !! t with
  | Some (ws, pc) => held ws (holds pc)
  | None => ∅
  end.

Definition disciplined a : Prop :=
  (∀ t ws pc, clients a !! t = Some (ws, pc) → frames_ok ws (holds pc)) ∧
  (∀ t l o, owners a !! l = Some o → o = Some t ↔ l ∈ holding a t).

Lemma holding_put a t ws pc t' :
  ws ≠ [] ∨ holds pc = ∅ →
  holding (with_client t ws pc a) t' = if decide (t = t') then held ws (holds pc) else holding a t'.
Proof.
  intros Hws. unfold holding, with_client, put. cbn. destruct ws as [|f ws].
  - rewrite lookup_delete. case_decide; [|done]. destruct Hws as [|Hws]; [done|]. cbn. by rewrite Hws.
  - rewrite lookup_insert. by case_decide.
Qed.

Lemma frames_put a t ws pc :
  (∀ t ws pc, clients a !! t = Some (ws, pc) → frames_ok ws (holds pc)) →
  ws = [] ∨ frames_ok ws (holds pc) →
  ∀ t' ws' pc', clients (with_client t ws pc a) !! t' = Some (ws', pc') → frames_ok ws' (holds pc').
Proof.
  intros Ha Hws t' ws' pc'. unfold with_client, put. cbn. destruct ws as [|f ws].
  - intros [_ ?]%lookup_delete_Some. eauto.
  - rewrite lookup_insert. case_decide; [|eauto]. intros [= <- <-]. by destruct Hws.
Qed.

Lemma frames_ok_cons ws H : frames_ok ws H → ws ≠ [].
Proof. by destruct ws. Qed.

(** A thread moves on without changing what it holds. *)
Lemma disciplined_move a t ws pc ws' pc' :
  disciplined a → clients a !! t = Some (ws, pc) → frames_ok ws' (holds pc') →
  held ws' (holds pc') = held ws (holds pc) → disciplined (with_client t ws' pc' a).
Proof.
  intros [Hf Ho] Ht Hok E. split; [apply frames_put; auto|].
  intros t' l o Hl. rewrite holding_put by (left; by eapply frames_ok_cons). cbn in Hl.
  rewrite (Ho t' l o Hl). case_decide; [|done]. subst. unfold holding. by rewrite Ht, E.
Qed.

Lemma disciplined_return a t pc pc' :
  disciplined a → clients a !! t = Some ([FClient], pc) → holds pc = ∅ →
  disciplined (with_client t [] pc' a).
Proof.
  intros [Hf Ho] Ht E. split; [apply frames_put; auto|]. intros t' l o Hl. rewrite (Ho t' l o Hl).
  unfold holding. cbn. rewrite lookup_delete. case_decide; [|done]. subst. rewrite Ht. cbn. by rewrite E.
Qed.

Lemma disciplined_fork a n start :
  disciplined a → clients a !! n = None → holds start = ∅ → disciplined (with_client n [FClient] start a).
Proof.
  intros [Hf Ho] Hn E. split; [apply frames_put; auto; by right|]. intros t l o Hl. rewrite (Ho t l o Hl).
  rewrite holding_put by (by left). case_decide; [|done]. subst. unfold holding. by rewrite Hn, <- E.
Qed.

(** A thread moves on by becoming the owner of [l], or by giving it up. *)
Lemma disciplined_owner a t ws ws' pc l o :
  disciplined a → clients a !! t = Some (ws, pc) → owners a !! l = Some o → frames_ok ws' (holds pc) →
  (o = None ∧ held ws' (holds pc) = {[l]} ∪ held ws (holds pc) ∨
   o = Some t ∧ held ws' (holds pc) = held ws (holds pc) ∖ {[l]}) →
  disciplined (with_owner l (if o then None else Some t) (with_client t ws' pc a)).
Proof.
  intros [Hf Ho] Ht Hl Hok Hcase. split; [apply frames_put; auto|].
  intros t' l' o' Hl'. change (holding (with_owner _ _ ?b) t') with (holding b t').
  rewrite holding_put by (left; by eapply frames_ok_cons). cbn in Hl'.
  assert (held ws (holds pc) = holding a t) as Eh by (unfold holding; by rewrite Ht).
  rewrite Eh in Hcase. clear Eh. pose proof (Ho t' l o Hl) as Hold.
  destruct (decide (l' = l)) as [->|Hne].
  - rewrite lookup_insert_eq in Hl'. injection Hl' as <-.
    destruct Hcase as [[-> E]|[-> E]]; case_decide; subst; rewrite ?E; set_solver.
  - rewrite lookup_insert_ne in Hl' by done. rewrite (Ho t' l' o' Hl').
    destruct Hcase as [[-> E]|[-> E]]; case_decide; subst; rewrite ?E; set_solver.
Qed.

Lemma disciplined_ext a a' :
  clients a' = clients a → owners a' = owners a → disciplined a → disciplined a'.
Proof. intros E1 E2. unfold disciplined, holding. by rewrite E1, E2. Qed.

(** The call of the client's code: the locks it holds do not change yet. *)
Lemma call_frames_ok c H H' :
  lock_call holds H c H' → c ≠ CReturn → frames_ok (call_frames c) H' ∧ held (call_frames c) H' = H.
Proof.
  destruct c; cbn; intros Hl Hne; destruct_and?; subst; split_and!; try done; try set_solver.
  rewrite <- union_difference_singleton_L; done.
Qed.

Lemma disciplined_client a a' t now pc g pc' c :
  disciplined a → clients a !! t = Some ([FClient], pc) →
  client_step t now pc (aglobals a) = Ok (g, pc', c) →
  call_effect c (with_client t (call_frames c) pc' (with_globals g a)) a' → disciplined a'.
Proof.
  intros Hd Ht Hc He. pose proof (holds_call _ _ _ _ _ _ _ Hc) as Hl.
  assert (disciplined (with_globals g a)) as Hd' by by eapply disciplined_ext.
  assert (disciplined (with_client t (call_frames c) pc' (with_globals g a))) as Hd''.
  { destruct (decide (holds pc = ∅ ∧ call_frames c = [])) as [[E1 E2]|Hn].
    - rewrite E2. by eapply disciplined_return.
    - assert (c ≠ CReturn) as Hne by (intros ->; by apply Hn).
      destruct (call_frames_ok _ _ _ Hl Hne). by eapply disciplined_move. }
  inversion He as [s v ? Hs|n start ? Hn|d n ty|c' ? Hp]; subst; try done;
    try by eapply disciplined_ext.
  apply disciplined_fork; [done..|]. apply Hl.
Qed.

Lemma disciplined_step a a' : disciplined a → astep a a' → disciplined a'.
Proof.
  intros Hd H.
  destruct H as [a a' (E1 & _ & E2 & _)|????????? Hc He|t s ws pc v a Ht|t s ws pc v a Ht|
    t l ws pc o a Ht Ho Hne|t l ws pc a Ht Ho|t l ws pc a Ht Ho|t c l ws pc a Ht Ho|
    t f c l ws pc a Ht Hf Ho|];
    [by eapply disciplined_ext|by eapply disciplined_client|..|by eapply disciplined_ext];
    pose proof (proj1 Hd _ _ _ Ht) as Hok.
  - eapply disciplined_ext; [done..|]. by eapply disciplined_move.
  - eapply disciplined_ext; [done..|]. by eapply disciplined_move.
  - eapply disciplined_move; [done..|]. destruct Hok. by split.
  - destruct Hok as [Hin Hok]. eapply (disciplined_owner _ _ _ _ _ _ None); [done..|].
    left. split; [done|]. cbn. rewrite <- union_difference_singleton_L; done.
  - destruct Hok as [Hin Hok]. eapply (disciplined_owner _ _ _ _ _ _ (Some t)); [done..|].
    right. split; [done|]. cbn. set_solver.
  - destruct Hok as [Hin Hok]. eapply disciplined_move; [done..| |].
    + cbn. split_and!; [set_solver|done|done].
    + cbn. rewrite <- union_difference_singleton_L; done.
  - destruct Hf as [-> | ->]; destruct Hok; by eapply disciplined_move.
Qed.

(** Locks do not disappear. *)
Lemma astep_owners a a' l : astep a a' → is_Some (owners a !! l) → is_Some (owners a' !! l).
Proof.
  intros H Hl. destruct H as [a a' (_ & _ & <- & _)|???????? Ht Hc He| | | | | | | |]; try done;
    [by inversion He; subst|..]; cbn; rewrite lookup_insert; by case_decide; [eexists|].
Qed.

(** A lock is held by its owner, so by at most one thread. *)
Lemma holder_owns a l o t ws pc :
  disciplined a → owners a !! l = Some o → clients a !! t = Some (ws, pc) → l ∈ held ws (holds pc) →
  o = Some t.
Proof. intros [_ Ho] Hl Ht Hin. apply (Ho _ _ _ Hl). unfold holding. by rewrite Ht. Qed.

Lemma one_holder a l t1 t2 ws1 ws2 pc1 pc2 :
  disciplined a → is_Some (owners a !! l) →
  clients a !! t1 = Some (ws1, pc1) → clients a !! t2 = Some (ws2, pc2) →
  l ∈ held ws1 (holds pc1) → l ∈ held ws2 (holds pc2) → t1 = t2.
Proof.
  intros Hd [o Hl] H1 H2 Hh1 Hh2. pose proof (holder_owns _ _ _ _ _ _ Hd Hl H1 Hh1).
  pose proof (holder_owns _ _ _ _ _ _ Hd Hl H2 Hh2). congruence.
Qed.

(** ** In the kernel *)

(** The frames in which an assertion can fail for a disciplined client: its own
    code, and the [Sleep] of [Condition::Wait]. *)
Definition may_abort (f : frame) : Prop := f = FClient ∨ ∃ c, f = FWaitSleep c.

Lemma disciplined_fault f fs (k : kernel) th :
  disciplined (absf k) → threads k !! currentThread k = Some th → stack th = f :: fs →
  fault f AssertFailed k → may_abort f.
Proof.
  intros [Hf Ho] Hth Est Hfault.
  assert (∀ l lk t, locks k !! l = Some lk → owner lk = Some t ↔ l ∈ holding (absf k) t) as Hown
    by (intros l lk t Hl; apply Ho; cbn; by rewrite lookup_fmap, Hl).
  destruct (watch f) as [f'|] eqn:Ef; [|by destruct f].
  assert (clients (absf k) !! currentThread k = Some (f' :: omap watch fs, resume th)) as Hc
    by (apply (absf_lookup _ th); [done|]; by rewrite Est; cbn; rewrite Ef).
  pose proof (Hf _ _ _ Hc) as Hok. unfold holding in Hown.
  destruct f; cbn in Hfault, Ef; try done; [by left|..|by right; eexists| |];
    injection Ef as <-; destruct Hok as [Hin Hok]; destruct Hfault as (lk & Hl & Hfault);
    apply (Hown _ _ (currentThread k)) in Hl; rewrite Hc in Hl; cbn in Hl; set_solver.
Qed.

Section kernel.
Context {Hsane : SaneClient} (rnd : nat → Z) (randomize : bool).
Context (useTimer : bool) (nlocks nconds : nat) (g : globals) (main : local).
Implicit Types (k : kernel).

Lemma disciplined_init : holds main = ∅ → disciplined (ainit nlocks g main).
Proof.
  intros Hm. split; unfold ainit, holding; cbn [clients owners].
  - by intros t ws pc [<- [= <- <-]]%lookup_singleton_Some.
  - intros t l o Ho. apply (lookup_seq_map rnd (λ _, None)) in Ho as [_ ->]. split; [done|].
    destruct ({[0%nat := ([FClient], main)]} !! t) as [[ws pc]|] eqn:E; [|set_solver].
    apply lookup_singleton_Some in E as [_ [= <- <-]]. cbn. rewrite Hm. set_solver.
Qed.

Lemma disciplined_kernel k0 k :
  holds main = ∅ → initial rnd randomize useTimer nlocks nconds g main = Ok k0 →
  steps (kstep rnd randomize) k0 k → disciplined (absf k).
Proof.
  intros Hm Hi Hs. eapply (machine_invariant rnd randomize); [exact Hi|exact Hs| |].
  - by apply disciplined_init.
  - intros. by eapply disciplined_step.
Qed.

(** C11: critical sections are exclusive: for a client that respects the lock
    discipline, under every schedule, a lock is owned by exactly the thread that
    holds it by the discipline, so two threads that execute client code at
    places holding the same lock are the same thread. *)
Theorem critical_sections_exclusive k0 k l lk t1 t2 pc1 pc2 :
  holds main = ∅ → initial rnd randomize useTimer nlocks nconds g main = Ok k0 →
  steps (kstep rnd randomize) k0 k → locks k !! l = Some lk →
  (∀ t, owner lk = Some t ↔ l ∈ holding (absf k) t) ∧
  (clients (absf k) !! t1 = Some ([FClient], pc1) → clients (absf k) !! t2 = Some ([FClient], pc2) →
   l ∈ holds pc1 → l ∈ holds pc2 → t1 = t2).
Proof.
  intros Hm Hi Hs Hl. pose proof (disciplined_kernel _ _ Hm Hi Hs) as Hd.
  assert (owners (absf k) !! l = Some (owner lk)) as Ho by (cbn; by rewrite lookup_fmap, Hl).
  split; [intros t; by apply (proj2 Hd)|]. intros H1 H2 Hh1 Hh2. by eapply one_holder.
Qed.

(** For such a client the assertions about ownership in [Lock::Acquire],
    [Lock::Release], [Condition::Wait], [Signal] and [Broadcast] never fail: an
    [ASSERT] that fails is one of the client's own code, or that of
    [Thread::Sleep] in [Condition::Wait]. *)
Theorem disciplined_lock_assertions k0 k :
  (∀ n, 0 ≤ rnd n) → holds main = ∅ →
  initial rnd randomize useTimer nlocks nconds g main = Ok k0 → steps (kstep rnd randomize) k0 k →
  devices_safe k → kstep rnd randomize k = Err AssertFailed →
  ∃ th f fs, threads k !! currentThread k = Some th ∧ stack th = f :: fs ∧ may_abort f.
Proof.
  intros Hr Hm Hi Hs Hd H. pose proof (disciplined_kernel _ _ Hm Hi Hs) as Hdis.
  destruct (kstep_fault rnd randomize Hr k AssertFailed) as (th & f & fs & Hth & Est & Hfault); try done.
  { apply (reachable_wf rnd randomize). by exists useTimer, nlocks, nconds, g, main, k0. }
  exists th, f, fs. split_and!; [done..|]. by eapply disciplined_fault.
Qed.
End kernel.
End discipline.
