(* ===== verification/KernelClient.v ===== *)
(** * Programs that do not depend on the kernel's objects

    The rule [live_invariant] is for properties of the clients' resume points
    and globals alone: seen that way the kernel interleaves pieces of client
    code, and what every such piece preserves always holds.  It follows from
    the machine of [KernelMachine.v].  The configurations of this file have no
    device but the timer. *)

From S2P Require Import Prelude NachList Kernel KernelInv KernelSpec KernelMachine.

Local Open Scope Z_scope.

Section client.
Context {C : Client} {Hsane : SaneClient}.
Implicit Types (k : kernel) (th : Thread) (t : nat).

(** The resume points of the threads that have client code left to run. *)
Definition liveth th : option local :=
  if decide (FClient ∈ stack th) then Some (resume th) else None.
Definition live k : gmap nat local := omap liveth (threads k).

(** The same, in the abstract machine. *)
Definition running (x : list frame * local) : option local :=
  if decide (FClient ∈ x.1) then Some x.2 else None.
Definition alive (a : amachine) : gmap nat local := omap running (clients a).

Lemma watch_client f : watch f = Some FClient ↔ f = FClient.
Proof. destruct f; naive_solver. Qed.

Lemma liveth_obs th : liveth th = obs th ≫= running.
Proof.
  assert (FClient ∈ stack th ↔ FClient ∈ omap watch (stack th)) as E.
  { rewrite list_elem_of_omap. split; [intros H; by exists FClient|].
    by intros (f & Hf & ->%watch_client). }
  unfold liveth, obs. rewrite (decide_ext _ _ _ _ E). destruct (omap watch (stack th)); [|done].
  by rewrite decide_False by apply not_elem_of_nil.
Qed.

Lemma live_absf k : live k = alive (absf k).
Proof.
  apply map_eq. intros t. unfold live, alive. cbn. rewrite !lookup_omap.
  destruct (threads k !! t) as [th|]; [|done]. apply liveth_obs.
Qed.

(** The clients after thread [t] ran a piece of code that ended in call [c]. *)
Definition next_live (t next : nat) (pc : local) (c : call local device) (m : gmap nat local) :=
  match c with
  | CReturn => delete t m
  | CFork start => <[next := start]> (<[t := pc]> m)
  | _ => <[t := pc]> m
  end.

(** Who a live client is after that. *)
Lemma next_live_Some t next pc c m t' pc' :
  next_live t next pc c m !! t' = Some pc' →
  t' = t ∧ pc' = pc ∨ c = CFork pc' ∧ t' = next ∨ t' ≠ t ∧ m !! t' = Some pc'.
Proof.
  destruct c; cbn; rewrite ?lookup_delete_Some, ?lookup_insert_Some; naive_solver.
Qed.

Lemma next_live_other t next pc c m t' pc' :
  t' ≠ t → m !! next = None → m !! t' = Some pc' → next_live t next pc c m !! t' = Some pc'.
Proof.
  intros Ht Hn Hm. assert (t' ≠ next) by congruence.
  destruct c; cbn; by rewrite ?lookup_delete_ne, ?lookup_insert_ne by done.
Qed.

Lemma next_live_self t next pc c m :
  c ≠ CReturn → (∀ s, c ≠ CFork s) → next_live t next pc c m !! t = Some pc.
Proof. intros Hc Hs. destruct c; cbn; rewrite ?lookup_insert_eq; try done; naive_solver. Qed.

(** A sum over the live clients. *)
Lemma total_next_live (f : local → Z) t next pc pc' c m :
  m !! t = Some pc → m !! next = None →
  total f (next_live t next pc' c m) = total f m - f pc +
    match c with CReturn => 0 | CFork s => f s + f pc' | _ => f pc' end.
Proof.
  intros Ht Hn. assert (next ≠ t) by congruence.
  destruct c; cbn [next_live]; try exact (total_update _ _ _ _ _ Ht).
  - rewrite total_insert_new by by rewrite lookup_insert_ne. rewrite (total_update _ _ _ _ _ Ht). lia.
  - rewrite (total_delete _ _ _ _ Ht). lia.
Qed.

Lemma alive_put t ws pc a :
  alive (with_client t ws pc a) =
  match running (ws, pc) with Some pc => <[t := pc]> (alive a) | None => delete t (alive a) end.
Proof.
  unfold alive, with_client, put. cbn. destruct ws as [|f ws]; [by rewrite omap_delete|].
  rewrite omap_insert. by destruct (running _).
Qed.

Lemma running_client ws pc : FClient ∈ ws → running (ws, pc) = Some pc.
Proof. intros H. unfold running. by rewrite decide_True. Qed.

(** A call of the kernel proceeds. *)
Lemma alive_call t ws ws' pc a a' :
  clients a !! t = Some (ws, pc) → clients a' = put t ws' pc (clients a) →
  (FClient ∈ ws' ↔ FClient ∈ ws) → alive a' = alive a.
Proof.
  intros H Ea' E. trans (alive (with_client t ws' pc a)); [unfold alive; by rewrite Ea'|].
  rewrite alive_put. unfold running. cbn. rewrite (decide_ext _ _ _ _ E).
  case_decide as Hd; [apply insert_id|apply delete_id]; unfold alive; rewrite lookup_omap, H;
    unfold running; cbn; by rewrite ?decide_True, ?decide_False by done.
Qed.

Hypothesis no_devices : device → False.

(** A property of the live clients and the globals that every piece of client
    code preserves holds in every reachable state. *)
Section rule.
Context (J : gmap nat local → globals → Prop).
Hypothesis J_step : ∀ m g t next now pc g' pc' c,
  J m g → m !! t = Some pc → m !! next = None → client_step t now pc g = Ok (g', pc', c) →
  J (next_live t next pc' c m) g'.

Lemma alive_client t now pc g' pc' c a a' :
  clients a !! t = Some ([FClient], pc) → client_step t now pc (aglobals a) = Ok (g', pc', c) →
  call_effect c (with_client t (call_frames c) pc' (with_globals g' a)) a' →
  ∃ next, alive a !! t = Some pc ∧ alive a !! next = None ∧
    alive a' = next_live t next pc' c (alive a) ∧ aglobals a' = g'.
Proof.
  intros Ht Hc He. assert (alive a !! t = Some pc) as El
    by (unfold alive; rewrite lookup_omap, Ht; done).
  assert (∃ next, alive a !! next = None) as [n0 Hn0]
    by (exists (fresh (dom (alive a))); apply not_elem_of_dom, is_fresh).
  inversion He as [s v ? Hs|n start ? Hn|d n ty|c' ? Hp]; subst; cbn [with_value with_irqs aglobals].
  - exists n0. by split_and!; try exact (alive_put t [FClient] pc' a).
  - assert (n ≠ t) by (intros ->; cbn in Hn; by rewrite lookup_insert_eq in Hn).
    cbn in Hn. rewrite lookup_insert_ne in Hn by done.
    exists n. split_and!; try done; [unfold alive; by rewrite lookup_omap, Hn|].
    rewrite alive_put. cbn. f_equal. exact (alive_put t [FClient] pc' a).
  - exists n0. by split_and!; try exact (alive_put t [FClient] pc' a).
  - exists n0. split_and!; try done. etrans; [apply alive_put|].
    assert (c = CReturn ∨ FClient ∈ call_frames c) as [->|Hin]; [|done|].
    { destruct c; cbn; auto; right; rewrite ?elem_of_cons; auto. }
    rewrite (running_client _ _ Hin). by destruct c; try apply not_elem_of_nil in Hin.
Qed.

Lemma astep_rule a a' : J (alive a) (aglobals a) → astep a a' → J (alive a') (aglobals a').
Proof using no_devices J_step.
  intros HJ H. destruct H as [a a' (E & _ & _ & _ & <-)|? now ? ? ? ? ? ? Ht Hc He| | | | | | |
    ? ? ? ? ? ? ? Ht Hf|d];
    [|eapply alive_client in He as (n & H1 & H2 & -> & ->); [by eapply J_step|done..]| | | | | | | |destruct (no_devices d)];
    [unfold alive; by rewrite <- E|..].
  all: erewrite alive_call; [exact HJ|done|reflexivity|rewrite ?elem_of_cons; naive_solver].
Qed.

Lemma live_invariant rnd randomize useTimer nlocks nconds g main k0 k :
  initial rnd randomize useTimer nlocks nconds g main = Ok k0 → J {[0%nat := main]} g →
  steps (kstep rnd randomize) k0 k → J (live k) (shared k).
Proof using Hsane no_devices J_step.
  intros Hi HJ Hs. rewrite live_absf. change (shared k) with (aglobals (absf k)).
  eapply (machine_invariant rnd randomize (λ a, J (alive a) (aglobals a))); [exact Hi|exact Hs| |].
  - unfold alive, ainit. cbn [clients aglobals]. by erewrite omap_singleton_Some by reflexivity.
  - intros. by eapply astep_rule.
Qed.
End rule.
End client.
