(* ===== verification/ThreadTest.v ===== *)
(** * The thread tests of threads/threadtest.cc and threads/lockTest.cc

    Client programs of the kernel.  A resume point ([local]) names the place in
    the C++ source where the thread continues after a kernel call, with the
    local variables that are live there; [printf] appends to [output]. *)

From S2P Require Import Prelude NachList Kernel KernelInv KernelSpec KernelClient.

Local Open Scope Z_scope.

(** ** Exercise 1: [SimpleThread] and [LaunchThreads] *)

Module Shared.

Inductive place :=
| Launch                                (**r entry of [LaunchThreads] *)
| Forking (i : Z)                       (**r its loop, at [i] *)
| Yielded (which num val : Z)           (**r after [Yield] (unsynchronized) *)
| InMutex (which num : Z)               (**r after [mutex->P()] in the loop *)
| OutMutex (which num : Z)              (**r after [mutex->V()] in the loop *)
| FinalIn (which : Z)                   (**r after the last [mutex->P()] *)
| Loop (which num : Z)                  (**r the test of the [for] loop *)
| Done.                                 (**r the procedure returns *)

Inductive line := Sees (which val : Z) | SeesFinal (which val : Z).

Record vars := mkVars { SharedValue : Z; output : list line }.

(** The name of the semaphore [mutex]. *)
Definition mutex : nat := 0.

Section program.
(** HW1_SEMAPHORES, and the argument of [LaunchThreads]. *)
Context (semaphores : bool) (n : Z).

(** [if (n < 2) n = 2;] *)
Definition nthreads : Z := if decide (n < 2) then 2 else n.

Definition outcome : Type := vars * place * call place Empty_set.

(** [SimpleThread] from the test of its loop to the next kernel call. *)
Definition simple_loop (which num : Z) (g : vars) : outcome :=
  if decide (num < 5) then
    if semaphores then (g, InMutex which num, CP mutex)
    else (mkVars (SharedValue g) (output g ++ [Sees which (SharedValue g)]),
          Yielded which num (SharedValue g), CYield)
  else
    if semaphores then (g, FinalIn which, CP mutex)
    else (mkVars (SharedValue g) (output g ++ [SeesFinal which (SharedValue g)]), Done, CReturn).

Definition SimpleThread (which : Z) (g : vars) : outcome := simple_loop which 0 g.

(** The [for] loop of [LaunchThreads], then [SimpleThread(0)]. *)
Definition launch_loop (i : Z) (g : vars) : outcome :=
  if decide (i < nthreads) then (g, Forking (i + 1), CFork (Loop i 0))
  else SimpleThread 0 g.

Definition LaunchThreads (g : vars) : outcome :=
  let g := mkVars 0 (output g) in
  if semaphores then (g, Forking 1, CNewSem mutex 1) else launch_loop 1 g.

Definition resume_at (pc : place) (g : vars) : outcome :=
  match pc with
  | Launch => LaunchThreads g
  | Forking i => launch_loop i g
  | Yielded which num val => simple_loop which (num + 1) (mkVars (val + 1) (output g))
  | InMutex which num =>
      let val := SharedValue g in
      (mkVars (val + 1) (output g ++ [Sees which val]), OutMutex which num, CV mutex)
  | OutMutex which num => simple_loop which (num + 1) g
  | FinalIn which =>
      (mkVars (SharedValue g) (output g ++ [SeesFinal which (SharedValue g)]), Done, CV mutex)
  | Loop which num => simple_loop which num g
  | Done => (g, Done, CReturn)
  end.

#[local] Instance client : Client := {
  local := place;
  globals := vars;
  device := Empty_set;
  client_step _ _ pc g := Ok (resume_at pc g);
  device_handler d _ := match d with end;
}.

#[local] Instance client_sane : SaneClient.
Proof.
  intros t now pc g g' pc' s v [= H]. revert H.
  destruct pc; cbn; unfold LaunchThreads, launch_loop, SimpleThread, simple_loop;
    repeat case_decide; destruct semaphores; intros; simplify_eq; lia.
Qed.

(** [main] for HW1_THREADTEST: [ThreadTest(n)] runs [LaunchThreads(n)]; [mutex]
    is created there. *)
Definition start (rnd : nat → Z) (useTimer : bool) : Result kernel :=
  initial rnd useTimer useTimer 0 0 (mkVars 0 []) Launch.

(** How many increments a thread at [pc] still has to do. *)
Definition left (pc : place) : Z :=
  match pc with
  | Launch => 5 * nthreads
  | Forking i => 5 * (nthreads - i + 1)
  | Yielded _ num _ | InMutex _ num | Loop _ num => 5 - num
  | OutMutex _ num => 5 - (num + 1)
  | FinalIn _ | Done => 0
  end.

Definition place_ok (pc : place) : Prop :=
  match pc with
  | Forking i => 1 ≤ i ≤ nthreads
  | Yielded _ _ _ => False
  | InMutex _ num | OutMutex _ num => 0 ≤ num < 5
  | Loop _ num => 0 ≤ num ≤ 5
  | _ => True
  end.

Definition counted (m : gmap nat place) (g : vars) : Prop :=
  0 ≤ SharedValue g ∧ SharedValue g + total left m = 5 * nthreads ∧ map_Forall (λ _, place_ok) m.

Lemma nthreads_ge_2 : 2 ≤ nthreads.
Proof. unfold nthreads. case_decide; lia. Qed.

Lemma left_nonneg pc : place_ok pc → 0 ≤ left pc.
Proof. pose proof nthreads_ge_2. destruct pc; cbn; lia. Qed.

(** Thread [t] goes from [pc] to [pc'], adding [d] to the shared value. *)
Lemma counted_move m g g' t pc pc' d :
  counted m g → m !! t = Some pc → SharedValue g' = SharedValue g + d → 0 ≤ d →
  left pc = left pc' + d → place_ok pc' → counted (<[t := pc']> m) g'.
Proof.
  intros (H0 & Hsum & Hok) Ht E Hd El Hp. split_and!; [lia| |by apply map_Forall_insert_2].
  rewrite (total_update _ _ _ pc) by done. lia.
Qed.

Lemma counted_fork m g t next pc pc' start :
  counted m g → m !! t = Some pc → m !! next = None →
  left pc = left pc' + left start → place_ok pc' → place_ok start →
  counted (<[next := start]> (<[t := pc']> m)) g.
Proof.
  intros (H0 & Hsum & Hok) Ht Hn El Hp Hs. assert (t ≠ next) by congruence.
  split_and!; [lia| |by repeat apply map_Forall_insert_2].
  rewrite total_insert_new by (by rewrite lookup_insert_ne). rewrite (total_update _ _ _ pc) by done. lia.
Qed.

Lemma counted_return m g t : counted m g → m !! t = Some Done → counted (delete t m) g.
Proof.
  intros (H0 & Hsum & Hok) Ht. split_and!; [done| |by apply map_Forall_delete].
  rewrite (total_delete _ _ _ Done) by done. cbn. lia.
Qed.

Hypothesis synchronized : semaphores = true.

(** The loop of [SimpleThread], entered from [pc] after [d] increments. *)
Lemma simple_loop_counted m g g0 t next pc which num d :
  counted m g0 → m !! t = Some pc → m !! next = None → 0 ≤ num ≤ 5 → 0 ≤ d →
  SharedValue g = SharedValue g0 + d → left pc = (5 - num) + d →
  let '(g', pc', c) := simple_loop which num g in
  counted (next_live (C := client) t next pc' c m) g'.
Proof.
  intros HJ Ht Hn Hnum Hd Eg El. unfold simple_loop. rewrite synchronized.
  case_decide; cbn; eapply counted_move; try done; cbn; lia.
Qed.

Lemma launch_loop_counted m g t next pc i :
  counted m g → m !! t = Some pc → m !! next = None → 1 ≤ i ≤ nthreads →
  left pc = left (Forking i) →
  let '(g', pc', c) := launch_loop i g in
  counted (next_live (C := client) t next pc' c m) g'.
Proof.
  intros HJ Ht Hn Hi El. unfold launch_loop. case_decide.
  - cbn. eapply counted_fork; try done; cbn in *; lia.
  - eapply simple_loop_counted; try done; cbn in *; lia.
Qed.

Lemma counted_launch m g t :
  counted m g → m !! t = Some Launch → SharedValue g = 0.
Proof.
  intros (H0 & Hsum & Hok) Ht.
  enough (left Launch ≤ total left m) by (cbn in *; lia).
  apply (total_ge _ _ t); [done|]. intros j y Hj. apply left_nonneg. by apply (Hok j).
Qed.

Lemma counted_step m g t next pc g' pc' c :
  counted m g → m !! t = Some pc → m !! next = None → resume_at pc g = (g', pc', c) →
  counted (next_live (C := client) t next pc' c m) g'.
Proof.
  intros HJ Ht Hn E. pose proof nthreads_ge_2.
  assert (place_ok pc) as Hok by (destruct HJ as (_ & _ & Hok); by apply (Hok t)).
  destruct pc as [|i|which num val|which num|which num|which|which num|]; cbn in E, Hok; [| |done|..].
  - unfold LaunchThreads in E. rewrite synchronized in E. injection E as <- <- <-. cbn.
    pose proof (counted_launch _ _ _ HJ Ht). eapply counted_move; try done; cbn; lia.
  - pose proof (launch_loop_counted m g t next _ i HJ Ht Hn Hok eq_refl) as HL. by rewrite E in HL.
  - injection E as <- <- <-. eapply counted_move; try done; cbn; lia.
  - pose proof (simple_loop_counted m g g t next _ which (num + 1) 0 HJ Ht Hn) as HL.
    rewrite E in HL. apply HL; cbn; lia.
  - injection E as <- <- <-. cbn. eapply counted_move with (d := 0); try done; cbn; lia.
  - pose proof (simple_loop_counted m g g t next _ which num 0 HJ Ht Hn) as HL.
    rewrite E in HL. apply HL; cbn; lia.
  - injection E as <- <- <-. cbn. by apply counted_return.
Qed.
End program.

(** The machine after [fuel] steps from the start, and how it stopped. *)
Definition outcome_of (semaphores : bool) (n : Z) (rnd : nat → Z) (useTimer : bool) (fuel : nat)
  : Result (kernel * option stop) :=
  k ← start semaphores n rnd useTimer;
  mret (run (kstep (C := client semaphores n) rnd useTimer) fuel k).

(** C20: with the semaphore, under every schedule the timer can cause, the
    shared value is always between 0 and five times the number of threads, and
    is exactly that product once every thread has returned. *)
Theorem SharedValue_correct n rnd useTimer k0 k :
  start true n rnd useTimer = Ok k0 → steps (kstep (C := client true n) rnd useTimer) k0 k →
  0 ≤ SharedValue (shared (C := client true n) k) ≤ 5 * nthreads n ∧
  (live (C := client true n) k = ∅ →
   SharedValue (shared (C := client true n) k) = 5 * nthreads n).
Proof.
  intros Hs Hk.
  assert (counted n (live (C := client true n) k) (shared (C := client true n) k)) as HJ.
  { eapply (live_invariant (C := client true n) (Hsane := client_sane true n));
      [by intros []| |exact Hs| |exact Hk].
    - intros m g t next now pc g' pc' c HJ Ht Hn [= E]. by eapply counted_step.
    - pose proof (nthreads_ge_2 n). split_and!; [done| |by apply map_Forall_singleton].
      rewrite <- insert_empty, total_insert_new by done. cbn. unfold total. rewrite map_fold_empty. lia. }
  destruct HJ as (H0 & Hsum & Hok). split.
  - enough (0 ≤ total (left n) (live (C := client true n) k)) by lia.
    apply total_nonneg. intros t pc Ht. apply left_nonneg. by apply (Hok t).
  - intros E. rewrite E in Hsum. unfold total in Hsum. rewrite map_fold_empty in Hsum. lia.
Qed.

Lemma SharedValue_correct_witness :
  ∃ k0 k, start true 3 (λ _, 150) true = Ok k0 ∧
    live (C := client true 3) k = ∅ ∧ SharedValue (shared (C := client true 3) k) = 15.
Proof.
  destruct (start true 3 (λ _, 150) true) as [k0|e] eqn:E; [|exfalso; vm_compute in E; discriminate E].
  exists k0, (run (kstep (C := client true 3) (λ _, 150) true) 1000 k0).1.
  assert (live (C := client true 3) (run (kstep (C := client true 3) (λ _, 150) true) 1000 k0).1 = ∅) as El.
  { injection E as <-. vm_compute. reflexivity. }
  split; [reflexivity|split; [exact El|]].
  apply (SharedValue_correct 3 (λ _, 150) true k0 _ E (run_steps _ 1000 k0)). exact El.
Defined.

(** Without the semaphore updates are lost: two threads that should leave
    10 leave 5. *)
Theorem SharedValue_race :
  (r ← outcome_of false 2 (λ _, 0) false 200;
   mret (SharedValue (shared (C := client false 2) r.1), r.2)) = Ok (5, Some Exit).
Proof. vm_compute. reflexivity. Qed.

(** A finished thread is not always deleted: when the CPU goes from a
    finished thread to one that starts, nobody looks at [threadToBeDestroyed]
    before it is overwritten.  With the semaphore, four threads and no timer,
    all four are still allocated when the machine halts. *)
Theorem finished_threads_leak :
  (r ← outcome_of true 4 (λ _, 0) false 1000;
   mret (size (threads (C := client true 4) r.1), size (live (C := client true 4) r.1), r.2))
  = Ok (4%nat, 0%nat, Some Exit).
Proof. vm_compute. reflexivity. Qed.
End Shared.

(** ** threads/lockTest.cc *)

Module Locks.

Inductive place :=
| LockTest (i : Z)                      (**r the loop of [LockTest], at [i] *)
| LockTestThread (which : Z)            (**r entry of the forked procedure *)
| Inside (which : Z)                    (**r after [testLock->Acquire()] *)
| Yielding (which i : Z)                (**r the loop of [Yield]s, at [i] *)
| Done.                                 (**r after [testLock->Release()] *)

Inductive line := Trying (which : Z) | InsideCS (which : Z) | Releasing (which : Z).

Definition testLock : nat := 0.

Definition outcome : Type := list line * place * call place Empty_set.

Definition enter (which : Z) (out : list line) : outcome :=
  (out ++ [Trying which], Inside which, CAcquire testLock).

(** [for (int i = 0; i < 3; i++) currentThread->Yield();] and what follows. *)
Definition yield_loop (which i : Z) (out : list line) : outcome :=
  if decide (i < 3) then (out, Yielding which (i + 1), CYield)
  else (out ++ [Releasing which], Done, CRelease testLock).

Definition resume_at (pc : place) (out : list line) : outcome :=
  match pc with
  | LockTest i =>
      if decide (i ≤ 3) then (out, LockTest (i + 1), CFork (LockTestThread i)) else enter 0 out
  | LockTestThread which => enter which out
  | Inside which => yield_loop which 0 (out ++ [InsideCS which])
  | Yielding which i => yield_loop which i out
  | Done => (out, Done, CReturn)
  end.

#[global] Instance client : Client := {
  local := place;
  globals := list line;
  device := Empty_set;
  client_step _ _ pc out := Ok (resume_at pc out);
  device_handler d _ := match d with end;
}.

#[global] Instance client_sane : SaneClient.
Proof.
  intros t now pc g g' pc' s v [= H]. revert H.
  destruct pc; cbn; unfold yield_loop, enter; repeat case_decide; intros; simplify_eq.
Qed.

(** [main] for HW1_LOCKS; [testLock] is allocated statically. *)
Definition start (rnd : nat → Z) (useTimer : bool) : Result kernel :=
  initial rnd useTimer useTimer 1 0 [] (LockTest 1).
End Locks.
