(* ===== verification/SynchList.v ===== *)
(** * threads/synchlist.cc, as a client of the kernel

    A [SynchList] protected by lock 0, with [listEmpty] as condition variable
    0.  The threads of the client run given sequences of operations on one
    list.  An item is the value of the pointer, 0 for NULL. *)

From S2P Require Import Prelude NachList Kernel KernelInv KernelSpec KernelMachine KernelLocks KernelClient.

Local Open Scope Z_scope.

Inductive op := OpAppend (item : Z) | OpRemove | OpMapcar.

Inductive place :=
| Start (programs : list (list op))     (**r forks one thread per program *)
| At (ops : list op)                    (**r between two operations *)
| AppendLocked (item : Z) (ops : list op)
| AppendSignalled (ops : list op)
| RemoveTest (ops : list op)            (**r [while (list->IsEmpty())] *)
| MapcarLocked (ops : list op).

(** The list, the items [Remove] returned so far, the items [Mapcar] applied
    its argument to. *)
Record vars := mkVars { items : list Z; removed : list Z; mapped : list Z }.

Definition lock : nat := 0.
Definition listEmpty : nat := 0.

Definition outcome : Type := vars * place * call place Empty_set.

Definition Append_locked (item : Z) (ops : list op) (g : vars) : outcome :=
  (mkVars (items g ++ [item]) (removed g) (mapped g), AppendSignalled ops, CSignal listEmpty lock).

(** The loop of [Remove], and what follows it. *)
Definition Remove_test (ops : list op) (g : vars) : Result outcome :=
  match items g with
  | [] => mret (g, RemoveTest ops, CWait listEmpty lock)
  | item :: rest =>
      ASSERT (bool_decide (item ≠ 0));;
      mret (mkVars rest (removed g ++ [item]) (mapped g), At ops, CRelease lock)
  end.

Definition Mapcar_locked (ops : list op) (g : vars) : outcome :=
  (mkVars (items g) (removed g) (mapped g ++ items g), At ops, CRelease lock).

(** Every operation starts with [lock->Acquire()]. *)
Definition next_op (ops : list op) (g : vars) : outcome :=
  match ops with
  | [] => (g, At [], CReturn)
  | OpAppend item :: ops => (g, AppendLocked item ops, CAcquire lock)
  | OpRemove :: ops => (g, RemoveTest ops, CAcquire lock)
  | OpMapcar :: ops => (g, MapcarLocked ops, CAcquire lock)
  end.

Definition resume_at (pc : place) (g : vars) : Result outcome :=
  match pc with
  | Start [] => mret (g, At [], CReturn)
  | Start (p :: ps) => mret (g, Start ps, CFork (At p))
  | At ops => mret (next_op ops g)
  | AppendLocked item ops => mret (Append_locked item ops g)
  | AppendSignalled ops => mret (g, At ops, CRelease lock)
  | RemoveTest ops => Remove_test ops g
  | MapcarLocked ops => mret (Mapcar_locked ops g)
  end.

#[global] Instance client : Client := {
  local := place;
  globals := vars;
  device := Empty_set;
  client_step _ _ pc g := resume_at pc g;
  device_handler d _ := match d with end;
}.

#[global] Instance client_sane : SaneClient.
Proof.
  intros t now pc g g' pc' s v H. cbn in H.
  destruct pc as [[|? ?]|[|[] ?]|? ?|?|ops|?]; cbn in H; simplify_eq.
  unfold Remove_test in H. by repeat case_match; invert_ok.
Qed.

Definition run_programs (rnd : nat → Z) (useTimer : bool) (programs : list (list op)) (fuel : nat)
  : Result (kernel * option stop) :=
  k ← initial rnd useTimer useTimer 1 1 (mkVars [] [] []) (Start programs);
  mret (run (kstep rnd useTimer) fuel k).

(** ** No item is lost, duplicated or invented *)

Fixpoint appends (ops : list op) : list Z :=
  match ops with
  | [] => []
  | OpAppend item :: ops => item :: appends ops
  | _ :: ops => appends ops
  end.

(** The items a thread at [pc] (and the threads it will fork) will append. *)
Definition to_append (pc : place) : list Z :=
  match pc with
  | Start ps => concat (appends <$> ps)
  | At ops | AppendSignalled ops | RemoveTest ops | MapcarLocked ops => appends ops
  | AppendLocked item ops => item :: appends ops
  end.

(** How often [x] occurs in [l]. *)
Definition occ (x : Z) (l : list Z) : Z := Z.of_nat (length (filter (x =.) l)).

Lemma occ_app x l1 l2 : occ x (l1 ++ l2) = occ x l1 + occ x l2.
Proof. unfold occ. rewrite filter_app, length_app. lia. Qed.

Lemma occ_nil x : occ x [] = 0.
Proof. done. Qed.

Lemma occ_cons x y l : occ x (y :: l) = occ x [y] + occ x l.
Proof. apply (occ_app x [y] l). Qed.

#[local] Hint Rewrite occ_app occ_nil : occ.

Definition conserved (total_items : list Z) (m : gmap nat place) (g : vars) : Prop :=
  ∀ x, occ x (removed g ++ items g) + total (occ x ∘ to_append) m = occ x total_items.

Lemma conserved_move L m g g' t pc pc' :
  conserved L m g → m !! t = Some pc →
  (∀ x, occ x (removed g' ++ items g') + occ x (to_append pc') =
        occ x (removed g ++ items g) + occ x (to_append pc)) →
  conserved L (<[t := pc']> m) g'.
Proof.
  intros HJ Ht E x. rewrite (total_update _ _ _ pc) by done. specialize (HJ x). specialize (E x).
  unfold compose at 2 3. lia.
Qed.

Lemma conserved_return L m g t pc :
  conserved L m g → m !! t = Some pc → to_append pc = [] → conserved L (delete t m) g.
Proof.
  intros HJ Ht E x. rewrite (total_delete _ _ _ pc) by done. specialize (HJ x).
  unfold compose at 2. rewrite E, occ_nil. lia.
Qed.

Lemma conserved_fork L m g t next p ps :
  conserved L m g → m !! t = Some (Start (p :: ps)) → m !! next = None →
  conserved L (<[next := At p]> (<[t := Start ps]> m)) g.
Proof.
  intros HJ Ht Hn x. assert (t ≠ next) by congruence.
  rewrite total_insert_new by (by rewrite lookup_insert_ne).
  rewrite (total_update _ _ _ (Start (p :: ps))) by done. specialize (HJ x).
  assert ((occ x ∘ to_append) (Start (p :: ps)) =
    (occ x ∘ to_append) (At p) + (occ x ∘ to_append) (Start ps)) as E by (apply occ_app).
  rewrite E. lia.
Qed.

Lemma conserved_step L m g t next pc g' pc' c :
  conserved L m g → m !! t = Some pc → m !! next = None → resume_at pc g = Ok (g', pc', c) →
  conserved L (next_live t next pc' c m) g'.
Proof.
  intros HJ Ht Hn E.
  assert (∀ g1 pc1, removed g1 = removed g → items g1 = items g → to_append pc1 = to_append pc →
    conserved L (<[t := pc1]> m) g1) as Hsame.
  { intros g1 pc1 E1 E2 E3. eapply conserved_move; [exact HJ|exact Ht|]. by rewrite E1, E2, E3. }
  destruct pc as [[|p ps]|[|[item| |] ops]|item ops|ops|ops|ops]; cbn in E;
    try (injection E as <- <- <-; cbn [next_live]).
  - by eapply conserved_return.
  - by apply conserved_fork.
  - by eapply conserved_return.
  - by apply Hsame.
  - by apply Hsame.
  - by apply Hsame.
  - eapply conserved_move; [exact HJ|exact Ht|]. intros x. cbn [removed items to_append].
    autorewrite with occ. rewrite (occ_cons x item (appends ops)). lia.
  - by apply Hsame.
  - unfold Remove_test in E. destruct (items g) as [|item rest] eqn:Ei.
    + injection E as <- <- <-. by apply Hsame.
    + apply bind_Ok in E as (_ & _ & E). injection E as <- <- <-.
      eapply conserved_move; [exact HJ|exact Ht|]. intros x. cbn [removed items to_append]. rewrite Ei.
      autorewrite with occ. rewrite (occ_cons x item rest). lia.
  - by apply Hsame.
Qed.

(** C24: under every schedule and for any programs, the items removed so far,
    those on the list and those still to be appended are together exactly the
    items of the programs: [SynchList] loses, duplicates and invents nothing. *)
Theorem SynchList_conserves rnd useTimer programs k0 k x :
  initial rnd useTimer useTimer 1 1 (mkVars [] [] []) (Start programs) = Ok k0 →
  steps (kstep rnd useTimer) k0 k →
  occ x (removed (shared k) ++ items (shared k)) + total (occ x ∘ to_append) (live k) =
  occ x (concat (appends <$> programs)).
Proof.
  intros Hi Hs. revert x. change (conserved (concat (appends <$> programs)) (live k) (shared k)).
  eapply live_invariant; [by intros []| |exact Hi| |exact Hs].
  - intros m g t next now pc g' pc' c HJ Ht Hn E. by eapply conserved_step.
  - intros x. rewrite <- insert_empty, total_insert_new by done. unfold total at 1.
    rewrite map_fold_empty. unfold compose. cbn [to_append removed items app]. rewrite occ_nil. lia.
Qed.

Lemma SynchList_conserves_witness :
  ∃ k0 k : kernel, initial (C := client) (λ _, 150) true true 1 1 (mkVars [] [] [])
      (Start [[OpAppend 4; OpAppend 4]; [OpRemove]]) = Ok k0 ∧
    removed (shared k) = [4] ∧ items (shared k) = [4] ∧
    occ 4 (removed (shared k) ++ items (shared k)) + total (occ 4 ∘ to_append) (live k) = 2.
Proof.
  destruct (initial (C := client) (λ _, 150) true true 1 1 (mkVars [] [] [])
    (Start [[OpAppend 4; OpAppend 4]; [OpRemove]])) as [k0|e] eqn:E; [|exfalso; vm_compute in E; discriminate E].
  exists k0, (run (kstep (λ _, 150) true) 1000 k0).1.
  pose proof (SynchList_conserves (λ _, 150) true _ k0 _ 4 E (run_steps _ 1000 k0)) as H.
  split; [reflexivity|]. split; [injection E as <-; vm_compute; reflexivity|].
  split; [injection E as <-; vm_compute; reflexivity|]. exact H.
Defined.

(** [Remove] on an empty list does not wait for [Append]: the program
    aborts in [Condition::Wait]. *)
Theorem SynchList_Remove_empty_aborts :
  (r ← run_programs (λ _, 150) false [[OpRemove]; [OpAppend 5]] 1000; mret r.2)
  = Ok (Some AssertFailed).
Proof. vm_compute. reflexivity. Qed.

(** ** Its use of the lock *)

(** The places between [lock->Acquire()] and [lock->Release()]. *)
Definition place_holds (pc : place) : gset nat :=
  match pc with
  | AppendLocked _ _ | AppendSignalled _ | RemoveTest _ | MapcarLocked _ => {[lock]}
  | _ => ∅
  end.

Lemma SynchList_holds_call pc g g' pc' c :
  resume_at pc g = Ok (g', pc', c) → lock_call place_holds (place_holds pc) c (place_holds pc').
Proof.
  intros H. destruct pc as [[|p ps]|[|[] ops]|? ?|?|ops|?]; cbn in H;
    try (injection H as <- <- <-; cbn; set_solver).
  unfold Remove_test in H. destruct (items g) as [|item rest]; invert_ok; set_solver.
Qed.

#[global] Instance discipline : LockDiscipline client.
Proof. exists place_holds. intros t now pc g g' pc' c H. by eapply SynchList_holds_call. Defined.

(** A removing thread alone: it fails in [Condition::Wait]. *)
Lemma disciplined_lock_assertions_witness :
  ∃ k : kernel (C := client), kstep (λ _, 150) false k = Err AssertFailed ∧
  ∃ th f fs, threads k !! currentThread k = Some th ∧ stack th = f :: fs ∧
    may_abort f.
Proof.
  destruct (initial (C := client) (λ _, 150) false false 1 1 (mkVars [] [] []) (Start [[OpRemove]]))
    as [k0|e] eqn:E; [|exfalso; vm_compute in E; discriminate E].
  pose (k := (run (kstep (λ _, 150) false) 1000 k0).1).
  assert (kstep (λ _, 150) false k = Err AssertFailed) as Hk
    by (unfold k; injection E as <-; vm_compute; reflexivity).
  exists k. split; [exact Hk|].
  apply (disciplined_lock_assertions (C := client) (λ _, 150) false false 1 1 (mkVars [] [] [])
    (Start [[OpRemove]]) k0 k);
    [intros; lia|reflexivity|exact E|apply run_steps|intros []|exact Hk].
Defined.
