(* ===== verification/LockTest.v ===== *)
(** * What threads/lockTest.cc prints

    The lines [LockTestThread] prints while it is inside the critical section
    are bracketed: no other thread enters or leaves the section in between. *)

From S2P Require Import Prelude NachList Kernel KernelInv KernelSpec KernelMachine KernelLocks ThreadTest.
Import Locks.

Local Open Scope Z_scope.

(** Where the thread is between [Acquire] and [Release]. *)
Definition place_holds (pc : place) : gset nat :=
  match pc with Inside _ | Yielding _ _ => {[testLock]} | _ => ∅ end.

Lemma lockTest_holds_call pc g g' pc' c :
  resume_at pc g = (g', pc', c) → lock_call place_holds (place_holds pc) c (place_holds pc').
Proof.
  intros H. destruct pc; cbn in H; unfold enter, yield_loop in H;
    repeat case_decide; simplify_eq; cbn; set_solver.
Qed.

#[local] Instance discipline : LockDiscipline client.
Proof. exists place_holds. intros t now pc g g' pc' c [= H]. by eapply lockTest_holds_call. Defined.

(** Who is in the critical section after the lines [out], if they are bracketed. *)
Definition enter_leave (st : option (option Z)) (l : line) : option (option Z) :=
  match st, l with
  | Some st, Trying _ => Some st
  | Some None, InsideCS w => Some (Some w)
  | Some (Some w), Releasing w' => if decide (w = w') then Some None else None
  | _, _ => None
  end.
Definition inside (out : list line) : option (option Z) := foldl enter_leave (Some None) out.

Arguments inside : simpl never.

Lemma inside_snoc out l : inside (out ++ [l]) = enter_leave (inside out) l.
Proof. unfold inside. by rewrite foldl_app. Qed.

(** A thread at [Yielding w i] has printed that it is inside.  The lock admits
    one such thread, and the lines name it. *)
Definition bracketed (a : amachine (C := client)) : Prop :=
  (∀ t ws w i, clients a !! t = Some (ws, Yielding w i) → ws = [FClient]) ∧
  match inside (aglobals a) with
  | None => False
  | Some None => ∀ t ws w i, clients a !! t ≠ Some (ws, Yielding w i)
  | Some (Some w) => ∃ t i, clients a !! t = Some ([FClient], Yielding w i)
  end.

Definition J (a : amachine (C := client)) : Prop :=
  disciplined a ∧ is_Some (owners a !! testLock) ∧ bracketed a.

(** Two threads at places that hold the lock are the same. *)
Lemma one_inside (a : amachine (C := client)) t1 t2 pc1 pc2 :
  disciplined a → is_Some (owners a !! testLock) →
  clients a !! t1 = Some ([FClient], pc1) → clients a !! t2 = Some ([FClient], pc2) →
  testLock ∈ place_holds pc1 → testLock ∈ place_holds pc2 → t1 = t2.
Proof.
  intros Hd Ho H1 H2 Hh1 Hh2. by eapply one_holder.
Qed.

(** Thread [t] is not between the two lines. *)
Lemma not_yielding (a : amachine (C := client)) t ws pc :
  clients a !! t = Some (ws, pc) → (∀ w i, pc ≠ Yielding w i) →
  ∀ ws w i, clients a !! t ≠ Some (ws, Yielding w i).
Proof. intros Ht Hpc ws' w i H. pose proof (eq_trans (eq_sym Ht) H). naive_solver. Qed.

(** A thread that is not yet, or no longer, between the two lines moves. *)
Lemma bracketed_move a a' t ws' pc' :
  bracketed a → (∀ ws w i, clients a !! t ≠ Some (ws, Yielding w i)) →
  clients a' = put t ws' pc' (clients a) →
  (∀ w i, pc' ≠ Yielding w i) → inside (aglobals a') = inside (aglobals a) → bracketed a'.
Proof.
  intros [Hf Hb] Ht Ea Hpc' Ei.
  assert (∀ t' ws1 w i, clients a' !! t' = Some (ws1, Yielding w i) ↔ clients a !! t' = Some (ws1, Yielding w i))
    as Hsame.
  { intros t' ws1 w i. rewrite Ea. unfold put. destruct ws'; rewrite ?lookup_delete, ?lookup_insert;
      case_decide; try done; subst; naive_solver. }
  split; [setoid_rewrite Hsame; exact Hf|]. rewrite Ei.
  destruct (inside (aglobals a)) as [[w|]|]; [setoid_rewrite Hsame; done..|done].
Qed.

(** A thread between the two lines yields again. *)
Lemma bracketed_stay a t w i i' :
  bracketed a → clients a !! t = Some ([FClient], Yielding w i) →
  bracketed (with_client t [FClient] (Yielding w i') a).
Proof.
  intros [Hf Hb] Ht. split.
  - intros t' ws w' j. cbn. rewrite lookup_insert. case_decide; [congruence|]. apply Hf.
  - cbn. destruct (inside (aglobals a)) as [[w'|]|]; [|by apply Hb in Ht|done].
    destruct Hb as (t' & j & Ht'). destruct (decide (t = t')) as [<-|Hne].
    + exists t, i'. rewrite lookup_insert_eq. congruence.
    + exists t', j. by rewrite lookup_insert_ne.
Qed.

Lemma bracketed_enter a g' t w i :
  J a → clients a !! t = Some ([FClient], Inside w) → inside g' = inside (aglobals a ++ [InsideCS w]) →
  bracketed (with_client t [FClient] (Yielding w i) (with_globals g' a)).
Proof.
  intros (Hd & Ho & Hf & Hb) Ht Eg. split.
  - intros t' ws w' i'. cbn. rewrite lookup_insert. case_decide; [congruence|]. apply Hf.
  - cbn. rewrite Eg, inside_snoc. destruct (inside (aglobals a)) as [[w'|]|]; [|cbn|done].
    + exfalso. destruct Hb as (t' & i' & Ht').
      assert (t' = t) as -> by (eapply one_inside; [done..| |]; cbn; set_solver). congruence.
    + exists t, i. by rewrite lookup_insert_eq.
Qed.

Lemma bracketed_leave a g' t w i pc' ws' :
  J a → clients a !! t = Some ([FClient], Yielding w i) → (∀ w' i', pc' ≠ Yielding w' i') →
  inside g' = inside (aglobals a ++ [Releasing w]) →
  bracketed (with_client t (FRelease testLock :: ws') pc' (with_globals g' a)).
Proof.
  intros (Hd & Ho & Hf & Hb) Ht Hpc' Eg.
  assert (∀ t' ws w' i', clients a !! t' = Some (ws, Yielding w' i') → t' = t) as Hone.
  { intros t' ws w' i' Ht'. pose proof (Hf _ _ _ _ Ht'). subst.
    eapply one_inside; [done..| |]; cbn; set_solver. }
  assert (inside (aglobals a) = Some (Some w)) as E.
  { destruct (inside (aglobals a)) as [[w'|]|]; [|by apply Hb in Ht|done].
    destruct Hb as (t' & i' & Ht'). pose proof (Hone _ _ _ _ Ht'). subst. congruence. }
  split.
  - intros t' ws w' i'. cbn. rewrite lookup_insert. case_decide; [naive_solver|]. apply Hf.
  - cbn. rewrite Eg, inside_snoc, E. cbn. rewrite decide_True by done.
    intros t' ws w' i'. rewrite lookup_insert. case_decide; [naive_solver|].
    intros Ht'. apply Hone in Ht'. congruence.
Qed.

Lemma bracketed_client a a' t now pc g pc' c :
  J a → clients a !! t = Some ([FClient], pc) →
  client_step t now pc (aglobals a) = Ok (g, pc', c) →
  call_effect c (with_client t (call_frames c) pc' (with_globals g a)) a' → bracketed a'.
Proof.
  intros HJ Ht [= Hc] He. pose proof HJ as (_ & _ & Hb).
  assert (∀ w, inside (aglobals a ++ [Trying w]) = inside (aglobals a)) as Etry
    by (intros w; rewrite inside_snoc; by destruct (inside (aglobals a)) as [[]|]).
  assert (∀ g ws' pc', (∀ w i, pc ≠ Yielding w i) → (∀ w i, pc' ≠ Yielding w i) →
    inside g = inside (aglobals a) → bracketed (with_client t ws' pc' (with_globals g a))) as Hmove
    by (intros; eapply bracketed_move; [exact Hb|by eapply not_yielding|reflexivity|done..]).
  destruct pc as [i|w|w|w i|]; cbn in Hc; unfold enter, yield_loop in Hc; repeat case_decide; try done;
    injection Hc as <- <- <-; inversion He; subst; try done; cbn [call_frames] in *;
    try by apply Hmove.
  - match goal with |- bracketed (with_client ?n ?ws ?p ?b) =>
      apply (bracketed_move b _ n ws p); [by apply Hmove| |done..];
      intros ws' w j Hy; assert (None = Some (ws', Yielding w j)) by (etrans; [|exact Hy]; done) end.
    done.
  - by apply bracketed_enter.
  - by eapply (bracketed_stay (with_globals (aglobals a) a)).
  - by eapply bracketed_leave.
Qed.

Lemma lockTest_step a a' : J a → astep a a' → J a'.
Proof.
  intros HJ Hstep. pose proof HJ as (Hd & Ho & Hb). split; [by eapply disciplined_step|].
  assert (∀ t f ws ws' pc b, clients a !! t = Some (f :: ws, pc) → f ≠ FClient →
    clients b = put t ws' pc (clients a) → aglobals b = aglobals a → bracketed b) as Hframe.
  { intros t f ws ws' pc b Ht Hne E Eg. destruct Hb as [Hf Hb].
    assert (∀ w i, pc ≠ Yielding w i) by (intros w i ->; apply Hf in Ht; congruence).
    eapply bracketed_move; [by split|by eapply not_yielding|exact E|done|by rewrite Eg]. }
  split; [by eapply astep_owners|].
  destruct Hstep as [a a' (E1 & _ & _ & _ & E3)|???????? Ht Hc He|t s ws pc v a Ht|t s ws pc v a Ht|
    t l ws pc o a Ht|t l ws pc a Ht|t l ws pc a Ht|t c l ws pc a Ht|t f c l ws pc a Ht Hf|[]].
  - unfold bracketed. by rewrite <- E1, <- E3.
  - by eapply bracketed_client.
  - by eapply Hframe.
  - by eapply Hframe.
  - by eapply Hframe.
  - by eapply Hframe.
  - by eapply Hframe.
  - by eapply Hframe.
  - eapply Hframe; [exact Ht|by destruct Hf as [-> | ->]|done..].
Qed.

(** The lines printed by threads/lockTest.cc are bracketed under every
    schedule: [inside] a line that enters the critical section follows only one
    that left it, and a thread that leaves is the one that entered. *)
Theorem lockTest_bracketed rnd useTimer k0 k :
  start rnd useTimer = Ok k0 → steps (kstep rnd useTimer) k0 k → inside (shared k) ≠ None.
Proof.
  intros Hi Hs. assert (J (absf k)) as (_ & _ & _ & HJ).
  { eapply (machine_invariant rnd useTimer J); [exact Hi|exact Hs| |exact lockTest_step].
    split; [by eapply disciplined_init|]. split; [by eexists|].
    split; intros t ws w i H; by destruct (ainit_client (C := client) _ _ _ _ _ _ H) as (_ & _ & ?). }
  intros E. change (shared k) with (aglobals (absf k)) in E. by rewrite E in HJ.
Qed.

Lemma lockTest_bracketed_witness :
  ∃ k0 k, start (λ _, 150) true = Ok k0 ∧ steps (kstep (λ _, 150) true) k0 k ∧
    length (shared k) = 12%nat ∧ inside (shared k) ≠ None.
Proof.
  destruct (start (λ _, 150) true) as [k0|e] eqn:E; [|exfalso; vm_compute in E; discriminate E].
  exists k0, (run (kstep (λ _, 150) true) 1000 k0).1.
  split; [reflexivity|]. split; [apply run_steps|]. split; [injection E as <-; vm_compute; reflexivity|].
  apply (lockTest_bracketed (λ _, 150) true k0 _ E). apply run_steps.
Defined.

(** At step 34 thread 0 is in the critical section and the others wait. *)
Lemma critical_sections_exclusive_witness :
  ∃ (k : kernel (C := client)) lk, locks k !! testLock = Some lk ∧
    clients (absf k) !! 0%nat = Some ([FClient], Yielding 0 1) ∧
    owner lk = Some 0%nat ∧ testLock ∈ holding (absf k) 0.
Proof.
  destruct (start (λ _, 150) true) as [k0|e] eqn:E; [|exfalso; vm_compute in E; discriminate E].
  pose (k := (run (kstep (λ _, 150) true) 34 k0).1).
  assert (locks k !! testLock = Some (mkLock (Some 0%nat))) as Hl
    by (unfold k; injection E as <-; vm_compute; reflexivity).
  assert (clients (absf k) !! 0%nat = Some ([FClient], Yielding 0 1)) as Hc
    by (unfold k; injection E as <-; vm_compute; reflexivity).
  exists k, (mkLock (Some 0%nat)). split; [exact Hl|]. split; [exact Hc|].
  destruct (critical_sections_exclusive (C := client) (D := discipline) (λ _, 150) true true 1 0 []
    (LockTest 1) k0 k testLock (mkLock (Some 0%nat)) 0 0 (Yielding 0 1) (Yielding 0 1) eq_refl E
    (run_steps _ 34 k0) Hl) as [H _].
  split; [reflexivity|]. apply H. reflexivity.
Defined.
