(* ===== verification/ElevatorTest.v ===== *)
(** * The elevator of threads/elevatorTest.cc

    The elevator written with a lock and two condition variables:
    [ElevatorThreadFunc], [Elevator], [WaitForElevatorAtFloor],
    [TryEnterElevator] and [LeaveElevator] as a client of the kernel.  The file
    starts no persons, so the threads that call the last three are a parameter,
    one list of calls per thread.  Lock 0 is [elevatorLock], condition 0 is
    [floorArrived] and condition 1 is [spaceAvailable]. *)

From S2P Require Import Prelude NachList Kernel KernelInv KernelSpec KernelMachine KernelLocks KernelClient.

Local Open Scope Z_scope.

Definition elevatorLock : nat := 0.
Definition floorArrived : nat := 0.
Definition spaceAvailable : nat := 1.

(** The fields of [struct ElevatorThread] that are not kernel objects. *)
Record ElevatorThread := mkElevator {
  numFloors : Z;
  currentFloor : Z;
  numPeopleIn : Z;
  movingUp : bool;
}.

(** [elevator], NULL until [Elevator] is called, and the floors printed. *)
Record vars := mkVars {
  elevator : option ElevatorThread;
  output : list Z;
}.

(** What the threads of the program may call. *)
Inductive person_call :=
| WaitForElevatorAtFloor (floor : Z)
| TryEnterElevator
| LeaveElevator.

Inductive place :=
| Main (scripts : list (list person_call))    (**r calls [Elevator] *)
| Forking (scripts : list (list person_call)) (**r starts the other threads *)
| ElevatorThreadFunc                          (**r the head of [while (true)] *)
| Moving                                      (**r after its [Acquire] *)
| Travelling (t : Z)                          (**r the loop of [Yield]s, at [t] *)
| Arrived                                     (**r after its [Broadcast] *)
| Calling (cs : list person_call)             (**r about to make the next call *)
| Waiting (floor : Z) (cs : list person_call) (**r the test of [while (currentFloor != floor)] *)
| Entering (cs : list person_call)            (**r the test of [while (numPeopleIn >= 5)] *)
| Leaving (cs : list person_call)             (**r after the [Acquire] of [LeaveElevator] *)
| Signalled (cs : list person_call).          (**r after its [Signal] *)

Definition outcome : Type := vars * place * call place Empty_set.

(** [elevator->...]: a null pointer is a fault. *)
Definition the_elevator (g : vars) : Result ElevatorThread := deref (elevator g).

Definition set_elevator (e : ElevatorThread) (g : vars) : vars := mkVars (Some e) (output g).

(** The first lines of the loop body: the next floor and the direction. *)
Definition next_floor (e : ElevatorThread) : ElevatorThread :=
  if movingUp e then
    let f := currentFloor e + 1 in
    mkElevator (numFloors e) f (numPeopleIn e) (if decide (f = numFloors e) then false else movingUp e)
  else
    let f := currentFloor e - 1 in
    mkElevator (numFloors e) f (numPeopleIn e) (if decide (f = 1) then true else movingUp e).

(** [for (int t = 0; t < 50; t++) currentThread->Yield();], then the floor is
    printed and the waiting persons are woken. *)
Definition travel (t : Z) (g : vars) : Result outcome :=
  if decide (t < 50) then mret (g, Travelling (t + 1), CYield)
  else
    e ← the_elevator g;
    mret (mkVars (elevator g) (output g ++ [currentFloor e]), Arrived, CBroadcast floorArrived elevatorLock).

Definition move (g : vars) : Result outcome :=
  e ← the_elevator g;
  travel 0 (set_elevator (next_floor e) g).

Definition Elevator (n : Z) (scripts : list (list person_call)) (g : vars) : outcome :=
  (set_elevator (mkElevator n 1 0 true) g, Forking scripts, CFork ElevatorThreadFunc).

Definition wait_test (floor : Z) (cs : list person_call) (g : vars) : Result outcome :=
  e ← the_elevator g;
  if decide (currentFloor e ≠ floor) then mret (g, Waiting floor cs, CWait floorArrived elevatorLock)
  else mret (g, Calling cs, CRelease elevatorLock).

Definition enter_test (cs : list person_call) (g : vars) : Result outcome :=
  e ← the_elevator g;
  if decide (numPeopleIn e >= 5) then mret (g, Entering cs, CWait spaceAvailable elevatorLock)
  else mret (set_elevator (mkElevator (numFloors e) (currentFloor e) (numPeopleIn e + 1) (movingUp e)) g,
             Calling cs, CRelease elevatorLock).

Definition leave (cs : list person_call) (g : vars) : Result outcome :=
  e ← the_elevator g;
  mret (set_elevator (mkElevator (numFloors e) (currentFloor e) (numPeopleIn e - 1) (movingUp e)) g,
        Signalled cs, CSignal spaceAvailable elevatorLock).

(** A piece of code that returned: at which place, on which branch. *)
Ltac step_cases pc H :=
  destruct pc as [?|[|? ?]| | |?| |[|[?| |] ?]|? ?|?|?|?]; cbn in H;
  unfold Elevator, move, travel, wait_test, enter_test, leave, the_elevator in H;
  repeat (invert_ok || case_decide).

Section program.
Context (n : Z).

Definition resume_at (pc : place) (g : vars) : Result outcome :=
  match pc with
  | Main scripts => mret (Elevator n scripts g)
  | Forking (cs :: scripts) => mret (g, Forking scripts, CFork (Calling cs))
  | Forking [] | Calling [] => mret (g, pc, CReturn)
  | ElevatorThreadFunc => _ ← the_elevator g; mret (g, Moving, CAcquire elevatorLock)
  | Moving => move g
  | Travelling t => travel t g
  | Arrived => _ ← the_elevator g; mret (g, ElevatorThreadFunc, CRelease elevatorLock)
  | Calling (WaitForElevatorAtFloor floor :: cs) =>
      _ ← the_elevator g; mret (g, Waiting floor cs, CAcquire elevatorLock)
  | Calling (TryEnterElevator :: cs) => _ ← the_elevator g; mret (g, Entering cs, CAcquire elevatorLock)
  | Calling (LeaveElevator :: cs) => _ ← the_elevator g; mret (g, Leaving cs, CAcquire elevatorLock)
  | Waiting floor cs => wait_test floor cs g
  | Entering cs => enter_test cs g
  | Leaving cs => leave cs g
  | Signalled cs => _ ← the_elevator g; mret (g, Calling cs, CRelease elevatorLock)
  end.

#[local] Instance client : Client := {
  local := place;
  globals := vars;
  device := Empty_set;
  client_step _ _ pc g := resume_at pc g;
  device_handler d _ := match d with end;
}.

Definition start (rnd : nat → Z) (useTimer : bool) (scripts : list (list person_call)) : Result kernel :=
  initial rnd useTimer useTimer 1 2 (mkVars None []) (Main scripts).

#[local] Instance client_sane : SaneClient.
Proof. intros t now pc g g' pc' s v H. cbn in H. by step_cases pc H. Qed.

(** ** The locks *)

Definition place_holds (pc : place) : gset nat :=
  match pc with
  | Moving | Travelling _ | Arrived | Waiting _ _ | Entering _ | Leaving _ | Signalled _ => {[elevatorLock]}
  | _ => ∅
  end.

Lemma elevator_holds_call pc g g' pc' c :
  resume_at pc g = Ok (g', pc', c) → lock_call place_holds (place_holds pc) c (place_holds pc').
Proof. intros H. step_cases pc H; cbn; set_solver. Qed.

#[local] Instance discipline : LockDiscipline client.
Proof. exists place_holds. intros t now pc g g' pc' c H. by eapply elevator_holds_call. Defined.

(** ** The route

    Where the elevator is after [i] moves, and whether it goes up then: it goes
    from floor 1 to floor [n] and back, in [2 * (n - 1)] moves. *)

Definition period : Z := 2 * (n - 1).
Definition floor_at (i : nat) : Z :=
  let p := Z.of_nat i mod period in 1 + Z.min p (period - p).
Definition up_at (i : nat) : bool := bool_decide (Z.of_nat i mod period < n - 1).

Hypothesis two_floors : 2 ≤ n.

Lemma phase_S i :
  0 ≤ Z.of_nat i mod period < period ∧
  Z.of_nat (S i) mod period =
    if decide (Z.of_nat i mod period = period - 1) then 0 else Z.of_nat i mod period + 1.
Proof using two_floors.
  assert (0 < period) by (unfold period; lia).
  pose proof (Z.mod_pos_bound (Z.of_nat i) period ltac:(lia)) as Hp. split; [done|].
  rewrite Nat2Z.inj_succ, <- Z.add_1_r, <- Zplus_mod_idemp_l.
  case_decide as E; [rewrite E, Z.sub_add; by apply Z_mod_same_full|]. apply Z.mod_small. lia.
Qed.

Lemma next_floor_route e i :
  numFloors e = n → currentFloor e = floor_at i → movingUp e = up_at i →
  next_floor e = mkElevator n (floor_at (S i)) (numPeopleIn e) (up_at (S i)).
Proof using two_floors.
  intros En Ef Eu. destruct (phase_S i) as [Hp ES]. unfold next_floor, floor_at, up_at in *.
  rewrite Eu, Ef, En, ES. set (p := Z.of_nat i mod period) in *. unfold period in *.
  repeat (case_bool_decide || case_decide); f_equal; lia.
Qed.

Lemma next_floor_people e : numPeopleIn (next_floor e) = numPeopleIn e.
Proof. unfold next_floor. by destruct (movingUp e). Qed.

Lemma floor_at_bounds i : 1 ≤ floor_at i ≤ n.
Proof using two_floors.
  destruct (phase_S i) as [Hp _]. unfold floor_at, period in *. lia.
Qed.

(** The elevator's own thread, and the places of the start of the program. *)
Definition lift (pc : place) : bool :=
  match pc with ElevatorThreadFunc | Moving | Travelling _ | Arrived => true | _ => false end.
Definition special (pc : place) : bool :=
  match pc with Main _ => true | _ => lift pc end.

(** A move is announced when it is over. *)
Definition under_way (pc : place) : nat := match pc with Travelling _ => 1 | _ => 0 end.

Definition on_route (pc : place) (g : vars) : Prop :=
  ∃ e, elevator g = Some e ∧ numFloors e = n ∧
    currentFloor e = floor_at (length (output g) + under_way pc) ∧
    movingUp e = up_at (length (output g) + under_way pc) ∧
    output g = floor_at <$> seq 1 (length (output g)).

Lemma lift_step pc g g' pc' c :
  lift pc = true → on_route pc g → resume_at pc g = Ok (g', pc', c) →
  on_route pc' g' ∧ lift pc' = true ∧ c ≠ CReturn ∧ ∀ s, c ≠ CFork s.
Proof using two_floors.
  intros Hl (e & He & En & Ef & Eu & Eo) H. unfold on_route.
  step_cases pc H; split_and!; try done; cbn [under_way elevator output] in *.
  - by exists e.
  - eexists. split; [done|]. rewrite Nat.add_0_r in *. rewrite (next_floor_route _ (length (output g))) by done.
    rewrite Nat.add_1_r. done.
  - by exists e.
  - exists e. rewrite length_app, Nat.add_0_r. cbn [length]. split_and!; try done.
    rewrite seq_app, fmap_app, <- Eo. cbn. rewrite Ef. repeat f_equal; lia.
  - by exists e.
Qed.

Lemma person_step pce pc g g' pc' c :
  special pc = false → on_route pce g → resume_at pc g = Ok (g', pc', c) →
  on_route pce g' ∧ special pc' = false ∧ ∀ s, c = CFork s → special s = false.
Proof.
  intros Hl (e & He & En & Ef & Eu & Eo) H. unfold on_route.
  step_cases pc H; split_and!; try done; try (by intros ? [= <-]); by eexists.
Qed.

Definition route_inv (m : gmap nat place) (g : vars) : Prop :=
  (∃ scripts, m = {[0%nat := Main scripts]} ∧ g = mkVars None []) ∨
  ∃ te pce, m !! te = Some pce ∧ lift pce = true ∧ on_route pce g ∧
    ∀ t pc, m !! t = Some pc → special pc = true → t = te.

Lemma route_inv_step m g t next pc g' pc' c :
  route_inv m g → m !! t = Some pc → m !! next = None → resume_at pc g = Ok (g', pc', c) →
  route_inv (next_live (C := client) t next pc' c m) g'.
Proof using two_floors.
  intros [(scripts & -> & ->)|(te & pce & Hte & Hl & Hr & Hone)] Ht Hn E; right.
  - apply lookup_singleton_Some in Ht as [<- <-]. injection E as <- <- <-.
    exists next, ElevatorThreadFunc. split_and!; [apply lookup_insert_eq|done| |].
    + eexists. split; [done|]. cbn. unfold floor_at, up_at, period. rewrite Z.mod_0_l by lia.
      rewrite bool_decide_true by lia. split_and!; done || lia.
    + intros t pc Ht Hs. apply (next_live_Some (C := client)) in Ht as [(_ & ->)|[[_ ?]|[Hne Ht]]]; [done|done|].
      by apply lookup_singleton_Some in Ht as [<- _].
  - destruct (decide (t = te)) as [->|Hne].
    + assert (pc = pce) as -> by congruence.
      destruct (lift_step _ _ _ _ _ Hl Hr E) as (Hr' & Hl' & Hret & Hfork).
      exists te, pc'. split_and!; [by apply (next_live_self (C := client))|done|done|].
      intros t pc Ht' Hs. apply (next_live_Some (C := client)) in Ht' as [(? & _)|[[? _]|[_ ?]]]; [done|naive_solver|eauto].
    + assert (special pc = false) as Hsp.
      { destruct (special pc) eqn:Hs; [|done]. by destruct Hne, (Hone _ _ Ht Hs). }
      destruct (person_step _ _ _ _ _ _ Hsp Hr E) as (Hr' & Hs' & Hfork).
      exists te, pce. split_and!; [by apply (next_live_other (C := client))|done|done|].
      intros t' pc0 Ht' Hs0. apply (next_live_Some (C := client)) in Ht' as [(-> & ->)|[[-> ->]|[_ ?]]]; [congruence| |eauto].
      rewrite Hfork in Hs0 by done. done.
Qed.
(** ** Persons

    A person enters before leaving and leaves before the thread ends.
    [inside cs] says whether a person whose remaining calls are [cs] is in the
    elevator; it is [None] when no person makes these calls. *)
Fixpoint inside (cs : list person_call) : option bool :=
  match cs with
  | [] => Some false
  | WaitForElevatorAtFloor _ :: cs => inside cs
  | TryEnterElevator :: cs => if decide (inside cs = Some true) then Some false else None
  | LeaveElevator :: cs => if decide (inside cs = Some false) then Some true else None
  end.

Definition is_person (cs : list person_call) : Prop := inside cs = Some false.

Definition rest (pc : place) : list person_call :=
  match pc with
  | Calling cs | Waiting _ cs | Signalled cs => cs
  | Entering cs => TryEnterElevator :: cs
  | Leaving cs => LeaveElevator :: cs
  | _ => []
  end.

Definition aboard (pc : place) : Z := if decide (inside (rest pc) = Some true) then 1 else 0.

Definition late_ok (pc : place) : Prop :=
  match pc with
  | Main _ => False
  | Forking scripts => Forall is_person scripts
  | _ => is_Some (inside (rest pc))
  end.

Lemma late_step pc g e g' pc' c :
  late_ok pc → elevator g = Some e → numPeopleIn e ≤ 5 → resume_at pc g = Ok (g', pc', c) →
  late_ok pc' ∧ (c = CReturn → aboard pc' = 0) ∧
  (∀ s, c = CFork s → late_ok s ∧ aboard s = 0) ∧
  ∃ e', elevator g' = Some e' ∧ numPeopleIn e' ≤ 5 ∧
    numPeopleIn e' - numPeopleIn e = aboard pc' - aboard pc.
Proof.
  unfold aboard, late_ok. intros Hok He H5 H.
  step_cases pc H; cbn [rest inside set_elevator elevator numPeopleIn] in *; split_and!; try done.
  all: try (eexists; split_and!; [done|cbn; lia..]).
  - by inversion Hok.
  - intros s [= <-]. inversion Hok as [|? ? Hp]. cbn [rest]. by rewrite Hp.
  - exists (next_floor e). split_and!; [done|rewrite next_floor_people; lia..].
Qed.

Definition people_inv (m : gmap nat place) (g : vars) : Prop :=
  (∃ scripts, m = {[0%nat := Main scripts]} ∧ Forall is_person scripts ∧ g = mkVars None []) ∨
  ∃ e, elevator g = Some e ∧ map_Forall (λ _, late_ok) m ∧ numPeopleIn e ≤ 5 ∧
    numPeopleIn e = total aboard m.

Lemma people_inv_step m g t next pc g' pc' c :
  people_inv m g → m !! t = Some pc → m !! next = None → resume_at pc g = Ok (g', pc', c) →
  people_inv (next_live (C := client) t next pc' c m) g'.
Proof.
  intros [(scripts & -> & Hs & ->)|(e & He & Hall & H5 & Hsum)] Ht Hn E; right.
  - apply lookup_singleton_Some in Ht as [<- <-]. injection E as <- <- <-.
    eexists. split; [done|]. split; [|split; [done|]].
    + intros t pc Ht. apply (next_live_Some (C := client)) in Ht as [(_ & ->)|[[[= <-] _]|[Hne Ht]]]; [exact Hs|by eexists|].
      by apply lookup_singleton_Some in Ht as [<- _].
    + etrans; [|symmetry; apply total_zero]; [done|].
      intros t pc Ht. apply (next_live_Some (C := client)) in Ht as [(_ & ->)|[[[= <-] _]|[Hne Ht]]]; [done|done|].
      by apply lookup_singleton_Some in Ht as [<- _].
  - destruct (late_step _ _ _ _ _ _ (Hall _ _ Ht) He H5 E) as (Hok & Hret & Hfork & e' & He' & H5' & Hd).
    exists e'. split_and!; [done| |done|].
    + intros t' pc0 Ht'. apply (next_live_Some (C := client)) in Ht' as [(_ & ->)|[[-> _]|[_ ?]]];
        [done|by apply Hfork|by apply (Hall t')].
    + assert (total aboard (next_live (C := client) t next pc' c m : gmap nat place) = total aboard m - aboard pc +
        match c with CReturn => 0 | CFork s => aboard s + aboard pc' | _ => aboard pc' end) as Et
        by exact (total_next_live (C := client) aboard t next pc pc' c m Ht Hn).
      etrans; [|symmetry; exact Et].
      destruct c as [| | | | | | | | |s| |]; try lia. destruct (Hfork s eq_refl) as [_ ->]. lia.
Qed.

(** ** The threads in the machine *)

(** A thread that travels is at no call, and the threads in [Condition::Wait]
    come from one of the two loops that call it. *)
Definition waits (pc : place) : Prop :=
  match pc with Waiting _ _ | Entering _ => True | _ => False end.
Definition in_Wait (f : frame) : Prop :=
  match f with FWait _ _ | FWaitSleep _ => True | _ => False end.
Definition shape (ws : list frame) (pc : place) : Prop :=
  (under_way pc = 1%nat → ws = [FClient]) ∧ (Exists in_Wait ws → waits pc).

Definition shapes (a : amachine (C := client)) : Prop :=
  ∀ t ws pc, clients a !! t = Some (ws, pc) → shape ws pc.

Lemma put_shapes a a' t ws pc :
  shapes a → clients a' = put t ws pc (clients a) → (ws ≠ [] → shape ws pc) → shapes a'.
Proof.
  intros Ha E Hs t' ws' pc'. rewrite E. unfold put. destruct ws as [|f ws].
  - intros [_ ?]%lookup_delete_Some. by eapply Ha.
  - intros [[_ [= <- <-]]|[_ ?]]%lookup_insert_Some; [by apply Hs|by eapply Ha].
Qed.

(** A call leaves the client in such a place, and a forked thread starts in one. *)
Lemma call_shape pc g g' pc' c :
  resume_at pc g = Ok (g', pc', c) →
  shape (call_frames (C := client) c) pc' ∧ ∀ s, c = CFork s → shape [FClient] s.
Proof.
  assert (∀ pc, shape [FClient] pc) as Hcl by (split; [done|]; by rewrite Exists_cons, Exists_nil; intros [[]|[]]).
  intros H. step_cases pc H; cbn [call_frames]; split; try done;
    split; cbn; try done; rewrite ?Exists_cons, ?Exists_nil; cbn; tauto || done.
Qed.

Lemma shapes_step a a' : shapes a → astep a a' → shapes a'.
Proof.
  intros Ha Hstep. destruct Hstep as [a a' (E1 & _)|t now pc g pc' c a a' Ht Hc He|t s ws pc v a Ht|t s ws pc v a Ht|
    t l ws pc o a Ht|t l ws pc a Ht|t l ws pc a Ht|t c l ws pc a Ht|t f c l ws pc a Ht Hf|[]].
  1: intros t ws pc; rewrite <- E1; apply Ha.
  1: { apply call_shape in Hc as [Hc Hfork].
       assert (shapes (with_client t (call_frames c) pc' (with_globals g a))) as Hs
         by by eapply (put_shapes (with_globals g a)).
       inversion He as [|n0 start0| |]; subst; try done. eapply put_shapes; [exact Hs|reflexivity|].
       intros _. by apply Hfork. }
  all: pose proof (Ha _ _ _ Ht) as [H1 H2]; eapply put_shapes; [exact Ha|reflexivity|]; intros _; split;
    [intros H3; specialize (H1 H3); naive_solver|]; rewrite ?Exists_cons in *; cbn [in_Wait]; tauto || naive_solver.
Qed.
End program.

(** ** Under every schedule *)

Section schedules.
Context (n : Z) (scripts : list (list person_call)) (rnd : nat → Z) (useTimer : bool).
Context (k0 k : kernel (C := client n)).
Hypothesis two_floors : 2 ≤ n.
Hypothesis started : start n rnd useTimer scripts = Ok k0.
Hypothesis reached : steps (kstep (C := client n) rnd useTimer) k0 k.

#[local] Existing Instances client_sane discipline.

Lemma route_reachable : route_inv n (live k) (shared k).
Proof using two_floors started reached.
  eapply (live_invariant (C := client n) (Hsane := client_sane n)); [by intros []| |exact started| |exact reached].
  - intros m g t next now pc g' pc' c HJ Ht Hn E. by eapply route_inv_step.
  - left. by exists scripts.
Qed.

Lemma people_reachable : Forall is_person scripts → people_inv (live k) (shared k).
Proof using started reached.
  intros Hs.
  eapply (live_invariant (C := client n) (Hsane := client_sane n)); [by intros []| |exact started| |exact reached].
  - intros m g t next now pc g' pc' c HJ Ht Hn E. by eapply people_inv_step.
  - left. by exists scripts.
Qed.

Lemma shapes_reachable : shapes n (absf k).
Proof using started reached.
  eapply (machine_invariant (C := client n) rnd useTimer (shapes n)); [exact started|exact reached| |].
  - intros t ws pc H. destruct (ainit_client (C := client n) _ _ _ _ _ _ H) as (_ & -> & ->).
    split; [done|]. rewrite Exists_cons, Exists_nil. by intros [[]|[]].
  - intros. by eapply shapes_step.
Qed.

Lemma lock_reachable : is_Some (owners (absf k) !! elevatorLock).
Proof using started reached.
  eapply (machine_invariant (C := client n) rnd useTimer (λ a, is_Some (owners a !! elevatorLock)));
    [exact started|exact reached|by eexists|]. intros a a' Ha Hs. by eapply astep_owners.
Qed.

(** A client thread runs code of a live place. *)
Lemma live_client t pc : clients (absf k) !! t = Some ([FClient], pc) → live k !! t = Some pc.
Proof. intros H. rewrite live_absf. unfold alive. by rewrite lookup_omap, H. Qed.

(** A thread with the lock sees the elevator at the floor announced last. *)
Lemma Waiting_at_rest t floor cs :
  clients (absf k) !! t = Some ([FClient], Waiting floor cs) →
  ∃ e, elevator (shared k) = Some e ∧ currentFloor e = floor_at n (length (output (shared k))).
Proof using two_floors started reached.
  intros Ht. pose proof (live_client _ _ Ht) as Hl.
  destruct route_reachable as [(ss & E & _)|(te & pce & Hte & Hlift & (e & He & _ & Hf & _) & _)].
  { rewrite E in Hl. by apply lookup_singleton_Some in Hl as [_ ?]. }
  exists e. split; [done|]. rewrite Hf. destruct (under_way pce) as [|[|?]] eqn:Hu;
    [by rewrite Nat.add_0_r| |by destruct pce].
  exfalso. rewrite live_absf in Hte. unfold alive in Hte. rewrite lookup_omap in Hte.
  destruct (clients (absf k) !! te) as [[ws pc]|] eqn:Hc; [|done]. cbn in Hte. unfold running in Hte. cbn in Hte.
  case_decide; [|done]. injection Hte as ->.
  destruct (shapes_reachable _ _ _ Hc) as [Hws _]. specialize (Hws Hu). subst ws.
  assert (disciplined (absf k)) as Hd by (eapply disciplined_kernel; [|exact started|exact reached]; done).
  assert (te = t) as -> by (eapply one_holder; [exact Hd|exact lock_reachable|exact Hc|exact Ht| |];
    cbn; [destruct pce; try done; set_solver|set_solver]).
  by pose proof (eq_trans (eq_sym Hc) Ht) as [= ->].
Qed.

(** Client code never finds [elevator] NULL. *)
Lemma code_runs t pc : live k !! t = Some pc → ∃ r, resume_at n pc (shared k) = Ok r.
Proof using two_floors started reached.
  intros Hl. destruct route_reachable as [(ss & E & Eg)|(te & pce & _ & _ & (e & He & _) & _)].
  - rewrite E in Hl. apply lookup_singleton_Some in Hl as [_ <-]. by eexists.
  - unfold resume_at, move, travel, wait_test, enter_test, leave, the_elevator.
    destruct pc as [?|[|? ?]| | |?| |[|[?| |] ?]|? ?|?|?|?]; rewrite ?He; cbn; repeat case_decide; by eexists.
Qed.

(** An assertion that fails is the one of [Sleep] in [Condition::Wait]. *)
Lemma only_Wait_aborts :
  (∀ i, 0 ≤ rnd i) → kstep rnd useTimer k = Err AssertFailed →
  ∃ th c fs, threads k !! currentThread k = Some th ∧ stack th = FWaitSleep c :: fs ∧ waits (resume th).
Proof using two_floors started reached.
  intros Hr H.
  assert (wf k) as Hwf by (apply (reachable_wf rnd useTimer); by eexists _, _, _, _, _, _).
  assert (disciplined (absf k)) as Hd by (eapply disciplined_kernel; [|exact started|exact reached]; done).
  destruct (kstep_fault rnd useTimer Hr k AssertFailed Hwf) as (th & f & fs & Hth & Est & Hf); [by intros []|done|].
  assert (∀ f', watch f = Some f' →
    clients (absf k) !! currentThread k = Some (f' :: omap watch fs, resume th)) as Hc
    by (intros f' Ef; apply (absf_lookup _ th); [done|]; by rewrite Est; cbn; rewrite Ef).
  destruct (disciplined_fault f fs k th Hd Hth Est Hf) as [->|[c ->]].
  - exfalso. specialize (Hc _ eq_refl). pose proof (proj1 Hd _ _ _ Hc) as Hws. cbn in Hws. rewrite Hws in Hc.
    destruct (code_runs _ _ (live_client _ _ Hc)) as [[[g pc'] c] Er].
    eapply (client_no_fault k th g pc' c); [exact Hth|exact Er| |by intros []|exact Hf].
    intros i v ->. by step_cases (resume th) Er.
  - exists th, c, fs. split_and!; [done..|]. specialize (Hc _ eq_refl).
    destruct (shapes_reachable _ _ _ Hc) as [_ Hw]. apply Hw. by left.
Qed.
End schedules.

(** C25: the elevator of elevatorTest.cc, in a building of at least two floors,
    travels up and down: under every schedule the floors it announces are, in order, those of the route from
    floor 1 to the last floor and back, it is always at the floor it announced
    last or one move further, inside the building, and a thread that tests the
    floor in [WaitForElevatorAtFloor] never sees it between two floors. *)
Theorem elevatorTest_route n scripts rnd useTimer k0 k :
  2 ≤ n → start n rnd useTimer scripts = Ok k0 → steps (kstep (C := client n) rnd useTimer) k0 k →
  let g := shared (C := client n) k in
  output g = floor_at n <$> seq 1 (length (output g)) ∧
  (∀ e, elevator g = Some e → 1 ≤ currentFloor e ≤ n ∧
    (currentFloor e = floor_at n (length (output g)) ∨ currentFloor e = floor_at n (S (length (output g))))) ∧
  (∀ t floor cs, clients (absf (C := client n) k) !! t = Some ([FClient], Waiting floor cs) →
    ∃ e, elevator g = Some e ∧ currentFloor e = floor_at n (length (output g))).
Proof.
  intros Hn Hs Hk g. split; [|split]; [| |by apply (Waiting_at_rest n scripts rnd useTimer k0 k)].
  all: destruct (route_reachable n scripts rnd useTimer k0 k Hn Hs Hk)
    as [(ss & _ & E)|(te & pce & _ & _ & (e & He & _ & Ef & _ & Eo) & _)]; unfold g.
  - by rewrite E.
  - exact Eo.
  - by rewrite E.
  - intros e' He'. pose proof (eq_trans (eq_sym He) He') as [= <-]. rewrite Ef.
    split; [by apply floor_at_bounds|].
    destruct pce; cbn [under_way]; rewrite ?Nat.add_0_r, ?Nat.add_1_r; auto.
Qed.

(** When every caller is a person, who enters before leaving and leaves
    before the thread ends, [numPeopleIn] is under every schedule the number of
    persons that have entered and not left, and never more than five. *)
Theorem elevatorTest_capacity n scripts rnd useTimer k0 k e :
  Forall is_person scripts → start n rnd useTimer scripts = Ok k0 →
  steps (kstep (C := client n) rnd useTimer) k0 k → elevator (shared (C := client n) k) = Some e →
  0 ≤ numPeopleIn e ≤ 5 ∧ numPeopleIn e = total aboard (live (C := client n) k).
Proof.
  intros Hp Hs Hk He.
  destruct (people_reachable n scripts rnd useTimer k0 k Hs Hk Hp) as [(ss & _ & _ & E)|(e' & He' & _ & H5 & Hsum)].
  - pose proof (eq_trans (eq_sym (f_equal elevator E)) He). done.
  - pose proof (eq_trans (eq_sym He) He') as [= <-]. split; [|exact Hsum]. split; [|exact H5].
    rewrite Hsum. apply total_nonneg. intros t pc _. unfold aboard. case_decide; lia.
Qed.

(** Under every schedule the code of elevatorTest.cc runs from each kernel
    call to the next without using a null [elevator], and an assertion that
    fails is that of [Thread::Sleep] in [Condition::Wait], called by
    [WaitForElevatorAtFloor] away from its floor or by [TryEnterElevator] when
    the elevator is full. *)
Theorem elevatorTest_assertions n scripts rnd useTimer k0 k :
  2 ≤ n → (∀ i, 0 ≤ rnd i) → start n rnd useTimer scripts = Ok k0 →
  steps (kstep (C := client n) rnd useTimer) k0 k →
  (∀ t pc, live (C := client n) k !! t = Some pc →
    ∃ r, resume_at n pc (shared (C := client n) k) = Ok r) ∧
  (kstep (C := client n) rnd useTimer k = Err AssertFailed →
   ∃ th c fs, threads k !! currentThread k = Some th ∧ stack th = FWaitSleep c :: fs ∧
     waits (resume th)).
Proof.
  intros Hn Hr Hs Hk. split; [by apply (code_runs n scripts rnd useTimer k0 k)|].
  by apply (only_Wait_aborts n scripts rnd useTimer k0 k).
Qed.

(** ** Executions *)

(** The state after [fuel] steps, with the timer on. *)
Definition state (n : Z) (scripts : list (list person_call)) (fuel : nat) : Result (kernel (C := client n)) :=
  k0 ← start n (λ _, 150) true scripts; mret (run (kstep (C := client n) (λ _, 150) true) fuel k0).1.

Lemma state_reached n scripts fuel k :
  state n scripts fuel = Ok k →
  ∃ k0, start n (λ _, 150) true scripts = Ok k0 ∧ steps (kstep (C := client n) (λ _, 150) true) k0 k.
Proof.
  unfold state. destruct (start n (λ _, 150) true scripts) as [k0|e]; [|done]. intros [= <-].
  exists k0. split; [done|apply run_steps].
Qed.

Lemma state_eval {A} n scripts fuel (f : kernel (C := client n) → A) a :
  (k ← state n scripts fuel; mret (f k)) = Ok a → ∃ k, state n scripts fuel = Ok k ∧ f k = a.
Proof. destruct (state n scripts fuel) as [k|e]; [|done]. intros [= H]. by exists k. Qed.

Lemma elevatorTest_route_witness :
  ∃ k : kernel (C := client 3),
    output (shared k) = [2; 3; 2; 1; 2; 3; 2; 1; 2; 3; 2] ∧
    output (shared k) = floor_at 3 <$> seq 1 (length (output (shared k))).
Proof.
  destruct (state_eval 3 [[WaitForElevatorAtFloor 2]] 2000 (λ k, output (shared k)) [2; 3; 2; 1; 2; 3; 2; 1; 2; 3; 2])
    as (k & Hk & Ho); [vm_compute; reflexivity|].
  destruct (state_reached _ _ _ _ Hk) as (k0 & Hs & Hr). exists k. split; [exact Ho|].
  apply (elevatorTest_route 3 [[WaitForElevatorAtFloor 2]] (λ _, 150) true k0 k ltac:(lia) Hs Hr).
Defined.

Definition error_of {A} (r : Result A) : option stop := match r with Err e => Some e | Ok _ => None end.
Lemma error_of_Some {A} (r : Result A) e : error_of r = Some e → r = Err e.
Proof. destruct r; [done|]. by intros [= ->]. Qed.

Definition riders : list (list person_call) :=
  [[TryEnterElevator; LeaveElevator]; [TryEnterElevator; LeaveElevator]].

Lemma elevatorTest_capacity_witness :
  ∃ k : kernel (C := client 3), elevator (shared k) = Some (mkElevator 3 2 1 false) ∧
    1 = total aboard (live k).
Proof.
  destruct (state_eval 3 riders 560 (λ k, elevator (shared k)) (Some (mkElevator 3 2 1 false)))
    as (k & Hk & Ho); [vm_compute; reflexivity|].
  destruct (state_reached _ _ _ _ Hk) as (k0 & Hs & Hr). exists k. split; [exact Ho|].
  apply (elevatorTest_capacity 3 riders (λ _, 150) true k0 k (mkElevator 3 2 1 false)); [|exact Hs|exact Hr|exact Ho].
  repeat constructor.
Defined.

(** A person who waits for the elevator brings the machine down. *)
Lemma elevatorTest_assertions_witness :
  ∃ (k : kernel (C := client 3)) th c fs, kstep (λ _, 150) true k = Err AssertFailed ∧
    threads k !! currentThread k = Some th ∧ stack th = FWaitSleep c :: fs ∧ waits (resume th).
Proof.
  destruct (state_eval 3 [[WaitForElevatorAtFloor 3]] 2000
    (λ k, error_of (kstep (λ _, 150) true k)) (Some AssertFailed))
    as (k & Hk & Ho); [vm_compute; reflexivity|].
  destruct (state_reached _ _ _ _ Hk) as (k0 & Hs & Hr).
  pose proof (error_of_Some _ _ Ho) as He.
  destruct (elevatorTest_assertions 3 [[WaitForElevatorAtFloor 3]] (λ _, 150) true k0 k ltac:(lia)) as [_ H];
    [intros; lia|exact Hs|exact Hr|].
  destruct (H He) as (th & c & fs & H1 & H2 & H3). exists k, th, c, fs. exact (conj He (conj H1 (conj H2 H3))).
Defined.

(** With one floor the elevator never turns round: the top is tested for after
    the first move, and floor 2 is not it. *)
Example one_floor_leaves_the_building :
  (k ← state 1 [] 2000; mret (output (shared (C := client 1) k))) = Ok [2; 3; 4; 5; 6; 7; 8; 9; 10; 11; 12].
Proof. vm_compute. reflexivity. Qed.
