(* ===== verification/KernelWitness.v ===== *)
(** * The theorems of [KernelSpec.v] at work

    Each lemma applies one theorem about the kernel to a state that a run of
    the program of lockTest.cc (of synchlist.cc for [Condition::Wait]) reaches. *)

From S2P Require Import Prelude NachList Kernel KernelInv KernelSpec KernelMachine KernelClient ThreadTest.

Local Open Scope Z_scope.

Section witness.
Context {C : Client} (k0 : Result kernel).

(** The state after [n] steps, with the timer on and [Random()] returning 150. *)
Definition after_steps (n : nat) : option kernel :=
  match k0 with
  | Ok k => match run (kstep (λ _, 150) true) n k with (k, None) => Some k | _ => None end
  | Err _ => None
  end.

Lemma after_steps_reachable n k nlocks nconds g main :
  k0 = initial (λ _, 150) true true nlocks nconds g main →
  after_steps n = Some k → reachable (λ _, 150) true k.
Proof.
  intros E. unfold after_steps. destruct k0 as [k1|]; [|done].
  pose proof (run_steps (kstep (λ _, 150) true) n k1) as Hs.
  destruct (run (kstep (λ _, 150) true) n k1) as [k2 [e|]]; [done|]. intros [= <-].
  exists true, nlocks, nconds, g, main, k1. done.
Qed.

(** Read a field of the state off the computation. *)
Lemma after_steps_eval {A} (f : kernel → A) n k a :
  after_steps n = Some k → f <$> after_steps n = Some a → f k = a.
Proof. intros ->. by intros [= ->]. Qed.
End witness.

Definition at_step (n : nat) : option kernel := after_steps (Locks.start (λ _, 150) true) n.

Lemma at_step_reachable n k : at_step n = Some k → reachable (λ _, 150) true k.
Proof. by eapply after_steps_reachable. Qed.

(** Evaluate a field of [at_step n]. *)
Ltac at_eval E f :=
  refine (after_steps_eval (Locks.start (λ _, 150) true) f _ _ _ E _); vm_compute; reflexivity.

Lemma scheduler_consistent_witness :
  ∃ k, at_step 20 = Some k ∧ readyList k = [2; 3; 0]%nat ∧ NoDup (readyList k).
Proof.
  destruct (at_step 20) as [k|] eqn:E; [|exfalso; vm_compute in E; discriminate E].
  exists k. split; [reflexivity|]. split; [at_eval E (@readyList Locks.client)|].
  apply (scheduler_consistent (λ _, 150) true k). exact (at_step_reachable _ _ E).
Defined.

Lemma no_devices_safe k : devices_safe (C := Locks.client) k.
Proof. intros []. Qed.

Lemma kernel_faults_only_witness :
  ∃ k, at_step 110 = Some k ∧ ∃ th f fs, threads k !! currentThread k = Some th ∧
    stack th = f :: fs ∧ fault f Exit k.
Proof.
  destruct (at_step 110) as [k|] eqn:E; [|exfalso; vm_compute in E; discriminate E].
  exists k. split; [reflexivity|].
  apply (kernel_faults_only (λ _, 150) true ltac:(intros; lia) k Exit).
  - exact (at_step_reachable _ _ E).
  - apply no_devices_safe.
  - at_eval E (kstep (C := Locks.client) (λ _, 150) true).
Defined.

Lemma no_lost_wakeup_witness :
  ∃ k sem, at_step 34 = Some k ∧ sems k !! LockSem 0 = Some sem ∧ queue sem = [1; 2; 3]%nat ∧
    value sem ≤ total (woken (LockSem 0)) (threads k).
Proof.
  destruct (at_step 34) as [k|] eqn:E; [|exfalso; vm_compute in E; discriminate E].
  assert (sems k !! LockSem 0 = Some (mkSem 0 [1; 2; 3]%nat)) as Hs
    by at_eval E (λ k : kernel (C := Locks.client), sems k !! LockSem 0).
  exists k, (mkSem 0 [1; 2; 3]%nat). split; [reflexivity|]. split; [exact Hs|]. split; [reflexivity|].
  apply (no_lost_wakeup (λ _, 150) true k (LockSem 0) _ (at_step_reachable _ _ E) Hs). discriminate.
Defined.

Lemma lock_mutual_exclusion_witness :
  ∃ k k', at_step 42 = Some k ∧ kstep (λ _, 150) true k = Ok k' ∧
    ∀ t, Some 0%nat = Some t → None = Some t ∨
      (@None nat = None ∧ currentThread k = t ∧
       ∃ th fs, threads k !! t = Some th ∧ stack th = FRelease 0 :: fs).
Proof.
  destruct (at_step 42) as [k|] eqn:E; [|exfalso; vm_compute in E; discriminate E].
  destruct (kstep (λ _, 150) true k) as [k'|e] eqn:Es.
  2: { exfalso. pose (ok := λ k : kernel (C := Locks.client),
         match kstep (λ _, 150) true k with Ok _ => true | Err _ => false end).
       assert (ok k = true) as H by at_eval E ok. unfold ok in H. rewrite Es in H. discriminate H. }
  exists k, k'. split; [reflexivity|]. split; [exact Es|].
  assert (locks k !! 0%nat = Some (mkLock (Some 0%nat))) as Hl
    by at_eval E (λ k : kernel (C := Locks.client), locks k !! 0%nat).
  assert (locks k' !! 0%nat = Some (mkLock None)) as Hl'.
  { assert ((λ k : kernel (C := Locks.client), k1 ← kstep (λ _, 150) true k; mret (locks k1 !! 0%nat)) k
      = Ok (Some (mkLock None))) as H
      by at_eval E (λ k : kernel (C := Locks.client), k1 ← kstep (λ _, 150) true k; mret (locks k1 !! 0%nat)).
    cbn beta in H. rewrite Es in H. injection H as H. exact H. }
  exact (proj1 (lock_mutual_exclusion (λ _, 150) true k k' 0 _ _ (at_step_reachable _ _ E) Es Hl Hl')).
Defined.

Lemma lock_binary_witness :
  ∃ k sem, at_step 34 = Some k ∧ sems k !! LockSem 0 = Some sem ∧ value sem = 0.
Proof.
  destruct (at_step 34) as [k|] eqn:E; [|exfalso; vm_compute in E; discriminate E].
  assert (sems k !! LockSem 0 = Some (mkSem 0 [1; 2; 3]%nat)) as Hs
    by at_eval E (λ k : kernel (C := Locks.client), sems k !! LockSem 0).
  assert (locks k !! 0%nat = Some (mkLock (Some 0%nat))) as Hl
    by at_eval E (λ k : kernel (C := Locks.client), locks k !! 0%nat).
  exists k, (mkSem 0 [1; 2; 3]%nat). split; [reflexivity|]. split; [exact Hs|].
  apply (lock_binary (λ _, 150) true k 0 _ _ (at_step_reachable _ _ E) Hl Hs). by eexists.
Defined.

(** At step 34 thread 0 holds the lock and the three others wait for it. *)
Lemma kernel_refines_machine_witness :
  ∃ k, at_step 34 = Some k ∧ owners (absf k) !! 0%nat = Some (Some 0%nat) ∧
    rtc astep (ainit (C := Locks.client) 1 [] (Locks.LockTest 1)) (absf k).
Proof.
  destruct (Locks.start (λ _, 150) true) as [k0|e] eqn:E0; [|exfalso; vm_compute in E0; discriminate E0].
  pose proof (run_steps (kstep (λ _, 150) true) 34 k0) as Hs.
  destruct (at_step 34) as [k|] eqn:E; [|exfalso; vm_compute in E; discriminate E].
  exists k. split; [reflexivity|].
  split; [at_eval E (λ k : kernel (C := Locks.client), owners (absf k) !! 0%nat)|].
  apply (kernel_refines_machine (C := Locks.client) (λ _, 150) true true 1 0 [] (Locks.LockTest 1) k0 k E0).
  unfold at_step, after_steps in E. rewrite E0 in E.
  destruct (run (kstep (λ _, 150) true) 34 k0) as [k2 [e|]]; [discriminate E|]. injection E as <-. exact Hs.
Defined.

Lemma clock_and_interrupts_witness :
  ∃ k, at_step 20 = Some k ∧
    totalTicks (stats k) ≤ totalTicks (stats (run (kstep (λ _, 150) true) 50 k).1).
Proof.
  destruct (at_step 20) as [k|] eqn:E; [|exfalso; vm_compute in E; discriminate E].
  exists k. split; [reflexivity|].
  apply (clock_and_interrupts (λ _, 150) true k _ (at_step_reachable _ _ E)). apply run_steps.
Defined.

(** The top of the current thread's stack, with the thread. *)
Definition top (k : kernel (C := Locks.client)) : option (Thread * frame * list frame) :=
  th ← threads k !! currentThread k;
  match stack th with f :: fs => Some (th, f, fs) | [] => None end.

Lemma top_stack k th f fs :
  top k = Some (th, f, fs) → threads k !! currentThread k = Some th ∧ stack th = f :: fs.
Proof.
  unfold top. intros H. destruct (threads k !! currentThread k) as [th'|]; [|done]. cbn in H.
  destruct (stack th') eqn:Es; [done|]. by injection H as -> -> ->.
Qed.

Lemma Yield_round_robin_witness :
  ∃ k k', at_step 14 = Some k ∧ kstep (λ _, 150) true k = Ok k' ∧
    currentThread k' = 1%nat ∧ readyList k' = [2; 3; 0]%nat.
Proof.
  destruct (at_step 14) as [k|] eqn:E; [|exfalso; vm_compute in E; discriminate E].
  assert (top k = Some (mkThread RUNNING [FYield; FClient; FFinish] (Locks.Yielding 0 1),
    FYield, [FClient; FFinish])) as [Hth Hst]%top_stack by at_eval E top.
  assert (readyList k = [1; 2; 3]%nat) as Hr by at_eval E (@readyList Locks.client).
  assert (currentThread k = 0%nat) as Hc by at_eval E (@currentThread Locks.client).
  destruct (Yield_round_robin (λ _, 150) true k _ _ (at_step_reachable _ _ E) Hth Hst) as (k' & Hk & H).
  rewrite Hr, Hc in H. exists k, k'. split; [reflexivity|]. split; [exact Hk|exact H].
Defined.

Lemma V_wakes_first_witness :
  ∃ k k', at_step 43 = Some k ∧ kstep (λ _, 150) true k = Ok k' ∧ readyList k' = [1]%nat.
Proof.
  destruct (at_step 43) as [k|] eqn:E; [|exfalso; vm_compute in E; discriminate E].
  assert (top k = Some (mkThread RUNNING [FV (LockSem 0); FClient; FFinish] Locks.Done,
    FV (LockSem 0), [FClient; FFinish])) as [Hth Hst]%top_stack by at_eval E top.
  assert (sems k !! LockSem 0 = Some (mkSem 0 [1; 2; 3]%nat)) as Hs
    by at_eval E (λ k : kernel (C := Locks.client), sems k !! LockSem 0).
  assert (readyList k = []) as Hr by at_eval E (@readyList Locks.client).
  destruct (V_wakes_first (λ _, 150) true k _ _ _ _ (at_step_reachable _ _ E) Hth Hst Hs)
    as (k' & Hk & _ & H & _).
  rewrite Hr in H. exists k, k'. split; [reflexivity|]. split; [exact Hk|exact H].
Defined.

(** ** [Condition::Wait], from synchlist.cc *)

From S2P Require Import SynchList.

(** One thread calls [Remove] on an empty list. *)
Definition remove_at_step (n : nat) : option (kernel (C := SynchList.client)) :=
  after_steps (initial (λ _, 150) true true 1 1 (SynchList.mkVars [] [] []) (At [OpRemove])) n.

Lemma condition_wait_aborts_witness :
  ∃ k, remove_at_step 12 = Some k ∧ kstep (λ _, 150) true k = Err AssertFailed.
Proof.
  destruct (remove_at_step 12) as [k|] eqn:E; [|exfalso; vm_compute in E; discriminate E].
  exists k. split; [reflexivity|].
  assert (threads k !! currentThread k =
    Some (mkThread RUNNING [FWaitSleep 0; FAcquire 0; FClient; FFinish] (RemoveTest []))) as Hth.
  { refine (after_steps_eval _ (λ k : kernel (C := SynchList.client), threads k !! currentThread k) _ _ _ E _).
    vm_compute. reflexivity. }
  refine (proj2 (condition_wait_aborts (λ _, 150) true k _ 0 _ _ Hth eq_refl) _).
  - by eapply after_steps_reachable.
  - eexists. refine (after_steps_eval _ (λ k : kernel (C := SynchList.client), conds k !! 0%nat) _ _ _ E _).
    vm_compute. reflexivity.
Defined.
