(* ===== verification/Elevator.v ===== *)
(** * The elevator of threads/threadtest.cc (HW1_ELEVATOR)

    [Elevator], [ElevatorMain], [PersonMain], [ArrivingGoingFromTo] and
    [E_InitIfNeeded] as a client of the kernel, started the way main.cc starts
    them: [Elevator(numFloors)], then one call of [ArrivingGoingFromTo] per
    person.  Lock 0 is [E_lock], semaphore 0 is [spaceSem] and semaphore
    [f + 1] is [floorArriveSem[f]]. *)

From S2P Require Import Prelude NachList Kernel KernelInv KernelSpec KernelClient.

Local Open Scope Z_scope.

Definition E_CAPACITY : Z := 5.
Definition MAX_FLOORS : Z := 64.

Definition E_lock : nat := 0.
Definition spaceSem : nat := 0.
Definition floorArriveSem (f : Z) : nat := S (Z.to_nat f).

Inductive line :=
| Wants (id to at_ : Z) | GotIn (id : Z) | GotOut (id : Z) | Arrives (floor : Z) | ShutDown.

Record PersonArgs := mkPerson { id : Z; atFloor : Z; toFloor : Z }.

(** The statics of threadtest.cc; [made] says which [floorArriveSem[f]] are not
    NULL. *)
Record vars := mkVars {
  E_numFloors : Z;
  E_currentFloor : Z;
  E_doorsOpen : bool;
  E_onboard : Z;
  E_spawnerActive : bool;
  made : list bool;
  waitingAt : list Z;
  wantOffAt : list Z;
  nextId : Z;
  output : list line;
}.

(** An array element, and its update; the arrays have [MAX_FLOORS + 1] elements. *)
Definition at_index {A} (a : list A) (i : Z) : Result A :=
  if decide (0 ≤ i) then deref (a !! Z.to_nat i) else Err MemFault.
Definition set_index {A} (a : list A) (i : Z) (x : A) : Result (list A) :=
  _ ← at_index a i; mret (<[Z.to_nat i := x]> a).

Definition set_numFloors v g := mkVars v (E_currentFloor g) (E_doorsOpen g) (E_onboard g)
  (E_spawnerActive g) (made g) (waitingAt g) (wantOffAt g) (nextId g) (output g).
Definition set_currentFloor v g := mkVars (E_numFloors g) v (E_doorsOpen g) (E_onboard g)
  (E_spawnerActive g) (made g) (waitingAt g) (wantOffAt g) (nextId g) (output g).
Definition set_doorsOpen v g := mkVars (E_numFloors g) (E_currentFloor g) v (E_onboard g)
  (E_spawnerActive g) (made g) (waitingAt g) (wantOffAt g) (nextId g) (output g).
Definition set_onboard v g := mkVars (E_numFloors g) (E_currentFloor g) (E_doorsOpen g) v
  (E_spawnerActive g) (made g) (waitingAt g) (wantOffAt g) (nextId g) (output g).
Definition set_floors m w o g := mkVars (E_numFloors g) (E_currentFloor g) (E_doorsOpen g)
  (E_onboard g) (E_spawnerActive g) m w o (nextId g) (output g).
Definition set_nextId v g := mkVars (E_numFloors g) (E_currentFloor g) (E_doorsOpen g) (E_onboard g)
  (E_spawnerActive g) (made g) (waitingAt g) (wantOffAt g) v (output g).
Definition print l g := mkVars (E_numFloors g) (E_currentFloor g) (E_doorsOpen g) (E_onboard g)
  (E_spawnerActive g) (made g) (waitingAt g) (wantOffAt g) (nextId g) (output g ++ [l]).

Definition persons : Type := list (Z * Z).

Inductive place :=
| Main                                        (**r static initialization, then [main] *)
| CallElevator                                (**r [Elevator(numFloors)] *)
| ElevatorLocked                              (**r after its [E_lock->Acquire()] *)
| ElevatorSems (f : Z)                        (**r its loop over the floors *)
| ElevatorReleased                            (**r after its [E_lock->Release()] *)
| Arriving (ps : persons)                     (**r the next [ArrivingGoingFromTo] *)
| InitSems (f at_ to : Z) (ps : persons)      (**r the loop of [E_InitIfNeeded] *)
| PersonMain (p : PersonArgs)
| PersonCounting (p : PersonArgs)             (**r [waitingAt[at]++] *)
| PersonCounted (p : PersonArgs)
| PersonFetched (p : PersonArgs)              (**r after [floorArriveSem[at]->P()] *)
| PersonBoarding (p : PersonArgs)             (**r the test of the boarding loop *)
| PersonFull (p : PersonArgs)                 (**r in that loop, after [Release] *)
| PersonSpace (p : PersonArgs)                (**r in that loop, after [spaceSem->P()] *)
| PersonRiding (p : PersonArgs)               (**r after the [Release] *)
| PersonThere (p : PersonArgs)                (**r after [floorArriveSem[to]->P()] *)
| PersonLeaving (p : PersonArgs)              (**r the test of the second loop *)
| PersonNotYet (p : PersonArgs)               (**r in that loop, after [Release] *)
| PersonOut                                   (**r after [spaceSem->V()] *)
| ElevatorMain
| ElevatorMove (dir : Z)
| ElevatorTravel (dir i : Z)                  (**r the first 50 [Yield]s *)
| ElevatorOpen (dir : Z)
| ElevatorOn (dir i : Z)                      (**r the loop over [waitingAt] *)
| ElevatorOff (dir i : Z)                     (**r the loop over [wantOffAt] *)
| ElevatorSpace (dir i : Z)                   (**r the loop over the capacity *)
| ElevatorStop (dir i : Z)                    (**r the second 50 [Yield]s *)
| ElevatorClose (dir : Z)
| ElevatorDecide (dir : Z) (stop : bool)
| Returns.

Definition outcome : Type := vars * place * call place Empty_set.

Section program.
Context (numFloors : Z) (people : persons).

(** [if (floorArriveSem[f] == 0) { ... new Semaphore ...; waitingAt[f] = 0; wantOffAt[f] = 0; }]
    at [f]; the loop resumes at [again] after the allocation, and goes on with
    [otherwise] when there is nothing to allocate. *)
Definition make_floor (f : Z) (again : place) (otherwise : vars → Result outcome) (g : vars)
  : Result outcome :=
  b ← at_index (made g) f;
  if b : bool then otherwise g
  else
    m ← set_index (made g) f true;
    w ← set_index (waitingAt g) f 0;
    o ← set_index (wantOffAt g) f 0;
    mret (set_floors m w o g, again, CNewSem (floorArriveSem f) 0).

(** The loop [for (int f = 0; f <= E_numFloors; f++)] of [E_InitIfNeeded] and
    of [Elevator], then [done]; [fuel] bounds the iterations up to the next
    allocation. *)
Fixpoint floors_loop (fuel : nat) (f : Z) (again : Z → place) (done : vars → outcome) (g : vars)
  : Result outcome :=
  match fuel with
  | O => Err OutOfFuel
  | S fuel =>
      if decide (f ≤ E_numFloors g) then
        make_floor f (again (f + 1)) (floors_loop fuel (f + 1) again done) g
      else mret (done g)
  end.

Definition floors_fuel : nat := 70.

(** [Elevator] after its loop. *)
Definition Elevator_reset (g : vars) : outcome :=
  (set_onboard 0 (set_doorsOpen false (set_currentFloor 1 g)), ElevatorReleased, CRelease E_lock).

Definition Elevator_locked (g : vars) : Result outcome :=
  let g := if decide (2 ≤ numFloors) then
      set_numFloors (if decide (numFloors ≤ MAX_FLOORS) then numFloors else MAX_FLOORS) g
    else g in
  floors_loop floors_fuel 0 ElevatorSems Elevator_reset g.

(** [ArrivingGoingFromTo] after [E_InitIfNeeded]. *)
Definition Arriving_clamped (a t : Z) (ps : persons) (g : vars) : outcome :=
  let a := if decide (a < 1) then 1 else a in
  let t := if decide (t < 1) then 1 else t in
  let a := if decide (a > E_numFloors g) then E_numFloors g else a in
  let t := if decide (t > E_numFloors g) then E_numFloors g else t in
  (set_nextId (nextId g + 1) g, Arriving ps, CFork (PersonMain (mkPerson (nextId g) a t))).

Definition ArrivingGoingFromTo (a t : Z) (ps : persons) (g : vars) : Result outcome :=
  let g := if decide (E_numFloors g = 0) then set_numFloors 10 g else g in
  floors_loop floors_fuel 0 (λ f, InitSems f a t ps) (Arriving_clamped a t ps) g.

(** *** [PersonMain] *)

(** [waitingAt[at]++] under the lock. *)
Definition Person_count (p : PersonArgs) (g : vars) : Result outcome :=
  n ← at_index (waitingAt g) (atFloor p);
  w ← set_index (waitingAt g) (atFloor p) (n + 1);
  mret (set_floors (made g) w (wantOffAt g) g, PersonCounted p, CRelease E_lock).

(** The test of the boarding loop, and boarding. *)
Definition Person_board (p : PersonArgs) (g : vars) : Result outcome :=
  if E_doorsOpen g && bool_decide (E_currentFloor g = atFloor p) &&
     bool_decide (E_onboard g < E_CAPACITY)
  then
    n ← at_index (waitingAt g) (atFloor p);
    w ← set_index (waitingAt g) (atFloor p) (n - 1);
    n ← at_index (wantOffAt g) (toFloor p);
    o ← set_index (wantOffAt g) (toFloor p) (n + 1);
    mret (print (GotIn (id p)) (set_floors (made g) w o (set_onboard (E_onboard g + 1) g)),
          PersonRiding p, CRelease E_lock)
  else mret (g, PersonFull p, CRelease E_lock).

(** The test of the second loop, and leaving. *)
Definition Person_leave (p : PersonArgs) (g : vars) : Result outcome :=
  if E_doorsOpen g && bool_decide (E_currentFloor g = toFloor p) then
    n ← at_index (wantOffAt g) (toFloor p);
    o ← set_index (wantOffAt g) (toFloor p) (n - 1);
    mret (print (GotOut (id p)) (set_floors (made g) (waitingAt g) o (set_onboard (E_onboard g - 1) g)),
          PersonOut, CV spaceSem)
  else mret (g, PersonNotYet p, CRelease E_lock).

(** *** [ElevatorMain] *)

Definition Elevator_move (dir : Z) (g : vars) : outcome :=
  let next := E_currentFloor g + dir in
  let '(dir, next) := if decide (next < 1) then (1, 2) else (dir, next) in
  let '(dir, next) := if decide (next > E_numFloors g) then (-1, E_numFloors g - 1) else (dir, next) in
  (set_currentFloor next g, ElevatorTravel dir 0, CRelease E_lock).

(** [for (int i = 0; i < 50; i++) currentThread->Yield();] *)
Definition Elevator_travel (dir i : Z) (g : vars) : outcome :=
  if decide (i < 50) then (g, ElevatorTravel dir (i + 1), CYield)
  else (print (Arrives (E_currentFloor g)) g, ElevatorOpen dir, CAcquire E_lock).

Definition Elevator_space (dir i : Z) (g : vars) : outcome :=
  if decide (i < E_CAPACITY) then (g, ElevatorSpace dir (i + 1), CV spaceSem)
  else (g, ElevatorStop dir 0, CRelease E_lock).

Definition Elevator_off (dir i : Z) (g : vars) : Result outcome :=
  n ← at_index (wantOffAt g) (E_currentFloor g);
  if decide (i < n) then mret (g, ElevatorOff dir (i + 1), CV (floorArriveSem (E_currentFloor g)))
  else mret (Elevator_space dir 0 g).

Definition Elevator_on (dir i : Z) (g : vars) : Result outcome :=
  n ← at_index (waitingAt g) (E_currentFloor g);
  if decide (i < n) then mret (g, ElevatorOn dir (i + 1), CV (floorArriveSem (E_currentFloor g)))
  else Elevator_off dir 0 g.

Definition Elevator_stop (dir i : Z) (g : vars) : outcome :=
  if decide (i < 50) then (g, ElevatorStop dir (i + 1), CYield)
  else (g, ElevatorClose dir, CAcquire E_lock).

(** [for (int f = 1; f <= E_numFloors && !anyPending; f++)] *)
Fixpoint any_pending (fuel : nat) (f : Z) (pending : bool) (g : vars) : Result bool :=
  match fuel with
  | O => Err OutOfFuel
  | S fuel =>
      if bool_decide (f ≤ E_numFloors g) && negb pending then
        w ← at_index (waitingAt g) f;
        if decide (w > 0) then any_pending fuel (f + 1) true g
        else
          o ← at_index (wantOffAt g) f;
          any_pending fuel (f + 1) (if decide (o > 0) then true else pending) g
      else mret pending
  end.

Definition Elevator_close (dir : Z) (g : vars) : Result outcome :=
  let g := set_doorsOpen false g in
  pending ← any_pending floors_fuel 1 (bool_decide (E_onboard g > 0)) g;
  mret (g, ElevatorDecide dir (negb (E_spawnerActive g) && negb pending), CRelease E_lock).

(** *** All resume points *)

Definition resume_at (pc : place) (g : vars) : Result outcome :=
  match pc with
  | Main => mret (g, CallElevator, CNewSem spaceSem 0)
  | CallElevator => mret (g, ElevatorLocked, CAcquire E_lock)
  | ElevatorLocked => Elevator_locked g
  | ElevatorSems f => floors_loop floors_fuel f ElevatorSems Elevator_reset g
  | ElevatorReleased => mret (g, Arriving people, CFork ElevatorMain)
  | Arriving [] => mret (g, Returns, CReturn)
  | Arriving ((a, t) :: ps) => ArrivingGoingFromTo a t ps g
  | InitSems f a t ps => floors_loop floors_fuel f (λ f, InitSems f a t ps) (Arriving_clamped a t ps) g
  | PersonMain p => mret (print (Wants (id p) (toFloor p) (atFloor p)) g, PersonCounting p, CAcquire E_lock)
  | PersonCounting p => Person_count p g
  | PersonCounted p => mret (g, PersonFetched p, CP (floorArriveSem (atFloor p)))
  | PersonFetched p => mret (g, PersonBoarding p, CAcquire E_lock)
  | PersonBoarding p => Person_board p g
  | PersonFull p => mret (g, PersonSpace p, CP spaceSem)
  | PersonSpace p => mret (g, PersonBoarding p, CAcquire E_lock)
  | PersonRiding p => mret (g, PersonThere p, CP (floorArriveSem (toFloor p)))
  | PersonThere p => mret (g, PersonLeaving p, CAcquire E_lock)
  | PersonLeaving p => Person_leave p g
  | PersonNotYet p => mret (g, PersonThere p, CP (floorArriveSem (toFloor p)))
  | PersonOut => mret (g, Returns, CRelease E_lock)
  | ElevatorMain =>
      mret (if decide (E_numFloors g < 2) then set_numFloors 10 g else g, ElevatorMove 1, CAcquire E_lock)
  | ElevatorMove dir => mret (Elevator_move dir g)
  | ElevatorTravel dir i => mret (Elevator_travel dir i g)
  | ElevatorOpen dir => Elevator_on dir 0 (set_doorsOpen true g)
  | ElevatorOn dir i => Elevator_on dir i g
  | ElevatorOff dir i => Elevator_off dir i g
  | ElevatorSpace dir i => mret (Elevator_space dir i g)
  | ElevatorStop dir i => mret (Elevator_stop dir i g)
  | ElevatorClose dir => Elevator_close dir g
  | ElevatorDecide dir stop =>
      if stop then mret (print ShutDown g, Returns, CReturn)
      else mret (g, ElevatorMove dir, CAcquire E_lock)
  | Returns => mret (g, Returns, CReturn)
  end.

#[local] Instance client : Client := {
  local := place;
  globals := vars;
  device := Empty_set;
  client_step _ _ pc g := resume_at pc g;
  device_handler d _ := match d with end;
}.

(** The statics before [main]. *)
Definition statics : vars :=
  mkVars 0 1 false 0 false (replicate 65 false) (replicate 65 0) (replicate 65 0) 0 [].

Definition start (rnd : nat → Z) (useTimer : bool) : Result kernel :=
  initial rnd useTimer useTimer 1 0 statics Main.

(** ** The invariant *)

Definition floors : Z := if decide (numFloors ≤ MAX_FLOORS) then numFloors else MAX_FLOORS.

Hypothesis two_floors : 2 ≤ numFloors.

Lemma floors_bounds : 2 ≤ floors ≤ 64.
Proof. unfold floors, MAX_FLOORS. case_decide; lia. Qed.

Definition arrays_ok (g : vars) : Prop :=
  length (made g) = 65%nat ∧ length (waitingAt g) = 65%nat ∧ length (wantOffAt g) = 65%nat.

(** [Elevator] has set the floors up. *)
Definition late (g : vars) : Prop :=
  E_numFloors g = floors ∧ 1 ≤ E_currentFloor g ≤ floors.

Definition person_ok (p : PersonArgs) : Prop :=
  1 ≤ atFloor p ≤ floors ∧ 1 ≤ toFloor p ≤ floors.

Definition late_ok (pc : place) : Prop :=
  match pc with
  | Main | CallElevator | ElevatorLocked | ElevatorSems _ => False
  | InitSems f _ _ _ => 0 ≤ f
  | PersonMain p | PersonCounting p | PersonCounted p | PersonFetched p | PersonBoarding p
  | PersonFull p | PersonSpace p | PersonRiding p | PersonThere p | PersonLeaving p
  | PersonNotYet p => person_ok p
  | ElevatorMove dir | ElevatorTravel dir _ | ElevatorOpen dir | ElevatorOn dir _
  | ElevatorOff dir _ | ElevatorSpace dir _ | ElevatorStop dir _ | ElevatorClose dir
  | ElevatorDecide dir _ => dir = 1 ∨ dir = -1
  | _ => True
  end.

Definition early_ok (pc : place) (g : vars) : Prop :=
  E_onboard g = 0 ∧ E_currentFloor g = 1 ∧
  match pc with
  | Main | CallElevator | ElevatorLocked => E_numFloors g = 0
  | ElevatorSems f => E_numFloors g = floors ∧ 0 ≤ f
  | _ => False
  end.

(** Persons inside the elevator. *)
Definition aboard (pc : place) : Z :=
  match pc with
  | PersonRiding _ | PersonThere _ | PersonLeaving _ | PersonNotYet _ => 1
  | _ => 0
  end.

Lemma aboard_nonneg pc : 0 ≤ aboard pc.
Proof. destruct pc; cbn; lia. Qed.

Lemma at_index_Ok {A} (a : list A) i :
  length a = 65%nat → 0 ≤ i ≤ 64 → ∃ x, at_index a i = Ok x.
Proof.
  intros Hl Hi. unfold at_index. rewrite decide_True by lia.
  destruct (lookup_lt_is_Some_2 a (Z.to_nat i)) as [x ->]; [lia|]. by exists x.
Qed.

Lemma set_index_Ok {A} (a : list A) i x :
  length a = 65%nat → 0 ≤ i ≤ 64 → ∃ a', set_index a i x = Ok a' ∧ length a' = 65%nat.
Proof.
  intros Hl Hi. unfold set_index. destruct (at_index_Ok a i Hl Hi) as [y ->]. cbn.
  eexists. split; [done|]. by rewrite length_insert.
Qed.

(** What a piece of code may do once the floors are set up. *)
Definition late_step (pc : place) (g : vars) (r : Result outcome) : Prop :=
  ∃ g' pc' c, r = Ok (g', pc', c) ∧ arrays_ok g' ∧ late g' ∧ late_ok pc' ∧
    E_onboard g' - E_onboard g = aboard pc' - aboard pc ∧
    (E_onboard g ≤ E_CAPACITY → E_onboard g' ≤ E_CAPACITY) ∧
    match c with
    | CFork start => late_ok start ∧ aboard start = 0
    | CNewSem _ v => v = 0
    | CReturn => aboard pc' = 0
    | _ => True
    end.

Lemma late_step_intro pc g g' pc' c :
  arrays_ok g' → late g' → late_ok pc' → E_onboard g' - E_onboard g = aboard pc' - aboard pc →
  (E_onboard g ≤ E_CAPACITY → E_onboard g' ≤ E_CAPACITY) →
  match c with
  | CFork start => late_ok start ∧ aboard start = 0
  | CNewSem _ v => v = 0
  | CReturn => aboard pc' = 0
  | _ => True
  end → late_step pc g (Ok (g', pc', c)).
Proof. intros. by exists g', pc', c. Qed.

(** The loop over the floors: it makes the next missing semaphore or ends. *)
Lemma floors_loop_ind (P : Result outcome → Prop) fuel f again done g :
  arrays_ok g → 0 ≤ f → E_numFloors g = floors → (Z.to_nat (floors + 1 - f) < fuel)%nat →
  (∀ g' f', arrays_ok g' → 0 ≤ f' → E_numFloors g' = E_numFloors g → E_onboard g' = E_onboard g →
    E_currentFloor g' = E_currentFloor g → P (Ok (g', again f', CNewSem (floorArriveSem (f' - 1)) 0))) →
  P (Ok (done g)) → P (floors_loop fuel f again done g).
Proof.
  intros (Hm & Hw & Ho) Hf HN Hfuel Hnew Hend. pose proof floors_bounds.
  revert f Hf Hfuel. induction fuel as [|fuel IH]; intros f Hf Hfuel; [lia|]. cbn [floors_loop].
  case_decide as Hd; [|done]. rewrite HN in Hd. unfold make_floor.
  destruct (at_index_Ok (made g) f Hm ltac:(lia)) as [b ->]. cbn.
  destruct b; [apply IH; lia|].
  destruct (set_index_Ok (made g) f true Hm ltac:(lia)) as (m & -> & ?). cbn.
  destruct (set_index_Ok (waitingAt g) f 0 Hw ltac:(lia)) as (w & -> & ?). cbn.
  destruct (set_index_Ok (wantOffAt g) f 0 Ho ltac:(lia)) as (o & -> & ?). cbn.
  replace f with (f + 1 - 1) at 2 by lia. apply Hnew; try done; lia.
Qed.

Lemma any_pending_Ok fuel f b g :
  arrays_ok g → 1 ≤ f → E_numFloors g = floors → (Z.to_nat (floors + 1 - f) < fuel)%nat →
  ∃ b', any_pending fuel f b g = Ok b'.
Proof.
  intros (Hm & Hw & Ho) Hf HN Hfuel. pose proof floors_bounds.
  revert f b Hf Hfuel. induction fuel as [|fuel IH]; intros f b Hf Hfuel; [lia|]. cbn [any_pending].
  destruct (bool_decide (f ≤ E_numFloors g)) eqn:Hd; [|by exists b].
  apply bool_decide_eq_true in Hd. rewrite HN in Hd. destruct b; [by eexists|]. cbn [andb negb].
  destruct (at_index_Ok (waitingAt g) f Hw ltac:(lia)) as [w ->]. cbn [mbind Result_bind].
  case_decide; [apply IH; lia|].
  destruct (at_index_Ok (wantOffAt g) f Ho ltac:(lia)) as [o ->]. cbn [mbind Result_bind]. apply IH; lia.
Qed.

Lemma Arriving_late pc a t ps g :
  arrays_ok g → late g → aboard pc = 0 → late_step pc g (Ok (Arriving_clamped a t ps g)).
Proof using two_floors.
  intros Ha Hl Hp. pose proof floors_bounds. unfold Arriving_clamped. apply late_step_intro; try done.
  - cbn. lia.
  - destruct Hl as [HN _]. cbn. rewrite HN. repeat split; cbn; repeat case_decide; lia.
Qed.

Lemma floors_late pc f a t ps g :
  arrays_ok g → late g → 0 ≤ f → aboard pc = 0 →
  late_step pc g (floors_loop floors_fuel f (λ f, InitSems f a t ps) (Arriving_clamped a t ps) g).
Proof using two_floors.
  intros Ha Hl Hf Hp. pose proof floors_bounds. pose proof Hl as [HN ?].
  apply (floors_loop_ind (late_step pc g)); [done|done|done|unfold floors_fuel; lia| |].
  - intros g' f' Ha' Hf' E1 E2 E3. apply late_step_intro; try done.
    + split; [congruence|lia].
    + cbn. lia.
    + lia.
  - by apply Arriving_late.
Qed.

Lemma Person_count_late p g :
  arrays_ok g → late g → person_ok p → late_step (PersonCounting p) g (Person_count p g).
Proof using two_floors.
  intros (Hm & Hw & Ho) Hl Hp. pose proof floors_bounds. pose proof Hp as [? ?]. unfold Person_count.
  destruct (at_index_Ok (waitingAt g) (atFloor p) Hw ltac:(lia)) as [n ->]. rcbn.
  destruct (set_index_Ok (waitingAt g) (atFloor p) (n + 1) Hw ltac:(lia)) as (w & -> & ?). rcbn.
  apply late_step_intro; try done. cbn. lia.
Qed.

Lemma Person_board_late p g :
  arrays_ok g → late g → person_ok p → late_step (PersonBoarding p) g (Person_board p g).
Proof using two_floors.
  intros (Hm & Hw & Ho) Hl Hp. pose proof floors_bounds. pose proof Hp as [? ?]. unfold Person_board.
  destruct (E_doorsOpen g && _ && bool_decide (E_onboard g < E_CAPACITY)) eqn:Hb.
  - apply andb_true_iff in Hb as [_ Hc%bool_decide_eq_true].
    destruct (at_index_Ok (waitingAt g) (atFloor p) Hw ltac:(lia)) as [n ->]. rcbn.
    destruct (set_index_Ok (waitingAt g) (atFloor p) (n - 1) Hw ltac:(lia)) as (w & -> & ?). rcbn.
    destruct (at_index_Ok (wantOffAt g) (toFloor p) Ho ltac:(lia)) as [n' ->]. rcbn.
    destruct (set_index_Ok (wantOffAt g) (toFloor p) (n' + 1) Ho ltac:(lia)) as (o & -> & ?). rcbn.
    apply late_step_intro; try done; cbn; lia.
  - apply late_step_intro; try done. cbn. lia.
Qed.

Lemma Person_leave_late p g :
  arrays_ok g → late g → person_ok p → late_step (PersonLeaving p) g (Person_leave p g).
Proof using two_floors.
  intros (Hm & Hw & Ho) Hl Hp. pose proof floors_bounds. pose proof Hp as [? ?]. unfold Person_leave.
  destruct (E_doorsOpen g && _).
  - destruct (at_index_Ok (wantOffAt g) (toFloor p) Ho ltac:(lia)) as [n ->]. rcbn.
    destruct (set_index_Ok (wantOffAt g) (toFloor p) (n - 1) Ho ltac:(lia)) as (o & -> & ?). rcbn.
    apply late_step_intro; try done; cbn; lia.
  - apply late_step_intro; try done. cbn. lia.
Qed.

(** The elevator turns round at the ends: it never leaves the building. *)
Lemma Elevator_move_late dir g :
  arrays_ok g → late g → dir = 1 ∨ dir = -1 → late_step (ElevatorMove dir) g (Ok (Elevator_move dir g)).
Proof using two_floors.
  intros Ha [HN Hf] Hd. pose proof floors_bounds. unfold Elevator_move. rewrite HN.
  destruct (decide (E_currentFloor g + dir < 1)); cbn [fst snd];
    (destruct (decide _); cbn [fst snd]); apply late_step_intro; try done; try (cbn; lia).
  all: split; cbn; lia.
Qed.

Lemma Elevator_off_late pc dir i g :
  arrays_ok g → late g → dir = 1 ∨ dir = -1 → aboard pc = 0 → late_step pc g (Elevator_off dir i g).
Proof using two_floors.
  intros Ha [HN Hf] Hd Hp. pose proof floors_bounds. pose proof Ha as (Hm & Hw & Ho). unfold Elevator_off.
  destruct (at_index_Ok (wantOffAt g) (E_currentFloor g) Ho ltac:(lia)) as [n ->]. rcbn.
  case_decide; [|unfold Elevator_space; case_decide]; apply late_step_intro; try done; cbn; lia.
Qed.

Lemma Elevator_on_late pc dir i g :
  arrays_ok g → late g → dir = 1 ∨ dir = -1 → aboard pc = 0 → late_step pc g (Elevator_on dir i g).
Proof using two_floors.
  intros Ha Hl Hd Hp. pose proof floors_bounds. pose proof Ha as (Hm & Hw & Ho).
  pose proof Hl as [HN Hf]. unfold Elevator_on.
  destruct (at_index_Ok (waitingAt g) (E_currentFloor g) Hw ltac:(lia)) as [n ->]. rcbn.
  case_decide; [|by apply Elevator_off_late]. apply late_step_intro; try done. cbn. lia.
Qed.

Lemma Elevator_close_late dir g :
  arrays_ok g → late g → dir = 1 ∨ dir = -1 → late_step (ElevatorClose dir) g (Elevator_close dir g).
Proof using two_floors.
  intros Ha Hl Hd. pose proof floors_bounds. pose proof Hl as [HN _]. unfold Elevator_close. cbv zeta.
  edestruct (any_pending_Ok floors_fuel 1) as [b ->]; [|done| | |rcbn]; [done|done|unfold floors_fuel; lia|].
  apply late_step_intro; try done. cbn. lia.
Qed.

(** Every piece of code, once the floors are set up. *)
Lemma resume_late pc g : arrays_ok g → late g → late_ok pc → late_step pc g (resume_at pc g).
Proof using two_floors.
  intros Ha Hl Hp. pose proof Hl as [HN Hf]. pose proof floors_bounds.
  destruct pc as [| | |f| |ps|f a t ps|p|p|p|p|p|p|p|p|p|p|p| | |dir|dir i|dir|dir i|dir i|dir i|dir i|dir|dir b|];
    cbn [resume_at]; cbn [late_ok] in Hp; try done;
    try (apply late_step_intro; try done; cbn; lia).
  - destruct ps as [|[a t] ps]; [apply late_step_intro; try done; cbn; lia|].
    unfold ArrivingGoingFromTo. rewrite decide_False by lia. by apply floors_late.
  - by apply floors_late.
  - by apply Person_count_late.
  - by apply Person_board_late.
  - by apply Person_leave_late.
  - rewrite decide_False by lia. apply late_step_intro; try done; [by left|cbn; lia].
  - by apply Elevator_move_late.
  - unfold Elevator_travel. case_decide; apply late_step_intro; try done; cbn; lia.
  - by apply (Elevator_on_late _ _ _ (set_doorsOpen true g)).
  - by apply Elevator_on_late.
  - by apply Elevator_off_late.
  - unfold Elevator_space. case_decide; apply late_step_intro; try done; cbn; lia.
  - unfold Elevator_stop. case_decide; apply late_step_intro; try done; cbn; lia.
  - by apply Elevator_close_late.
  - destruct b; apply late_step_intro; try done; cbn; lia.
Qed.

(** While [Elevator] sets the floors up, [main] is the only thread. *)
Definition early_step (g : vars) (r : Result outcome) : Prop :=
  ∃ g' pc' c, r = Ok (g', pc', c) ∧ arrays_ok g' ∧ (0 ≤ E_onboard g ≤ E_CAPACITY → 0 ≤ E_onboard g' ≤ E_CAPACITY) ∧
    (early_ok pc' g' ∨ late g' ∧ late_ok pc' ∧ E_onboard g' = 0 ∧ aboard pc' = 0) ∧
    match c with CNewSem _ v => v = 0 | CFork _ | CReturn => False | _ => True end.

Lemma Elevator_sems_early f g :
  arrays_ok g → 0 ≤ f → E_numFloors g = floors → E_onboard g = 0 → E_currentFloor g = 1 →
  early_step g (floors_loop floors_fuel f ElevatorSems Elevator_reset g).
Proof using two_floors.
  intros Ha Hf HN H0 H1. pose proof floors_bounds.
  apply (floors_loop_ind (early_step g)); [done|done|done|unfold floors_fuel; lia| |].
  - intros g' f' Ha' Hf' E1 E2 E3. eexists _, _, _. split_and!; [done|done|lia| |done].
    left. split_and!; [congruence..|done].
  - eexists _, _, _. split_and!; [done|done|cbn; unfold E_CAPACITY; lia| |done].
    right. split_and!; try done; split; cbn; [done|lia].
Qed.

Lemma resume_early pc g : arrays_ok g → early_ok pc g → early_step g (resume_at pc g).
Proof using two_floors.
  intros Ha (H0 & H1 & He). destruct pc; try done; cbn [resume_at].
  - eexists _, _, _. split_and!; [done|done|done|by left|done].
  - eexists _, _, _. split_and!; [done|done|done|by left|done].
  - unfold Elevator_locked. rewrite decide_True by done.
    edestruct (Elevator_sems_early 0 (set_numFloors floors g)) as (g' & pc' & c & E & H); [done|lia|done..|].
    exists g', pc', c. split; [exact E|exact H].
  - destruct He. by apply Elevator_sems_early.
Qed.

Definition elevator_inv (m : gmap nat place) (g : vars) : Prop :=
  arrays_ok g ∧ 0 ≤ E_onboard g ≤ E_CAPACITY ∧
  ((∃ t pc, m = {[t := pc]} ∧ early_ok pc g) ∨
   (late g ∧ map_Forall (λ _, late_ok) m ∧ E_onboard g = total aboard m)).

(** Under the invariant, every live thread's next piece of code runs. *)
Lemma elevator_inv_runs m g t pc :
  elevator_inv m g → m !! t = Some pc → late_step pc g (resume_at pc g) ∨ early_step g (resume_at pc g).
Proof using two_floors.
  intros (Ha & _ & [(t' & pc' & -> & He)|(Hl & Hall & _)]) Ht.
  - apply lookup_singleton_Some in Ht as [-> ->]. right. by apply resume_early.
  - left. apply resume_late; [done|done|]. by apply (Hall t).
Qed.

(** No semaphore starts below 0. *)
Definition fresh_ok (r : Result outcome) : Prop :=
  ∀ g' pc' (s : nat) v, r = Ok (g', pc', CNewSem s v) → 0 ≤ v.

Lemma fresh_bind {A} (m : Result A) f : (∀ a, fresh_ok (f a)) → fresh_ok (m ≫= f).
Proof. intros H g' pc' s v (a & _ & E)%bind_Ok. by eapply H. Qed.

Ltac freshen :=
  repeat match goal with
  | |- fresh_ok (_ ≫= _) => apply fresh_bind; intros
  | |- fresh_ok (if ?b then _ else _) => destruct b
  | |- fresh_ok (mret (if ?b then _ else _)) => destruct b
  | |- fresh_ok (mret (_, _, _)) => by intros ???? [=]; lia
  | |- fresh_ok (Err _) => by intros ????
  end.

Lemma fresh_floors fuel f again dn g :
  (∀ g', fresh_ok (Ok (dn g'))) → fresh_ok (floors_loop fuel f again dn g).
Proof.
  intros Hd. revert f. induction fuel as [|fuel IH]; intros f; cbn [floors_loop]; [freshen|].
  destruct (decide _); [|apply Hd]. unfold make_floor. apply fresh_bind. intros []; [apply IH|freshen].
Qed.

Lemma fresh_resume pc g : fresh_ok (resume_at pc g).
Proof.
  destruct pc as [| | |f| |[|[a t] ps]|f a t ps|p|p|p|p|p|p|p|p|p|p|p| | |dir|dir i|dir|dir i|dir i|dir i|dir i|dir|dir b|];
    cbn [resume_at]; unfold ArrivingGoingFromTo, Elevator_locked, Person_count,
    Person_board, Person_leave, Elevator_travel, Elevator_on, Elevator_off,
    Elevator_space, Elevator_stop, Elevator_close; try (by freshen);
    try (apply fresh_floors; intros ?; by intros ???? [=]).
  unfold Elevator_move. repeat destruct (decide _); freshen.
Qed.

#[local] Instance client_sane : SaneClient.
Proof. intros t now pc g g' pc' s v H. by eapply fresh_resume. Qed.

Lemma elevator_inv_step m g t next pc g' pc' c :
  elevator_inv m g → m !! t = Some pc → m !! next = None → resume_at pc g = Ok (g', pc', c) →
  elevator_inv (next_live (C := client) t next pc' c m) g'.
Proof using two_floors.
  intros (Ha & Hb & [(t' & pc0 & -> & He)|(Hl & Hall & Hsum)]) Ht Hn E.
  - apply lookup_singleton_Some in Ht as [-> ->].
    destruct (resume_early _ _ Ha He) as (g1 & pc1 & c1 & E1 & Ha1 & Hb1 & Hok & Hc).
    rewrite E in E1. injection E1 as <- <- <-.
    enough (elevator_inv {[t := pc']} g').
    { assert (<[t := pc']> {[t := pc]} = ({[t := pc']} : gmap nat place)) as Em
        by apply insert_singleton_eq.
      rewrite <- Em in *. by destruct c. }
    split_and!; [done|by apply Hb1..|]. destruct Hok as [He'|(Hl & Hok & E0 & Eab)]; [left; eauto|right].
    split_and!; [done|by apply map_Forall_singleton|].
    rewrite <- insert_empty, total_insert_new by done. unfold total. rewrite map_fold_empty. lia.
  - assert (late_ok pc) as Hp by (by apply (Hall t)).
    destruct (resume_late _ _ Ha Hl Hp) as (g1 & pc1 & c1 & E1 & Ha1 & Hl1 & Hp1 & Eo & Hcap & Hc).
    rewrite E in E1. injection E1 as <- <- <-.
    assert (E_onboard g' = total aboard (<[t := pc']> m)) as Hsum1.
    { rewrite (total_update _ _ _ pc) by done. lia. }
    assert (0 ≤ E_onboard g') as H0.
    { rewrite Hsum1. apply total_nonneg. intros. apply aboard_nonneg. }
    split_and!; [done|done|apply Hcap, Hb|]. right. split; [done|].
    assert (map_Forall (λ _, late_ok) (<[t := pc']> m)) as Hall1 by (by apply map_Forall_insert_2).
    destruct c; try (split; [exact Hall1|exact Hsum1]); cbn [next_live].
    + destruct Hc as [Hs Es]. assert (t ≠ next) by congruence.
      split; [by apply map_Forall_insert_2|].
      rewrite total_insert_new by (by rewrite lookup_insert_ne). rewrite Es, Z.add_0_l. exact Hsum1.
    + split; [by apply map_Forall_delete|]. rewrite (total_delete _ _ _ pc) by done. lia.
Qed.
End program.

Lemma elevator_inv_reachable numFloors people rnd useTimer k0 k :
  2 ≤ numFloors → start numFloors people rnd useTimer = Ok k0 →
  steps (kstep (C := client numFloors people) rnd useTimer) k0 k →
  elevator_inv numFloors (live (C := client numFloors people) k) (shared (C := client numFloors people) k).
Proof.
  intros H2 Hs Hk.
  eapply (live_invariant (C := client numFloors people) (Hsane := client_sane numFloors people));
    [by intros []| |exact Hs| |exact Hk].
  - intros m g t next now pc g' pc' c HJ Ht Hn E. by eapply elevator_inv_step.
  - split_and!; [done..|]. left. by exists 0%nat, Main.
Qed.

(** C26: in a building of at least two floors, under every schedule, the
    elevator never holds more than [E_CAPACITY] persons nor a negative number of
    them, [E_onboard] is the number of persons between boarding and leaving, and
    the elevator is always between the first floor and the last, at floor 1 until
    the floors are set up. *)
Theorem elevator_capacity numFloors people rnd useTimer k0 k :
  2 ≤ numFloors → start numFloors people rnd useTimer = Ok k0 →
  steps (kstep (C := client numFloors people) rnd useTimer) k0 k →
  let g := shared (C := client numFloors people) k in
  0 ≤ E_onboard g ≤ E_CAPACITY ∧
  E_onboard g = total aboard (live (C := client numFloors people) k) ∧
  1 ≤ E_currentFloor g ≤ floors numFloors ∧
  (E_numFloors g = 0 ∧ E_currentFloor g = 1 ∨ E_numFloors g = floors numFloors).
Proof.
  intros H2 Hs Hk. pose proof (elevator_inv_reachable _ _ _ _ _ _ H2 Hs Hk) as (_ & Hb & Hcase).
  pose proof (floors_bounds numFloors H2).
  cbv zeta. split; [exact Hb|]. destruct Hcase as [(t & pc & E & H0 & H1 & He)|([HN Hf] & _ & Hsum)].
  - rewrite E, H0, H1. rewrite <- insert_empty, total_insert_new by done. unfold total at 1. rewrite map_fold_empty.
    split_and!; [destruct pc; done|lia|lia|]. destruct pc; cbn in He; naive_solver.
  - split_and!; [exact Hsum|apply Hf..|by right].
Qed.

(** The run of main.cc: ten floors and three persons. *)
Definition main_people : persons := [(1, 7); (3, 9); (5, 2)].

(** The state after [n] steps of that run, with the timer on. *)
Definition main_state (n : nat) (r : Result (kernel (C := client 10 main_people))) :=
  k0 ← r; mret (run (kstep (λ _, 150) true) n k0).1.

Lemma main_state_eval {A} (f : kernel (C := client 10 main_people) → A) n a :
  (k ← main_state n (start 10 main_people (λ _, 150) true); mret (f k)) = Ok a →
  ∃ k0 k, start 10 main_people (λ _, 150) true = Ok k0 ∧
    steps (kstep (C := client 10 main_people) (λ _, 150) true) k0 k ∧ f k = a.
Proof.
  destruct (start 10 main_people (λ _, 150) true) as [k0|e]; [|done]. intros [= H].
  exists k0, (run (kstep (λ _, 150) true) n k0).1. split_and!; [done|apply run_steps|done].
Qed.

Lemma elevator_capacity_witness :
  ∃ k0 k, start 10 main_people (λ _, 150) true = Ok k0 ∧
    E_onboard (shared (C := client 10 main_people) k) = 2 ∧
    0 ≤ E_onboard (shared (C := client 10 main_people) k) ≤ E_CAPACITY.
Proof.
  destruct (main_state_eval (λ k, E_onboard (shared (C := client 10 main_people) k)) 2000 2)
    as (k0 & k & E & Hk & Ho); [vm_compute; reflexivity|].
  exists k0, k. split; [exact E|]. split; [exact Ho|].
  destruct (elevator_capacity 10 main_people (λ _, 150) true k0 k ltac:(lia) E Hk) as [H _]. exact H.
Defined.

(** No thread of the elevator program ever indexes [floorArriveSem],
    [waitingAt] or [wantOffAt] out of bounds or loops over the floors for ever:
    from every reachable state the next piece of code of every live thread runs
    to its next kernel call. *)
Theorem elevator_in_bounds numFloors people rnd useTimer k0 k t pc :
  2 ≤ numFloors → start numFloors people rnd useTimer = Ok k0 →
  steps (kstep (C := client numFloors people) rnd useTimer) k0 k →
  live (C := client numFloors people) k !! t = Some pc →
  ∃ r, resume_at numFloors people pc (shared (C := client numFloors people) k) = Ok r.
Proof.
  intros H2 Hs Hk Ht. pose proof (elevator_inv_reachable _ _ _ _ _ _ H2 Hs Hk) as HJ.
  destruct (elevator_inv_runs _ people H2 _ _ _ _ HJ Ht) as [(? & ? & ? & E & _)|(? & ? & ? & E & _)]; eauto.
Qed.

Lemma elevator_in_bounds_witness :
  ∃ k0 k pc, start 10 main_people (λ _, 150) true = Ok k0 ∧
    live (C := client 10 main_people) k !! 1%nat = Some pc ∧
    ∃ r, resume_at 10 main_people pc (shared (C := client 10 main_people) k) = Ok r.
Proof.
  destruct (main_state_eval (λ k, live (C := client 10 main_people) k !! 1%nat) 500
    (Some (ElevatorTravel 1 12))) as (k0 & k & E & Hk & Ho); [vm_compute; reflexivity|].
  exists k0, k, (ElevatorTravel 1 12). split; [exact E|]. split; [exact Ho|].
  exact (elevator_in_bounds 10 main_people (λ _, 150) true k0 k 1 _ ltac:(lia) E Hk Ho).
Defined.

(** In the run of main.cc every person gets in and out, in an order the
    capacity allows, and the elevator shuts down and the machine halts. *)
Theorem elevator_main_run :
  (k ← start 10 main_people (λ _, 0) false;
   let r := run (kstep (C := client 10 main_people) (λ _, 0) false) 20000 k in
   mret (List.filter (λ l, match l with Arrives _ => false | _ => true end)
           (output (shared (C := client 10 main_people) r.1)), r.2))
  = Ok ([Wants 0 7 1; Wants 1 9 3; Wants 2 2 5; GotIn 1; GotIn 2; GotOut 1; GotOut 2; GotIn 0;
         GotOut 0; ShutDown], Some Exit).
Proof. vm_compute. reflexivity. Qed.
