(* ===== verification/Machine.v ===== *)
(** * The simulated machine: memory, translation and registers

    machine/machine.cc, machine/translate.cc and userprog/exception.cc.  The
    host is little endian and [char] is signed.  A register holds an unsigned
    32-bit word, memory a byte between 0 and 255 per cell. *)

From S2P Require Import Prelude Bytes NachList Kernel.

Local Open Scope Z_scope.

Definition PageSize : Z := 128.
Definition NumPhysPages : Z := 32.
Definition MemorySize : Z := NumPhysPages * PageSize.
Definition TLBSize : nat := 4.

Definition NumTotalRegs : nat := 40.
Definition StackReg : nat := 29.
Definition RetAddrReg : nat := 31.
Definition HiReg : nat := 32.
Definition LoReg : nat := 33.
Definition PCReg : nat := 34.
Definition NextPCReg : nat := 35.
Definition PrevPCReg : nat := 36.
Definition LoadReg : nat := 37.
Definition LoadValueReg : nat := 38.
Definition BadVAddrReg : nat := 39.

Inductive ExceptionType :=
| SyscallException | PageFaultException | ReadOnlyException | BusErrorException
| AddressErrorException | OverflowException | IllegalInstrException.

#[export] Instance ExceptionType_eq_dec : EqDecision ExceptionType.
Proof. solve_decision. Defined.

Record TranslationEntry := mkEntry {
  virtualPage : Z;
  physicalPage : Z;
  valid : bool;
  readOnly : bool;
  use : bool;
  dirty : bool;
}.

Record Machine := mkMachine {
  registers : list Z;
  mainMemory : list Z;
  tlb : option (list TranslationEntry);
  pageTable : option (list TranslationEntry);
  pageTableSize : Z;
  mode : MachineStatus;
}.

Definition set_registers v m :=
  mkMachine v (mainMemory m) (tlb m) (pageTable m) (pageTableSize m) (mode m).
Definition set_mainMemory v m :=
  mkMachine (registers m) v (tlb m) (pageTable m) (pageTableSize m) (mode m).
Definition set_tlb v m :=
  mkMachine (registers m) (mainMemory m) v (pageTable m) (pageTableSize m) (mode m).
Definition set_pageTable v m :=
  mkMachine (registers m) (mainMemory m) (tlb m) v (pageTableSize m) (mode m).
Definition set_mode v m :=
  mkMachine (registers m) (mainMemory m) (tlb m) (pageTable m) (pageTableSize m) v.

(** [Machine::Machine]; the TLB variant is USE_TLB. *)
Definition new_Machine (use_tlb : bool) : Machine :=
  mkMachine (replicate NumTotalRegs 0) (replicate (Z.to_nat MemorySize) 0)
    (if use_tlb then Some (replicate TLBSize (mkEntry 0 0 false false false false)) else None)
    None 0 SystemMode.

(** ** Registers *)

Definition ReadRegister (num : nat) (m : Machine) : Result Z :=
  ASSERT (bool_decide (num < NumTotalRegs)%nat);;
  v ← deref (registers m !! num);
  mret (s32 v).

Definition WriteRegister (num : nat) (value : Z) (m : Machine) : Result Machine :=
  ASSERT (bool_decide (num < NumTotalRegs)%nat);;
  _ ← deref (registers m !! num);
  mret (set_registers (<[num := u32 value]> (registers m)) m).

(** Direct accesses [registers[r]] of the machine's own code. *)
Definition reg (r : nat) (m : Machine) : Result Z := deref (registers m !! r).
Definition set_reg (r : nat) (v : Z) (m : Machine) : Result Machine :=
  _ ← reg r m; mret (set_registers (<[r := u32 v]> (registers m)) m).

Definition DelayedLoad (nextReg nextValue : Z) (m : Machine) : Result Machine :=
  target ← reg LoadReg m;
  value ← reg LoadValueReg m;
  m ← set_reg (Z.to_nat target) value m;
  m ← set_reg LoadReg nextReg m;
  m ← set_reg LoadValueReg nextValue m;
  set_reg 0 0 m.

(** ** Exceptions *)

(** [ExceptionHandler] of userprog/exception.cc: the only system call is
    [Halt], which ends in [Exit(0)]. *)
Definition SC_Halt : Z := 0.

Definition ExceptionHandler (which : ExceptionType) (m : Machine) : Result Machine :=
  type ← ReadRegister 2 m;
  if bool_decide (which = SyscallException) && bool_decide (type = SC_Halt) then Err Exit
  else Err AssertFailed.

Section exceptions.
(** The kernel's exception handler: [ExceptionHandler], or a later version of
    it that returns to the user program. *)
Context (handler : ExceptionType → Machine → Result Machine).

Definition RaiseException (which : ExceptionType) (badVAddr : Z) (m : Machine) : Result Machine :=
  m ← set_reg BadVAddrReg badVAddr m;
  m ← DelayedLoad 0 0 m;
  m ← handler which (set_mode SystemMode m);
  mret (set_mode UserMode m).

(** ** Address translation *)

(** The entry for page [vpn]: the exception if there is none, or the entry and
    how to put a changed entry back. *)
Fixpoint find_tlb (vpn : Z) (i : nat) (es : list TranslationEntry) : option (nat * TranslationEntry) :=
  match es with
  | [] => None
  | e :: es => if valid e && bool_decide (virtualPage e = vpn) then Some (i, e) else find_tlb vpn (S i) es
  end.

Definition lookup_entry (vpn : Z) (m : Machine)
  : Result (ExceptionType + TranslationEntry * (TranslationEntry → Machine)) :=
  match tlb m with
  | None =>
      pt ← deref (pageTable m);
      if decide (pageTableSize m ≤ vpn) then mret (inl AddressErrorException)
      else
        e ← deref (pt !! Z.to_nat vpn);
        if valid e then mret (inr (e, λ e', set_pageTable (Some (<[Z.to_nat vpn := e']> pt)) m))
        else mret (inl PageFaultException)
  | Some t =>
      match find_tlb vpn 0 t with
      | None => mret (inl PageFaultException)
      | Some (i, e) => mret (inr (e, λ e', set_tlb (Some (<[i := e']> t)) m))
      end
  end.

(** [Machine::Translate]: the exception, or the physical address; the use and
    dirty bits of the entry are set. *)
Definition Translate (virtAddr size : Z) (writing : bool) (m : Machine)
  : Result ((ExceptionType + Z) * Machine) :=
  if (bool_decide (size = 4) && negb (bool_decide (Z.land virtAddr 3 = 0))) ||
     (bool_decide (size = 2) && negb (bool_decide (Z.land virtAddr 1 = 0)))
  then mret (inl AddressErrorException, m)
  else
    ASSERT (if tlb m then bool_decide (pageTable m = None) else true);;
    ASSERT (if tlb m then true else negb (bool_decide (pageTable m = None)));;
    let vpn := u32 virtAddr `div` PageSize in
    let offset := u32 virtAddr `mod` PageSize in
    r ← lookup_entry vpn m;
    match r with
    | inl exn => mret (inl exn, m)
    | inr (e, put) =>
        if readOnly e && writing then mret (inl ReadOnlyException, m)
        else if decide (NumPhysPages ≤ physicalPage e) then mret (inl BusErrorException, m)
        else
          let m := put (mkEntry (virtualPage e) (physicalPage e) (valid e) (readOnly e) true
                          (if writing then true else dirty e)) in
          let physAddr := physicalPage e * PageSize + offset in
          ASSERT (bool_decide (0 ≤ physAddr) && bool_decide (physAddr + size ≤ MemorySize));;
          mret (inr physAddr, m)
    end.

(** ** Memory *)

(** The number [n] bytes at [p] make in little endian order. *)
Definition load (p : Z) (n : nat) (mem : list Z) : Result Z :=
  bs ← bytes_at p n mem; mret (little_endian_to_Z 8 bs).
Definition store (p : Z) (n : nat) (v : Z) (mem : list Z) : Result (list Z) :=
  _ ← bytes_at p n mem;
  mret (list_inserts (Z.to_nat p) (Z_to_little_endian (Z.of_nat n) 8 v) mem).

(** A [char] read as an [int]. *)
Definition s8 (z : Z) : Z := if decide (z < 128) then z else z - 256.

Definition ReadMem (addr size : Z) (m : Machine) : Result (option Z * Machine) :=
  '(r, m) ← Translate addr size false m;
  match r with
  | inl exn => m ← RaiseException exn addr m; mret (None, m)
  | inr p =>
      if decide (size = 1) then v ← load p 1 (mainMemory m); mret (Some (s8 v), m)
      else if decide (size = 2) then v ← load p 2 (mainMemory m); mret (Some (s32 v), m)
      else if decide (size = 4) then v ← load p 4 (mainMemory m); mret (Some (s32 v), m)
      else Err AssertFailed
  end.

Definition WriteMem (addr size value : Z) (m : Machine) : Result (option unit * Machine) :=
  '(r, m) ← Translate addr size true m;
  match r with
  | inl exn => m ← RaiseException exn addr m; mret (None, m)
  | inr p =>
      if decide (size = 1) then
        mem ← store p 1 (Z.land value 255) (mainMemory m); mret (Some (), set_mainMemory mem m)
      else if decide (size = 2) then
        mem ← store p 2 (Z.land value 65535) (mainMemory m); mret (Some (), set_mainMemory mem m)
      else if decide (size = 4) then
        mem ← store p 4 (u32 value) (mainMemory m); mret (Some (), set_mainMemory mem m)
      else Err AssertFailed
  end.
End exceptions.

(** ** Well-formed machines *)

Definition word (z : Z) : Prop := 0 ≤ z < 2 ^ 32.
Definition byte (z : Z) : Prop := 0 ≤ z < 2 ^ 8.

Record machine_ok (m : Machine) : Prop := {
  ok_registers : length (registers m) = NumTotalRegs;
  ok_words : Forall word (registers m);
  ok_memory : Z.of_nat (length (mainMemory m)) = MemorySize;
  ok_bytes : Forall byte (mainMemory m);
  ok_tables : match tlb m with Some _ => pageTable m = None | None => is_Some (pageTable m) end;
  ok_size pt : pageTable m = Some pt → pageTableSize m = Z.of_nat (length pt);
  ok_frames : Forall (λ e, 0 ≤ physicalPage e) (default [] (tlb m) ++ default [] (pageTable m));
  ok_load v : registers m !! LoadReg = Some v → v < 32;
}.

(** *** Registers *)

Lemma reg_total m r : machine_ok m → (r < NumTotalRegs)%nat → ∃ v, reg r m = Ok v ∧ word v.
Proof.
  intros Hm Hr. unfold reg. destruct (lookup_lt_is_Some_2 (registers m) r) as [v E].
  { by rewrite (ok_registers _ Hm). }
  rewrite E. exists v. split; [done|]. eapply Forall_lookup_1; [apply Hm|done].
Qed.

Lemma word_u32 v : word (u32 v).
Proof. apply u32_range. Qed.

Lemma set_reg_ok m r v :
  machine_ok m → (r < NumTotalRegs)%nat → (r = LoadReg → u32 v < 32) →
  ∃ m', set_reg r v m = Ok m' ∧ machine_ok m' ∧
    m' = set_registers (<[r := u32 v]> (registers m)) m.
Proof.
  intros Hm Hr Hl. unfold set_reg. destruct (reg_total m r Hm Hr) as (x & -> & _). cbn.
  eexists. split_and!; [done| |done]. destruct Hm. constructor; cbn; try done.
  - by rewrite length_insert.
  - apply Forall_insert; [done|apply word_u32].
  - intros w. rewrite list_lookup_insert_Some. intros [(-> & <- & _)|[_ E]]; [by apply Hl|by apply ok_load0].
Qed.

Lemma DelayedLoad_ok m nextReg nextValue :
  machine_ok m → 0 ≤ nextReg < 32 →
  ∃ m', DelayedLoad nextReg nextValue m = Ok m' ∧ machine_ok m' ∧
    registers m' !! 0%nat = Some 0 ∧ mainMemory m' = mainMemory m ∧ mode m' = mode m.
Proof.
  intros Hm Hr. unfold DelayedLoad.
  destruct (reg_total m LoadReg Hm) as (t & Et & Ht); [unfold LoadReg, NumTotalRegs; lia|].
  destruct (reg_total m LoadValueReg Hm) as (v & Ev & _); [unfold LoadValueReg, NumTotalRegs; lia|].
  assert (t < 32) as Htl by (apply (ok_load _ Hm); by apply deref_Ok in Et).
  rewrite Et, Ev. unfold word in Ht. rcbn.
  destruct (set_reg_ok m (Z.to_nat t) v Hm) as (m1 & -> & Hm1 & ->); [unfold NumTotalRegs; lia|unfold LoadReg; lia|]. rcbn.
  destruct (set_reg_ok _ LoadReg nextReg Hm1) as (m2 & -> & Hm2 & ->);
    [unfold LoadReg, NumTotalRegs; lia|intros _; rewrite u32_small; lia|]. rcbn.
  destruct (set_reg_ok _ LoadValueReg nextValue Hm2) as (m3 & -> & Hm3 & ->);
    [unfold LoadValueReg, NumTotalRegs; lia|unfold LoadValueReg, LoadReg; lia|]. rcbn.
  destruct (set_reg_ok _ 0 0 Hm3) as (m4 & -> & Hm4 & ->); [unfold NumTotalRegs; lia|unfold LoadReg; lia|].
  eexists. split_and!; [done|done| |done|done].
  cbn. rewrite list_lookup_insert_eq; [done|]. rewrite !length_insert, (ok_registers _ Hm). unfold NumTotalRegs. lia.
Qed.

(** *** Translation *)

Lemma land_3 a : Z.land a 3 = a `mod` 4.
Proof. change 3 with (Z.ones 2). by rewrite Z.land_ones. Qed.

Lemma land_1 a : Z.land a 1 = a `mod` 2.
Proof. change 1 with (Z.ones 1). by rewrite Z.land_ones. Qed.

Definition aligned (addr size : Z) : Prop :=
  (size = 1 ∨ size = 2 ∨ size = 4) ∧ addr `mod` size = 0.

(** The alignment test of [Translate]. *)
Lemma align_test addr size :
  size = 1 ∨ size = 2 ∨ size = 4 →
  (bool_decide (size = 4) && negb (bool_decide (Z.land addr 3 = 0))) ||
  (bool_decide (size = 2) && negb (bool_decide (Z.land addr 1 = 0))) = false ↔ aligned addr size.
Proof.
  unfold aligned. intros [-> | [-> | ->]]; rewrite land_3, land_1; cbn;
    rewrite ?orb_false_iff, ?andb_true_l, ?negb_false_iff, ?bool_decide_eq_true; cbn;
    rewrite ?orb_false_r, ?negb_false_iff, ?bool_decide_eq_true; rewrite ?Z.mod_1_r; naive_solver.
Qed.

Definition updated (writing : bool) (e : TranslationEntry) : TranslationEntry :=
  mkEntry (virtualPage e) (physicalPage e) (valid e) (readOnly e) true (if writing then true else dirty e).

Lemma find_tlb_Some vpn es i j e :
  find_tlb vpn i es = Some (j, e) → (i ≤ j)%nat ∧ es !! (j - i)%nat = Some e ∧ valid e = true ∧
    virtualPage e = vpn ∧
    ∀ e', valid e' = true → virtualPage e' = vpn → find_tlb vpn i (<[(j - i)%nat := e']> es) = Some (j, e').
Proof.
  revert i. induction es as [|x es IH]; intros i H; [done|]. cbn in H. case_match eqn:Hv.
  - injection H as <- <-. apply andb_true_iff in Hv as [Hv Hp%bool_decide_eq_true].
    rewrite Nat.sub_diag. split_and!; [done..|]. intros e' Hv' Hp'. cbn.
    rewrite Hv', bool_decide_true by done. done.
  - apply IH in H as (Hle & Hl & Hve & Hpe & Hins). split_and!; [lia| |done|done|].
    + replace (j - i)%nat with (S (j - S i)) by lia. done.
    + intros e' Hv' Hp'. replace (j - i)%nat with (S (j - S i)) by lia. cbn. rewrite Hv. by apply Hins.
Qed.

(** What changes when an entry is marked used: only that entry. *)
Definition same_but_tables (m m' : Machine) : Prop :=
  registers m' = registers m ∧ mainMemory m' = mainMemory m ∧ mode m' = mode m.

Lemma lookup_entry_spec vpn m :
  machine_ok m → 0 ≤ vpn →
  ∃ r, lookup_entry vpn m = Ok r ∧
    match r with
    | inl exn => exn = PageFaultException ∨ (exn = AddressErrorException ∧ tlb m = None)
    | inr (e, put) => 0 ≤ physicalPage e ∧ valid e = true ∧
        ∀ w, machine_ok (put (updated w e)) ∧ same_but_tables m (put (updated w e)) ∧
          ∃ put', lookup_entry vpn (put (updated w e)) = Ok (inr (updated w e, put')) ∧
            ∀ e', put' e' = put e'
    end.
Proof.
  intros Hm Hv. unfold lookup_entry. pose proof (ok_tables _ Hm) as Ht. pose proof (ok_frames _ Hm) as Hf.
  destruct (tlb m) as [t|] eqn:Etlb.
  - destruct (find_tlb vpn 0 t) as [[i e]|] eqn:Ef; [|eexists; split; [done|]; by left].
    eexists. split; [done|]. apply find_tlb_Some in Ef as (_ & Hl & Hve & Hpe & Hins).
    rewrite Nat.sub_0_r in *. cbn in Hf. apply Forall_app in Hf as [Hft Hfp].
    assert (0 ≤ physicalPage e) as Hpp by (by eapply (Forall_lookup_1 _ _ _ _ Hft)).
    split_and!; [done|done|]. intros w. split_and!; [|done..|].
    + destruct Hm. constructor; cbn; try done.
      apply Forall_app. split; [|done]. by apply Forall_insert.
    + cbn. rewrite Hins by done. eexists. split; [done|]. intros e'. cbn. by rewrite list_insert_insert_eq.
  - destruct (pageTable m) as [pt|] eqn:Ept; [|by destruct Ht]. cbn.
    pose proof (ok_size _ Hm pt Ept) as Hsz. case_decide as Hd; [eexists; split; [done|]; by right|].
    destruct (lookup_lt_is_Some_2 pt (Z.to_nat vpn)) as [e Ee]; [lia|]. rewrite Ee. cbn.
    destruct (valid e) eqn:Hve; [|eexists; split; [done|]; by left]. eexists. split; [done|].
    cbn in Hf. assert (0 ≤ physicalPage e) as Hpp by (by eapply (Forall_lookup_1 _ _ _ _ Hf)).
    split_and!; [done|done|]. intros w. split_and!; [|done..|].
    + destruct Hm. constructor; cbn; try done.
      * by rewrite Etlb.
      * intros pt' [= <-]. by rewrite length_insert.
      * rewrite Etlb. cbn. by apply Forall_insert.
    + cbn. rewrite Etlb. cbn. rewrite decide_False by done.
      rewrite list_lookup_insert_eq by lia. cbn. rewrite Hve. eexists. split; [done|].
      intros e'. cbn. rewrite list_insert_insert_eq. done.
Qed.

Lemma phys_in_bounds frame addr size :
  0 ≤ frame < NumPhysPages → aligned addr size →
  let p := frame * PageSize + u32 addr `mod` PageSize in
  0 ≤ p ∧ p + size ≤ MemorySize ∧ p `mod` size = 0.
Proof.
  unfold MemorySize, NumPhysPages, PageSize, u32, aligned. intros Hf [Hs Ha].
  assert ((addr `mod` 2 ^ 32) `mod` 128 `mod` size = 0) as Hx.
  { rewrite !Z.mod_mod_divide; [done|..]; destruct Hs as [-> | [-> | ->]]; by apply Z.mod_divide. }
  pose proof (Z.mod_pos_bound (addr `mod` 2 ^ 32) 128 ltac:(lia)) as Hb.
  set (x := (addr `mod` 2 ^ 32) `mod` 128) in *. clearbody x.
  destruct Hs as [-> | [-> | ->]]; cbv zeta; clear Ha; dlia.
Qed.

(** Reading and writing translate the same way, and marking the entry used does
    not change where an address goes. *)
Lemma Translate_spec addr size writing m :
  machine_ok m → size = 1 ∨ size = 2 ∨ size = 4 →
  ∃ r m', Translate addr size writing m = Ok (r, m') ∧ machine_ok m' ∧ same_but_tables m m' ∧
    match r with
    | inl exn => m' = m ∧
        (exn = AddressErrorException ∨ exn = PageFaultException ∨ exn = BusErrorException ∨
         (exn = ReadOnlyException ∧ writing = true))
    | inr p => aligned addr size ∧ 0 ≤ p ∧ p + size ≤ MemorySize ∧ p `mod` size = 0 ∧
        p `mod` PageSize = u32 addr `mod` PageSize ∧
        ∃ m'', Translate addr size false m' = Ok (inr p, m'') ∧ same_but_tables m' m'' ∧ machine_ok m''
    end.
Proof.
  intros Hm Hs. pose proof (align_test addr size Hs) as Ht. unfold Translate at 1.
  destruct (_ || _) eqn:Hal.
  { exists (inl AddressErrorException), m. split_and!; try done. by left. }
  assert (aligned addr size) as Ha by (by apply Ht). clear Ht.
  assert (∀ m, machine_ok m → (if tlb m then bool_decide (pageTable m = None) else true) = true ∧
    (if tlb m then true else negb (bool_decide (pageTable m = None))) = true) as Htab.
  { intros m1 Hm1. pose proof (ok_tables _ Hm1) as Ht. destruct (tlb m1).
    - by rewrite Ht.
    - destruct Ht as [pt ->]. done. }
  destruct (Htab m Hm) as [-> ->]. rcbn.
  assert (0 ≤ u32 addr `div` PageSize) as Hv.
  { pose proof (u32_range addr). unfold PageSize. apply Z.div_pos; lia. }
  destruct (lookup_entry_spec _ m Hm Hv) as (r & -> & Hr). rcbn. destruct r as [exn|[e put]].
  { exists (inl exn), m. split_and!; try done. naive_solver. }
  destruct Hr as (Hpp & Hve & Hput).
  destruct (readOnly e && writing) eqn:Hro.
  { exists (inl ReadOnlyException), m. split_and!; try done. apply andb_true_iff in Hro. naive_solver. }
  destruct (decide (NumPhysPages ≤ physicalPage e)) as [Hd|Hd].
  { exists (inl BusErrorException), m. split_and!; try done. by auto. }
  destruct (phys_in_bounds (physicalPage e) addr size ltac:(lia) Ha) as (Hp0 & Hp1 & Hp2).
  destruct (Hput writing) as (Hm' & Hsame & put' & Hl & Hput').
  assert (∀ p : Z, p = physicalPage e * PageSize + u32 addr `mod` PageSize →
    bool_decide (0 ≤ p) && bool_decide (p + size ≤ MemorySize) = true) as Hassert.
  { intros p ->. by rewrite !bool_decide_true by done. }
  rewrite Hassert by done. rcbn.
  exists (inr (physicalPage e * PageSize + u32 addr `mod` PageSize)), (put (updated writing e)).
  split_and!; [done|done|done|done|done|done|done|..].
  { rewrite Z.add_comm, Z_mod_plus_full, Z.mod_mod; done. }
  unfold Translate. rewrite Hal. destruct (Htab _ Hm') as [-> ->]. rcbn. rewrite Hl. rcbn. cbn [updated readOnly physicalPage].
  rewrite andb_false_r, decide_False by done. cbv zeta. rewrite Hassert by done. rcbn.
  rewrite Hput'. eexists. split; [done|].
  split; [by split_and!|exact Hm'].
Qed.

(** *** What a virtual page is mapped to *)

(** Entry [i] of the table in use, [e], is the one for page [vpn]: the entry of
    that number in the page table, or the first valid one for it in the TLB. *)
Definition maps (m : Machine) (vpn : Z) (i : nat) (e : TranslationEntry) : Prop :=
  valid e = true ∧
  match tlb m with
  | None => ∃ pt, pageTable m = Some pt ∧ vpn < pageTableSize m ∧ i = Z.to_nat vpn ∧ pt !! i = Some e
  | Some t => t !! i = Some e ∧ virtualPage e = vpn ∧
      ∀ j e', (j < i)%nat → t !! j = Some e' → valid e' = true → virtualPage e' ≠ vpn
  end.

Definition set_entry (i : nat) (e : TranslationEntry) (m : Machine) : Machine :=
  match tlb m with
  | None => set_pageTable ((λ pt, <[i := e]> pt) <$> pageTable m) m
  | Some t => set_tlb (Some (<[i := e]> t)) m
  end.

(** The access is allowed and the frame exists. *)
Definition admits (writing : bool) (e : TranslationEntry) : Prop :=
  (writing = true → readOnly e = false) ∧ physicalPage e < NumPhysPages.

Lemma maps_unique m vpn i e i' e' : maps m vpn i e → maps m vpn i' e' → i = i' ∧ e = e'.
Proof.
  intros [Hv H] [Hv' H']. destruct (tlb m) as [t|].
  - destruct H as (Hi & Hp & Hf), H' as (Hi' & Hp' & Hf'). destruct (lt_eq_lt_dec i i') as [[Hlt| ->]|Hlt].
    + by destruct (Hf' i e Hlt Hi Hv).
    + split; congruence.
    + by destruct (Hf i' e' Hlt Hi' Hv').
  - destruct H as (pt & Hpt & _ & -> & Hi), H' as (pt' & Hpt' & _ & -> & Hi'). split; [done|]. congruence.
Qed.

Lemma find_tlb_first vpn es i :
  match find_tlb vpn i es with
  | Some (j, e) => ∀ n e', (i + n < j)%nat → es !! n = Some e' → valid e' = true → virtualPage e' ≠ vpn
  | None => ∀ n e', es !! n = Some e' → valid e' = true → virtualPage e' ≠ vpn
  end.
Proof.
  revert i. induction es as [|x es IH]; intros i; cbn; [done|].
  destruct (valid x && bool_decide (virtualPage x = vpn)) eqn:E; [intros n e' Hn; lia|].
  specialize (IH (S i)).
  assert (valid x = true → virtualPage x ≠ vpn) as Hx
    by (intros Hv Hp; rewrite Hv, bool_decide_true in E by done; done).
  destruct (find_tlb vpn (S i) es) as [[j e]|].
  - intros [|n] e' Hn; cbn; [by intros [= <-]|]. apply IH. lia.
  - intros [|n] e'; cbn; [by intros [= <-]|]. apply IH.
Qed.

Lemma lookup_entry_maps vpn m :
  match lookup_entry vpn m with
  | Ok (inr (e, put)) => ∃ i, maps m vpn i e ∧ ∀ e', put e' = set_entry i e' m
  | Ok (inl _) => ∀ i e, ¬ maps m vpn i e
  | Err _ => True
  end.
Proof.
  unfold lookup_entry, maps, set_entry. destruct (tlb m) as [t|].
  - pose proof (find_tlb_first vpn t 0) as Hf. destruct (find_tlb vpn 0 t) as [[i e]|] eqn:Ef; rcbn.
    + apply find_tlb_Some in Ef as (_ & Hl & Hve & Hpe & _). rewrite Nat.sub_0_r in Hl.
      exists i. split_and!; done.
    + intros i e (Hv & Hi & Hp & _). by destruct (Hf i e Hi Hv).
  - destruct (pageTable m) as [pt|]; rcbn; [|done]. case_decide as Hd; rcbn.
    + intros i e (_ & pt' & _ & Hlt & _). lia.
    + destruct (pt !! Z.to_nat vpn) as [e|] eqn:Ee; rcbn; [|done]. destruct (valid e) eqn:Hv; rcbn.
      * exists (Z.to_nat vpn). split; [|done]. split; [done|]. exists pt. split_and!; [done|lia|done|done].
      * intros i e' (Hv' & pt' & [= <-] & _ & -> & He'). congruence.
Qed.

(** Where [Translate] goes, in terms of the mapping. *)
Lemma Translate_maps addr size writing m r m' :
  size = 1 ∨ size = 2 ∨ size = 4 → Translate addr size writing m = Ok (r, m') →
  match r with
  | inl _ => m' = m ∧ (aligned addr size → ∀ i e, maps m (u32 addr `div` PageSize) i e → ¬ admits writing e)
  | inr p => ∃ i e, maps m (u32 addr `div` PageSize) i e ∧ admits writing e ∧
      p = physicalPage e * PageSize + u32 addr `mod` PageSize ∧ m' = set_entry i (updated writing e) m
  end.
Proof.
  intros Hs H. pose proof (align_test addr size Hs) as Ht. unfold Translate in H.
  destruct (_ || _).
  { injection H as <- <-. split; [done|]. intros Ha. by apply Ht in Ha. }
  clear Ht. apply bind_Ok in H as (_ & _ & H). apply bind_Ok in H as (_ & _ & H). cbv zeta in H.
  apply bind_Ok in H as (x & Hx & H). pose proof (lookup_entry_maps (u32 addr `div` PageSize) m) as Hm.
  rewrite Hx in Hm. destruct x as [exn|[e put]].
  { injection H as <- <-. split; [done|]. intros _ i e He. by destruct (Hm i e). }
  destruct Hm as (i & Hi & Hput).
  assert (∀ i' e', maps m (u32 addr `div` PageSize) i' e' → ¬ admits writing e → ¬ admits writing e') as Hu
    by (intros i' e' He'; by destruct (maps_unique _ _ _ _ _ _ Hi He') as [_ ->]).
  destruct (readOnly e && writing) eqn:Hro.
  { injection H as <- <-. split; [done|]. intros _ i' e' He'. apply (Hu i' e' He'). intros [Ha _].
    apply andb_true_iff in Hro as [Hro Hw]. rewrite (Ha Hw) in Hro. done. }
  destruct (decide (NumPhysPages ≤ physicalPage e)) as [Hd|Hd].
  { injection H as <- <-. split; [done|]. intros _ i' e' He'. apply (Hu i' e' He'). intros [_ Ha]. lia. }
  apply bind_Ok in H as (_ & _ & [= <- <-]). exists i, e. split_and!; [done| |done|apply Hput].
  split; [|lia]. intros ->. by rewrite andb_true_r in Hro.
Qed.

(** *** Memory *)

Lemma load_total p n mem :
  Forall byte mem → 0 ≤ p → p + Z.of_nat n ≤ Z.of_nat (length mem) →
  ∃ v, load p n mem = Ok v ∧ 0 ≤ v < 2 ^ (Z.of_nat n * 8).
Proof.
  intros Hb Hp Hn. unfold load. destruct (bytes_at_Ok p n mem Hp Hn) as [-> Hl]. rcbn.
  eexists. split; [done|].
  pose proof (little_endian_to_Z_bound 8 (take n (drop (Z.to_nat p) mem)) ltac:(lia)) as Hlb.
  rewrite Hl in Hlb. apply Hlb. by apply Forall_take, Forall_drop.
Qed.

Lemma store_total p n v mem :
  Forall byte mem → 0 ≤ p → p + Z.of_nat n ≤ Z.of_nat (length mem) →
  ∃ mem', store p n v mem = Ok mem' ∧ length mem' = length mem ∧ Forall byte mem' ∧
    load p n mem' = Ok (v `mod` 2 ^ (Z.of_nat n * 8)).
Proof.
  intros Hb Hp Hn. unfold store. destruct (bytes_at_Ok p n mem Hp Hn) as [-> Hl]. rcbn.
  assert (length (Z_to_little_endian (Z.of_nat n) 8 v) = n) as Hlen
    by (apply Nat2Z.inj; rewrite length_Z_to_little_endian; lia).
  eexists. split; [done|]. split_and!; [by rewrite length_inserts| |].
  - apply Forall_inserts; [done|]. apply Z_to_little_endian_bound; lia.
  - unfold load. edestruct (bytes_at_Ok p n) as [-> _]; [done|by rewrite length_inserts|]. rcbn.
    rewrite <- Hlen at 1. rewrite take_drop_inserts by lia.
    by rewrite little_endian_to_Z_to_little_endian by lia.
Qed.

Lemma load_store_disjoint p n v mem mem' p' n' :
  store p n v mem = Ok mem' → 0 ≤ p → 0 ≤ p' → p + Z.of_nat n ≤ p' ∨ p' + Z.of_nat n' ≤ p →
  load p' n' mem' = load p' n' mem.
Proof.
  intros H Hp Hp' Hd. unfold store in H. apply bind_Ok in H as (_ & _ & [= <-]).
  assert (length (Z_to_little_endian (Z.of_nat n) 8 v) = n) as Hlen
    by (apply Nat2Z.inj; rewrite length_Z_to_little_endian; lia).
  unfold load, bytes_at. rewrite length_inserts. case_decide; [|done]. rcbn.
  rewrite take_drop_inserts_disjoint; [done|]. rewrite Hlen. lia.
Qed.

(** ** Running user code safely

    [safe r Q]: the computation [r] ends in a well-formed machine, with [Q] of
    its result unless an exception was taken, or stops for an excused reason. *)
Section safe.
Context (excused : stop → Prop).

Definition safe {A} (r : Result (option A * Machine)) (Q : A → Machine → Prop) : Prop :=
  match r with
  | Ok (Some a, m') => machine_ok m' ∧ Q a m'
  | Ok (None, m') => machine_ok m'
  | Err e => excused e
  end.

Context (handler : ExceptionType → Machine → Result Machine).

(** The kernel's handler keeps the machine well formed. *)
Hypothesis handler_ok : ∀ which m, machine_ok m →
  match handler which m with Ok m' => machine_ok m' | Err e => excused e end.

Lemma set_mode_ok m s : machine_ok m → machine_ok (set_mode s m).
Proof. intros []. by constructor. Qed.

Lemma RaiseException_safe which bad m :
  machine_ok m →
  match RaiseException handler which bad m with Ok m' => machine_ok m' | Err e => excused e end.
Proof using handler_ok.
  intros Hm. unfold RaiseException.
  destruct (set_reg_ok m BadVAddrReg bad Hm) as (m1 & -> & Hm1 & _);
    [unfold BadVAddrReg, NumTotalRegs; lia|done|]. rcbn.
  destruct (DelayedLoad_ok m1 0 0 Hm1) as (m2 & -> & Hm2 & _); [lia|]. rcbn.
  pose proof (handler_ok which _ (set_mode_ok _ SystemMode Hm2)) as Hh.
  destruct (handler which (set_mode SystemMode m2)); rcbn; [|done]. by apply set_mode_ok.
Qed.

Lemma raise_safe {A} which bad m (Q : A → Machine → Prop) :
  machine_ok m →
  safe (m ← RaiseException handler which bad m; mret (None, m)) Q.
Proof using handler_ok.
  intros Hm. pose proof (RaiseException_safe which bad m Hm) as H.
  destruct (RaiseException handler which bad m); done.
Qed.

Lemma set_mainMemory_ok m mem :
  machine_ok m → length mem = length (mainMemory m) → Forall byte mem → machine_ok (set_mainMemory mem m).
Proof. intros [] Hl Hb. constructor; cbn; try done. by rewrite Hl. Qed.

Lemma ReadMem_safe addr size m :
  machine_ok m → size = 1 ∨ size = 2 ∨ size = 4 →
  safe (ReadMem handler addr size m) (λ _ m', registers m' = registers m).
Proof using handler_ok.
  intros Hm Hs. unfold ReadMem.
  destruct (Translate_spec addr size false m Hm Hs) as (r & m1 & -> & Hm1 & Hsame & Hr). rcbn.
  destruct r as [exn|p]; [by apply raise_safe|].
  destruct Hr as (_ & Hp0 & Hp1 & _). pose proof (ok_memory _ Hm1) as Hlen.
  assert (∀ n : nat, Z.of_nat n = size → ∃ v, load p n (mainMemory m1) = Ok v) as Hload.
  { intros n Hn. destruct (load_total p n (mainMemory m1) (ok_bytes _ Hm1)) as (v & ? & _); [lia|lia|eauto]. }
  destruct Hs as [-> | [-> | ->]]; cbn [decide].
  - rewrite decide_True by done. destruct (Hload 1%nat eq_refl) as [v ->]. split; [done|apply Hsame].
  - rewrite decide_False, decide_True by done. destruct (Hload 2%nat eq_refl) as [v ->]. split; [done|apply Hsame].
  - rewrite decide_False, decide_False, decide_True by done.
    destruct (Hload 4%nat eq_refl) as [v ->]. split; [done|apply Hsame].
Qed.

Lemma WriteMem_safe addr size value m :
  machine_ok m → size = 1 ∨ size = 2 ∨ size = 4 →
  safe (WriteMem handler addr size value m) (λ _ m', registers m' = registers m).
Proof using handler_ok.
  intros Hm Hs. unfold WriteMem.
  destruct (Translate_spec addr size true m Hm Hs) as (r & m1 & -> & Hm1 & Hsame & Hr). rcbn.
  destruct r as [exn|p]; [by apply raise_safe|].
  destruct Hr as (_ & Hp0 & Hp1 & _). pose proof (ok_memory _ Hm1) as Hlen.
  assert (∀ (n : nat) v, Z.of_nat n = size → ∃ mem, store p n v (mainMemory m1) = Ok mem ∧
    machine_ok (set_mainMemory mem m1)) as Hstore.
  { intros n v Hn. destruct (store_total p n v (mainMemory m1) (ok_bytes _ Hm1)) as (mem & ? & ? & ? & _);
      [lia|lia|]. exists mem. split; [done|]. by apply set_mainMemory_ok. }
  destruct Hs as [-> | [-> | ->]].
  - rewrite decide_True by done. destruct (Hstore 1%nat (Z.land value 255) eq_refl) as (mem & -> & ?).
    split; [done|apply Hsame].
  - rewrite decide_False, decide_True by done.
    destruct (Hstore 2%nat (Z.land value 65535) eq_refl) as (mem & -> & ?). split; [done|apply Hsame].
  - rewrite decide_False, decide_False, decide_True by done.
    destruct (Hstore 4%nat (u32 value) eq_refl) as (mem & -> & ?). split; [done|apply Hsame].
Qed.
End safe.

(** ** Theorems *)

(** C19: [Translate] is the mapping of the page table, or of the TLB, and stays
    in bounds.  On a well-formed machine no assertion fails.  It returns a
    physical address exactly when the access is aligned, its page has a valid
    entry, which is not read-only if the access is a write, and the frame of the
    entry exists; the address is then that of the same offset in the frame, the
    access lies inside [mainMemory], and the one thing that changes is that this
    entry is marked used (and dirty on a write).  Otherwise it returns an
    exception and changes nothing. *)
Theorem Translate_in_bounds addr size writing m :
  machine_ok m → size = 1 ∨ size = 2 ∨ size = 4 →
  ∃ r m', Translate addr size writing m = Ok (r, m') ∧ machine_ok m' ∧
    registers m' = registers m ∧ mainMemory m' = mainMemory m ∧
    match r with
    | inl _ => m' = m ∧
        (aligned addr size → ∀ i e, maps m (u32 addr `div` PageSize) i e → ¬ admits writing e)
    | inr p => aligned addr size ∧ 0 ≤ p ∧ p + size ≤ MemorySize ∧ p `mod` size = 0 ∧
        p `mod` PageSize = u32 addr `mod` PageSize ∧
        ∃ i e, maps m (u32 addr `div` PageSize) i e ∧ admits writing e ∧
          p = physicalPage e * PageSize + u32 addr `mod` PageSize ∧ m' = set_entry i (updated writing e) m
    end.
Proof.
  intros Hm Hs. destruct (Translate_spec addr size writing m Hm Hs) as (r & m' & E & Hm' & Hsame & Hr).
  exists r, m'. destruct Hsame as (E1 & E2 & _). split_and!; [done..|].
  pose proof (Translate_maps addr size writing m r m' Hs E) as Hmap.
  destruct r as [exn|p]; [exact Hmap|]. destruct Hr as (Ha & ? & ? & ? & ? & _). by split_and!.
Qed.

(** A machine whose only virtual page is mapped to frame 5. *)
Definition one_page : Machine :=
  mkMachine (replicate NumTotalRegs 0) (replicate (Z.to_nat MemorySize) 0) None
    (Some [mkEntry 0 5 true false false false]) 1 UserMode.

Lemma one_page_ok : machine_ok one_page.
Proof.
  constructor; cbn [one_page registers mainMemory tlb pageTable pageTableSize].
  - apply length_replicate.
  - apply Forall_replicate. by unfold word.
  - by rewrite length_replicate.
  - apply Forall_replicate. by unfold byte.
  - by eexists.
  - by intros pt [= <-].
  - by repeat constructor.
  - intros v E%lookup_replicate. lia.
Qed.

Lemma Translate_in_bounds_witness :
  ∃ m', Translate 12 4 true one_page = Ok (inr 652, m') ∧ 652 `mod` PageSize = 12.
Proof.
  destruct (Translate_in_bounds 12 4 true one_page one_page_ok ltac:(auto)) as (r & m' & E & _ & _ & _ & Hr).
  assert (r = inr 652) as -> by (vm_compute in E; by injection E as <- _).
  exists m'. split; [exact E|]. destruct Hr as (_ & _ & _ & _ & -> & _). reflexivity.
Defined.

(** What an [int] becomes when it is written as [size] bytes and read back. *)
Definition truncated (size v : Z) : Z :=
  if decide (size = 1) then s8 (v `mod` 2 ^ 8)
  else if decide (size = 2) then v `mod` 2 ^ 16
  else s32 v.

Lemma Translate_mem addr size writing mem m :
  Translate addr size writing (set_mainMemory mem m) =
  match Translate addr size writing m with
  | Ok (r, m') => Ok (r, set_mainMemory mem m')
  | Err e => Err e
  end.
Proof.
  unfold Translate, lookup_entry. cbn [tlb pageTable pageTableSize set_mainMemory].
  destruct (_ || _); [done|].
  destruct (ASSERT (if tlb m then bool_decide _ else true)); cbn [mbind Result_bind]; [|done].
  destruct (ASSERT (if tlb m then true else _)); cbn [mbind Result_bind]; [|done].
  destruct (tlb m) as [t|].
  - destruct (find_tlb (u32 addr `div` PageSize) 0 t) as [[i e]|]; rcbn; [|done].
    destruct (readOnly e && writing); [done|]. destruct (decide (NumPhysPages ≤ physicalPage e)); [done|].
    destruct (_ && _); done.
  - destruct (pageTable m) as [pt|]; rcbn; [|done].
    destruct (decide (pageTableSize m ≤ u32 addr `div` PageSize)); rcbn; [done|].
    destruct (pt !! Z.to_nat (u32 addr `div` PageSize)) as [e|]; rcbn; [|done].
    destruct (valid e); rcbn; [|done]. destruct (readOnly e && writing); [done|].
    destruct (decide (NumPhysPages ≤ physicalPage e)); [done|]. destruct (_ && _); done.
Qed.

(** Memory is memory: what [WriteMem] wrote at a virtual address,
    [ReadMem] reads there, cut to the size of the access and in little endian
    order, and reading changes no byte. *)
Theorem read_after_write handler addr size v m m' :
  machine_ok m → size = 1 ∨ size = 2 ∨ size = 4 →
  WriteMem handler addr size v m = Ok (Some (), m') →
  ∃ m'', ReadMem handler addr size m' = Ok (Some (truncated size v), m'') ∧
    mainMemory m'' = mainMemory m'.
Proof.
  intros Hm Hs H. unfold WriteMem in H.
  destruct (Translate_spec addr size true m Hm Hs) as (r & m1 & E1 & Hm1 & _ & Hr). rewrite E1 in H.
  apply bind_Ok in H as (? & [= <-] & H). destruct r as [exn|p]; [by invert_ok|].
  destruct Hr as (Hal & Hp0 & Hp1 & _ & _ & m2 & E2 & Hsame & Hm2).
  pose proof (ok_memory _ Hm1) as Hlen.
  assert (∃ n w mem, Z.of_nat n = size ∧ store p n w (mainMemory m1) = Ok mem ∧
    m' = set_mainMemory mem m1 ∧ truncated size v =
      (if decide (size = 1) then s8 (w `mod` 2 ^ (Z.of_nat n * 8)) else s32 (w `mod` 2 ^ (Z.of_nat n * 8))))
    as (n & w & mem & Hn & Hst & -> & Htr).
  { destruct Hs as [-> | [-> | ->]]; cbn in H; apply bind_Ok in H as (mem & Hst & [= <-]).
    - eexists 1%nat, _, mem. split_and!; [done..|]. unfold truncated. rewrite !decide_True by done.
      change 255 with (Z.ones 8). change (Z.of_nat 1 * 8) with 8. by rewrite Z.land_ones, Z.mod_mod by done.
    - eexists 2%nat, _, mem. split_and!; [done..|]. unfold truncated.
      rewrite !decide_False, decide_True by done. change (Z.of_nat 2 * 8) with 16.
      change 65535 with (Z.ones 16). rewrite Z.land_ones, Z.mod_mod by done.
      pose proof (Z.mod_pos_bound v (2 ^ 16) ltac:(lia)). by rewrite s32_small by lia.
    - eexists 4%nat, _, mem. split_and!; [done..|]. unfold truncated.
      rewrite !decide_False by done. change (Z.of_nat 4 * 8) with 32. fold (u32 (u32 v)).
      by rewrite u32_u32, s32_u32. }
  destruct (store_total p n w (mainMemory m1) (ok_bytes _ Hm1)) as (mem1 & Hst1 & _ & _ & Hld); [lia|lia|].
  rewrite Hst in Hst1. injection Hst1 as <-.
  unfold ReadMem. rewrite Translate_mem, E2. rcbn. exists (set_mainMemory mem m2). split; [|done].
  rewrite Htr. destruct Hs as [-> | [-> | ->]]; cbn [decide mainMemory set_mainMemory].
  - rewrite decide_True by done. replace 1%nat with n by lia. rewrite Hld. done.
  - rewrite decide_False, decide_True by done. replace 2%nat with n by lia. rewrite Hld. done.
  - rewrite decide_False, decide_False, decide_True by done. replace 4%nat with n by lia. rewrite Hld. done.
Qed.

Lemma read_after_write_witness :
  ∃ m' m'', WriteMem ExceptionHandler 12 2 (-2) one_page = Ok (Some (), m') ∧
    ReadMem ExceptionHandler 12 2 m' = Ok (Some 65534, m'').
Proof.
  destruct (WriteMem ExceptionHandler 12 2 (-2) one_page) as [[[[]|] m']|e] eqn:E;
    [|exfalso; vm_compute in E; discriminate E..].
  destruct (read_after_write ExceptionHandler 12 2 (-2) one_page m' one_page_ok ltac:(auto) E)
    as (m'' & Hr & _).
  exists m', m''. split; [reflexivity|exact Hr].
Defined.
