(* ===== verification/Mips.v ===== *)
(** * The MIPS simulator, machine/mipssim.cc

    [OneInstruction] is cut along its [switch] statement into one definition
    per group of consecutive cases.  Registers are unsigned words, as machine.h
    declares them; [int] locals are kept signed. *)

From S2P Require Import Prelude NachList Kernel Machine.

Local Open Scope Z_scope.

Inductive opcode :=
| OP_ADD | OP_ADDI | OP_ADDIU | OP_ADDU | OP_AND | OP_ANDI | OP_BEQ | OP_BGEZ | OP_BGEZAL
| OP_BGTZ | OP_BLEZ | OP_BLTZ | OP_BLTZAL | OP_BNE | OP_DIV | OP_DIVU | OP_J | OP_JAL | OP_JALR
| OP_JR | OP_LB | OP_LBU | OP_LH | OP_LHU | OP_LUI | OP_LW | OP_LWL | OP_LWR | OP_MFHI | OP_MFLO
| OP_MTHI | OP_MTLO | OP_MULT | OP_MULTU | OP_NOR | OP_OR | OP_ORI | OP_RFE | OP_SB | OP_SH
| OP_SLL | OP_SLLV | OP_SLT | OP_SLTI | OP_SLTIU | OP_SLTU | OP_SRA | OP_SRAV | OP_SRL | OP_SRLV
| OP_SUB | OP_SUBU | OP_SW | OP_SWL | OP_SWR | OP_XOR | OP_XORI | OP_SYSCALL | OP_UNIMP | OP_RES
| SPECIAL | BCOND.

Inductive format := IFMT | JFMT | RFMT.

#[export] Instance opcode_eq_dec : EqDecision opcode.
Proof. solve_decision. Defined.
#[export] Instance format_eq_dec : EqDecision format.
Proof. solve_decision. Defined.

(** ** Decoding *)

Definition opTable : list (opcode * format) := [
  (SPECIAL, RFMT); (BCOND, IFMT); (OP_J, JFMT); (OP_JAL, JFMT);
  (OP_BEQ, IFMT); (OP_BNE, IFMT); (OP_BLEZ, IFMT); (OP_BGTZ, IFMT);
  (OP_ADDI, IFMT); (OP_ADDIU, IFMT); (OP_SLTI, IFMT); (OP_SLTIU, IFMT);
  (OP_ANDI, IFMT); (OP_ORI, IFMT); (OP_XORI, IFMT); (OP_LUI, IFMT);
  (OP_UNIMP, IFMT); (OP_UNIMP, IFMT); (OP_UNIMP, IFMT); (OP_UNIMP, IFMT);
  (OP_RES, IFMT); (OP_RES, IFMT); (OP_RES, IFMT); (OP_RES, IFMT);
  (OP_RES, IFMT); (OP_RES, IFMT); (OP_RES, IFMT); (OP_RES, IFMT);
  (OP_RES, IFMT); (OP_RES, IFMT); (OP_RES, IFMT); (OP_RES, IFMT);
  (OP_LB, IFMT); (OP_LH, IFMT); (OP_LWL, IFMT); (OP_LW, IFMT);
  (OP_LBU, IFMT); (OP_LHU, IFMT); (OP_LWR, IFMT); (OP_RES, IFMT);
  (OP_SB, IFMT); (OP_SH, IFMT); (OP_SWL, IFMT); (OP_SW, IFMT);
  (OP_RES, IFMT); (OP_RES, IFMT); (OP_SWR, IFMT); (OP_RES, IFMT);
  (OP_UNIMP, IFMT); (OP_UNIMP, IFMT); (OP_UNIMP, IFMT); (OP_UNIMP, IFMT);
  (OP_RES, IFMT); (OP_RES, IFMT); (OP_RES, IFMT); (OP_RES, IFMT);
  (OP_UNIMP, IFMT); (OP_UNIMP, IFMT); (OP_UNIMP, IFMT); (OP_UNIMP, IFMT);
  (OP_RES, IFMT); (OP_RES, IFMT); (OP_RES, IFMT); (OP_RES, IFMT)].

Definition specialTable : list opcode := [
  OP_SLL; OP_RES; OP_SRL; OP_SRA; OP_SLLV; OP_RES; OP_SRLV; OP_SRAV;
  OP_JR; OP_JALR; OP_RES; OP_RES; OP_SYSCALL; OP_UNIMP; OP_RES; OP_RES;
  OP_MFHI; OP_MTHI; OP_MFLO; OP_MTLO; OP_RES; OP_RES; OP_RES; OP_RES;
  OP_MULT; OP_MULTU; OP_DIV; OP_DIVU; OP_RES; OP_RES; OP_RES; OP_RES;
  OP_ADD; OP_ADDU; OP_SUB; OP_SUBU; OP_AND; OP_OR; OP_XOR; OP_NOR;
  OP_RES; OP_RES; OP_SLT; OP_SLTU; OP_RES; OP_RES; OP_RES; OP_RES;
  OP_RES; OP_RES; OP_RES; OP_RES; OP_RES; OP_RES; OP_RES; OP_RES;
  OP_RES; OP_RES; OP_RES; OP_RES; OP_RES; OP_RES; OP_RES; OP_RES].

Record Instruction := mkInstr {
  opCode : opcode;
  rs : nat;
  rt : nat;
  rd : nat;
  extra : Z;
}.

(** [(value >> n) & mask] *)
Definition field (value n mask : Z) : Z := Z.land (Z.shiftr value n) mask.

Definition Decode (value : Z) : Instruction :=
  let rs := Z.to_nat (field value 21 31) in
  let rt := Z.to_nat (field value 16 31) in
  let rd := Z.to_nat (field value 11 31) in
  let '(op, fmt) := nth (Z.to_nat (field value 26 63)) opTable (OP_RES, IFMT) in
  let extra :=
    match fmt with
    | IFMT =>
        let extra := Z.land value 65535 in
        if decide (Z.land extra 32768 = 0) then extra else Z.lor extra 4294901760
    | RFMT => field value 6 31
    | JFMT => Z.land value 67108863
    end in
  let op :=
    if decide (op = SPECIAL) then nth (Z.to_nat (Z.land value 63)) specialTable OP_RES
    else if decide (op = BCOND) then
      let i := Z.land value 2031616 in
      if decide (i = 0) then OP_BLTZ
      else if decide (i = 65536) then OP_BGEZ
      else if decide (i = 1048576) then OP_BLTZAL
      else if decide (i = 1114112) then OP_BGEZAL
      else OP_UNIMP
    else op in
  mkInstr op rs rt rd extra.

(** ** Multiplication *)

(** The loop of [Mult], from its [i]-th iteration; [n] iterations are left. *)
Fixpoint mult_loop (n : nat) (a bLo bHi lo hi : Z) : Z * Z :=
  match n with
  | O => (hi, lo)
  | S n =>
      let next lo hi :=
        let bHi := u32 (Z.shiftl bHi 1) in
        let bHi := if decide (Z.land bLo 2147483648 = 0) then bHi else Z.lor bHi 1 in
        let bLo := u32 (Z.shiftl bLo 1) in
        mult_loop n (Z.shiftr a 1) bLo bHi lo hi in
      if decide (Z.land a 1 = 0) then next lo hi
      else
        let lo := u32 (lo + bLo) in
        let hi := if decide (lo < bLo) then u32 (hi + 1) else hi in
        let hi := u32 (hi + bHi) in
        if decide (Z.land (u32 a) 4294967294 = 0) then (hi, lo) else next lo hi
  end.

(** [Mult(a, b, signedArith, hiPtr, loPtr)] on two [int]s: the new values of
    [*hiPtr] and [*loPtr]. *)
Definition Mult (a b : Z) (signedArith : bool) : Z * Z :=
  if decide (a = 0 ∨ b = 0) then (0, 0)
  else
    let '(negative, a) := if signedArith && bool_decide (a < 0) then (true, s32 (- a)) else (false, a) in
    let '(negative, b) :=
      if signedArith && bool_decide (b < 0) then (negb negative, s32 (- b)) else (negative, b) in
    let '(hi, lo) := mult_loop 32 a (u32 b) 0 0 0 in
    if negative : bool then
      let hi := u32 (Z.lnot hi) in
      let lo := u32 (u32 (Z.lnot lo) + 1) in
      (if decide (lo = 0) then u32 (hi + 1) else hi, lo)
    else (hi, lo).

(** *** [Mult] is multiplication *)

Definition wide (hi lo : Z) : Z := hi * 2 ^ 32 + lo.

Lemma land_sign v : word v → Z.land v 2147483648 = 0 ↔ v < 2 ^ 31.
Proof.
  intros Hv. unfold word in Hv. change 2147483648 with (2 ^ 31). split.
  - intros H. destruct (decide (v < 2 ^ 31)); [done|]. exfalso.
    assert (Z.testbit v 31 = true) as Hb.
    { apply Z.testbit_true; [lia|].
      assert (v `div` 2 ^ 31 = 1) as -> by (symmetry; apply Z.div_unique with (v - 2 ^ 31); lia). done. }
    assert (Z.testbit (Z.land v (2 ^ 31)) 31 = true) as Hc by (rewrite Z.land_spec, Hb, Z.pow2_bits_true; done).
    rewrite H in Hc. done.
  - intros H. apply Z.bits_inj'. intros i Hi. rewrite Z.land_spec, Z.bits_0.
    destruct (decide (i = 31)) as [->|].
    + rewrite (Z.bits_above_log2 v 31); [done|lia|].
      destruct (decide (v = 0)) as [->|]; [done|]. apply Z.log2_lt_pow2; lia.
    + rewrite Z.pow2_bits_false by done. by rewrite andb_false_r.
Qed.

Lemma lor_1_even v : v `mod` 2 = 0 → Z.lor v 1 = v + 1.
Proof.
  intros Hv. pose proof (Z.add_lor_land v 1) as E. rewrite land_1, Hv in E. lia.
Qed.

(** Shifting the double word left by one. *)
Lemma shift_wide bHi bLo :
  word bHi → word bLo →
  let bHi' := if decide (Z.land bLo 2147483648 = 0) then u32 (Z.shiftl bHi 1) else Z.lor (u32 (Z.shiftl bHi 1)) 1 in
  word bHi' ∧ wide bHi' (u32 (Z.shiftl bLo 1)) = (2 * wide bHi bLo) `mod` 2 ^ 64.
Proof.
  intros Hh Hl. cbv zeta. rewrite !Z.shiftl_mul_pow2 by lia. change (2 ^ 1) with 2.
  assert (u32 (bHi * 2) `mod` 2 = 0) as He.
  { unfold u32. change (2 ^ 32) with 4294967296. dlia. }
  rewrite lor_1_even by done. pose proof (u32_range (bHi * 2)) as Hr.
  unfold word, wide, u32 in *. change (2 ^ 64) with 18446744073709551616.
  change (2 ^ 32) with 4294967296 in *.
  destruct (decide (Z.land bLo 2147483648 = 0)) as [Hd|Hd].
  - apply land_sign in Hd; [|done]. split; [dlia|]. dlia.
  - rewrite land_sign in Hd by done. change (2 ^ 31) with 2147483648 in *. split; dlia.
Qed.

Lemma add_wide bHi bLo hi lo :
  word bHi → word bLo → word hi → word lo →
  let lo' := u32 (lo + bLo) in
  let hi' := u32 ((if decide (lo' < bLo) then u32 (hi + 1) else hi) + bHi) in
  word hi' ∧ word lo' ∧ wide hi' lo' = (wide hi lo + wide bHi bLo) `mod` 2 ^ 64.
Proof.
  unfold word, wide, u32. change (2 ^ 64) with 18446744073709551616.
  change (2 ^ 32) with 4294967296. intros Hh Hl Hhi Hlo. cbv zeta.
  case_decide as Hd; split_and!; dlia.
Qed.

(** No bit of [a] above the lowest: the early exit of the loop. *)
Lemma last_bit n a :
  (n ≤ 32)%nat → Z.land a 1 ≠ 0 → Z.land (u32 a) 4294967294 = 0 → a `mod` 2 ^ Z.of_nat (S n) = 1 ∨ (n = 32)%nat.
Proof.
  intros Hn H1 H2. destruct (decide (n = 32%nat)); [by right|left].
  rewrite land_1 in H1.
  assert (u32 a `mod` 2 = 1) as Hodd.
  { unfold u32. change (2 ^ 32) with 4294967296. dlia. }
  assert (u32 a = 1) as E.
  { pose proof (Z.add_lor_land (u32 a) 4294967294) as Ea.
    pose proof (u32_range a) as Hr. rewrite H2 in Ea.
    assert (Z.lor (u32 a) 4294967294 < 2 ^ 32) as Hlt.
    { apply Z.log2_lt_pow2; [|rewrite Z.log2_lor by lia; apply Z.max_lub_lt; [|done]].
      - pose proof (Z.lor_nonneg (u32 a) 4294967294) as [_ ?]. lia.
      - apply Z.log2_lt_pow2; lia. }
    lia. }
  assert (a `mod` 2 ^ Z.of_nat (S n) = u32 a `mod` 2 ^ Z.of_nat (S n)) as ->.
  { unfold u32. rewrite Z.mod_mod_divide; [done|]. exists (2 ^ (32 - Z.of_nat (S n))).
    rewrite <- Z.pow_add_r by lia. f_equal. lia. }
  rewrite E. apply Z.mod_small. split; [lia|]. apply Z.pow_gt_1; lia.
Qed.

Lemma mod_step n a : a `mod` 2 ^ Z.of_nat (S n) = a `mod` 2 + 2 * (Z.shiftr a 1 `mod` 2 ^ Z.of_nat n).
Proof.
  rewrite Z.shiftr_div_pow2, Nat2Z.inj_succ, Z.pow_succ_r by lia. change (2 ^ 1) with 2.
  rewrite Z.rem_mul_r by lia. done.
Qed.

Lemma mult_loop_spec n a bLo bHi lo hi :
  (n ≤ 32)%nat → word bLo → word bHi → word lo → word hi →
  let '(hi', lo') := mult_loop n a bLo bHi lo hi in
  word hi' ∧ word lo' ∧
  wide hi' lo' = (wide hi lo + a `mod` 2 ^ Z.of_nat n * wide bHi bLo) `mod` 2 ^ 64.
Proof.
  revert a bLo bHi lo hi. induction n as [|n IH]; intros a bLo bHi lo hi Hn HbL HbH Hlo Hhi.
  { cbn. rewrite Z.mod_1_r, Z.mul_0_l, Z.add_0_r. split_and!; [done..|].
    symmetry. apply Z.mod_small. unfold word, wide in *. lia. }
  assert (∀ lo hi, word lo → word hi →
    let '(hi', lo') := (let bHi' := u32 (Z.shiftl bHi 1) in
      let bHi' := if decide (Z.land bLo 2147483648 = 0) then bHi' else Z.lor bHi' 1 in
      mult_loop n (Z.shiftr a 1) (u32 (Z.shiftl bLo 1)) bHi' lo hi) in
    word hi' ∧ word lo' ∧
    wide hi' lo' = (wide hi lo + Z.shiftr a 1 `mod` 2 ^ Z.of_nat n * (2 * wide bHi bLo)) `mod` 2 ^ 64) as Hnext.
  { intros lo' hi' Hlo' Hhi'. cbv zeta. destruct (shift_wide bHi bLo HbH HbL) as [Hw Es].
    specialize (IH (Z.shiftr a 1) (u32 (Z.shiftl bLo 1)) _ lo' hi' ltac:(lia) (word_u32 _) Hw Hlo' Hhi').
    rewrite Es in IH. destruct (mult_loop _ _ _ _ _ _) as [h l]. destruct IH as (? & ? & ->).
    split_and!; [done..|]. rewrite Zplus_mod, Zmult_mod_idemp_r, <- Zplus_mod. done. }
  cbn [mult_loop]. rewrite mod_step. destruct (decide (Z.land a 1 = 0)) as [H0|H1].
  - rewrite land_1 in H0. specialize (Hnext lo hi Hlo Hhi). cbv zeta in Hnext |- *.
    destruct (mult_loop _ _ _ _ _ _) as [h l]. destruct Hnext as (? & ? & ->). split_and!; [done..|].
    rewrite H0. f_equal. ring.
  - destruct (add_wide bHi bLo hi lo HbH HbL Hhi Hlo) as (Hh & Hl & Es).
    set (lo1 := u32 (lo + bLo)) in *. cbv zeta. set (hi1 := u32 (_ + bHi)) in *.
    assert (a `mod` 2 = 1) as Ha by (rewrite land_1 in H1; dlia). rewrite Ha.
    destruct (decide (Z.land (u32 a) 4294967294 = 0)) as [Hb|Hb].
    + split_and!; [done..|]. pose proof (mod_step n a) as Em. rewrite Ha in Em. rewrite <- Em.
      destruct (last_bit n a ltac:(lia) H1 Hb) as [-> | ?]; [|lia]. by rewrite Es, Z.mul_1_l.
    + specialize (Hnext lo1 hi1 Hl Hh). cbv zeta in Hnext. destruct (mult_loop _ _ _ _ _ _) as [h l].
      destruct Hnext as (? & ? & ->). split_and!; [done..|]. rewrite Es.
      rewrite Zplus_mod_idemp_l. f_equal. ring.
Qed.

Lemma neg_wide hi lo :
  word hi → word lo →
  let hi1 := u32 (Z.lnot hi) in
  let lo1 := u32 (u32 (Z.lnot lo) + 1) in
  let hi2 := if decide (lo1 = 0) then u32 (hi1 + 1) else hi1 in
  word hi2 ∧ word lo1 ∧ wide hi2 lo1 = (- wide hi lo) `mod` 2 ^ 64.
Proof.
  unfold word, wide, u32, Z.lnot. change (2 ^ 64) with 18446744073709551616.
  change (2 ^ 32) with 4294967296. intros Hh Hl. cbv zeta.
  assert (Z.pred (- hi) `mod` 4294967296 = 4294967295 - hi) as -> by dlia.
  assert (Z.pred (- lo) `mod` 4294967296 = 4294967295 - lo) as -> by dlia.
  destruct (decide (lo = 0)) as [->|Hlo].
  - rewrite decide_True by done. split_and!; dlia.
  - assert ((4294967295 - lo + 1) `mod` 4294967296 = 4294967296 - lo) as -> by dlia.
    rewrite decide_False by lia. split_and!; [lia..|]. dlia.
Qed.

Lemma u32_s32 z : u32 (s32 z) = u32 z.
Proof.
  unfold u32, s32. rewrite <- Zminus_mod_idemp_l, Z.mod_mod by lia.
  rewrite Zminus_mod_idemp_l. f_equal. lia.
Qed.

(** The magnitude of an [int], as [Mult] computes it. *)
Lemma magnitude (signedArith : bool) a :
  - 2 ^ 31 ≤ a < 2 ^ 31 →
  u32 (if signedArith && bool_decide (a < 0) then s32 (- a) else a) =
  if signedArith then Z.abs a else u32 a.
Proof.
  intros Ha. destruct signedArith; [|done]. cbn. case_bool_decide.
  - rewrite u32_s32, u32_small by lia. lia.
  - rewrite u32_small by lia. lia.
Qed.

(** [Mult] is the product modulo 2^64, word by word. *)
Lemma Mult_product a b signedArith :
  - 2 ^ 31 ≤ a < 2 ^ 31 → - 2 ^ 31 ≤ b < 2 ^ 31 →
  let '(hi, lo) := Mult a b signedArith in
  word hi ∧ word lo ∧
  wide hi lo = (if signedArith then a * b else u32 a * u32 b) `mod` 2 ^ 64.
Proof.
  intros Ha Hb. unfold Mult. case_decide as Hz.
  { split_and!; [by unfold word..|]. destruct Hz as [->| ->], signedArith;
      rewrite ?(u32_small 0), ?Z.mul_0_r, ?Z.mul_0_l by lia; done. }
  pose proof (magnitude signedArith a Ha) as Ea. pose proof (magnitude signedArith b Hb) as Eb.
  set (na := signedArith && bool_decide (a < 0)) in *. set (nb := signedArith && bool_decide (b < 0)) in *.
  set (a1 := if na then s32 (- a) else a) in *. set (b1 := if nb then s32 (- b) else b) in *.
  assert ((if na then (true, s32 (- a)) else (false, a)) = (na, a1)) as -> by (by destruct na).
  assert ((if nb then (negb na, s32 (- b)) else (na, b)) = (xorb na nb, b1)) as -> by (by destruct na, nb).
  pose proof (mult_loop_spec 32 a1 (u32 b1) 0 0 0 ltac:(lia) (word_u32 _) ltac:(done) ltac:(done) ltac:(done)) as H.
  destruct (mult_loop 32 a1 (u32 b1) 0 0 0) as [hi lo]. destruct H as (Hh & Hl & E).
  change (a1 `mod` 2 ^ Z.of_nat 32) with (u32 a1) in E. rewrite Ea, Eb in E.
  assert (wide 0 (if signedArith then Z.abs b else u32 b) = if signedArith then Z.abs b else u32 b) as Ew
    by (by unfold wide).
  rewrite Ew in E. clear Ew. change (wide 0 0) with 0 in E. rewrite Z.add_0_l in E.
  assert (xorb na nb = true → signedArith = true ∧ Z.abs a * Z.abs b = - (a * b)) as Hneg.
  { unfold na, nb. destruct signedArith; [|done]. cbn. repeat case_bool_decide; cbn; intros; try done; split; nia. }
  assert (xorb na nb = false → signedArith = true → Z.abs a * Z.abs b = a * b) as Hpos.
  { unfold na, nb. intros Hx ->. revert Hx. cbn. repeat case_bool_decide; cbn; intros; try done; nia. }
  destruct (xorb na nb).
  - destruct (Hneg eq_refl) as [-> En]. destruct (neg_wide hi lo Hh Hl) as (? & ? & ->).
    split_and!; [done..|]. rewrite E, En. rewrite <- (Z.sub_0_l (_ `mod` _)), Zminus_mod_idemp_r.
    f_equal. lia.
  - split_and!; [done..|]. rewrite E. destruct signedArith; [|done]. by rewrite Hpos.
Qed.

(** [Mult] computes the 64-bit product of its arguments, signed or
    unsigned, in all cases, the most negative [int] included. *)
Theorem Mult_correct a b signedArith :
  - 2 ^ 31 ≤ a < 2 ^ 31 → - 2 ^ 31 ≤ b < 2 ^ 31 →
  let '(hi, lo) := Mult a b signedArith in
  word hi ∧ word lo ∧
  wide hi lo = (if signedArith then a * b else u32 a * u32 b) `mod` 2 ^ 64.
Proof. exact (Mult_product a b signedArith). Qed.

Lemma Mult_correct_witness : wide (Mult (-7) 3 true).1 (Mult (-7) 3 true).2 = (-21) `mod` 2 ^ 64.
Proof.
  pose proof (Mult_correct (-7) 3 true ltac:(lia) ltac:(lia)) as H.
  destruct (Mult (-7) 3 true) as [hi lo]. exact (proj2 (proj2 H)).
Defined.

(** ** Executing an instruction *)

(** A computation on the machine; [None] when an exception was taken, after
    which [OneInstruction] returns. *)
Definition Cpu (A : Type) : Type := Machine → Result (option A * Machine).

#[export] Instance Cpu_ret : MRet Cpu := λ A a m, Ok (Some a, m).
#[export] Instance Cpu_bind : MBind Cpu := λ A B f c m,
  match c m with
  | Ok (Some a, m) => f a m
  | Ok (None, m) => Ok (None, m)
  | Err e => Err e
  end.

Definition get (r : nat) : Cpu Z := λ m, v ← reg r m; mret (Some v, m).
Definition put (r : nat) (v : Z) : Cpu unit := λ m, m ← set_reg r v m; mret (Some (), m).
Definition assert (b : bool) : Cpu unit := λ m, ASSERT b;; mret (Some (), m).

Definition SIGN_BIT : Z := 2147483648.
Definition R31 : nat := 31.

(** [x & SIGN_BIT] as a condition. *)
Definition negative (v : Z) : bool := negb (bool_decide (Z.land v SIGN_BIT = 0)).

(** [IndexToAddr(x)] *)
Definition IndexToAddr (x : Z) : Z := u32 (Z.shiftl x 2).

(** What the [switch] leaves: [pcAfter], [nextLoadReg], [nextLoadValue]. *)
Definition after : Type := Z * Z * Z.

Section execute.
Context (handler : ExceptionType → Machine → Result Machine).

Definition raise {A} (which : ExceptionType) (bad : Z) : Cpu A := λ m,
  m ← RaiseException handler which bad m; mret (None, m).
Definition read_mem (addr size : Z) : Cpu Z := ReadMem handler addr size.
Definition write_mem (addr size value : Z) : Cpu unit := WriteMem handler addr size value.

(** Cases OP_ADD to OP_ANDI. *)
Definition exec_add (i : Instruction) : Cpu unit :=
  a ← get (rs i);
  b ← get (rt i);
  match opCode i with
  | OP_ADD =>
      let sum := s32 (a + b) in
      if negb (negative (Z.lxor a b)) && negative (Z.lxor a (u32 sum)) then raise OverflowException 0
      else put (rd i) sum
  | OP_ADDI =>
      let sum := s32 (a + extra i) in
      if negb (negative (Z.lxor a (extra i))) && negative (Z.lxor (extra i) (u32 sum))
      then raise OverflowException 0
      else put (rt i) sum
  | OP_ADDIU => put (rt i) (a + extra i)
  | OP_ADDU => put (rd i) (a + b)
  | OP_AND => put (rd i) (Z.land a b)
  | _ => put (rt i) (Z.land a (Z.land (extra i) 65535))
  end.

(** Cases OP_BEQ to OP_BNE: the new [pcAfter]. *)
Definition exec_branch (i : Instruction) : Cpu Z :=
  next ← get NextPCReg;
  let taken := s32 (next + IndexToAddr (extra i)) in
  let not_taken := s32 (next + 4) in
  _ ← (if decide (opCode i = OP_BGEZAL ∨ opCode i = OP_BLTZAL) then put R31 (next + 4) else mret ());
  a ← get (rs i);
  b ← get (rt i);
  let cond :=
    match opCode i with
    | OP_BEQ => bool_decide (a = b)
    | OP_BGEZAL | OP_BGEZ => negb (negative a)
    | OP_BGTZ => bool_decide (a > 0)
    | OP_BLEZ => bool_decide (a ≤ 0)
    | OP_BLTZAL | OP_BLTZ => negative a
    | _ => negb (bool_decide (a = b))
    end in
  mret (if cond then taken else not_taken).

(** Cases OP_DIV and OP_DIVU. *)
Definition exec_div (i : Instruction) : Cpu unit :=
  a ← get (rs i);
  b ← get (rt i);
  if decide (b = 0) then _ ← put LoReg 0; put HiReg 0
  else _ ← put LoReg (a `div` b); put HiReg (a `mod` b).

(** Cases OP_JAL to OP_JR: the new [pcAfter]. *)
Definition exec_jump (i : Instruction) : Cpu Z :=
  next ← get NextPCReg;
  match opCode i with
  | OP_JAL =>
      _ ← put R31 (next + 4);
      mret (s32 (Z.lor (Z.land (u32 (next + 4)) 4026531840) (IndexToAddr (extra i))))
  | OP_J => mret (s32 (Z.lor (Z.land (u32 (next + 4)) 4026531840) (IndexToAddr (extra i))))
  | OP_JALR => _ ← put (rd i) (next + 4); a ← get (rs i); mret (s32 a)
  | _ => a ← get (rs i); mret (s32 a)
  end.

(** Cases OP_LB to OP_LHU: [nextLoadValue]. *)
Definition exec_load_part (i : Instruction) : Cpu Z :=
  a ← get (rs i);
  let tmp := s32 (a + extra i) in
  match opCode i with
  | OP_LB | OP_LBU =>
      value ← read_mem tmp 1;
      mret (if negb (bool_decide (Z.land value 128 = 0)) && bool_decide (opCode i = OP_LB)
            then s32 (Z.lor (u32 value) 4294967040) else Z.land value 255)
  | _ =>
      if decide (Z.land tmp 1 = 0) then
        value ← read_mem tmp 2;
        mret (if negb (bool_decide (Z.land value 32768 = 0)) && bool_decide (opCode i = OP_LH)
              then s32 (Z.lor (u32 value) 4294901760) else Z.land value 65535)
      else raise AddressErrorException tmp
  end.

(** How OP_LWL and OP_LWR merge the word read with the register. *)
Definition merge_left (k old value : Z) : Z :=
  if decide (k = 0) then value
  else if decide (k = 1) then s32 (Z.lor (Z.land (u32 old) 255) (u32 (Z.shiftl value 8)))
  else if decide (k = 2) then s32 (Z.lor (Z.land (u32 old) 65535) (u32 (Z.shiftl value 16)))
  else s32 (Z.lor (Z.land (u32 old) 16777215) (u32 (Z.shiftl value 24))).
Definition merge_right (k old value : Z) : Z :=
  if decide (k = 0) then s32 (Z.lor (Z.land (u32 old) 4294967040) (Z.land (Z.shiftr value 24) 255))
  else if decide (k = 1) then s32 (Z.lor (Z.land (u32 old) 4294901760) (Z.land (Z.shiftr value 16) 65535))
  else if decide (k = 2) then s32 (Z.lor (Z.land (u32 old) 4278190080) (Z.land (Z.shiftr value 8) 16777215))
  else value.

(** Cases OP_LW, OP_LWL and OP_LWR: [nextLoadValue]. *)
Definition exec_load_word (i : Instruction) : Cpu Z :=
  a ← get (rs i);
  let tmp := s32 (a + extra i) in
  match opCode i with
  | OP_LW =>
      if decide (Z.land tmp 3 = 0) then read_mem tmp 4 else raise AddressErrorException tmp
  | _ =>
      _ ← assert (bool_decide (Z.land tmp 3 = 0));
      value ← read_mem tmp 4;
      pending ← get LoadReg;
      old ← get (if decide (pending = Z.of_nat (rt i)) then LoadValueReg else rt i);
      mret ((if decide (opCode i = OP_LWL) then merge_left else merge_right) (Z.land tmp 3) (s32 old) value)
  end.

(** Cases OP_MFHI to OP_ORI. *)
Definition exec_move (i : Instruction) : Cpu unit :=
  a ← get (rs i);
  b ← get (rt i);
  match opCode i with
  | OP_MFHI => v ← get HiReg; put (rd i) v
  | OP_MFLO => v ← get LoReg; put (rd i) v
  | OP_MTHI => put HiReg a
  | OP_MTLO => put LoReg a
  | OP_MULT => let '(hi, lo) := Mult (s32 a) (s32 b) true in _ ← put HiReg hi; put LoReg lo
  | OP_MULTU => let '(hi, lo) := Mult (s32 a) (s32 b) false in _ ← put HiReg hi; put LoReg lo
  | OP_NOR => put (rd i) (Z.lnot (Z.lor a b))
  | OP_OR => put (rd i) (Z.lor a a)
  | _ => put (rt i) (Z.lor a (Z.land (extra i) 65535))
  end.

(** Cases OP_SLL to OP_SUBU. *)
Definition exec_shift (i : Instruction) : Cpu unit :=
  a ← get (rs i);
  b ← get (rt i);
  match opCode i with
  | OP_SLL => put (rd i) (Z.shiftl b (extra i))
  | OP_SLLV => put (rd i) (Z.shiftl b (Z.land a 31))
  | OP_SLT => put (rd i) (if decide (a < b) then 1 else 0)
  | OP_SLTI => put (rt i) (if decide (a < extra i) then 1 else 0)
  | OP_SLTIU => put (rt i) (if decide (a < extra i) then 1 else 0)
  | OP_SLTU => put (rd i) (if decide (a < b) then 1 else 0)
  | OP_SRA => put (rd i) (Z.shiftr b (extra i))
  | OP_SRAV => put (rd i) (Z.shiftr b (Z.land a 31))
  | OP_SRL => put (rd i) (Z.shiftr (s32 b) (extra i))
  | OP_SRLV => put (rd i) (Z.shiftr (s32 b) (Z.land a 31))
  | OP_SUB =>
      let diff := s32 (a - b) in
      if negative (Z.lxor a b) && negative (Z.lxor a (u32 diff)) then raise OverflowException 0
      else put (rd i) diff
  | _ => put (rd i) (a - b)
  end.

(** How OP_SWL and OP_SWR merge the register with the word in memory. *)
Definition merge_store_left (k b value : Z) : Z :=
  if decide (k = 0) then s32 b
  else if decide (k = 1) then s32 (Z.lor (Z.land (u32 value) 4278190080) (Z.land (Z.shiftr b 8) 16777215))
  else if decide (k = 2) then s32 (Z.lor (Z.land (u32 value) 4294901760) (Z.land (Z.shiftr b 16) 65535))
  else s32 (Z.lor (Z.land (u32 value) 4294967040) (Z.land (Z.shiftr b 24) 255)).
Definition merge_store_right (k b value : Z) : Z :=
  if decide (k = 0) then s32 (Z.lor (Z.land (u32 value) 16777215) (u32 (Z.shiftl b 24)))
  else if decide (k = 1) then s32 (Z.lor (Z.land (u32 value) 65535) (u32 (Z.shiftl b 16)))
  else if decide (k = 2) then s32 (Z.lor (Z.land (u32 value) 255) (u32 (Z.shiftl b 8)))
  else s32 b.

(** Cases OP_SB, OP_SH, OP_SW, OP_SWL and OP_SWR. *)
Definition exec_store (i : Instruction) : Cpu unit :=
  a ← get (rs i);
  b ← get (rt i);
  let tmp := s32 (a + extra i) in
  match opCode i with
  | OP_SB => write_mem tmp 1 (s32 b)
  | OP_SH => write_mem tmp 2 (s32 b)
  | OP_SW => write_mem tmp 4 (s32 b)
  | _ =>
      _ ← assert (bool_decide (Z.land tmp 3 = 0));
      value ← read_mem (Z.land tmp (-4)) 4;
      write_mem (Z.land tmp (-4)) 4
        ((if decide (opCode i = OP_SWL) then merge_store_left else merge_store_right) (Z.land tmp 3) b value)
  end.

(** The remaining cases: OP_LUI, OP_XOR, OP_XORI. *)
Definition exec_logic (i : Instruction) : Cpu unit :=
  a ← get (rs i);
  b ← get (rt i);
  match opCode i with
  | OP_LUI => put (rt i) (Z.shiftl (extra i) 16)
  | OP_XOR => put (rd i) (Z.lxor a b)
  | _ => put (rt i) (Z.lxor a (Z.land (extra i) 65535))
  end.

(** The [switch] of [OneInstruction]. *)
Definition execute (i : Instruction) : Cpu after :=
  next ← get NextPCReg;
  let pcAfter := s32 (next + 4) in
  let done (c : Cpu unit) : Cpu after := _ ← c; mret (pcAfter, 0, 0) in
  let jump (c : Cpu Z) : Cpu after := pc ← c; mret (pc, 0, 0) in
  let load (c : Cpu Z) : Cpu after := v ← c; mret (pcAfter, Z.of_nat (rt i), v) in
  match opCode i with
  | OP_ADD | OP_ADDI | OP_ADDIU | OP_ADDU | OP_AND | OP_ANDI => done (exec_add i)
  | OP_BEQ | OP_BGEZAL | OP_BGEZ | OP_BGTZ | OP_BLEZ | OP_BLTZAL | OP_BLTZ | OP_BNE => jump (exec_branch i)
  | OP_DIV | OP_DIVU => done (exec_div i)
  | OP_JAL | OP_J | OP_JALR | OP_JR => jump (exec_jump i)
  | OP_LB | OP_LBU | OP_LH | OP_LHU => load (exec_load_part i)
  | OP_LW | OP_LWL | OP_LWR => load (exec_load_word i)
  | OP_MFHI | OP_MFLO | OP_MTHI | OP_MTLO | OP_MULT | OP_MULTU | OP_NOR | OP_OR | OP_ORI => done (exec_move i)
  | OP_SB | OP_SH | OP_SW | OP_SWL | OP_SWR => done (exec_store i)
  | OP_SLL | OP_SLLV | OP_SLT | OP_SLTI | OP_SLTIU | OP_SLTU | OP_SRA | OP_SRAV | OP_SRL | OP_SRLV
  | OP_SUB | OP_SUBU => done (exec_shift i)
  | OP_LUI | OP_XOR | OP_XORI => done (exec_logic i)
  | OP_SYSCALL => raise SyscallException 0
  | OP_RES | OP_UNIMP => raise IllegalInstrException 0
  | OP_RFE | SPECIAL | BCOND => _ ← assert false; mret (pcAfter, 0, 0)
  end.

(** The delayed load and the program counters, after a successful instruction. *)
Definition advance (a : after) : Cpu unit := λ m,
  let '(pcAfter, nextLoadReg, nextLoadValue) := a in
  m ← DelayedLoad nextLoadReg nextLoadValue m;
  pc ← reg PCReg m;
  next ← reg NextPCReg m;
  m ← set_reg PrevPCReg pc m;
  m ← set_reg PCReg next m;
  m ← set_reg NextPCReg pcAfter m;
  mret (Some (), m).

Definition OneInstruction : Cpu unit :=
  pc ← get PCReg;
  raw ← read_mem (s32 pc) 4;
  a ← execute (Decode (u32 raw));
  advance a.

(** The loop of [Machine::Run], [n] times round. *)
Fixpoint Run_loop (n : nat) (m : Machine) : Result Machine :=
  match n with
  | O => mret m
  | S n => '(_, m) ← OneInstruction m; Run_loop n m
  end.
End execute.

(** ** Every instruction keeps the machine well formed *)

Lemma field_bound value n k : 0 ≤ k → 0 ≤ field value n (Z.ones k) < 2 ^ k.
Proof. intros Hk. unfold field. rewrite Z.land_ones by done. apply Z.mod_pos_bound. lia. Qed.

Definition instr_ok (i : Instruction) : Prop :=
  (rs i < 32)%nat ∧ (rt i < 32)%nat ∧ (rd i < 32)%nat.

Lemma Decode_ok value : instr_ok (Decode value).
Proof.
  unfold Decode. destruct (nth _ opTable _) as [op fmt]. unfold instr_ok; cbn.
  change 31 with (Z.ones 5).
  pose proof (field_bound value 21 5 ltac:(lia)). pose proof (field_bound value 16 5 ltac:(lia)).
  pose proof (field_bound value 11 5 ltac:(lia)). lia.
Qed.

Section execute_safe.
Context (handler : ExceptionType → Machine → Result Machine) (excused : stop → Prop).
Hypothesis handler_ok : ∀ which m, machine_ok m →
  match handler which m with Ok m' => machine_ok m' | Err e => excused e end.

(** [c] is safe from any well-formed machine, and its result satisfies [Q]. *)
Definition secure {A} (c : Cpu A) (Q : A → Prop) : Prop :=
  ∀ m, machine_ok m → safe excused (c m) (λ a _, Q a).

Lemma secure_ret {A} (a : A) (Q : A → Prop) : Q a → secure (mret a) Q.
Proof. intros HQ m Hm. by split. Qed.

Lemma secure_bind {A B} (c : Cpu A) (f : A → Cpu B) P Q :
  secure c P → (∀ a, P a → secure (f a) Q) → secure (c ≫= f) Q.
Proof.
  intros Hc Hf m Hm. specialize (Hc m Hm). unfold mbind, Cpu_bind.
  destruct (c m) as [[[a|] m']|e]; [|done..]. destruct Hc as [Hm' HP]. by apply Hf.
Qed.

Lemma secure_get r : (r < NumTotalRegs)%nat → secure (get r) word.
Proof. intros Hr m Hm. unfold get. destruct (reg_total m r Hm Hr) as (v & -> & Hv). by split. Qed.

Lemma secure_put r v : (r < 37)%nat → secure (put r v) (λ _, True).
Proof.
  intros Hr m Hm. unfold put.
  destruct (set_reg_ok m r v Hm) as (m' & -> & Hm' & _); [unfold NumTotalRegs; lia|unfold LoadReg; lia|].
  by split.
Qed.

Lemma secure_raise {A} which bad (Q : A → Prop) : secure (raise handler which bad) Q.
Proof using handler_ok. intros m Hm. by apply raise_safe. Qed.

Lemma secure_read addr size : size = 1 ∨ size = 2 ∨ size = 4 → secure (read_mem handler addr size) (λ _, True).
Proof using handler_ok.
  intros Hs m Hm. pose proof (ReadMem_safe excused handler handler_ok addr size m Hm Hs) as H.
  unfold read_mem, safe in *. destruct (ReadMem handler addr size m) as [[[a|] m']|e]; [|done..].
  split; [apply H|done].
Qed.

Lemma secure_write addr size v :
  size = 1 ∨ size = 2 ∨ size = 4 → secure (write_mem handler addr size v) (λ _, True).
Proof using handler_ok.
  intros Hs m Hm. pose proof (WriteMem_safe excused handler handler_ok addr size v m Hm Hs) as H.
  unfold write_mem, safe in *. destruct (WriteMem handler addr size v m) as [[[a|] m']|e]; [|done..].
  split; [apply H|done].
Qed.

Lemma secure_assert b : (b = false → excused AssertFailed) → secure (assert b) (λ _, b = true).
Proof. intros Hb m Hm. unfold assert. destruct b; cbn; [done|by apply Hb]. Qed.

Lemma secure_weaken {A} (c : Cpu A) (P Q : A → Prop) : secure c P → (∀ a, P a → Q a) → secure c Q.
Proof.
  intros Hc HPQ m Hm. specialize (Hc m Hm). unfold safe in *.
  destruct (c m) as [[[a|] m']|e]; [|done..]. destruct Hc. split; auto.
Qed.

Ltac reg_bound := unfold NumTotalRegs, NextPCReg, PCReg, PrevPCReg, HiReg, LoReg, R31, LoadReg, LoadValueReg in *; lia.

(** Go through a computation piece by piece. *)
Ltac go_secure :=
  repeat match goal with
  | |- secure (get _) _ => apply secure_get; reg_bound
  | |- secure (put _ _) _ => apply secure_put; reg_bound
  | |- secure (raise _ _ _) _ => by apply secure_raise
  | |- secure (read_mem _ _ _) _ => apply secure_read; by auto
  | |- secure (write_mem _ _ _ _) _ => apply secure_write; by auto
  | |- secure (mret _) _ => by apply secure_ret
  | |- secure (_ ≫= _) _ => eapply secure_bind; [|intros ? ?]
  | |- secure (if ?b then _ else _) _ => destruct b
  | |- secure (let '(_, _) := ?p in _) _ => destruct p
  end.

Context (i : Instruction) (Hi : instr_ok i).

Lemma exec_add_secure : secure (exec_add handler i) (λ _, True).
Proof using handler_ok Hi. destruct Hi as (? & ? & ?). unfold exec_add. destruct (opCode i); go_secure. Qed.

Lemma exec_branch_secure : secure (exec_branch i) (λ _, True).
Proof using Hi.
  destruct Hi as (? & ? & ?). unfold exec_branch.
  eapply secure_bind; [apply secure_get; reg_bound|intros next _].
  apply (secure_bind _ _ (λ _, True)); [destruct (decide _); go_secure|intros _ _]. go_secure.
Qed.

Lemma exec_div_secure : secure (exec_div i) (λ _, True).
Proof using Hi. destruct Hi as (? & ? & ?). unfold exec_div. go_secure. Qed.

Lemma exec_jump_secure : secure (exec_jump i) (λ _, True).
Proof using Hi. destruct Hi as (? & ? & ?). unfold exec_jump. destruct (opCode i); go_secure. Qed.

Lemma exec_load_part_secure : secure (exec_load_part handler i) (λ _, True).
Proof using handler_ok Hi. destruct Hi as (? & ? & ?). unfold exec_load_part. destruct (opCode i); go_secure. Qed.

Lemma exec_move_secure : secure (exec_move i) (λ _, True).
Proof using Hi. destruct Hi as (? & ? & ?). unfold exec_move. destruct (opCode i); go_secure. Qed.

Lemma exec_shift_secure : secure (exec_shift handler i) (λ _, True).
Proof using handler_ok Hi. destruct Hi as (? & ? & ?). unfold exec_shift. destruct (opCode i); go_secure. Qed.

Lemma exec_logic_secure : secure (exec_logic i) (λ _, True).
Proof using Hi. destruct Hi as (? & ? & ?). unfold exec_logic. destruct (opCode i); go_secure. Qed.

(** OP_LWL, OP_LWR, OP_SWL and OP_SWR on an address that is not a multiple of 4
    fail an assertion of the simulator. *)
Definition unaligned_access (op : opcode) : Prop :=
  op = OP_LWL ∨ op = OP_LWR ∨ op = OP_SWL ∨ op = OP_SWR.

Hypothesis unaligned_excused : unaligned_access (opCode i) → excused AssertFailed.

Lemma exec_load_word_secure :
  opCode i = OP_LW ∨ opCode i = OP_LWL ∨ opCode i = OP_LWR →
  secure (exec_load_word handler i) (λ _, True).
Proof using handler_ok Hi unaligned_excused.
  intros Hop. destruct Hi as (? & ? & ?). unfold exec_load_word.
  eapply secure_bind; [apply secure_get; reg_bound|intros a _].
  destruct Hop as [E|Hop]; [rewrite E; go_secure|].
  assert (unaligned_access (opCode i)) as Hu by (unfold unaligned_access; naive_solver).
  destruct Hop as [E|E]; rewrite E.
  all: eapply secure_bind; [apply secure_assert; by intros _; apply unaligned_excused|intros _ _].
  all: eapply secure_bind; [apply secure_read; by auto|intros v _].
  all: eapply secure_bind; [apply secure_get; reg_bound|intros p _].
  all: eapply secure_bind; [apply secure_get; case_decide; reg_bound|intros o _].
  all: by apply secure_ret.
Qed.

Lemma exec_store_secure :
  opCode i = OP_SB ∨ opCode i = OP_SH ∨ opCode i = OP_SW ∨ opCode i = OP_SWL ∨ opCode i = OP_SWR →
  secure (exec_store handler i) (λ _, True).
Proof using handler_ok Hi unaligned_excused.
  intros Hop. destruct Hi as (? & ? & ?). unfold exec_store.
  eapply secure_bind; [apply secure_get; reg_bound|intros a _].
  eapply secure_bind; [apply secure_get; reg_bound|intros b _].
  destruct Hop as [E|[E|[E|Hop]]]; [rewrite E; go_secure..|].
  assert (unaligned_access (opCode i)) as Hu by (unfold unaligned_access; naive_solver).
  destruct Hop as [E|E]; rewrite E.
  all: eapply secure_bind; [apply secure_assert; by intros _; apply unaligned_excused|intros _ _].
  all: go_secure.
Qed.

(** Opcodes that [Decode] never yields. *)
Definition undecodable (op : opcode) : Prop := op = OP_RFE ∨ op = SPECIAL ∨ op = BCOND.

Lemma execute_secure :
  ¬ undecodable (opCode i) →
  secure (execute handler i) (λ a, 0 ≤ a.1.2 < 32).
Proof using handler_ok Hi unaligned_excused.
  intros Hnu. unfold execute.
  eapply secure_bind; [apply secure_get; reg_bound|intros next _]. cbv zeta.
  assert (∀ (c : Cpu unit) pc, secure c (λ _, True) →
    secure (_ ← c; mret (pc, 0, 0)) (λ a : after, 0 ≤ a.1.2 < 32)) as Hdone.
  { intros c pc Hc. eapply secure_bind; [exact Hc|intros _ _]. apply secure_ret. cbn. lia. }
  assert (∀ (c : Cpu Z), secure c (λ _, True) →
    secure (pc ← c; mret (pc, 0, 0)) (λ a : after, 0 ≤ a.1.2 < 32)) as Hjump.
  { intros c Hc. eapply secure_bind; [exact Hc|intros pc _]. apply secure_ret. cbn. lia. }
  assert (∀ (c : Cpu Z) pc, secure c (λ _, True) →
    secure (v ← c; mret (pc, Z.of_nat (rt i), v)) (λ a : after, 0 ≤ a.1.2 < 32)) as Hload.
  { intros c pc Hc. eapply secure_bind; [exact Hc|intros v _]. apply secure_ret. cbn.
    destruct Hi as (_ & ? & _). lia. }
  case_eq (opCode i); intros Eop;
    first [by apply Hdone, exec_add_secure | by apply Hjump, exec_branch_secure
          | by apply Hdone, exec_div_secure | by apply Hjump, exec_jump_secure
          | by apply Hload, exec_load_part_secure
          | by (apply Hload, exec_load_word_secure; rewrite Eop; auto)
          | by apply Hdone, exec_move_secure
          | by (apply Hdone, exec_store_secure; rewrite Eop; auto 10)
          | by apply Hdone, exec_shift_secure | by apply Hdone, exec_logic_secure
          | by apply secure_raise | exfalso; apply Hnu; unfold undecodable; rewrite Eop; by auto].
Qed.
End execute_safe.

Lemma Decode_decodable value : ¬ undecodable (opCode (Decode value)).
Proof.
  assert (Forall (λ p : opcode * format, p.1 ≠ OP_RFE) opTable) as Ht by (repeat constructor; done).
  assert (Forall (λ op, ¬ undecodable op) specialTable) as Hs
    by (unfold undecodable; repeat constructor; naive_solver).
  unfold Decode.
  assert ((nth (Z.to_nat (field value 26 63)) opTable (OP_RES, IFMT)).1 ≠ OP_RFE) as Hop.
  { destruct (nth_in_or_default (Z.to_nat (field value 26 63)) opTable (OP_RES, IFMT)) as [Hin| ->]; [|done].
    rewrite List.Forall_forall in Ht. by apply Ht. }
  destruct (nth _ opTable _) as [op fmt]. cbn [opCode fst] in *. case_decide.
  - destruct (nth_in_or_default (Z.to_nat (Z.land value 63)) specialTable OP_RES) as [Hin| ->].
    + rewrite List.Forall_forall in Hs. by apply Hs.
    + by intros [?|[?|?]].
  - case_decide; [|by intros [?|[?|?]]]. repeat case_decide; by intros [?|[?|?]].
Qed.

Lemma advance_secure excused a m :
  machine_ok m → 0 ≤ a.1.2 < 32 →
  safe excused (advance a m) (λ _ m', registers m' !! 0%nat = Some 0 ∧
    registers m' !! PCReg = registers m !! NextPCReg).
Proof.
  destruct a as [[pcAfter r] v]. cbn [fst snd]. intros Hm Hr. unfold advance.
  destruct (DelayedLoad_ok m r v Hm Hr) as (m1 & E1 & Hm1 & H0 & _). rewrite E1. rcbn.
  destruct (reg_total m1 PCReg Hm1) as (pc & -> & _); [unfold PCReg, NumTotalRegs; lia|]. rcbn.
  destruct (reg_total m1 NextPCReg Hm1) as (next & En & Hw); [unfold NextPCReg, NumTotalRegs; lia|].
  rewrite En. rcbn. apply deref_Ok in En.
  destruct (set_reg_ok m1 PrevPCReg pc Hm1) as (m2 & -> & Hm2 & ->); [unfold PrevPCReg, NumTotalRegs; lia|done|]. rcbn.
  destruct (set_reg_ok _ PCReg next Hm2) as (m3 & -> & Hm3 & ->); [unfold PCReg, NumTotalRegs; lia|done|]. rcbn.
  destruct (set_reg_ok _ NextPCReg pcAfter Hm3) as (m4 & -> & Hm4 & ->); [unfold NextPCReg, NumTotalRegs; lia|done|]. rcbn.
  split; [done|]. cbn [registers set_registers].
  assert (registers m !! NextPCReg = registers m1 !! NextPCReg) as ->.
  { unfold DelayedLoad in E1. apply bind_Ok in E1 as (t & Et & E1). apply bind_Ok in E1 as (w & _ & E1).
    assert (t < 32) by (apply (ok_load _ Hm); by apply deref_Ok in Et).
    unfold set_reg in E1. invert_ok. rewrite !list_lookup_insert_ne; [done|..]; unfold NextPCReg, LoadReg, LoadValueReg; lia. }
  rewrite En. split.
  - rewrite !list_lookup_insert_ne by done. done.
  - rewrite list_lookup_insert_ne, list_lookup_insert_eq; [|by rewrite length_insert, (ok_registers _ Hm1); unfold PCReg, NumTotalRegs; lia|done].
    by rewrite u32_small by done.
Qed.

(** C18: one instruction of a user program, whatever its bits and whatever the
    page table or TLB holds, leaves the machine well formed (registers 32-bit
    words, memory intact in size), with register 0 equal to 0 when no exception
    was taken.  Nothing stops the simulator but the kernel's exception handler,
    apart from the assertion in OP_LWL, OP_LWR, OP_SWL and OP_SWR. *)
Theorem OneInstruction_safe handler m :
  (∀ which m m', machine_ok m → handler which m = Ok m' → machine_ok m') → machine_ok m →
  match OneInstruction handler m with
  | Ok (Some _, m') => machine_ok m' ∧ registers m' !! 0%nat = Some 0
  | Ok (None, m') => machine_ok m'
  | Err e => (∃ which m1, machine_ok m1 ∧ handler which m1 = Err e) ∨
      (e = AssertFailed ∧ ∃ pc raw m1, registers m !! PCReg = Some pc ∧
        ReadMem handler (s32 pc) 4 m = Ok (Some raw, m1) ∧
        unaligned_access (opCode (Decode (u32 raw))))
  end.
Proof.
  intros Hh Hm. set (bad := ∃ pc raw m1, registers m !! PCReg = Some pc ∧
    ReadMem handler (s32 pc) 4 m = Ok (Some raw, m1) ∧ unaligned_access (opCode (Decode (u32 raw)))).
  set (excused := λ e, (∃ which m1, machine_ok m1 ∧ handler which m1 = Err e) ∨ (e = AssertFailed ∧ bad)).
  assert (∀ which m, machine_ok m →
    match handler which m with Ok m' => machine_ok m' | Err e => excused e end) as Hhandler.
  { intros which m1 Hm1. destruct (handler which m1) eqn:E; [by eapply Hh|]. left. eauto. }
  change (safe excused (OneInstruction handler m) (λ _ m', registers m' !! 0%nat = Some 0)).
  unfold OneInstruction, mbind, Cpu_bind, get.
  destruct (reg_total m PCReg Hm) as (pc & Epc & _); [unfold PCReg, NumTotalRegs; lia|]. rewrite Epc. rcbn.
  pose proof (ReadMem_safe excused handler Hhandler (s32 pc) 4 m Hm ltac:(auto)) as Hr.
  unfold read_mem. destruct (ReadMem handler (s32 pc) 4 m) as [[[raw|] m1]|e] eqn:Er; [|done..].
  destruct Hr as [Hm1 _].
  assert (unaligned_access (opCode (Decode (u32 raw))) → excused AssertFailed) as Hun.
  { intros Hu. right. split; [done|]. apply deref_Ok in Epc. by exists pc, raw, m1. }
  pose proof (execute_secure handler excused Hhandler _ (Decode_ok (u32 raw)) Hun
    (Decode_decodable _) m1 Hm1) as He.
  destruct (execute handler (Decode (u32 raw)) m1) as [[[a|] m2]|e]; [|done..].
  destruct He as [Hm2 Ha]. pose proof (advance_secure excused a m2 Hm2 Ha) as Hadv.
  destruct (advance a m2) as [[[[]|] m3]|e]; [|done..]. destruct Hadv as (? & ? & _). done.
Qed.

Lemma OneInstruction_safe_witness :
  ∃ m', OneInstruction ExceptionHandler one_page = Ok (Some (), m') ∧ machine_ok m' ∧
    registers m' !! 0%nat = Some 0.
Proof.
  assert (∀ which m m', machine_ok m → ExceptionHandler which m = Ok m' → machine_ok m') as Hh.
  { intros which m m' _ H. unfold ExceptionHandler in H. apply bind_Ok in H as (? & _ & H). by case_match. }
  pose proof (OneInstruction_safe ExceptionHandler one_page Hh one_page_ok) as H.
  destruct (OneInstruction ExceptionHandler one_page) as [[[[]|] m']|e] eqn:E;
    [|exfalso; vm_compute in E; discriminate E..].
  exists m'. split; [reflexivity|exact H].
Defined.

(** ** What single instructions compute *)

Lemma negative_testbit v : negative v = Z.testbit v 31.
Proof.
  unfold negative, SIGN_BIT. change 2147483648 with (2 ^ 31).
  destruct (Z.testbit v 31) eqn:Hb.
  - rewrite bool_decide_false; [done|]. intros H.
    assert (Z.testbit (Z.land v (2 ^ 31)) 31 = true) as Hc by (rewrite Z.land_spec, Hb, Z.pow2_bits_true; done).
    by rewrite H in Hc.
  - rewrite bool_decide_true; [done|]. apply Z.bits_inj'. intros i Hi. rewrite Z.land_spec, Z.bits_0.
    destruct (decide (i = 31)) as [->|]; [by rewrite Hb|].
    rewrite Z.pow2_bits_false by done. by rewrite andb_false_r.
Qed.

Lemma testbit_word v : word v → Z.testbit v 31 = bool_decide (2 ^ 31 ≤ v).
Proof.
  intros Hv. pose proof (negative_testbit v) as E. unfold negative, SIGN_BIT in E. rewrite <- E.
  pose proof (land_sign v Hv) as Hl. case_bool_decide; case_bool_decide; cbn; naive_solver lia.
Qed.

Lemma s32_word v : word v → s32 v = if decide (2 ^ 31 ≤ v) then v - 2 ^ 32 else v.
Proof.
  unfold word, s32. change (2 ^ 32) with 4294967296. change (2 ^ 31) with 2147483648. intros Hv.
  case_decide; dlia.
Qed.

Definition in_range (z : Z) : Prop := - 2 ^ 31 ≤ z < 2 ^ 31.

(** Settle the sign bits of the operands and of the result [c]. *)
Ltac decide_bits a b c :=
  destruct (decide (2147483648 ≤ a)) as [?|?], (decide (2147483648 ≤ b)) as [?|?],
    (decide (2147483648 ≤ c)) as [?|?];
  rewrite ?(bool_decide_true (2147483648 ≤ a)), ?(bool_decide_false (2147483648 ≤ a)),
    ?(bool_decide_true (2147483648 ≤ b)), ?(bool_decide_false (2147483648 ≤ b)),
    ?(bool_decide_true (2147483648 ≤ c)), ?(bool_decide_false (2147483648 ≤ c)) by done;
  cbn [negb xorb andb];
  first [rewrite bool_decide_true by lia; reflexivity
        |rewrite bool_decide_false by lia; reflexivity|exfalso; lia].

Lemma add_overflow a b :
  word a → word b →
  negb (negative (Z.lxor a b)) && negative (Z.lxor a (u32 (s32 (a + b)))) =
  negb (bool_decide (in_range (s32 a + s32 b))).
Proof.
  intros Ha Hb. rewrite !negative_testbit, !Z.lxor_spec, u32_s32.
  rewrite !testbit_word by (done || apply word_u32). rewrite !s32_word by done.
  unfold in_range, u32, word in *. change (2 ^ 32) with 4294967296 in *. change (2 ^ 31) with 2147483648.
  destruct (decide (4294967296 ≤ a + b)).
  - assert ((a + b) `mod` 4294967296 = a + b - 4294967296) as -> by dlia.
    decide_bits a b (a + b - 4294967296).
  - rewrite Z.mod_small by lia. decide_bits a b (a + b).
Qed.

Lemma sub_overflow a b :
  word a → word b →
  negative (Z.lxor a b) && negative (Z.lxor a (u32 (s32 (a - b)))) =
  negb (bool_decide (in_range (s32 a - s32 b))).
Proof.
  intros Ha Hb. rewrite !negative_testbit, !Z.lxor_spec, u32_s32.
  rewrite !testbit_word by (done || apply word_u32). rewrite !s32_word by done.
  unfold in_range, u32, word in *. change (2 ^ 32) with 4294967296 in *. change (2 ^ 31) with 2147483648.
  destruct (decide (a < b)).
  - assert ((a - b) `mod` 4294967296 = a - b + 4294967296) as -> by dlia.
    decide_bits a b (a - b + 4294967296).
  - rewrite Z.mod_small by lia. decide_bits a b (a - b).
Qed.

(** OP_ADD, OP_ADDI and OP_SUB raise the overflow exception exactly when
    the signed result does not fit in 32 bits, and compute it otherwise; the
    bit tricks of the source test just that. *)
Theorem overflow_exact handler i m a b :
  reg (rs i) m = Ok a → reg (rt i) m = Ok b → word a → word b → word (extra i) →
  (opCode i = OP_ADD → exec_add handler i m =
    if decide (in_range (s32 a + s32 b)) then put (rd i) (s32 (a + b)) m
    else raise handler OverflowException 0 m) ∧
  (opCode i = OP_ADDI → exec_add handler i m =
    if decide (in_range (s32 a + s32 (extra i))) then put (rt i) (s32 (a + extra i)) m
    else raise handler OverflowException 0 m) ∧
  (opCode i = OP_SUB → exec_shift handler i m =
    if decide (in_range (s32 a - s32 b)) then put (rd i) (s32 (a - b)) m
    else raise handler OverflowException 0 m).
Proof.
  intros Ea Eb Ha Hb He. unfold exec_add, exec_shift, mbind, Cpu_bind, get.
  rewrite !Ea. rcbn. rewrite !Eb. rcbn. split_and!; intros ->.
  - rewrite add_overflow by done. case_decide; case_bool_decide; done.
  - assert (negb (negative (Z.lxor a (extra i))) && negative (Z.lxor (extra i) (u32 (s32 (a + extra i)))) =
      negb (bool_decide (in_range (s32 a + s32 (extra i))))) as ->.
    { rewrite (Z.lxor_comm a), Z.add_comm, (Z.add_comm (s32 a)). by apply add_overflow. }
    case_decide; case_bool_decide; done.
  - rewrite sub_overflow by done. case_decide; case_bool_decide; done.
Qed.

(** A machine with two registers set, for the examples. *)
Definition with_regs (a b : Z) : Machine :=
  set_registers (<[8%nat := a]> (<[9%nat := b]> (registers one_page))) one_page.

Lemma overflow_exact_witness :
  exec_add ExceptionHandler (mkInstr OP_ADD 8 9 10 0) (with_regs 2147483647 1) =
  raise ExceptionHandler OverflowException 0 (with_regs 2147483647 1).
Proof.
  destruct (overflow_exact ExceptionHandler (mkInstr OP_ADD 8 9 10 0) (with_regs 2147483647 1) 2147483647 1)
    as (H & _); [reflexivity|reflexivity|by unfold word..|].
  exact (H eq_refl).
Defined.

(** OP_OR ignores its second operand: the result is the first register. *)
Theorem OR_ignores_rt i m a b :
  opCode i = OP_OR → reg (rs i) m = Ok a → reg (rt i) m = Ok b →
  exec_move i m = put (rd i) a m.
Proof.
  intros Eop Ea Eb. unfold exec_move, mbind, Cpu_bind, get. rewrite Ea. rcbn. rewrite Eb. rcbn.
  rewrite Eop. by rewrite Z.lor_diag.
Qed.

Lemma OR_ignores_rt_witness :
  exec_move (mkInstr OP_OR 8 9 10 0) (with_regs 1 2) = put 10 1 (with_regs 1 2).
Proof. apply (OR_ignores_rt (mkInstr OP_OR 8 9 10 0) (with_regs 1 2) 1 2); reflexivity. Defined.

(** The register [r] after an instruction. *)
Definition result_of {A} (c : Cpu A) (r : nat) (m : Machine) : Result Z :=
  '(_, m) ← c m; reg r m.

(** Because registers are unsigned, the signed instructions are not: with
    -1 in register 8 and 1 in register 9, OP_SLT finds -1 not less than 1,
    OP_BGTZ finds -1 positive and branches (to 64 + 4 * 8) and OP_BLEZ does not,
    OP_DIV of -1 by 1 leaves 2^32 - 1 by unsigned division (and of -6 by 2 the
    wrong quotient), OP_SRA shifts zeros in and OP_SRL shifts the sign in. *)
Theorem signed_instructions_unsigned :
  result_of (exec_shift ExceptionHandler (mkInstr OP_SLT 8 9 10 0)) 10 (with_regs 4294967295 1) = Ok 0 ∧
  (r ← exec_branch (mkInstr OP_BGTZ 8 0 0 8) (with_regs 4294967295 1); mret r.1) = Ok (Some 32) ∧
  (r ← exec_branch (mkInstr OP_BLEZ 8 0 0 8) (with_regs 4294967295 1); mret r.1) = Ok (Some 4) ∧
  result_of (exec_div (mkInstr OP_DIV 8 9 0 0)) LoReg (with_regs 4294967290 2) = Ok 2147483645 ∧
  result_of (exec_shift ExceptionHandler (mkInstr OP_SRA 0 8 10 4)) 10 (with_regs 4294967295 1) = Ok 268435455 ∧
  result_of (exec_shift ExceptionHandler (mkInstr OP_SRL 0 8 10 4)) 10 (with_regs 4294967295 1) = Ok 4294967295.
Proof. vm_compute. split_and!; reflexivity. Qed.

(** ** Encoding and decoding *)

Definition encode_R (rs rt rd shamt funct : Z) : Z :=
  rs * 2 ^ 21 + rt * 2 ^ 16 + rd * 2 ^ 11 + shamt * 2 ^ 6 + funct.
Definition encode_I (op rs rt imm : Z) : Z := op * 2 ^ 26 + rs * 2 ^ 21 + rt * 2 ^ 16 + imm.
Definition encode_J (op target : Z) : Z := op * 2 ^ 26 + target.

Lemma field_div value n k : 0 ≤ n → 0 ≤ k → field value n (Z.ones k) = (value `div` 2 ^ n) `mod` 2 ^ k.
Proof. intros ??. unfold field. by rewrite Z.land_ones, Z.shiftr_div_pow2 by done. Qed.

Lemma sign_extend imm :
  0 ≤ imm < 2 ^ 16 →
  (if decide (Z.land imm 32768 = 0) then imm else Z.lor imm 4294901760) = u32 (if decide (imm < 2 ^ 15) then imm else imm - 2 ^ 16).
Proof.
  intros Hi. assert (Z.land imm 32768 = 0 ↔ imm < 2 ^ 15) as Hl.
  { change 32768 with (2 ^ 15). split.
    - intros H. destruct (decide (imm < 2 ^ 15)); [done|exfalso].
      assert (Z.testbit (Z.land imm (2 ^ 15)) 15 = true) as Hb.
      { rewrite Z.land_spec, Z.pow2_bits_true, andb_true_r by done. apply Z.testbit_true; [lia|].
        assert (imm `div` 2 ^ 15 = 1) as -> by (symmetry; apply Z.div_unique with (imm - 2 ^ 15); lia). done. }
      by rewrite H in Hb.
    - intros H. apply Z.bits_inj'. intros j Hj. rewrite Z.land_spec, Z.bits_0.
      destruct (decide (j = 15)) as [->|]; [|by rewrite Z.pow2_bits_false, andb_false_r by done].
      rewrite (Z.bits_above_log2 imm 15); [done|lia|].
      destruct (decide (imm = 0)) as [->|]; [done|]. apply Z.log2_lt_pow2; lia. }
  destruct (decide (Z.land imm 32768 = 0)) as [Hd|Hd]; rewrite Hl in Hd.
  - rewrite decide_True, u32_small by lia. done.
  - rewrite decide_False by done.
    assert (Z.land imm 4294901760 = 0) as E0.
    { change 4294901760 with (Z.shiftl (Z.ones 16) 16). apply Z.bits_inj'. intros j Hj.
      rewrite Z.land_spec, Z.bits_0. destruct (decide (j < 16)).
      - by rewrite Z.shiftl_spec_low, andb_false_r by done.
      - rewrite (Z.bits_above_log2 imm j); [done|lia|]. apply Z.log2_lt_pow2; [lia|].
        apply Z.lt_le_trans with (2 ^ 16); [lia|]. apply Z.pow_le_mono_r; lia. }
    pose proof (Z.add_lor_land imm 4294901760) as E. rewrite E0 in E.
    unfold u32. change (2 ^ 32) with 4294967296. change (2 ^ 16) with 65536. dlia.
Qed.

(** [Decode] reads back the fields of an encoded instruction: the registers
    of each format, the shift amount of R instructions, the sign-extended
    immediate of I instructions and the target of J instructions, with the
    operation the two tables give. *)
Theorem Decode_encode :
  (∀ s t d sh f, 0 ≤ s < 32 → 0 ≤ t < 32 → 0 ≤ d < 32 → 0 ≤ sh < 32 → 0 ≤ f < 64 →
    Decode (encode_R s t d sh f) =
    mkInstr (nth (Z.to_nat f) specialTable OP_RES) (Z.to_nat s) (Z.to_nat t) (Z.to_nat d) sh) ∧
  (∀ op o s t imm, 0 ≤ op < 64 → nth (Z.to_nat op) opTable (OP_RES, IFMT) = (o, IFMT) → o ≠ BCOND →
    0 ≤ s < 32 → 0 ≤ t < 32 → 0 ≤ imm < 2 ^ 16 →
    let i := Decode (encode_I op s t imm) in
    opCode i = o ∧ rs i = Z.to_nat s ∧ rt i = Z.to_nat t ∧
    extra i = u32 (if decide (imm < 2 ^ 15) then imm else imm - 2 ^ 16)) ∧
  (∀ op o target, 0 ≤ op < 64 → nth (Z.to_nat op) opTable (OP_RES, IFMT) = (o, JFMT) →
    0 ≤ target < 2 ^ 26 →
    opCode (Decode (encode_J op target)) = o ∧ extra (Decode (encode_J op target)) = target).
Proof.
  split_and!.
  - intros s t d sh f Hs Ht Hd Hsh Hf. unfold Decode.
    change 31 with (Z.ones 5). change 63 with (Z.ones 6). rewrite !field_div by done.
    rewrite Z.land_ones by done. unfold encode_R.
    change (2 ^ 26) with 67108864. change (2 ^ 21) with 2097152. change (2 ^ 16) with 65536.
    change (2 ^ 11) with 2048. change (2 ^ 6) with 64. change (2 ^ 5) with 32.
    set (v := s * 2097152 + t * 65536 + d * 2048 + sh * 64 + f).
    assert ((v `div` 67108864) `mod` 64 = 0) as -> by (unfold v; dlia).
    assert ((v `div` 2097152) `mod` 32 = s) as -> by (unfold v; dlia).
    assert ((v `div` 65536) `mod` 32 = t) as -> by (unfold v; dlia).
    assert ((v `div` 2048) `mod` 32 = d) as -> by (unfold v; dlia).
    assert ((v `div` 64) `mod` 32 = sh) as Esh by (unfold v; dlia).
    assert (v `mod` 64 = f) as Ef by (unfold v; dlia).
    change (nth (Z.to_nat 0) opTable (OP_RES, IFMT)) with (SPECIAL, RFMT). cbv beta iota zeta.
    rewrite decide_True by done. by rewrite Esh, Ef.
  - intros op o s t imm Hop Ho Hnb Hs Ht Himm. cbv zeta. unfold Decode.
    change 31 with (Z.ones 5). change 63 with (Z.ones 6). rewrite !field_div by done.
    change 65535 with (Z.ones 16). rewrite !Z.land_ones by done. unfold encode_I.
    change (2 ^ 26) with 67108864. change (2 ^ 21) with 2097152. change (2 ^ 16) with 65536 in *.
    change (2 ^ 5) with 32. change (2 ^ 6) with 64. change (2 ^ 11) with 2048.
    set (v := op * 67108864 + s * 2097152 + t * 65536 + imm).
    assert ((v `div` 67108864) `mod` 64 = op) as -> by (unfold v; dlia).
    assert ((v `div` 2097152) `mod` 32 = s) as -> by (unfold v; dlia).
    assert ((v `div` 65536) `mod` 32 = t) as -> by (unfold v; dlia).
    assert (v `mod` 65536 = imm) as -> by (unfold v; dlia).
    rewrite Ho. cbn [opCode rs rt extra].
    assert (o ≠ SPECIAL) as Hns.
    { intros ->. assert (Forall (λ p : opcode * format, p.1 = SPECIAL → p.2 = RFMT) opTable) as Hall
        by (repeat constructor; done).
      destruct (nth_in_or_default (Z.to_nat op) opTable (OP_RES, IFMT)) as [Hin|E]; [|congruence].
      rewrite Ho in Hin. rewrite List.Forall_forall in Hall. by specialize (Hall _ Hin eq_refl). }
    rewrite !decide_False by done. split_and!; [done..|]. by apply (sign_extend imm).
  - intros op o target Hop Ho Ht. unfold Decode.
    change 31 with (Z.ones 5). change 63 with (Z.ones 6). rewrite !field_div by done.
    change 67108863 with (Z.ones 26). rewrite !Z.land_ones by done. unfold encode_J.
    change (2 ^ 26) with 67108864 in *. change (2 ^ 6) with 64.
    assert (((op * 67108864 + target) `div` 67108864) `mod` 64 = op) as -> by dlia.
    rewrite Ho. cbn [opCode extra].
    assert (o = OP_J ∨ o = OP_JAL) as Hj.
    { destruct (nth_in_or_default (Z.to_nat op) opTable (OP_RES, IFMT)) as [Hin|E]; [|congruence].
      rewrite Ho in Hin. assert (forallb (λ p : opcode * format, negb (bool_decide (p.2 = JFMT)) ||
        bool_decide (p.1 = OP_J ∨ p.1 = OP_JAL)) opTable = true) as Hall by reflexivity.
      rewrite forallb_forall in Hall. specialize (Hall _ Hin). cbn in Hall.
      by apply bool_decide_eq_true in Hall. }
    destruct Hj as [-> | ->]; (rewrite !decide_False by done); split; [done|dlia|done|dlia].
Qed.
