(* ===== verification/Interp.v ===== *)
(** * The stand-alone MIPS interpreter, bin/execute.c and bin/system.c

    [runprogram] interprets a MIPS program on a flat memory of its own; it is
    the older simulator of bin/, of which machine/mipssim.cc is the successor.
    Here are its data, the body of its loop cut along its [switch] statements,
    the system calls it passes on to the host, and the set-up of the stack.
    The comparison with [Mips] is in the file [InterpMips].

    An [int] is a [Z] between -2^31 and 2^31 - 1.  The host is the one the
    Makefile of bin/ is for, gcc -m32 on i386: little endian, words may be
    unaligned, arithmetic wraps around, [>>] of an [int] keeps the sign, and a
    shift by a register uses the five low bits of the count. *)

From S2P Require Import Prelude Bytes Word32.

Local Open Scope Z_scope.

(** ** The fields of an instruction, bin/instr.h *)

Definition rd (i : Z) : nat := Z.to_nat (Z.land (Z.shiftr i 11) 31).
Definition rt (i : Z) : nat := Z.to_nat (Z.land (Z.shiftr i 16) 31).
Definition rs (i : Z) : nat := Z.to_nat (Z.land (Z.shiftr i 21) 31).
Definition shamt (i : Z) : Z := Z.land (Z.shiftr i 6) 31.
Definition immed (i : Z) : Z :=
  if decide (Z.land i 32768 = 0) then Z.land i 32767 else Z.lor i (-32768).

(** ** The state *)

(** [Reg], [HI], [LO], the local variables [pc] and [npc] of [runprogram], and
    the bytes of [mem], by their index.  [mem] is a static array, so a byte
    that was never written is 0. *)
Record Interp := mkInterp {
  Reg : list Z;
  HI : Z;
  LO : Z;
  pc : Z;
  npc : Z;
  mem : gmap Z Z;
}.

Definition set_Reg v s := mkInterp v (HI s) (LO s) (pc s) (npc s) (mem s).
Definition set_HI v s := mkInterp (Reg s) v (LO s) (pc s) (npc s) (mem s).
Definition set_LO v s := mkInterp (Reg s) (HI s) v (pc s) (npc s) (mem s).
Definition set_pc v s := mkInterp (Reg s) (HI s) (LO s) v (npc s) (mem s).
Definition set_npc v s := mkInterp (Reg s) (HI s) (LO s) (pc s) v (mem s).
Definition set_mem v s := mkInterp (Reg s) (HI s) (LO s) (pc s) (npc s) v.

(** How the interpreter stops: [exit(status)], or undefined behaviour of the C
    program (an access outside [mem], a division that traps). *)
Inductive halt := Exited (status : Z) | Undefined.

Inductive outcome (A : Type) := Next (a : A) (s : Interp) | Halted (h : halt).
Arguments Next {A} _ _.
Arguments Halted {A} _.

Definition Sim (A : Type) : Type := Interp → outcome A.

#[export] Instance Sim_ret : MRet Sim := λ A a s, Next a s.
#[export] Instance Sim_bind : MBind Sim := λ A B f c s,
  match c s with Next a s => f a s | Halted h => Halted h end.

(** [Reg[r]], and assignments to the registers. *)
Definition get (r : nat) : Sim Z := λ s, Next (Reg s !!! r) s.
Definition put (r : nat) (v : Z) : Sim unit := λ s, Next () (set_Reg (<[r := v]> (Reg s)) s).
Definition put_HI (v : Z) : Sim unit := λ s, Next () (set_HI v s).
Definition put_LO (v : Z) : Sim unit := λ s, Next () (set_LO v s).
Definition jump (v : Z) : Sim unit := λ s, Next () (set_npc v s).
Definition stop {A} (h : halt) : Sim A := λ _, Halted h.

(** [u()]: unimplemented. *)
Definition u {A} : Sim A := stop (Exited 2).

(** ** Memory, bin/int.h *)

Definition MEMSIZE : Z := 16777216.
Definition memoffset : Z := 268435456.

(** The [n] bytes from address [addr] on, [(mem-memoffset)[addr]]. *)
Definition in_mem (addr : Z) (n : nat) : Prop :=
  0 ≤ addr - memoffset ∧ addr - memoffset + Z.of_nat n ≤ MEMSIZE.
#[export] Instance in_mem_dec addr n : Decision (in_mem addr n).
Proof. unfold in_mem. apply _. Defined.

Fixpoint peek (m : gmap Z Z) (p : Z) (n : nat) : list Z :=
  match n with
  | O => []
  | S n => default 0 (m !! p) :: peek m (p + 1) n
  end.
Fixpoint poke (m : gmap Z Z) (p : Z) (bs : list Z) : gmap Z Z :=
  match bs with
  | [] => m
  | b :: bs => poke (<[p := b]> m) (p + 1) bs
  end.

Definition fetch_bytes (addr : Z) (n : nat) : Sim Z := λ s,
  if decide (in_mem addr n) then Next (little_endian_to_Z 8 (peek (mem s) (addr - memoffset) n)) s
  else Halted Undefined.
Definition store_bytes (addr : Z) (bs : list Z) : Sim unit := λ s,
  if decide (in_mem addr (length bs)) then Next () (set_mem (poke (mem s) (addr - memoffset) bs) s)
  else Halted Undefined.

Definition fetch (addr : Z) : Sim Z := v ← fetch_bytes addr 4; mret (s32 v).
Definition sfetch (addr : Z) : Sim Z :=
  v ← fetch_bytes addr 2; mret (if decide (v < 32768) then v else v - 65536).
Definition usfetch (addr : Z) : Sim Z := fetch_bytes addr 2.
Definition cfetch (addr : Z) : Sim Z :=
  v ← fetch_bytes addr 1; mret (if decide (v < 128) then v else v - 256).
Definition ucfetch (addr : Z) : Sim Z := fetch_bytes addr 1.

Definition store (addr i : Z) : Sim unit := store_bytes addr (Z_to_little_endian 4 8 i).
Definition sstore (addr i : Z) : Sim unit := store_bytes addr (Z_to_little_endian 2 8 i).
Definition cstore (addr i : Z) : Sim unit := store_bytes addr (Z_to_little_endian 1 8 i).

(** ** System calls, bin/system.c *)

(** A call to the host, with its arguments; pointers are indices in [mem], but
    for [fstat], which is given the number as it is. *)
Inductive hostcall :=
| h_read (fd buf n : Z) | h_write (fd buf n : Z) | h_open (path flags mode : Z)
| h_lseek (fd offset whence : Z) | h_ioctl (fd request argp : Z) | h_fstat (fd buf : Z)
| h_getpagesize.

Section host.
(** What the host answers and the memory it leaves. *)
Context (host : hostcall → gmap Z Z → Z * gmap Z Z).

Definition call_host (c : hostcall) : Sim Z := λ s,
  let '(r, m) := host c (mem s) in Next (s32 r) (set_mem m s).

Definition u_to_int_addr (ptr : Z) : Z := ptr - memoffset.
Definition u_to_int_fd (fd : Z) : Z := fd.

Definition IOCPARM_MASK : Z := 127.

(** The request of [SYS_ioctl] with the size of a terminal structure mended. *)
Definition ioctl_request (o1 : Z) : Z :=
  let size := Z.land (Z.shiftr o1 16) IOCPARM_MASK in
  let ioctl_group := Z.land (Z.shiftr o1 8) 255 in
  if decide (ioctl_group = 116 ∧ size = 8) then
    Z.lor (Z.land o1 (Z.lnot (Z.shiftl IOCPARM_MASK 16))) (Z.shiftl 6 16)
  else o1.

(** The numbers of the system calls are those the comments of system.c give for
    the names of the host's syscall.h. *)
Definition system_trap : Sim unit :=
  syscallno ← get 2;
  o0 ← get 4;
  o1 ← get 5;
  o2 ← get 6;
  match syscallno with
  | 1 => stop (Exited 0)
  | 3 => r ← call_host (h_read (u_to_int_fd o0) (u_to_int_addr o1) o2); put 1 r
  | 4 => r ← call_host (h_write (u_to_int_fd o0) (u_to_int_addr o1) o2); put 1 r
  | 5 => r ← call_host (h_open (u_to_int_addr o0) o1 o2); put 1 r
  | 6 => put 1 0
  | 17 => put 1 (s32 ((o0 `quot` 8192 + 1) * 8192))
  | 19 => r ← call_host (h_lseek (u_to_int_fd o0) o1 o2); put 1 r
  | 54 =>
      r ← call_host (h_ioctl (u_to_int_fd o0) (ioctl_request o1) (u_to_int_addr o2));
      _ ← put 1 r;
      put 1 0
  | 62 => r ← call_host (h_fstat o1 o2); put 1 r
  | 64 => r ← call_host h_getpagesize; put 1 r
  | _ => stop (Exited 2)
  end.

Definition system_break : Sim unit := system_trap.

(** ** The cases of [runprogram] *)

(** [>>] by a register: the host uses the low five bits of the count. *)
Definition count (c : Z) : Z := Z.land c 31.

(** The cases I_MULT and I_MULTU. *)
Definition high_word (t1 t2 : Z) : Z :=
  let t1l := Z.land t1 65535 in
  let t1h := Z.land (Z.shiftr t1 16) 65535 in
  let t2l := Z.land t2 65535 in
  let t2h := Z.land (Z.shiftr t2 16) 65535 in
  s32 (s32 (s32 (t1h * t2h) + Z.shiftr (s32 (t1h * t2l)) 16) + Z.shiftr (s32 (t2h * t1l)) 16).

Definition mult (t1 t2 : Z) : Sim unit :=
  let '(t1, neg) := if decide (t1 < 0) then (s32 (- t1), true) else (t1, false) in
  let '(t2, neg) := if decide (t2 < 0) then (s32 (- t2), negb neg) else (t2, neg) in
  let lo := s32 (t1 * t2) in
  let hi := high_word t1 t2 in
  if neg : bool then
    let lo := s32 (Z.lnot lo + 1) in
    _ ← put_LO lo;
    put_HI (if decide (lo = 0) then s32 (Z.lnot hi + 1) else Z.lnot hi)
  else _ ← put_LO lo; put_HI hi.

Definition multu (t1 t2 : Z) : Sim unit := _ ← put_LO (s32 (t1 * t2)); put_HI (high_word t1 t2).

(** The case I_DIV: the division of two [int]s traps on 0 and on overflow. *)
Definition div (a b : Z) : Sim unit :=
  if decide (b = 0 ∨ (a = - 2 ^ 31 ∧ b = -1)) then stop Undefined
  else _ ← put_LO (a `quot` b); put_HI (a `rem` b).
Definition divu (a b : Z) : Sim unit :=
  if decide (u32 b = 0) then stop Undefined
  else _ ← put_LO (s32 (u32 a `div` u32 b)); put_HI (s32 (u32 a `mod` u32 b)).

Definition truth (P : Prop) `{Decision P} : Z := if decide P then 1 else 0.

(** The inner [switch] of the case I_SPECIAL; numbers are those of encode.h,
    which are octal there. *)
Definition special (xpc instr : Z) : Sim unit :=
  s ← get (rs instr);
  t ← get (rt instr);
  match Z.land instr 63 with
  | 0 => put (rd instr) (s32 (Z.shiftl t (shamt instr)))
  | 2 => put (rd instr) (s32 (Z.shiftr (u32 t) (shamt instr)))
  | 3 => put (rd instr) (Z.shiftr t (shamt instr))
  | 4 => put (rd instr) (s32 (Z.shiftl t (count s)))
  | 6 => put (rd instr) (s32 (Z.shiftr (u32 t) (count s)))
  | 7 => put (rd instr) (Z.shiftr t (count s))
  | 8 => jump s
  | 9 => _ ← jump s; put (rd instr) (s32 (xpc + 8))
  | 12 => system_trap
  | 13 => system_break
  | 16 => λ st, put (rd instr) (HI st) st
  | 17 => put_HI s
  | 18 => λ st, put (rd instr) (LO st) st
  | 19 => put_LO s
  | 24 => mult s t
  | 25 => multu s t
  | 26 => div s t
  | 27 => divu s t
  | 32 | 33 => put (rd instr) (s32 (s + t))
  | 34 | 35 => put (rd instr) (s32 (s - t))
  | 36 => put (rd instr) (Z.land s t)
  | 37 => put (rd instr) (Z.lor s t)
  | 38 => put (rd instr) (Z.lxor s t)
  | 39 => put (rd instr) (Z.lnot (Z.lor s t))
  | 42 => put (rd instr) (truth (s < t))
  | 43 => put (rd instr) (truth (u32 s < u32 t))
  | _ => u
  end.

(** [if ( c ) npc = xpc + 4 + (immed(instr)<<2);] *)
Definition branch (c : bool) (xpc instr : Z) : Sim unit :=
  if c then jump (s32 (xpc + 4 + Z.shiftl (immed instr) 2)) else mret ().

(** The inner [switch] of the case I_BCOND. *)
Definition bcond (xpc instr : Z) : Sim unit :=
  match rt instr with
  | 0%nat => s ← get (rs instr); branch (bool_decide (s < 0)) xpc instr
  | 1%nat => s ← get (rs instr); branch (bool_decide (0 ≤ s)) xpc instr
  | 16%nat => _ ← put 31 (s32 (xpc + 8)); s ← get (rs instr); branch (bool_decide (s < 0)) xpc instr
  | 17%nat => _ ← put 31 (s32 (xpc + 8)); s ← get (rs instr); branch (bool_decide (0 ≤ s)) xpc instr
  | _ => u
  end.

(** The target of I_J and I_JAL. *)
Definition target (xpc instr : Z) : Z :=
  s32 (Z.lor (Z.land (u32 xpc) 4026531840) (Z.shiftl (Z.land instr 67108863) 2)).

(** The cases I_LB to I_LWR: the new value of [Reg[rt(instr)]]. *)
Definition lwl (t i w : Z) : Z :=
  s32 (Z.lor (Z.land t (Z.shiftr (-1) (8 * Z.land (- i) 3))) (Z.shiftl w (8 * Z.land i 3))).
Definition lwr (t i w : Z) : Z :=
  let t := Z.land t (s32 (Z.shiftl (-1) (8 * Z.land i 3))) in
  let t := if decide (Z.land i 3 = 0) then 0 else t in
  Z.lor t (Z.shiftr w (8 * Z.land (- i) 3)).

(** The outer [switch]. *)
Definition switch (xpc instr : Z) : Sim unit :=
  s ← get (rs instr);
  t ← get (rt instr);
  let i := s32 (s + immed instr) in
  match Z.land (Z.shiftr instr 26) 63 with
  | 0 => special xpc instr
  | 1 => bcond xpc instr
  | 2 => jump (target xpc instr)
  | 3 => _ ← put 31 (s32 (xpc + 8)); jump (target xpc instr)
  | 4 => branch (bool_decide (s = t)) xpc instr
  | 5 => branch (bool_decide (s ≠ t)) xpc instr
  | 6 => branch (bool_decide (s ≤ 0)) xpc instr
  | 7 => branch (bool_decide (s > 0)) xpc instr
  | 8 | 9 => put (rt instr) i
  | 10 => put (rt instr) (truth (s < immed instr))
  | 11 => put (rt instr) (truth (u32 s < u32 (immed instr)))
  | 12 => put (rt instr) (Z.land s (immed instr))
  | 13 => put (rt instr) (Z.lor s (immed instr))
  | 14 => put (rt instr) (Z.lxor s (immed instr))
  | 15 => put (rt instr) (s32 (Z.shiftl instr 16))
  | 16 | 17 | 18 | 19 => stop (Exited 2)
  | 32 => v ← cfetch i; put (rt instr) v
  | 33 => v ← sfetch i; put (rt instr) v
  | 34 => w ← fetch (Z.land i (-4)); put (rt instr) (lwl t i w)
  | 35 => v ← fetch i; put (rt instr) v
  | 36 => v ← ucfetch i; put (rt instr) v
  | 37 => v ← usfetch i; put (rt instr) v
  | 38 => w ← fetch (Z.land i (-4)); put (rt instr) (lwr t i w)
  | 40 => cstore i t
  | 41 => sstore i t
  | 43 => store i t
  | 42 | 46 => u
  | 48 | 49 | 50 | 51 | 56 | 57 | 58 | 59 => stop (Exited 2)
  | _ => u
  end.

(** Once round the loop of [runprogram]. *)
Definition cycle : Sim unit := λ s,
  let xpc := pc s in
  let s := set_pc (npc s) s in
  let s := set_npc (s32 (pc s + 4)) s in
  match fetch xpc s with
  | Next instr s =>
      let s := set_Reg (<[0%nat := 0]> (Reg s)) s in
      if decide (instr = 0) then Next () s else switch xpc instr s
  | Halted h => Halted h
  end.

(** The loop, [n] times round. *)
Fixpoint cycles (n : nat) : Sim unit :=
  match n with
  | O => mret ()
  | S n => _ ← cycle; cycles n
  end.
End host.

(** ** The set-up of [runprogram] *)

(** The initial stack pointer. *)
Definition initial_sp : Z := MEMSIZE - 1024 + memoffset.

(** The loop over [argv]; a string is its bytes, and [strcpy] adds the NUL. *)
Fixpoint copy_args (aci ai : Z) (argv : list (list Z)) : Sim unit :=
  match argv with
  | [] => mret ()
  | arg :: argv =>
      _ ← store_bytes ai (arg ++ [0]);
      _ ← store aci ai;
      copy_args (aci + 4) (ai + Z.of_nat (length arg) + 1) argv
  end.

Definition setup (startpc : Z) (argv : list (list Z)) : Sim unit := λ s,
  let s := set_npc (s32 (startpc + 4)) (set_pc startpc s) in
  let i := initial_sp in
  let s := set_Reg (<[29%nat := i]> (Reg s)) s in
  (_ ← store i (Z.of_nat (length argv));
   copy_args (i + 4) (i + 4 + 32) argv) s.

(** The static variables before [main] runs, with a loaded program. *)
Definition static_state (program : gmap Z Z) : Interp :=
  mkInterp (replicate 32 0) 0 0 0 0 program.

(** ** [ilog2], the position of the highest bit, counted from 1 *)

Definition ilog2_step (mask n : Z) (il : Z * Z) : Z * Z :=
  let '(i, l) := il in
  let j := Z.land i mask in
  if decide (j = 0) then (i, l) else (j, l + n).

Definition ilog2 (i : Z) : Z :=
  if decide (i = 0) then 0
  else
    let il := (u32 i, 1) in
    let il := ilog2_step 4294901760 16 il in
    let il := ilog2_step 4278255360 8 il in
    let il := ilog2_step 4042322160 4 il in
    let il := ilog2_step 3435973836 2 il in
    (ilog2_step 2863311530 1 il).2.

(** ** Memory *)

Lemma length_peek m p n : length (peek m p n) = n.
Proof. revert p. induction n as [|n IH]; intros p; cbn; [done|by rewrite IH]. Qed.

Lemma peek_ext m m' p n :
  (∀ q, p ≤ q < p + Z.of_nat n → m !! q = m' !! q) → peek m p n = peek m' p n.
Proof.
  revert p. induction n as [|n IH]; intros p H; cbn; [done|].
  rewrite (H p) by lia. f_equal. apply IH. intros q Hq. apply H. lia.
Qed.

Lemma poke_lookup_ne m p bs q :
  q < p ∨ p + Z.of_nat (length bs) ≤ q → poke m p bs !! q = m !! q.
Proof.
  revert m p. induction bs as [|b bs IH]; intros m p Hq; cbn in *; [done|].
  rewrite IH by lia. apply lookup_insert_ne. lia.
Qed.

Lemma peek_poke m p bs : peek (poke m p bs) p (length bs) = bs.
Proof.
  revert m p. induction bs as [|b bs IH]; intros m p; cbn; [done|].
  rewrite poke_lookup_ne by lia. rewrite lookup_insert_eq. cbn. by rewrite IH.
Qed.

Lemma peek_poke_ne m p bs q n :
  q + Z.of_nat n ≤ p ∨ p + Z.of_nat (length bs) ≤ q → peek (poke m p bs) q n = peek m q n.
Proof. intros H. apply peek_ext. intros r Hr. apply poke_lookup_ne. lia. Qed.

Lemma store_bytes_Next addr bs s :
  in_mem addr (length bs) →
  store_bytes addr bs s = Next () (set_mem (poke (mem s) (addr - memoffset) bs) s).
Proof. intros H. unfold store_bytes. by rewrite decide_True. Qed.

Lemma length_word_bytes z : length (Z_to_little_endian 4 8 z) = 4%nat.
Proof. exact (length_int_bytes z). Qed.

Lemma store_Next addr v s :
  in_mem addr 4 → store addr v s = Next () (set_mem (poke (mem s) (addr - memoffset) (int_bytes v)) s).
Proof. intros H. apply store_bytes_Next. by rewrite length_word_bytes. Qed.

Lemma fetch_word addr v s :
  in_mem addr 4 → is_int v → peek (mem s) (addr - memoffset) 4 = int_bytes v → fetch addr s = Next v s.
Proof.
  intros H Hv E. unfold fetch, mbind, Sim_bind, fetch_bytes. rewrite decide_True by done.
  rewrite E. unfold int_bytes. rewrite little_endian_to_Z_to_little_endian by lia.
  unfold mret, Sim_ret. f_equal. change (4 * 8) with 32.
  unfold is_int, s32 in *. rewrite <- Zplus_mod_idemp_l, Z.mod_mod, Zplus_mod_idemp_l by lia.
  rewrite Z.mod_small; lia.
Qed.

(** ** The arguments of the program *)

(** The bytes the strings of [argv] take, with their NULs. *)
Fixpoint strings_size (argv : list (list Z)) : Z :=
  match argv with
  | [] => 0
  | arg :: argv => Z.of_nat (length arg) + 1 + strings_size argv
  end.

Lemma strings_size_nonneg argv : 0 ≤ strings_size argv.
Proof. induction argv; cbn; lia. Qed.

(** [argv[j]] points to a copy of [arg]. *)
Definition arg_at (s : Interp) (slot : Z) (arg : list Z) : Prop :=
  ∃ p, fetch slot s = Next p s ∧ in_mem p (length arg + 1) ∧
    peek (mem s) (p - memoffset) (length arg + 1) = arg ++ [0].

Lemma copy_args_spec argv aci ai s :
  memoffset ≤ aci → aci + 4 * Z.of_nat (length argv) ≤ ai → ai + strings_size argv ≤ memoffset + MEMSIZE →
  ∃ m, copy_args aci ai argv s = Next () (set_mem m s) ∧
    (∀ q, q < aci - memoffset ∨ aci - memoffset + 4 * Z.of_nat (length argv) ≤ q < ai - memoffset ∨
          ai - memoffset + strings_size argv ≤ q → m !! q = mem s !! q) ∧
    (∀ j arg, argv !! j = Some arg → arg_at (set_mem m s) (aci + 4 * Z.of_nat j) arg).
Proof.
  revert aci ai s. induction argv as [|arg argv IH]; intros aci ai s H1 H2 H3; cbn [length] in *.
  { exists (mem s). split; [by destruct s|]. split; [done|]. by intros []. }
  cbn [strings_size] in H3. pose proof (strings_size_nonneg argv) as Hn. unfold MEMSIZE, memoffset in H3, H1.
  assert (in_mem ai (length (arg ++ [0]))) as Ha by (rewrite length_app; cbn; unfold in_mem, memoffset, MEMSIZE; lia).
  assert (in_mem aci 4) as Hc by (unfold in_mem, memoffset, MEMSIZE; lia).
  cbn [copy_args]. unfold mbind, Sim_bind. rewrite store_bytes_Next by done. rewrite store_Next by done.
  cbn [mem set_mem]. set (m1 := poke (mem s) _ _). set (m2 := poke m1 _ _).
  change (set_mem m2 (set_mem m1 s)) with (set_mem m2 s).
  destruct (IH (aci + 4) (ai + Z.of_nat (length arg) + 1) (set_mem m2 s)) as (m & -> & Hframe & Hargs);
    [unfold memoffset; lia|lia|unfold memoffset, MEMSIZE; lia|].
  cbn [mem set_mem] in Hframe. exists m. split; [by destruct s|]. split.
  - intros q Hq. rewrite Hframe by (cbn [strings_size] in Hq; lia).
    unfold m2, m1. cbn [strings_size] in Hq. rewrite !poke_lookup_ne; [done|rewrite length_app; cbn; lia|].
    rewrite length_int_bytes. lia.
  - intros [|j] arg' E; cbn in E.
    + injection E as <-. rewrite Z.add_0_r. exists ai. split_and!.
      * apply fetch_word; [done|unfold is_int; lia|]. cbn [mem set_mem]. rewrite (peek_ext m m2).
        { unfold m2. rewrite <- (length_int_bytes ai) at 1. apply peek_poke. }
        intros q Hq. apply Hframe. lia.
      * revert Ha. by rewrite length_app.
      * cbn [mem set_mem]. rewrite (peek_ext m m1).
        { unfold m1. assert ((length arg + 1)%nat = length (arg ++ [0])) as -> by by rewrite length_app. apply peek_poke. }
        intros q Hq. rewrite Hframe by lia. unfold m2. apply poke_lookup_ne. rewrite length_int_bytes. lia.
    + replace (aci + 4 * Z.of_nat (S j)) with (aci + 4 + 4 * Z.of_nat j) by lia.
      exact (Hargs j arg' E).
Qed.

(** C31: [runprogram] hands the arguments over: when there are at most eight
    and their strings take at most 988 bytes, the stack pointer is at [argc],
    the words above it point to NUL-terminated copies of the arguments in their
    order, and nothing below the stack pointer (the program) has changed. *)
Theorem setup_arguments startpc argv program :
  is_int startpc → (length argv ≤ 8)%nat → strings_size argv ≤ 988 →
  ∃ s, setup startpc argv (static_state program) = Next () s ∧
    pc s = startpc ∧ npc s = s32 (startpc + 4) ∧
    Reg s !!! 29%nat = initial_sp ∧
    fetch initial_sp s = Next (Z.of_nat (length argv)) s ∧
    (∀ j arg, argv !! j = Some arg → arg_at s (initial_sp + 4 + 4 * Z.of_nat j) arg) ∧
    (∀ q, q < initial_sp - memoffset → mem s !! q = program !! q).
Proof.
  intros Hp Hl Hs. unfold setup. set (s0 := set_Reg _ _).
  assert (in_mem initial_sp 4) as Hsp by (unfold in_mem, initial_sp, memoffset, MEMSIZE; lia).
  unfold mbind, Sim_bind. rewrite store_Next by done. set (m1 := poke _ _ _).
  destruct (copy_args_spec argv (initial_sp + 4) (initial_sp + 4 + 32) (set_mem m1 s0)) as (m & -> & Hframe & Hargs);
    [unfold initial_sp, memoffset, MEMSIZE; lia|lia|unfold initial_sp, memoffset, MEMSIZE; lia|].
  cbn [mem set_mem] in Hframe. eexists. split; [done|]. split_and!; [done..| | |].
  - apply fetch_word; [done|unfold is_int; lia|]. cbn [mem set_mem]. rewrite (peek_ext m m1).
    + unfold m1. rewrite <- (length_int_bytes (Z.of_nat (length argv))) at 1. apply peek_poke.
    + intros q Hq. apply Hframe. lia.
  - exact Hargs.
  - intros q Hq. cbn [mem set_mem]. rewrite Hframe by lia. unfold m1. apply poke_lookup_ne. lia.
Qed.

(** Two arguments, ["ab"] and ["c"]. *)
Lemma setup_arguments_witness :
  ∃ s, setup memoffset [[97; 98]; [99]] (static_state ∅) = Next () s ∧
    fetch initial_sp s = Next 2 s ∧ arg_at s (initial_sp + 8) [99].
Proof.
  destruct (setup_arguments memoffset [[97; 98]; [99]] ∅) as (s & E & _ & _ & _ & Hc & Ha & _);
    [by unfold is_int, memoffset|cbn; lia|cbn; lia|].
  exact (ex_intro _ s (conj E (conj Hc (Ha 1%nat [99] eq_refl)))).
Defined.

(** Only 32 bytes are left for [argv]: the ninth pointer overwrites the first
    string, ["ab"], although everything fits in the 1024 bytes. *)
Example nine_arguments_overlap :
  match setup memoffset ([97; 98] :: replicate 8 [99]) (static_state ∅) with
  | Next _ s => bool_decide (peek (mem s) (initial_sp + 36 - memoffset) 3 = [97; 98; 0])
  | Halted _ => true
  end = false.
Proof. vm_compute. reflexivity. Qed.

(** ** [ilog2] is the binary logarithm *)

(** The positions of the set bits of [i] agree with that of its highest one
    from bit [k] on. *)
Definition clustered (k i : Z) : Prop :=
  ∀ q, 0 ≤ q → Z.testbit i q = true → Z.shiftr q k = Z.shiftr (Z.log2 i) k.

(** [mask] has the bits whose position has bit [k] set. *)
Definition selects (mask k : Z) : Prop := ∀ q, 0 ≤ q < 32 → Z.testbit mask q = Z.testbit q k.

Lemma selects_check mask k :
  forallb (λ q, Bool.eqb (Z.testbit mask (Z.of_nat q)) (Z.testbit (Z.of_nat q) k)) (seq 0 32) = true →
  selects mask k.
Proof.
  intros H q Hq. rewrite forallb_forall in H. specialize (H (Z.to_nat q)).
  rewrite Z2Nat.id in H by lia. apply Bool.eqb_prop, H, in_seq. lia.
Qed.

Lemma shiftr_succ q k : 0 ≤ k → Z.shiftr q k = 2 * Z.shiftr q (k + 1) + Z.b2z (Z.testbit q k).
Proof.
  intros Hk. rewrite <- (Z.shiftr_shiftr q k 1) by lia. rewrite Z.shiftr_div_pow2 with (n := 1) by lia.
  change (2 ^ 1) with 2. rewrite (Z.testbit_spec' q k Hk), <- Z.shiftr_div_pow2 by lia.
  apply Z.div_mod. lia.
Qed.

(** No set bit is above the highest, so with bit [k] of its position clear, the
    positions of the others have it clear too. *)
Lemma clustered_clear k i q :
  0 ≤ k → 0 < i → clustered (k + 1) i → Z.testbit (Z.log2 i) k = false →
  0 ≤ q → Z.testbit i q = true → Z.testbit q k = false.
Proof.
  intros Hk Hi Hc Eb Hq Hb. destruct (Z.testbit q k) eqn:Hb2; [exfalso|done].
  assert (Z.shiftr (Z.log2 i) k < Z.shiftr q k) as Hlt.
  { rewrite (shiftr_succ q), (shiftr_succ (Z.log2 i)), Eb, Hb2, (Hc q) by done. cbn [Z.b2z]. lia. }
  assert (q ≤ Z.log2 i) as Hle.
  { destruct (decide (q ≤ Z.log2 i)); [done|]. rewrite Z.bits_above_log2 in Hb; [done|lia|lia]. }
  rewrite !Z.shiftr_div_pow2 in Hlt by lia.
  pose proof (Z.div_le_mono q (Z.log2 i) (2 ^ k) ltac:(lia) Hle). lia.
Qed.

Lemma testbit_below i q : 0 ≤ i < 2 ^ 32 → 0 ≤ q → Z.testbit i q = true → 0 ≤ q < 32.
Proof.
  intros Hi Hq Hb. split; [done|]. destruct (decide (q < 32)); [done|].
  rewrite Z.bits_above_log2 in Hb; [done|lia|]. destruct (decide (i = 0)) as [->|]; [cbn; lia|].
  assert (Z.log2 i < 32) by (apply Z.log2_lt_pow2; lia). lia.
Qed.

(** Masking keeps the highest bit when the mask has it. *)
Lemma log2_land i mask :
  0 < i → Z.testbit mask (Z.log2 i) = true → 0 < Z.land i mask ≤ i ∧ Z.log2 (Z.land i mask) = Z.log2 i.
Proof.
  intros Hi Hm. assert (Z.testbit (Z.land i mask) (Z.log2 i) = true) as Ht.
  { by rewrite Z.land_spec, Z.bit_log2, Hm by lia. }
  assert (Z.land i mask ≠ 0) as Hne by (intros E; by rewrite E, Z.bits_0 in Ht).
  assert (0 ≤ Z.land i mask ≤ i) as Hle.
  { split; [apply Z.land_nonneg; lia|]. apply Z.ldiff_le; [lia|]. apply Z.bits_inj'. intros q Hq.
    rewrite Z.ldiff_spec, Z.land_spec, Z.bits_0. by destruct (Z.testbit i q), (Z.testbit mask q). }
  split; [lia|]. apply Z.le_antisymm; [apply Z.log2_le_mono; lia|].
  destruct (decide (Z.log2 i ≤ Z.log2 (Z.land i mask))); [done|].
  rewrite Z.bits_above_log2 in Ht; [done|lia|lia].
Qed.

(** One test of [ilog2] settles bit [k] of the logarithm. *)
Lemma ilog2_step_spec mask k i l :
  0 ≤ k → selects mask k → 0 < i < 2 ^ 32 → clustered (k + 1) i →
  ∃ i', ilog2_step mask (2 ^ k) (i, l) = (i', l + Z.b2z (Z.testbit (Z.log2 i) k) * 2 ^ k) ∧
  0 < i' < 2 ^ 32 ∧ clustered k i' ∧ Z.log2 i' = Z.log2 i.
Proof.
  intros Hk Hm Hi Hc. unfold ilog2_step. pose proof (Z.log2_nonneg i) as Hn.
  assert (Z.log2 i < 32) as Hl by (apply Z.log2_lt_pow2; lia).
  destruct (Z.testbit (Z.log2 i) k) eqn:Eb.
  - destruct (log2_land i mask) as [Hle El]; [lia|by rewrite Hm by lia|].
    rewrite decide_False by lia. eexists. split; [cbn [Z.b2z]; by rewrite Z.mul_1_l|].
    split_and!; [lia|lia| |done]. intros q Hq Hb. rewrite El.
    rewrite Z.land_spec, andb_true_iff in Hb. destruct Hb as [Hb1 Hb2].
    rewrite Hm in Hb2 by (eapply testbit_below, Hb1; lia).
    by rewrite (shiftr_succ q), (shiftr_succ (Z.log2 i)), Eb, Hb2, (Hc q) by done.
  - assert (∀ q, 0 ≤ q → Z.testbit i q = true → Z.testbit q k = false) as Hq0.
    { intros q. by apply clustered_clear; [lia|lia|..]. }
    assert (Z.land i mask = 0) as ->.
    { apply Z.bits_inj'. intros q Hq. rewrite Z.land_spec, Z.bits_0. destruct (Z.testbit i q) eqn:Hb; [|done].
      cbn. rewrite Hm by (eapply testbit_below, Hb; lia). auto. }
    rewrite decide_True by done. eexists. split; [cbn [Z.b2z]; by rewrite Z.mul_0_l, Z.add_0_r|].
    split_and!; [lia|lia| |done]. intros q Hq Hb.
    by rewrite (shiftr_succ q), (shiftr_succ (Z.log2 i)), Eb, (Hc q), Hq0 by done.
Qed.

(** A number below 32 from its bits. *)
Lemma bits_of_position p :
  0 ≤ p < 32 →
  Z.b2z (Z.testbit p 4) * 16 + Z.b2z (Z.testbit p 3) * 8 + Z.b2z (Z.testbit p 2) * 4 +
  Z.b2z (Z.testbit p 1) * 2 + Z.b2z (Z.testbit p 0) = p.
Proof.
  intros Hp. pose proof (shiftr_succ p 0 ltac:(lia)) as H0. pose proof (shiftr_succ p 1 ltac:(lia)) as H1.
  pose proof (shiftr_succ p 2 ltac:(lia)) as H2. pose proof (shiftr_succ p 3 ltac:(lia)) as H3.
  pose proof (shiftr_succ p 4 ltac:(lia)) as H4. rewrite Z.shiftr_0_r in H0.
  assert (Z.shiftr p (4 + 1) = 0) as H5 by (rewrite Z.shiftr_div_pow2 by lia; by apply Z.div_small).
  change (0 + 1) with 1 in H0. change (1 + 1) with 2 in H1. change (2 + 1) with 3 in H2.
  change (3 + 1) with 4 in H3. rewrite H5 in H4. rewrite H4 in H3. rewrite H3 in H2. rewrite H2 in H1.
  rewrite H1 in H0. clear -H0.
  destruct (Z.testbit p 0), (Z.testbit p 1), (Z.testbit p 2), (Z.testbit p 3), (Z.testbit p 4); cbn [Z.b2z] in *; lia.
Qed.

(** The five masked tests of [ilog2] find the highest set bit: of a word
    other than 0, taken as unsigned, the result is one more than the
    logarithm. *)
Theorem ilog2_spec i : is_int i → ilog2 i = if decide (i = 0) then 0 else Z.log2 (u32 i) + 1.
Proof.
  intros Hi. unfold ilog2. case_decide as H0; [done|]. cbv zeta.
  assert (0 < u32 i < 2 ^ 32) as Hu.
  { unfold is_int in Hi. unfold u32. change (2 ^ 32) with 4294967296. change (2 ^ 31) with 2147483648 in Hi. dlia. }
  assert (clustered 5 (u32 i)) as Hc.
  { intros q Hq Hb. apply testbit_below in Hb; [|lia|done].
    assert (Z.log2 (u32 i) < 32) by (apply Z.log2_lt_pow2; lia). pose proof (Z.log2_nonneg (u32 i)).
    rewrite !Z.shiftr_div_pow2, !Z.div_small by (change (2 ^ 5) with 32; lia). done. }
  destruct (ilog2_step_spec 4294901760 4 (u32 i) 1) as (i1 & E1 & H1 & C1 & L1); [lia|by apply selects_check|done..|].
  edestruct (ilog2_step_spec 4278255360 3 i1) as (i2 & E2 & H2 & C2 & L2); [lia|by apply selects_check|done..|].
  edestruct (ilog2_step_spec 4042322160 2 i2) as (i3 & E3 & H3 & C3 & L3); [lia|by apply selects_check|done..|].
  edestruct (ilog2_step_spec 3435973836 1 i3) as (i4 & E4 & H4 & C4 & L4); [lia|by apply selects_check|done..|].
  edestruct (ilog2_step_spec 2863311530 0 i4) as (i5 & E5 & _); [lia|by apply selects_check|done..|].
  change (2 ^ 4) with 16 in E1. change (2 ^ 3) with 8 in E2. change (2 ^ 2) with 4 in E3.
  change (2 ^ 1) with 2 in E4. change (2 ^ 0) with 1 in E5.
  rewrite E1, E2, E3, E4, E5. cbn [snd]. rewrite L4, L3, L2, L1.
  pose proof (bits_of_position (Z.log2 (u32 i))
    (conj (Z.log2_nonneg _) (proj1 (Z.log2_lt_pow2 (u32 i) 32 (proj1 Hu)) (proj2 Hu)))). lia.
Qed.

Lemma ilog2_spec_witness : ilog2 (-5) = 32 ∧ ilog2 4 = 3.
Proof. split; [exact (ilog2_spec (-5) ltac:(by unfold is_int))|exact (ilog2_spec 4 ltac:(by unfold is_int))]. Defined.

(** ** Every cycle keeps the state well typed *)

Record interp_ok (s : Interp) : Prop := {
  ok_Reg : length (Reg s) = 32%nat;
  ok_ints : Forall is_int (Reg s);
  ok_HI : is_int (HI s);
  ok_LO : is_int (LO s);
  ok_pc : is_int (pc s);
  ok_npc : is_int (npc s);
  ok_mem : map_Forall (λ _, is_byte) (mem s);
}.

Lemma rd_bound i : (rd i < 32)%nat.
Proof. unfold rd. change 31 with (Z.ones 5). rewrite Z.land_ones by lia. dlia. Qed.
Lemma rt_bound i : (rt i < 32)%nat.
Proof. unfold rt. change 31 with (Z.ones 5). rewrite Z.land_ones by lia. dlia. Qed.
Lemma rs_bound i : (rs i < 32)%nat.
Proof. unfold rs. change 31 with (Z.ones 5). rewrite Z.land_ones by lia. dlia. Qed.
Lemma land_31_bound z : 0 ≤ Z.land z 31 < 32.
Proof. change 31 with (Z.ones 5). rewrite Z.land_ones by lia. apply Z.mod_pos_bound. lia. Qed.
Lemma land_3_bound z : 0 ≤ Z.land z 3 < 4.
Proof. change 3 with (Z.ones 2). rewrite Z.land_ones by lia. apply Z.mod_pos_bound. lia. Qed.

(** The immediate as a number. *)
Lemma land_32768 i : Z.land i 32768 = 0 ↔ Z.testbit i 15 = false.
Proof.
  split.
  - intros H. assert (Z.testbit (Z.land i 32768) 15 = false) as E by (by rewrite H).
    by rewrite Z.land_spec, andb_true_r in E.
  - intros H. apply Z.bits_inj'. intros q Hq. rewrite Z.land_spec, Z.bits_0. change 32768 with (2 ^ 15).
    destruct (decide (q = 15)) as [->|]; [by rewrite H|]. by rewrite Z.pow2_bits_false, andb_false_r by done.
Qed.

Lemma immed_spec i :
  immed i = if decide (i `mod` 65536 < 32768) then i `mod` 65536 else i `mod` 65536 - 65536.
Proof.
  unfold immed. pose proof (land_32768 i) as Hl.
  assert (Z.testbit i 15 = false ↔ i `mod` 65536 < 32768) as Hb.
  { rewrite Z.testbit_false by lia. change (2 ^ 15) with 32768. dlia. }
  destruct (decide (Z.land i 32768 = 0)) as [Hd|Hd].
  - rewrite decide_True by tauto. change 32767 with (Z.ones 15). rewrite Z.land_ones by lia.
    change (2 ^ 15) with 32768. assert (i `mod` 65536 < 32768) by tauto. dlia.
  - rewrite decide_False by tauto. assert (¬ i `mod` 65536 < 32768) by tauto.
    pose proof (Z.add_lor_land i (-32768)) as E.
    assert (Z.land i (-32768) = i - i `mod` 32768) as E'.
    { pose proof (Z.ldiff_ones_r i 15 ltac:(lia)) as El. rewrite Z.shiftl_mul_pow2, Z.shiftr_div_pow2 in El by lia.
      change (Z.land i (-32768)) with (Z.ldiff i (Z.ones 15)). rewrite El. change (2 ^ 15) with 32768. dlia. }
    rewrite E' in E. dlia.
Qed.

Lemma immed_range i : -32768 ≤ immed i < 32768.
Proof. rewrite immed_spec. case_decide; dlia. Qed.

Section typing.
Context (host : hostcall → gmap Z Z → Z * gmap Z Z).
Hypothesis host_ok : ∀ c m, map_Forall (λ _, is_byte) m → map_Forall (λ _, is_byte) (host c m).2.

(** [c] keeps the state well typed, and its result satisfies [Q]. *)
Definition keeps {A} (c : Sim A) (Q : A → Prop) : Prop :=
  ∀ s, interp_ok s → match c s with Next a s' => interp_ok s' ∧ Q a | Halted _ => True end.

Lemma keeps_ret {A} (a : A) (Q : A → Prop) : Q a → keeps (mret a) Q.
Proof. by intros HQ s Hs. Qed.

Lemma keeps_bind {A B} (c : Sim A) (f : A → Sim B) P Q :
  keeps c P → (∀ a, P a → keeps (f a) Q) → keeps (c ≫= f) Q.
Proof.
  intros Hc Hf s Hs. specialize (Hc s Hs). unfold mbind, Sim_bind.
  destruct (c s) as [a s'|h]; [|done]. destruct Hc as [Hs' HP]. by apply Hf.
Qed.

Lemma keeps_get r : keeps (get r) is_int.
Proof.
  intros s Hs. split; [done|]. destruct (decide (r < length (Reg s))%nat) as [Hr|Hr].
  - destruct (lookup_lt_is_Some_2 _ _ Hr) as [v Hv]. rewrite (list_lookup_total_correct _ _ _ Hv).
    exact (Forall_lookup_1 _ _ _ _ (ok_ints s Hs) Hv).
  - rewrite list_lookup_total_alt, lookup_ge_None_2 by lia. by unfold is_int.
Qed.

Lemma keeps_put r v : is_int v → keeps (put r v) (λ _, True).
Proof.
  intros Hv s [? ? ? ? ? ? ?]. split; [|done]. split; cbn; try done.
  - by rewrite length_insert.
  - by apply Forall_insert.
Qed.

Lemma keeps_put_HI v : is_int v → keeps (put_HI v) (λ _, True).
Proof. intros Hv s []. by split. Qed.
Lemma keeps_put_LO v : is_int v → keeps (put_LO v) (λ _, True).
Proof. intros Hv s []. by split. Qed.
Lemma keeps_jump v : is_int v → keeps (jump v) (λ _, True).
Proof. intros Hv s []. by split. Qed.
Lemma keeps_stop {A} h (Q : A → Prop) : keeps (stop h) Q.
Proof. done. Qed.

Lemma keeps_call_host c : keeps (call_host host c) is_int.
Proof using host_ok.
  intros s []. unfold call_host. pose proof (host_ok c (mem s)) as Hh. destruct (host c (mem s)) as [r m].
  split; [|apply s32_int]. by split; try (by apply Hh).
Qed.

Lemma peek_bytes m p n : map_Forall (λ _, is_byte) m → Forall is_byte (peek m p n).
Proof.
  intros Hm. revert p. induction n as [|n IH]; intros p; cbn; constructor; [|done].
  destruct (m !! p) as [b|] eqn:E; cbn; [exact (Hm p b E)|by unfold is_byte].
Qed.

Lemma poke_bytes m p bs : map_Forall (λ _, is_byte) m → Forall is_byte bs → map_Forall (λ _, is_byte) (poke m p bs).
Proof.
  intros Hm Hb. revert m p Hm. induction Hb as [|b bs Hb _ IH]; intros m p Hm; cbn; [done|].
  apply IH. by apply map_Forall_insert_2.
Qed.

Lemma keeps_fetch_bytes addr n : keeps (fetch_bytes addr n) (λ v, 0 ≤ v < 2 ^ (8 * Z.of_nat n)).
Proof.
  intros s Hs. unfold fetch_bytes. case_decide; [|done]. split; [done|].
  pose proof (little_endian_to_Z_bound 8 (peek (mem s) (addr - memoffset) n) ltac:(lia)) as H1.
  rewrite length_peek in H1. rewrite Z.mul_comm. apply H1.
  eapply Forall_impl; [apply peek_bytes, (ok_mem s Hs)|]. done.
Qed.

Lemma keeps_store_bytes addr bs : Forall is_byte bs → keeps (store_bytes addr bs) (λ _, True).
Proof.
  intros Hb s []. unfold store_bytes. case_decide; [|done]. split; [|done]. split; cbn; try done. by apply poke_bytes.
Qed.

(** Follow the monadic code of a case, one operation at a time. *)
Ltac keeps_step :=
  first [ apply keeps_stop | apply keeps_put | apply keeps_put_HI | apply keeps_put_LO | apply keeps_jump
        | apply keeps_store_bytes | by apply keeps_ret
        | (eapply keeps_bind;
           [first [apply keeps_get|apply keeps_call_host|apply keeps_fetch_bytes|apply keeps_put|apply keeps_put_HI
                  |apply keeps_put_LO|apply keeps_jump]|intros ? ?]) ].

Lemma truth_int P `{Decision P} : is_int (truth P).
Proof. unfold truth. by case_decide; unfold is_int. Qed.
Lemma immed_int i : is_int (immed i).
Proof. pose proof (immed_range i). unfold is_int. lia. Qed.
#[local] Hint Resolve truth_int immed_int : ints.
#[local] Hint Extern 1 (0 ≤ Z.land _ 31) => apply land_31_bound : ints.

Lemma keeps_system_trap : keeps (system_trap host) (λ _, True).
Proof using host_ok.
  unfold system_trap. do 4 keeps_step. repeat case_match; repeat keeps_step; auto with ints; by unfold is_int.
Qed.

Lemma high_word_int t1 t2 : is_int (high_word t1 t2).
Proof. apply s32_int. Qed.

Lemma keeps_mult t1 t2 : keeps (mult t1 t2) (λ _, True).
Proof.
  unfold mult. destruct (if decide (t1 < 0) then _ else _) as [t1' neg].
  destruct (if decide (t2 < 0) then _ else _) as [t2' neg'].
  pose proof (high_word_int t1' t2'). destruct neg'; repeat keeps_step; [auto with ints..|case_decide; auto with ints|auto with ints|done].
Qed.

Lemma quot_int a b : is_int a → is_int b → ¬ (b = 0 ∨ (a = - 2 ^ 31 ∧ b = -1)) → is_int (a `quot` b) ∧ is_int (a `rem` b).
Proof.
  unfold is_int. intros Ha Hb Hn.
  pose proof (Z.quot_rem' a b) as E. pose proof (Z.rem_bound_abs a b ltac:(tauto)) as Hr.
  assert (Z.abs (a `quot` b) ≤ Z.abs a) as Hq.
  { rewrite <- Z.quot_abs by tauto. apply Z.quot_le_upper_bound; [lia|]. nia. }
  assert (a `quot` b = 2 ^ 31 → False) as Hmin.
  { intros Eq. assert (a = - 2 ^ 31) by lia. subst a. apply Hn. right. split; [done|].
    pose proof (Z.rem_sign_mul (- 2 ^ 31) b ltac:(tauto)). nia. }
  lia.
Qed.

Lemma keeps_div a b : is_int a → is_int b → keeps (div a b) (λ _, True).
Proof.
  intros Ha Hb. unfold div. case_decide as Hd; [apply keeps_stop|].
  destruct (quot_int a b Ha Hb Hd). by repeat keeps_step.
Qed.

Lemma keeps_divu a b : keeps (divu a b) (λ _, True).
Proof. unfold divu. case_decide; repeat keeps_step; auto with ints. Qed.

Lemma keeps_special xpc instr : keeps (special host xpc instr) (λ _, True).
Proof using host_ok.
  unfold special. do 2 keeps_step.
  assert (0 ≤ shamt instr) by apply land_31_bound. assert (0 ≤ count a) by apply land_31_bound.
  repeat case_match; try apply keeps_system_trap; try apply keeps_mult; try apply keeps_divu;
    try (by apply keeps_div); try (by intros s Hs; apply keeps_put; [apply Hs|]);
    unfold multu; repeat keeps_step; auto using high_word_int with ints.
Qed.

Lemma keeps_branch c xpc instr : keeps (branch c xpc instr) (λ _, True).
Proof. unfold branch. destruct c; repeat keeps_step. auto with ints. Qed.

Lemma keeps_bcond xpc instr : keeps (bcond xpc instr) (λ _, True).
Proof. unfold bcond. repeat case_match; repeat keeps_step; try apply keeps_branch; auto with ints. Qed.

Lemma lwl_int t i w : is_int (lwl t i w).
Proof. apply s32_int. Qed.
Lemma lwr_int t i w : is_int t → is_int w → is_int (lwr t i w).
Proof.
  intros Ht Hw. unfold lwr. pose proof (land_3_bound (- i)).
  apply lor_int; [case_decide; [by unfold is_int|auto with ints]|apply shiftr_int; [lia|done]].
Qed.

Lemma keeps_fetch addr : keeps (fetch addr) is_int.
Proof. unfold fetch. keeps_step. apply keeps_ret, s32_int. Qed.
Lemma keeps_sfetch addr : keeps (sfetch addr) is_int.
Proof. unfold sfetch. keeps_step. apply keeps_ret. cbn in *. unfold is_int. case_decide; lia. Qed.
Lemma keeps_cfetch addr : keeps (cfetch addr) is_int.
Proof. unfold cfetch. keeps_step. apply keeps_ret. cbn in *. unfold is_int. case_decide; lia. Qed.
Lemma keeps_ufetch addr n : (n ≤ 2)%nat → keeps (fetch_bytes addr n) is_int.
Proof.
  intros Hn s Hs. pose proof (keeps_fetch_bytes addr n s Hs) as H. destruct (fetch_bytes addr n s); [|done].
  destruct H as [H1 H2]. split; [done|]. unfold is_int. assert (2 ^ (8 * Z.of_nat n) ≤ 2 ^ 16) by (apply Z.pow_le_mono_r; lia). lia.
Qed.
Lemma little_endian_bytes n v : 0 ≤ n → Forall is_byte (Z_to_little_endian n 8 v).
Proof. intros Hn. eapply Forall_impl; [apply (Z_to_little_endian_bound n 8); lia|]. done. Qed.

Lemma target_int xpc instr : is_int (target xpc instr).
Proof. apply s32_int. Qed.

Lemma keeps_switch xpc instr : keeps (switch host xpc instr) (λ _, True).
Proof using host_ok.
  unfold switch, u, usfetch, ucfetch. do 2 keeps_step. cbv zeta.
  repeat case_match; lazymatch goal with
    | |- keeps (special _ _ _) _ => apply keeps_special
    | |- keeps (bcond _ _) _ => apply keeps_bcond
    | |- keeps (branch _ _ _) _ => apply keeps_branch
    | |- keeps (mbind _ (fetch _)) _ => eapply keeps_bind; [apply keeps_fetch|intros ? ?]; apply keeps_put
    | |- keeps (mbind _ (sfetch _)) _ => eapply keeps_bind; [apply keeps_sfetch|intros ? ?]; apply keeps_put
    | |- keeps (mbind _ (cfetch _)) _ => eapply keeps_bind; [apply keeps_cfetch|intros ? ?]; apply keeps_put
    | |- keeps (mbind _ (fetch_bytes _ _)) _ =>
        eapply keeps_bind; [apply keeps_ufetch; lia|intros ? ?]; apply keeps_put
    | |- keeps (store _ _) _ => apply keeps_store_bytes, little_endian_bytes; lia
    | |- keeps (sstore _ _) _ => apply keeps_store_bytes, little_endian_bytes; lia
    | |- keeps (cstore _ _) _ => apply keeps_store_bytes, little_endian_bytes; lia
    | _ => repeat keeps_step
    end; auto using lwl_int, lwr_int, target_int with ints.
Qed.

(** Once round the loop the registers, [HI], [LO] and the program counters are
    still [int]s, and memory still holds bytes. *)
Lemma keeps_cycle : keeps (cycle host) (λ _, True).
Proof using host_ok.
  intros s Hs. unfold cycle. set (s1 := set_npc _ _).
  assert (interp_ok s1) as H1 by (destruct Hs; split; cbn; try done; apply s32_int).
  pose proof (keeps_fetch (pc s) s1 H1) as Hf. destruct (fetch (pc s) s1) as [instr s2|]; [|done].
  destruct Hf as [H2 _]. destruct (keeps_put 0 0 ltac:(by unfold is_int) s2 H2) as [H3 _].
  case_decide; [done|]. by apply keeps_switch.
Qed.
End typing.
