(* ===== verification/InterpMips.v ===== *)
(** * The two MIPS simulators agree

    bin/execute.c ([Interp]) and machine/mipssim.cc ([Mips]) interpret the same
    instruction set.  This file relates their states and shows, instruction by
    instruction, under which conditions on the operands they compute the same
    ([simulators_agree]), by a lock-step simulation. *)

From S2P Require Import Prelude Bytes Word32 NachList Kernel Machine Mips Interp.

Local Open Scope Z_scope.

(** ** Decoding *)

Definition extra_of (fmt : format) (instr : Z) : Z :=
  match fmt with
  | IFMT => u32 (immed instr)
  | RFMT => shamt instr
  | JFMT => Z.land instr 67108863
  end.

Lemma field_u32 value n k : 0 ≤ n → 0 ≤ k → n + k ≤ 32 →
  field (u32 value) n (Z.ones k) = Z.land (Z.shiftr value n) (Z.ones k).
Proof. intros. unfold field. apply field_same_word; [done..|]. apply u32_same. Qed.

Lemma land_u32 value k : 0 ≤ k ≤ 32 → Z.land (u32 value) (Z.ones k) = Z.land value (Z.ones k).
Proof.
  intros Hk. pose proof (field_same_word (u32 value) value 0 k) as H. rewrite !Z.shiftr_0_r in H.
  apply H; [lia..|]. apply u32_same.
Qed.

Lemma immediate_extra instr :
  (if decide (Z.land (Z.land (u32 instr) 65535) 32768 = 0) then Z.land (u32 instr) 65535
   else Z.lor (Z.land (u32 instr) 65535) 4294901760) = u32 (immed instr).
Proof.
  change 65535 with (Z.ones 16). rewrite land_u32 by lia. rewrite Z.land_ones by lia.
  rewrite sign_extend by (apply Z.mod_pos_bound; lia). by rewrite immed_spec.
Qed.

(** [Decode] of the word that the interpreter sees as the [int] [instr]. *)
Lemma Decode_instr instr op fmt :
  nth (Z.to_nat (Z.land (Z.shiftr instr 26) 63)) opTable (OP_RES, IFMT) = (op, fmt) →
  op ≠ BCOND →
  Decode (u32 instr) =
    mkInstr (if decide (op = SPECIAL) then nth (Z.to_nat (Z.land instr 63)) specialTable OP_RES else op)
      (rs instr) (rt instr) (rd instr) (extra_of fmt instr).
Proof.
  intros Et Hb. unfold Decode. change 31 with (Z.ones 5). change 63 with (Z.ones 6) in *.
  rewrite !field_u32 by lia. rewrite Et, (decide_False (P := op = BCOND)) by done.
  change 67108863 with (Z.ones 26). rewrite !land_u32 by lia.
  destruct fmt; cbv zeta; [by rewrite immediate_extra|done..].
Qed.

Lemma Decode_bcond instr :
  Z.land (Z.shiftr instr 26) 63 = 1 →
  Decode (u32 instr) =
    mkInstr (match rt instr with 0%nat => OP_BLTZ | 1%nat => OP_BGEZ | 16%nat => OP_BLTZAL | 17%nat => OP_BGEZAL
             | _ => OP_UNIMP end)
      (rs instr) (rt instr) (rd instr) (u32 (immed instr)).
Proof.
  intros Et. unfold Decode. change 31 with (Z.ones 5). change 63 with (Z.ones 6) in *.
  rewrite !field_u32 by lia. rewrite Et. change (nth (Z.to_nat 1) opTable (OP_RES, IFMT)) with (BCOND, IFMT).
  cbv iota zeta beta. rewrite (decide_False (P := BCOND = SPECIAL)), (decide_True (P := BCOND = BCOND)) by done.
  rewrite immediate_extra.
  assert (Z.land (u32 instr) 2031616 = Z.shiftl (Z.of_nat (rt instr)) 16) as ->.
  { change 2031616 with (Z.shiftl (Z.ones 5) 16). unfold rt. change 31 with (Z.ones 5).
    rewrite Z2Nat.id by (apply (field_bound _ _ 5); lia). rewrite <- (field_u32 instr 16 5) by lia. unfold field.
    apply Z.bits_inj'. intros q Hq. rewrite Z.land_spec. destruct (decide (q < 16)).
    - by rewrite !Z.shiftl_spec_low, andb_false_r by done.
    - rewrite !Z.shiftl_spec_high, Z.land_spec, Z.shiftr_spec by lia. do 2 f_equal. lia. }
  assert (rt instr < 32)%nat as Hr by apply rt_bound. f_equal. revert Hr. generalize (rt instr).
  intros n Hn. do 32 (destruct n as [|n]; [done|]). lia.
Qed.

(** ** The relation between the states *)

(** The registers of [m] from number [k] on, its [HiReg] and [LoReg] hold the
    words of the interpreter's; no load is pending and the next instruction is
    at [next]. *)
Record agree_regs (k : nat) (next : Z) (s : Interp) (m : Machine) : Prop := {
  ar_Reg : length (Reg s) = 32%nat;
  ar_length : length (registers m) = NumTotalRegs;
  ar_words : Forall word (registers m);
  ar_reg : ∀ r, (k ≤ r < 32)%nat → registers m !! r = Some (u32 (Reg s !!! r));
  ar_HI : registers m !! HiReg = Some (u32 (HI s));
  ar_LO : registers m !! LoReg = Some (u32 (LO s));
  ar_load : registers m !! LoadReg = Some 0;
  ar_next : registers m !! NextPCReg = Some (u32 next);
}.

(** Between two instructions. *)
Record corresponds (s : Interp) (m : Machine) : Prop := {
  co_ok : interp_ok s;
  co_machine : machine_ok m;
  co_regs : agree_regs 1 (npc s) s m;
  co_zero : registers m !! 0%nat = Some 0;
  co_pc : registers m !! PCReg = Some (u32 (pc s));
}.

(** [m] with other registers; memory, tables and mode are the same. *)
Abbreviation update r v m := (set_registers (<[r := u32 v]> (registers m)) m).

Ltac regnum :=
  unfold NumTotalRegs, NextPCReg, PCReg, PrevPCReg, HiReg, LoReg, R31, LoadReg, LoadValueReg in *; lia.

Lemma agree_get k next s m r :
  agree_regs k next s m → (k ≤ r < 32)%nat → Mips.get r m = Ok (Some (u32 (Reg s !!! r)), m).
Proof. intros Ha Hr. unfold Mips.get, reg. by rewrite (ar_reg _ _ _ _ Ha r Hr). Qed.

Lemma agree_next k next s m : agree_regs k next s m → Mips.get NextPCReg m = Ok (Some (u32 next), m).
Proof. intros Ha. unfold Mips.get, reg. by rewrite (ar_next _ _ _ _ Ha). Qed.

Lemma set_reg_update r v m : (r < length (registers m))%nat → set_reg r v m = Ok (update r v m).
Proof. intros Hr. unfold set_reg, reg. by destruct (lookup_lt_is_Some_2 _ _ Hr) as [w ->]. Qed.

Lemma put_update k next s m r v :
  agree_regs k next s m → (r < NumTotalRegs)%nat → Mips.put r v m = Ok (Some (), update r v m).
Proof.
  intros Ha Hr. rewrite <- (ar_length _ _ _ _ Ha) in Hr. unfold Mips.put. by rewrite set_reg_update.
Qed.

Lemma lookup_total_insert_eq (l : list Z) i v : (i < length l)%nat → <[i:=v]> l !!! i = v.
Proof. intros H. by rewrite list_lookup_total_alt, list_lookup_insert_eq. Qed.
Lemma lookup_total_insert_ne (l : list Z) i j v : i ≠ j → <[i:=v]> l !!! j = l !!! j.
Proof. intros H. by rewrite !list_lookup_total_alt, list_lookup_insert_ne. Qed.

Ltac other_reg := rewrite list_lookup_insert_ne by regnum.

Lemma agree_put k next s m r v v' :
  agree_regs k next s m → (r < 32)%nat → v ≡₃₂ v' →
  agree_regs k next (set_Reg (<[r := v]> (Reg s)) s) (update r v' m).
Proof.
  intros [H1 H2 H3 H4 H5 H6 H7 H8] Hr Hv. split; cbn [Reg HI LO set_Reg registers set_registers].
  - by rewrite length_insert.
  - by rewrite length_insert.
  - apply Forall_insert; [done|]. apply word_u32.
  - intros q Hq. destruct (decide (r = q)) as [<-|Hn].
    + rewrite list_lookup_insert_eq by (rewrite H2; regnum). rewrite lookup_total_insert_eq by lia. by rewrite <- Hv.
    + rewrite list_lookup_insert_ne, lookup_total_insert_ne by done. by apply H4.
  - by other_reg.
  - by other_reg.
  - by other_reg.
  - by other_reg.
Qed.

Lemma agree_put_HI k next s m v v' :
  agree_regs k next s m → v ≡₃₂ v' → agree_regs k next (set_HI v s) (update HiReg v' m).
Proof.
  intros [H1 H2 H3 H4 H5 H6 H7 H8] Hv. split; cbn [Reg HI LO set_HI registers set_registers]; try done.
  - by rewrite length_insert.
  - apply Forall_insert; [done|]. apply word_u32.
  - intros q Hq. other_reg. by apply H4.
  - rewrite list_lookup_insert_eq by (rewrite H2; regnum). by rewrite <- Hv.
  - by other_reg.
  - by other_reg.
  - by other_reg.
Qed.

Lemma agree_put_LO k next s m v v' :
  agree_regs k next s m → v ≡₃₂ v' → agree_regs k next (set_LO v s) (update LoReg v' m).
Proof.
  intros [H1 H2 H3 H4 H5 H6 H7 H8] Hv. split; cbn [Reg HI LO set_LO registers set_registers]; try done.
  - by rewrite length_insert.
  - apply Forall_insert; [done|]. apply word_u32.
  - intros q Hq. other_reg. by apply H4.
  - by other_reg.
  - rewrite list_lookup_insert_eq by (rewrite H2; regnum). by rewrite <- Hv.
  - by other_reg.
  - by other_reg.
Qed.

Lemma agree_jump k next s m v : agree_regs k next s m → agree_regs k next (set_npc v s) m.
Proof. by intros []. Qed.

Lemma agree_machine_ok k next s m rs :
  agree_regs k next s (set_registers rs m) → machine_ok m → machine_ok (set_registers rs m).
Proof.
  intros Ha Hm. destruct Ha, Hm. split; cbn in *; try done.
  intros v Hv. rewrite Hv in ar_load0. by injection ar_load0 as ->.
Qed.

Lemma agree_corresponds s m rs :
  interp_ok s → machine_ok m → agree_regs 1 (npc s) s (set_registers rs m) →
  rs !! 0%nat = Some 0 → rs !! PCReg = Some (u32 (pc s)) → corresponds s (set_registers rs m).
Proof.
  intros Hok Hm Ha H0 Hp. split; [done| |done..]. by eapply agree_machine_ok.
Qed.

(** The end of [OneInstruction] on related states: the machine's register 0 is
    cleared again and both go on to the same instruction. *)
Lemma advance_corresponds s m pcAfter :
  interp_ok s → machine_ok m → agree_regs 0 (pc s) s m → pcAfter ≡₃₂ npc s →
  ∃ m', advance (pcAfter, 0, 0) m = Ok (Some (), m') ∧ corresponds s m' ∧ ∃ rs, m' = set_registers rs m.
Proof.
  intros Hok Hm Ha Hpc. destruct Ha as [H1 H2 H3 H4 H5 H6 H7 H8].
  destruct (lookup_lt_is_Some_2 (registers m) LoadValueReg) as [lv Hlv]; [rewrite H2; regnum|].
  destruct (lookup_lt_is_Some_2 (registers m) PCReg) as [opc Hopc]; [rewrite H2; regnum|].
  unfold advance, DelayedLoad, reg. rewrite H7. rcbn. rewrite Hlv. rcbn. change (Z.to_nat 0) with 0%nat.
  do 4 (rewrite set_reg_update by (cbn [registers set_registers]; rewrite ?length_insert, H2; regnum); rcbn).
  cbn [registers set_registers]. rewrite !(list_lookup_insert_ne _ _ PCReg) by regnum. rewrite Hopc. rcbn.
  rewrite !(list_lookup_insert_ne _ _ NextPCReg) by regnum. rewrite H8. rcbn.
  do 3 (rewrite set_reg_update by (cbn [registers set_registers]; rewrite ?length_insert, H2; regnum); rcbn).
  eexists. split; [done|]. split; [|by eexists].
  match goal with |- corresponds _ (set_registers ?rs _) => change (corresponds s (set_registers rs m)) end.
  apply agree_corresponds; [done|exact Hm|..]; cbn [registers set_registers];
    [split; cbn [registers set_registers]|..].
  - done.
  - by rewrite !length_insert.
  - repeat (apply Forall_insert; [|apply word_u32]). done.
  - intros r Hr. do 7 other_reg. apply H4. lia.
  - by do 7 other_reg.
  - by do 7 other_reg.
  - do 5 other_reg. rewrite list_lookup_insert_eq; [done|rewrite ?length_insert, H2; regnum].
  - rewrite list_lookup_insert_eq by (rewrite ?length_insert, H2; regnum). by rewrite Hpc.
  - do 3 other_reg. rewrite list_lookup_insert_eq; [done|rewrite ?length_insert, H2; regnum].
  - other_reg. rewrite list_lookup_insert_eq by (rewrite ?length_insert, H2; regnum). by rewrite u32_u32.
Qed.

(** ** What both compute *)

Ltac same := rewrite ?s32_same, ?u32_same; reflexivity.

Lemma negative_int a : is_int a → negative (u32 a) = bool_decide (a < 0).
Proof.
  intros Ha. rewrite negative_testbit, testbit_word by apply word_u32.
  destruct (decide (a < 0)).
  - rewrite u32_neg, !bool_decide_true by (done || unfold is_int in *; lia). done.
  - rewrite u32_nonneg, !bool_decide_false by (done || unfold is_int in *; lia). done.
Qed.

Lemma u32_inj_int a b : is_int a → is_int b → bool_decide (u32 a = u32 b) = bool_decide (a = b).
Proof.
  intros Ha Hb. apply bool_decide_ext. split; [|by intros ->]. intros H. by apply same_word_int.
Qed.

Lemma same_shiftr a n : is_int a → 0 ≤ a → 0 ≤ n →
  s32 (Z.shiftr (u32 a) n) ≡₃₂ Z.shiftr (s32 (u32 a)) n ∧ Z.shiftr a n ≡₃₂ Z.shiftr (u32 a) n.
Proof. intros Ha H0 Hn. rewrite s32_u32_int, u32_nonneg by done. split; [same|done]. Qed.

Lemma same_slt a b : is_int a → is_int b → 0 ≤ a → 0 ≤ b →
  truth (a < b) ≡₃₂ (if decide (u32 a < u32 b) then 1 else 0).
Proof. intros. by rewrite !u32_nonneg by done. Qed.

Lemma same_lui instr : s32 (Z.shiftl instr 16) ≡₃₂ Z.shiftl (u32 (immed instr)) 16.
Proof.
  rewrite s32_same. rewrite (shiftl_same_word (u32 (immed instr)) (immed instr)) by (lia || apply u32_same).
  rewrite !Z.shiftl_mul_pow2 by lia. rewrite same_word_divide, immed_spec.
  change (2 ^ 16) with 65536. change (2 ^ 32) with (65536 * 65536).
  pose proof (Z.div_mod instr 65536 ltac:(lia)) as E.
  case_decide; [exists (instr `div` 65536)|exists (instr `div` 65536 + 1)]; lia.
Qed.

Lemma small_immediate instr : 0 ≤ immed instr → Z.land (u32 (immed instr)) 65535 = immed instr.
Proof.
  intros H. pose proof (immed_range instr). rewrite u32_small by lia.
  change 65535 with (Z.ones 16). rewrite Z.land_ones by lia. apply Z.mod_small. lia.
Qed.

Lemma same_branch xpc instr next : next = s32 (xpc + 4) →
  s32 (xpc + 4 + Z.shiftl (immed instr) 2) ≡₃₂ s32 (u32 next + IndexToAddr (u32 (immed instr))).
Proof.
  intros ->. unfold IndexToAddr. rewrite !Z.shiftl_mul_pow2 by lia. same.
Qed.

(** The segment of a jump: the top four bits, unless the delay slot is in the
    next segment. *)
Lemma top_bits_div v : word v → Z.land v 4026531840 = v `div` 2 ^ 28 * 2 ^ 28.
Proof.
  intros Hv. change 4026531840 with (Z.shiftl (Z.ones 4) 28).
  assert (Z.shiftl (Z.shiftr v 28) 28 = v `div` 2 ^ 28 * 2 ^ 28) as <-
    by (by rewrite Z.shiftl_mul_pow2, Z.shiftr_div_pow2 by lia).
  apply Z.bits_inj'. intros q Hq. rewrite Z.land_spec. destruct (decide (q < 28)).
  - by rewrite !Z.shiftl_spec_low, andb_false_r by done.
  - rewrite !Z.shiftl_spec_high, Z.shiftr_spec by lia. replace (q - 28 + 28) with q by lia.
    destruct (decide (q - 28 < 4)); [by rewrite Z.ones_spec_low, andb_true_r by lia|].
    rewrite Z.ones_spec_high, andb_false_r by lia. symmetry. destruct (Z.testbit v q) eqn:E; [|done].
    apply testbit_below in E; [lia|exact Hv|done].
Qed.

Lemma same_target xpc instr next : next = s32 (xpc + 4) → u32 xpc `mod` 2 ^ 28 < 2 ^ 28 - 8 →
  target xpc instr ≡₃₂
  s32 (Z.lor (Z.land (u32 (u32 next + 4)) 4026531840) (IndexToAddr (Z.land instr 67108863))).
Proof.
  intros -> Hx. unfold target, IndexToAddr. rewrite !top_bits_div by apply word_u32.
  assert (u32 (u32 (s32 (xpc + 4)) + 4) = u32 xpc + 8) as ->.
  { transitivity (u32 (u32 xpc + 8)).
    - change (u32 (s32 (xpc + 4)) + 4 ≡₃₂ u32 xpc + 8). rewrite u32_same, s32_same, u32_same.
      by replace (xpc + 4 + 4) with (xpc + 8) by lia.
    - apply u32_small. pose proof (u32_range xpc). change (2 ^ 32) with 4294967296 in *.
      change (2 ^ 28) with 268435456 in *. dlia. }
  assert ((u32 xpc + 8) `div` 2 ^ 28 = u32 xpc `div` 2 ^ 28) as ->.
  { change (2 ^ 28) with 268435456 in *. dlia. }
  apply s32_same_word, lor_same_word; [done|]. symmetry. apply u32_same.
Qed.

(** The product of two numbers below 2^16 in magnitude. *)
Lemma high_word_small t1 t2 : 0 ≤ t1 < 65536 → 0 ≤ t2 < 65536 → high_word t1 t2 = 0.
Proof.
  intros H1 H2. unfold high_word. rewrite !Z.shiftr_div_pow2 by lia. change (2 ^ 16) with 65536.
  rewrite (Z.div_small t1), (Z.div_small t2) by done. done.
Qed.

Lemma interp_mult a b s : Z.abs a < 65536 → Z.abs b < 65536 →
  ∃ h l, mult a b s = Next () (set_HI h (set_LO l s)) ∧ l ≡₃₂ a * b ∧ h ≡₃₂ (a * b) `div` 2 ^ 32.
Proof.
  intros Ha Hb. unfold mult.
  assert ((if decide (a < 0) then (s32 (- a), true) else (a, false)) = (Z.abs a, bool_decide (a < 0))) as ->.
  { case_decide; [rewrite bool_decide_true, s32_small by lia|rewrite bool_decide_false by lia]; f_equal; lia. }
  assert ((if decide (b < 0) then (s32 (- b), negb (bool_decide (a < 0))) else (b, bool_decide (a < 0))) =
    (Z.abs b, xorb (bool_decide (a < 0)) (bool_decide (b < 0)))) as ->.
  { destruct (decide (b < 0)); [rewrite (bool_decide_true (b < 0)), s32_small by lia|rewrite (bool_decide_false (b < 0)) by lia].
    - f_equal; first [lia|by destruct (bool_decide (a < 0))].
    - f_equal; first [lia|by destruct (bool_decide (a < 0))]. }
  rewrite high_word_small by lia. set (neg := xorb _ _).
  assert (Z.abs a * Z.abs b = if neg then - (a * b) else a * b) as Eab.
  { unfold neg. repeat case_bool_decide; cbn; lia. }
  assert (neg = true → a * b ≤ 0) as Hneg by (unfold neg; repeat case_bool_decide; cbn; nia).
  assert (neg = false → 0 ≤ a * b) as Hpos by (unfold neg; repeat case_bool_decide; cbn; nia).
  rewrite Eab. assert (Z.abs (a * b) < 2 ^ 32) as Hs by nia.
  destruct neg; eexists _, _; (split; [done|]).
  - specialize (Hneg eq_refl). assert (s32 (Z.lnot (s32 (- (a * b))) + 1) ≡₃₂ a * b) as El.
    { rewrite s32_same. transitivity (Z.lnot (- (a * b)) + 1); [by rewrite s32_same|].
      unfold Z.lnot. by replace (Z.pred (- - (a * b)) + 1) with (a * b) by lia. }
    split; [done|]. destruct (decide (a * b = 0)) as [E0|E0].
    + rewrite E0. by vm_compute.
    + rewrite decide_False.
      * assert ((a * b) `div` 2 ^ 32 = -1) as -> by (change (2 ^ 32) with 4294967296 in *; dlia). done.
      * intros E. rewrite E, same_word_divide in El. destruct El as [k Hk]. nia.
  - specialize (Hpos eq_refl). split; [by rewrite s32_same|]. rewrite Z.div_small by lia. done.
Qed.

Lemma interp_multu a b s : 0 ≤ a < 65536 → 0 ≤ b < 65536 →
  ∃ h l, multu a b s = Next () (set_HI h (set_LO l s)) ∧ l ≡₃₂ a * b ∧ h ≡₃₂ (a * b) `div` 2 ^ 32.
Proof.
  intros Ha Hb. unfold multu. rewrite high_word_small by done. eexists _, _. split; [done|].
  split; [by rewrite s32_same|]. rewrite Z.div_small by nia. done.
Qed.

Lemma wide_words hi lo p : word hi → word lo → wide hi lo = p `mod` 2 ^ 64 → lo ≡₃₂ p ∧ hi ≡₃₂ p `div` 2 ^ 32.
Proof.
  unfold word, wide. intros Hh Hl E. pose proof (Z.div_mod p (2 ^ 64) ltac:(lia)) as Ep. rewrite <- E in Ep.
  set (q := p `div` 2 ^ 64) in *. split; rewrite same_word_divide.
  - exists (- (2 ^ 32 * q + hi)). lia.
  - assert (p `div` 2 ^ 32 = 2 ^ 32 * q + hi) as ->.
    { symmetry. apply Z.div_unique with lo; lia. }
    exists (- q). lia.
Qed.

Lemma mips_mult a b sgn : is_int a → is_int b → (sgn = false → 0 ≤ a ∧ 0 ≤ b) →
  ∃ hi lo, Mult (s32 (u32 a)) (s32 (u32 b)) sgn = (hi, lo) ∧ lo ≡₃₂ a * b ∧ hi ≡₃₂ (a * b) `div` 2 ^ 32.
Proof.
  intros Ha Hb Hs. rewrite !s32_u32_int by done. pose proof (Mult_product a b sgn Ha Hb) as H.
  destruct (Mult a b sgn) as [hi lo]. destruct H as (Hh & Hl & E). exists hi, lo. split; [done|].
  apply wide_words; [done..|]. rewrite E. destruct sgn; [done|]. destruct (Hs eq_refl). by rewrite !u32_nonneg.
Qed.

(** ** One instruction *)

(** From [s] and [m] both simulators execute to the end, to states that agree;
    memories, page tables and the mode of the machine are left alone. *)
Definition lockstep (c : Sim unit) (d : Cpu after) (s : Interp) (m : Machine) : Prop :=
  ∃ s' m' pcAfter, c s = Next () s' ∧ d m = Ok (Some (pcAfter, 0, 0), m') ∧
    agree_regs 0 (pc s) s' m' ∧ pc s' = pc s ∧ pcAfter ≡₃₂ npc s' ∧ mem s' = mem s ∧
    ∃ rs, m' = set_registers rs m.

Lemma set_npc_id s : set_npc (npc s) s = s.
Proof. by destruct s. Qed.
Lemma set_registers_id m : m = set_registers (registers m) m.
Proof. by destruct m. Qed.

(** ** The instructions on which the simulators agree *)

(** When [instr], fetched from [xpc], does the same in both: [s] is the
    interpreter's state with the program counters already advanced.  False for
    loads and stores, system calls and what either does not implement.  The
    conditions are where the two differ: bin/execute.c ignores overflow and has
    the high word of large products wrong; machine/mipssim.cc compares, divides
    and shifts right its unsigned registers as they are, forgets the second
    operand of [or], and links before it reads the register of [jalr]; the
    targets are computed from [xpc] in the one and from the next instruction in
    the other. *)
Definition agreed (xpc instr : Z) (s : Interp) : Prop :=
  let a := Reg s !!! rs instr in
  let b := Reg s !!! rt instr in
  let straight := pc s = s32 (xpc + 4) in
  match opCode (Decode (u32 instr)) with
  | OP_ADDIU | OP_ADDU | OP_AND | OP_LUI | OP_NOR | OP_SLL | OP_SLLV | OP_SLTIU | OP_SLTU | OP_SUBU | OP_XOR
  | OP_MFHI | OP_MFLO | OP_MTHI | OP_MTLO | OP_JR => True
  | OP_ADD => is_int (a + b)
  | OP_ADDI => is_int (a + immed instr)
  | OP_SUB => is_int (a - b)
  | OP_ANDI | OP_ORI | OP_XORI => 0 ≤ immed instr
  | OP_OR => Z.lor a b = a
  | OP_SLT => 0 ≤ a ∧ 0 ≤ b
  | OP_SLTI => 0 ≤ a ∧ 0 ≤ immed instr
  | OP_SRL | OP_SRA | OP_SRLV | OP_SRAV => 0 ≤ b
  | OP_DIV => 0 ≤ a ∧ 0 < b
  | OP_DIVU => b ≠ 0
  | OP_MULT => Z.abs a < 65536 ∧ Z.abs b < 65536
  | OP_MULTU => 0 ≤ a < 65536 ∧ 0 ≤ b < 65536
  | OP_BEQ | OP_BNE | OP_BLTZ | OP_BGEZ | OP_BLTZAL | OP_BGEZAL => straight
  | OP_BLEZ | OP_BGTZ => straight ∧ 0 ≤ a
  | OP_J | OP_JAL => straight ∧ u32 xpc `mod` 2 ^ 28 < 2 ^ 28 - 8
  | OP_JALR => straight ∧ rd instr ≠ rs instr
  | _ => False
  end.

#[export] Instance agreed_dec xpc instr s : Decision (agreed xpc instr s).
Proof. unfold agreed, is_int. destruct (opCode _); apply _. Defined.

Lemma lockstep_ext c c' d s m : c s = c' s → lockstep c' d s m → lockstep c d s m.
Proof. intros E (s' & m' & p & E' & H). exists s', m', p. split; [by rewrite E|exact H]. Qed.

(** Case distinction on a field of six bits. *)
Lemma six_bits z : ∃ n, (n < 64)%nat ∧ Z.land z 63 = Z.of_nat n.
Proof.
  exists (Z.to_nat (Z.land z 63)). change 63 with (Z.ones 6). rewrite Z.land_ones by lia.
  change (2 ^ 6) with 64. dlia.
Qed.

(** ** Instruction by instruction *)

Section instructions.
Context (host : hostcall → gmap Z Z → Z * gmap Z Z) (handler : ExceptionType → Machine → Result Machine).
Context (xpc instr : Z) (s : Interp) (m : Machine).
Hypothesis Hok : interp_ok s.
Hypothesis Hagree : agree_regs 0 (pc s) s m.
Hypothesis Hnpc : npc s = s32 (pc s + 4).

#[local] Abbreviation a := (Reg s !!! rs instr).
#[local] Abbreviation b := (Reg s !!! rt instr).
#[local] Abbreviation instruction op fmt := (mkInstr op (rs instr) (rt instr) (rd instr) (extra_of fmt instr)).
#[local] Abbreviation after_next := (s32 (u32 (pc s) + 4)).

Lemma int_reg r : is_int (Reg s !!! r).
Proof using Hok. exact (proj2 (keeps_get r s Hok)). Qed.

Lemma after_next_same : after_next ≡₃₂ npc s.
Proof using Hnpc. rewrite Hnpc. same. Qed.

Lemma lockstep_put d r v v' :
  (r < 32)%nat → v ≡₃₂ v' → d m = Ok (Some (after_next, 0, 0), update r v' m) → lockstep (put r v) d s m.
Proof using Hagree Hnpc.
  intros Hr Hv Hd. eexists _, _, _. split; [done|]. split; [exact Hd|]. split; [by apply agree_put|].
  split; [done|]. split; [apply after_next_same|]. split; [done|by eexists].
Qed.

Lemma lockstep_HI_LO c d h h' l l' :
  h ≡₃₂ h' → l ≡₃₂ l' → c s = Next () (set_HI h (set_LO l s)) →
  (d m = Ok (Some (after_next, 0, 0), update LoReg l' (update HiReg h' m)) ∨
   d m = Ok (Some (after_next, 0, 0), update HiReg h' (update LoReg l' m))) → lockstep c d s m.
Proof using Hagree Hnpc.
  intros Hh Hl Hc Hd. assert (agree_regs 0 (pc s) (set_HI h (set_LO l s)) (update LoReg l' (update HiReg h' m))) as H1.
  { exact (agree_put_LO _ _ _ _ _ _ (agree_put_HI _ _ _ _ _ _ Hagree Hh) Hl). }
  assert (agree_regs 0 (pc s) (set_HI h (set_LO l s)) (update HiReg h' (update LoReg l' m))) as H2.
  { exact (agree_put_HI _ _ _ _ _ _ (agree_put_LO _ _ _ _ _ _ Hagree Hl) Hh). }
  destruct Hd as [Hd|Hd]; eexists _, _, _; (split; [exact Hc|]); (split; [exact Hd|]); (split; [done|]);
    (split; [done|]); (split; [apply after_next_same|]); (split; [done|by eexists]).
Qed.

Lemma lockstep_jump c d v pcAfter s' m' :
  v ≡₃₂ pcAfter → c s = Next () (set_npc v s') → d m = Ok (Some (pcAfter, 0, 0), m') →
  agree_regs 0 (pc s) s' m' → pc s' = pc s → mem s' = mem s → (∃ rs, m' = set_registers rs m) → lockstep c d s m.
Proof.
  intros Hv Hc Hd Hag Hp Hm Hrs. eexists _, _, _. split; [exact Hc|]. split; [exact Hd|].
  split; [by apply agree_jump|]. split; [done|]. split; [done|]. by split.
Qed.

Lemma get_next : Mips.get NextPCReg m = Ok (Some (u32 (pc s)), m).
Proof using Hagree. exact (agree_next _ _ _ _ Hagree). Qed.
Lemma get_reg r : (r < 32)%nat → Mips.get r m = Ok (Some (u32 (Reg s !!! r)), m).
Proof using Hagree. intros Hr. exact (agree_get _ _ _ _ r Hagree (conj (Nat.le_0_l r) Hr)). Qed.
Lemma put_reg r v : (r < NumTotalRegs)%nat → Mips.put r v m = Ok (Some (), update r v m).
Proof using Hagree. exact (put_update _ _ _ _ r v Hagree). Qed.

Lemma rd_total : (rd instr < NumTotalRegs)%nat.
Proof. exact (Nat.lt_le_trans _ _ _ (rd_bound instr) (proj1 (Nat.leb_le 32 40) eq_refl)). Qed.
Lemma rt_total : (rt instr < NumTotalRegs)%nat.
Proof. exact (Nat.lt_le_trans _ _ _ (rt_bound instr) (proj1 (Nat.leb_le 32 40) eq_refl)). Qed.

(** Run the machine's code on the operands. *)
Ltac fetch_operands :=
  unfold execute, exec_add, exec_shift, exec_move, exec_logic, exec_div, exec_branch, exec_jump, mbind, Cpu_bind;
  cbn [opCode Mips.rs Mips.rt Mips.rd extra extra_of];
  rewrite ?get_next; cbv beta iota; rewrite ?(get_reg _ (rs_bound instr)); cbv beta iota;
  rewrite ?(get_reg _ (rt_bound instr)); cbv beta iota.
Ltac write_back := first [rewrite (put_reg _ _ rd_total)|rewrite (put_reg _ _ rt_total)]; reflexivity.

(** The instructions that write a register, with the value the machine computes. *)
Definition rd_value (op : opcode) (v : Z) : Prop :=
  match op with
  | OP_ADDU => v = u32 a + u32 b
  | OP_AND => v = Z.land (u32 a) (u32 b)
  | OP_OR => v = Z.lor (u32 a) (u32 a)
  | OP_NOR => v = Z.lnot (Z.lor (u32 a) (u32 b))
  | OP_XOR => v = Z.lxor (u32 a) (u32 b)
  | OP_SLL => v = Z.shiftl (u32 b) (shamt instr)
  | OP_SLLV => v = Z.shiftl (u32 b) (Z.land (u32 a) 31)
  | OP_SRL => v = Z.shiftr (s32 (u32 b)) (shamt instr)
  | OP_SRLV => v = Z.shiftr (s32 (u32 b)) (Z.land (u32 a) 31)
  | OP_SRA => v = Z.shiftr (u32 b) (shamt instr)
  | OP_SRAV => v = Z.shiftr (u32 b) (Z.land (u32 a) 31)
  | OP_SLT | OP_SLTU => v = if decide (u32 a < u32 b) then 1 else 0
  | OP_SUBU => v = u32 a - u32 b
  | OP_ADD => is_int (a + b) ∧ v = s32 (u32 a + u32 b)
  | OP_SUB => is_int (a - b) ∧ v = s32 (u32 a - u32 b)
  | _ => False
  end.

Definition rt_value (op : opcode) (v : Z) : Prop :=
  match op with
  | OP_ADDIU => v = u32 a + u32 (immed instr)
  | OP_SLTI | OP_SLTIU => v = if decide (u32 a < u32 (immed instr)) then 1 else 0
  | OP_ANDI => v = Z.land (u32 a) (Z.land (u32 (immed instr)) 65535)
  | OP_ORI => v = Z.lor (u32 a) (Z.land (u32 (immed instr)) 65535)
  | OP_XORI => v = Z.lxor (u32 a) (Z.land (u32 (immed instr)) 65535)
  | OP_LUI => v = Z.shiftl (u32 (immed instr)) 16
  | OP_ADDI => is_int (a + immed instr) ∧ v = s32 (u32 a + u32 (immed instr))
  | _ => False
  end.

Lemma execute_rd op v : rd_value op v →
  execute handler (instruction op RFMT) m = Ok (Some (after_next, 0, 0), update (rd instr) v m).
Proof using Hagree Hok.
  unfold rd_value. destruct op; try done; try (intros ->; fetch_operands; write_back); intros [Hr ->]; fetch_operands.
  - rewrite add_overflow by apply word_u32. rewrite !s32_u32_int, bool_decide_true by (done || apply int_reg).
    cbv beta iota. cbn [negb]. write_back.
  - rewrite sub_overflow by apply word_u32. rewrite !s32_u32_int, bool_decide_true by (done || apply int_reg).
    cbv beta iota. cbn [negb]. write_back.
Qed.

Lemma execute_rt op v : rt_value op v →
  execute handler (instruction op IFMT) m = Ok (Some (after_next, 0, 0), update (rt instr) v m).
Proof using Hagree Hok.
  unfold rt_value. destruct op; try done; try (intros ->; fetch_operands; write_back); intros [Hr ->]; fetch_operands.
  rewrite (Z.lxor_comm (u32 a)), (Z.add_comm (u32 a)), add_overflow by apply word_u32.
  rewrite !s32_u32_int, bool_decide_true by (try apply int_reg; try (rewrite Z.add_comm; done); pose proof (immed_range instr); unfold is_int; lia).
  cbv beta iota. cbn [negb]. write_back.
Qed.

Lemma lockstep_rd c op v v' :
  c s = put (rd instr) v s → rd_value op v' → v ≡₃₂ v' → lockstep c (execute handler (instruction op RFMT)) s m.
Proof using Hagree Hnpc Hok.
  intros Hc Hr Hv. apply (lockstep_ext _ (put (rd instr) v)); [done|].
  eapply lockstep_put; [apply rd_bound|exact Hv|by apply execute_rd].
Qed.

Lemma lockstep_rt c op v v' :
  c s = put (rt instr) v s → rt_value op v' → v ≡₃₂ v' → lockstep c (execute handler (instruction op IFMT)) s m.
Proof using Hagree Hnpc Hok.
  intros Hc Hr Hv. apply (lockstep_ext _ (put (rt instr) v)); [done|].
  eapply lockstep_put; [apply rt_bound|exact Hv|by apply execute_rt].
Qed.

(** Moves from and to [HI] and [LO], products and quotients. *)
Lemma get_HI : Mips.get HiReg m = Ok (Some (u32 (HI s)), m).
Proof using Hagree. unfold Mips.get, reg. by rewrite (ar_HI _ _ _ _ Hagree). Qed.
Lemma get_LO : Mips.get LoReg m = Ok (Some (u32 (LO s)), m).
Proof using Hagree. unfold Mips.get, reg. by rewrite (ar_LO _ _ _ _ Hagree). Qed.

Lemma put_HI_LO h l :
  Mips.put LoReg l (update HiReg h m) = Ok (Some (), update LoReg l (update HiReg h m)) ∧
  Mips.put HiReg h (update LoReg l m) = Ok (Some (), update HiReg h (update LoReg l m)).
Proof using Hagree.
  split; eapply put_update.
  - exact (agree_put_HI _ _ _ _ _ _ Hagree (reflexivity h)).
  - exact (proj1 (Nat.ltb_lt 33 40) eq_refl).
  - exact (agree_put_LO _ _ _ _ _ _ Hagree (reflexivity l)).
  - exact (proj1 (Nat.ltb_lt 32 40) eq_refl).
Qed.

Lemma HiReg_total : (HiReg < NumTotalRegs)%nat.
Proof. exact (proj1 (Nat.ltb_lt 32 40) eq_refl). Qed.
Lemma LoReg_total : (LoReg < NumTotalRegs)%nat.
Proof. exact (proj1 (Nat.ltb_lt 33 40) eq_refl). Qed.

Lemma execute_product op sgn hi lo :
  op = (if sgn : bool then OP_MULT else OP_MULTU) →
  Mult (s32 (u32 a)) (s32 (u32 b)) sgn = (hi, lo) →
  execute handler (instruction op RFMT) m = Ok (Some (after_next, 0, 0), update LoReg lo (update HiReg hi m)).
Proof using Hagree.
  intros -> E. destruct sgn; fetch_operands; rewrite E; rewrite (put_reg _ _ HiReg_total); cbv beta iota;
    rewrite (proj1 (put_HI_LO hi lo)); reflexivity.
Qed.

Lemma execute_quotient op :
  op = OP_DIV ∨ op = OP_DIVU → u32 b ≠ 0 →
  execute handler (instruction op RFMT) m =
    Ok (Some (after_next, 0, 0), update HiReg (u32 a `mod` u32 b) (update LoReg (u32 a `div` u32 b) m)).
Proof using Hagree.
  intros Hop Hb. destruct Hop as [-> | ->]; fetch_operands; rewrite decide_False by done;
    rewrite (put_reg _ _ LoReg_total); cbv beta iota; rewrite (proj2 (put_HI_LO _ _)); reflexivity.
Qed.

Lemma lockstep_div : 0 ≤ a → 0 < b → lockstep (div a b) (execute handler (instruction OP_DIV RFMT)) s m.
Proof using Hagree Hnpc Hok.
  intros H0 Hb. pose proof (int_reg (rs instr)) as Ia. pose proof (int_reg (rt instr)) as Ib.
  assert (u32 a = a ∧ u32 b = b) as [Ea Eb] by (by rewrite !u32_nonneg by (done || lia)).
  eapply (lockstep_HI_LO _ _ (a `rem` b) _ (a `quot` b)); [| | |right; apply execute_quotient; [by left|lia]].
  - by rewrite Ea, Eb, Z.rem_mod_nonneg by lia.
  - by rewrite Ea, Eb, Z.quot_div_nonneg by lia.
  - unfold div. rewrite decide_False by lia. reflexivity.
Qed.

Lemma lockstep_divu : b ≠ 0 → lockstep (divu a b) (execute handler (instruction OP_DIVU RFMT)) s m.
Proof using Hagree Hnpc Hok.
  intros Hb. assert (u32 b ≠ 0) as Hb'.
  { intros E. apply Hb. apply (same_word_int b 0); [exact E|apply int_reg|by unfold is_int]. }
  eapply (lockstep_HI_LO _ _ (s32 (u32 a `mod` u32 b)) _ (s32 (u32 a `div` u32 b)));
    [apply s32_same|apply s32_same| |right; apply execute_quotient; [by right|done]].
  unfold divu. rewrite decide_False by done. reflexivity.
Qed.

Lemma lockstep_product c (sgn : bool) :
  (if sgn then Z.abs a < 65536 ∧ Z.abs b < 65536 else 0 ≤ a < 65536 ∧ 0 ≤ b < 65536) →
  c s = (if sgn then mult a b s else multu a b s) →
  lockstep c (execute handler (instruction (if sgn then OP_MULT else OP_MULTU) RFMT)) s m.
Proof using Hagree Hnpc Hok.
  intros Hr Hc. destruct (mips_mult a b sgn) as (hi & lo & Em & El & Eh); [apply int_reg..|by intros ->; lia|].
  assert (∃ h l, c s = Next () (set_HI h (set_LO l s)) ∧ l ≡₃₂ a * b ∧ h ≡₃₂ (a * b) `div` 2 ^ 32) as (h & l & E & El' & Eh').
  { rewrite Hc. destruct sgn; destruct Hr; [by apply interp_mult|by apply interp_multu]. }
  eapply (lockstep_HI_LO _ _ h hi l lo); [by rewrite Eh|by rewrite El|exact E|left].
  by apply (execute_product _ sgn).
Qed.

Lemma lockstep_moves c op :
  match op with
  | OP_MFHI => c s = put (rd instr) (HI s) s
  | OP_MFLO => c s = put (rd instr) (LO s) s
  | OP_MTHI => c s = put_HI a s
  | OP_MTLO => c s = put_LO a s
  | _ => False
  end → lockstep c (execute handler (instruction op RFMT)) s m.
Proof using Hagree Hnpc Hok.
  intros Hc. assert (∀ v w, v ≡₃₂ w → c s = put (rd instr) v s →
    execute handler (instruction op RFMT) m = Ok (Some (after_next, 0, 0), update (rd instr) w m) →
    lockstep c (execute handler (instruction op RFMT)) s m) as Hput.
  { intros v w Hv E Ex. destruct (lockstep_put _ _ _ _ (rd_bound instr) Hv Ex) as (s' & m' & p & E' & H).
    exists s', m', p. split; [by rewrite E|exact H]. }
  destruct op; try done.
  - apply (Hput (HI s) (u32 (HI s))); [by rewrite u32_same|done|]. fetch_operands. rewrite get_HI. cbv beta iota. write_back.
  - apply (Hput (LO s) (u32 (LO s))); [by rewrite u32_same|done|]. fetch_operands. rewrite get_LO. cbv beta iota. write_back.
  - eexists _, _, _. split; [exact Hc|]. split; [fetch_operands; rewrite (put_reg _ _ HiReg_total); reflexivity|].
    split; [by apply (agree_put_HI _ _ _ _ _ _ Hagree); rewrite u32_same|]. split; [done|].
    split; [apply after_next_same|]. split; [done|by eexists].
  - eexists _, _, _. split; [exact Hc|]. split; [fetch_operands; rewrite (put_reg _ _ LoReg_total); reflexivity|].
    split; [by apply (agree_put_LO _ _ _ _ _ _ Hagree); rewrite u32_same|]. split; [done|].
    split; [apply after_next_same|]. split; [done|by eexists].
Qed.

(** Branches: the two agree on the condition, for [BLEZ] and [BGTZ] when the
    operand is not negative. *)
Definition branch_cond (op : opcode) (x y : Z) (cond : bool) : Prop :=
  match op with
  | OP_BEQ => cond = bool_decide (x = y)
  | OP_BNE => cond = bool_decide (x ≠ y)
  | OP_BLEZ => 0 ≤ x ∧ cond = bool_decide (x ≤ 0)
  | OP_BGTZ => 0 ≤ x ∧ cond = bool_decide (x > 0)
  | OP_BLTZ | OP_BLTZAL => cond = bool_decide (x < 0)
  | OP_BGEZ | OP_BGEZAL => cond = bool_decide (0 ≤ x)
  | _ => False
  end.

Lemma branch_cond_same op x y cond : is_int x → is_int y → branch_cond op x y cond →
  match op with
  | OP_BEQ => bool_decide (u32 x = u32 y)
  | OP_BGEZAL | OP_BGEZ => negb (negative (u32 x))
  | OP_BGTZ => bool_decide (u32 x > 0)
  | OP_BLEZ => bool_decide (u32 x ≤ 0)
  | OP_BLTZAL | OP_BLTZ => negative (u32 x)
  | _ => negb (bool_decide (u32 x = u32 y))
  end = cond.
Proof.
  intros Hx Hy Hc. destruct op; cbn in Hc; try done; rewrite ?u32_inj_int, ?negative_int by done; try done.
  - rewrite Hc. do 2 case_bool_decide; cbn; (done || lia).
  - rewrite Hc. do 2 case_bool_decide; cbn; (done || lia).
  - destruct Hc as [H0 ->]. by rewrite u32_nonneg.
  - destruct Hc as [H0 ->]. by rewrite u32_nonneg.
  - rewrite Hc. do 2 case_bool_decide; cbn; done.
Qed.

Lemma branch_npc cond next : next = s32 (xpc + 4) → pc s = next →
  ∃ v, branch cond xpc instr s = Next () (set_npc v s) ∧
    v ≡₃₂ (if cond then s32 (u32 next + IndexToAddr (u32 (immed instr))) else s32 (u32 next + 4)).
Proof using Hnpc.
  intros Hn Hp. unfold branch. destruct cond.
  - eexists. split; [done|]. by apply same_branch.
  - exists (npc s). split; [by rewrite set_npc_id|]. rewrite <- Hp. symmetry. apply after_next_same.
Qed.

Lemma lockstep_branch c op cond :
  pc s = s32 (xpc + 4) → op ≠ OP_BGEZAL → op ≠ OP_BLTZAL → branch_cond op a b cond →
  c s = branch cond xpc instr s → lockstep c (execute handler (instruction op IFMT)) s m.
Proof using Hagree Hnpc Hok.
  intros Hp Hn1 Hn2 Hb Hc.
  pose proof (branch_cond_same op a b cond (int_reg _) (int_reg _) Hb) as E.
  destruct (branch_npc cond (pc s) Hp eq_refl) as (v & Ev & Hv).
  eapply (lockstep_jump c _ v); [exact Hv|by rewrite Hc| |done..|].
  - rewrite <- E. destruct op; try done; fetch_operands; rewrite decide_False by (by intros []); unfold mret, Cpu_ret;
      cbv beta iota; rewrite (get_reg _ (rs_bound instr)); cbv beta iota; rewrite (get_reg _ (rt_bound instr)); reflexivity.
  - exact (ex_intro _ (registers m) (set_registers_id m)).
Qed.

(** Jumps to a register and to a target. *)
Lemma lockstep_jr c : c s = jump a s → lockstep c (execute handler (instruction OP_JR RFMT)) s m.
Proof using Hagree Hnpc Hok.
  intros Hc. eapply (lockstep_jump c _ a (s32 (u32 a))); [|exact Hc| |done..|exact (ex_intro _ (registers m) (set_registers_id m))].
  - by rewrite s32_u32_int by apply int_reg.
  - fetch_operands. reflexivity.
Qed.

Lemma lockstep_j c :
  pc s = s32 (xpc + 4) → u32 xpc `mod` 2 ^ 28 < 2 ^ 28 - 8 →
  c s = jump (target xpc instr) s → lockstep c (execute handler (instruction OP_J JFMT)) s m.
Proof using Hagree Hnpc.
  intros Hp Hx Hc. eapply (lockstep_jump c _ (target xpc instr)); [by apply (same_target _ _ (pc s))|exact Hc| |done..|].
  - fetch_operands. reflexivity.
  - exact (ex_intro _ (registers m) (set_registers_id m)).
Qed.

(** The return address. *)
Lemma same_link : pc s = s32 (xpc + 4) → s32 (xpc + 8) ≡₃₂ u32 (pc s) + 4.
Proof. intros ->. rewrite u32_same, !s32_same. by replace (xpc + 4 + 4) with (xpc + 8) by lia. Qed.

Lemma R31_total : (R31 < NumTotalRegs)%nat.
Proof. exact (proj1 (Nat.ltb_lt 31 40) eq_refl). Qed.

Lemma lockstep_jal c :
  pc s = s32 (xpc + 4) → u32 xpc `mod` 2 ^ 28 < 2 ^ 28 - 8 →
  c s = (_ ← put 31 (s32 (xpc + 8)); jump (target xpc instr)) s →
  lockstep c (execute handler (instruction OP_JAL JFMT)) s m.
Proof using Hagree Hnpc.
  intros Hp Hx Hc.
  eapply (lockstep_jump c _ (target xpc instr) _ (set_Reg (<[31%nat := s32 (xpc + 8)]> (Reg s)) s));
    [by apply (same_target _ _ (pc s))|exact Hc| | |done|done|].
  - fetch_operands. rewrite (put_reg _ _ R31_total). reflexivity.
  - apply (agree_put _ _ _ _ _ _ _ Hagree); [exact (proj1 (Nat.ltb_lt 31 32) eq_refl)|by apply same_link].
  - by eexists.
Qed.

Lemma lockstep_jalr c :
  pc s = s32 (xpc + 4) → rd instr ≠ rs instr →
  c s = (_ ← jump a; put (rd instr) (s32 (xpc + 8))) s →
  lockstep c (execute handler (instruction OP_JALR RFMT)) s m.
Proof using Hagree Hnpc Hok.
  intros Hp Hne Hc.
  assert (agree_regs 0 (pc s) (set_Reg (<[rd instr := s32 (xpc + 8)]> (Reg s)) s) (update (rd instr) (u32 (pc s) + 4) m)) as Ha'.
  { apply (agree_put _ _ _ _ _ _ _ Hagree); [apply rd_bound|by apply same_link]. }
  eapply (lockstep_jump c _ a (s32 (u32 a)) (set_Reg (<[rd instr := s32 (xpc + 8)]> (Reg s)) s)); [|exact Hc| |exact Ha'|done|done|by eexists].
  - by rewrite s32_u32_int by apply int_reg.
  - fetch_operands. rewrite (put_reg _ _ rd_total). cbv beta iota.
    rewrite (agree_get _ _ _ _ (rs instr) Ha' (conj (Nat.le_0_l _) (rs_bound instr))). cbv beta iota.
    cbn [Reg set_Reg]. rewrite lookup_total_insert_ne by done. reflexivity.
Qed.

(** Branches that link: the operand is read after register 31 is written. *)
Lemma lockstep_branch_link c op cond :
  let s' := set_Reg (<[31%nat := s32 (xpc + 8)]> (Reg s)) s in
  pc s = s32 (xpc + 4) → op = OP_BGEZAL ∨ op = OP_BLTZAL →
  branch_cond op (Reg s' !!! rs instr) (Reg s' !!! rt instr) cond →
  c s = branch cond xpc instr s' → lockstep c (execute handler (instruction op IFMT)) s m.
Proof using Hagree Hnpc Hok.
  intros s' Hp Hop Hb Hc.
  assert (interp_ok s') as Hok' by exact (proj1 (keeps_put 31 (s32 (xpc + 8)) (s32_int _) s Hok)).
  assert (agree_regs 0 (pc s) s' (update R31 (u32 (pc s) + 4) m)) as Ha'.
  { apply (agree_put _ _ _ _ _ _ _ Hagree); [exact (proj1 (Nat.ltb_lt 31 32) eq_refl)|by apply same_link]. }
  pose proof (branch_cond_same op _ _ cond (proj2 (keeps_get (rs instr) s' Hok')) (proj2 (keeps_get (rt instr) s' Hok')) Hb) as E.
  assert (∃ v, branch cond xpc instr s' = Next () (set_npc v s') ∧
    v ≡₃₂ (if cond then s32 (u32 (pc s) + IndexToAddr (u32 (immed instr))) else after_next)) as (v & Ev & Hv).
  { unfold branch. destruct cond.
    - eexists. split; [done|]. by apply same_branch.
    - exists (npc s). split; [done|]. symmetry. apply after_next_same. }
  eapply (lockstep_jump c _ v _ s'); [exact Hv|by rewrite Hc| |exact Ha'|done|done|by eexists].
  rewrite <- E. destruct Hop as [-> | ->]; fetch_operands; rewrite decide_True by auto;
    rewrite (put_reg _ _ R31_total); cbv beta iota;
    rewrite (agree_get _ _ _ _ (rs instr) Ha' (conj (Nat.le_0_l _) (rs_bound instr))); cbv beta iota;
    rewrite (agree_get _ _ _ _ (rt instr) Ha' (conj (Nat.le_0_l _) (rt_bound instr))); reflexivity.
Qed.

(** Every R instruction on which they agree. *)
Lemma count_same : count a = Z.land (u32 a) 31.
Proof. unfold count. change 31 with (Z.ones 5). by rewrite land_u32 by lia. Qed.

Ltac value Hag :=
  first [ same
        | rewrite ?count_same, s32_same; apply shiftl_same_word; [apply land_31_bound|by rewrite u32_same]
        | rewrite ?count_same; apply (same_shiftr b); [apply int_reg|exact Hag|apply land_31_bound]
        | apply same_slt; [apply int_reg|apply int_reg|apply Hag|apply Hag]
        | rewrite Hag, Z.lor_diag; same ].
Ltac run_special En :=
  unfold special, mbind, Sim_bind, get; rewrite En; cbn [Z.of_nat Pos.of_succ_nat Pos.succ]; cbv beta iota; reflexivity.
Ltac special_case En Hag :=
  lazymatch goal with
  | |- lockstep _ (execute _ (mkInstr ?op _ _ _ _)) _ _ =>
      lazymatch op with
      | OP_MFHI => apply lockstep_moves; run_special En
      | OP_MFLO => apply lockstep_moves; run_special En
      | OP_MTHI => apply lockstep_moves; run_special En
      | OP_MTLO => apply lockstep_moves; run_special En
      | OP_JR => apply lockstep_jr; run_special En
      | OP_JALR => destruct Hag; apply lockstep_jalr; [done|done|run_special En]
      | OP_MULT => apply (lockstep_product _ true); [exact Hag|run_special En]
      | OP_MULTU => apply (lockstep_product _ false); [exact Hag|run_special En]
      | OP_DIV => destruct Hag; apply (lockstep_ext _ (div a b)); [run_special En|by apply lockstep_div]
      | OP_DIVU => apply (lockstep_ext _ (divu a b)); [run_special En|by apply lockstep_divu]
      | OP_ADD => eapply lockstep_rd; [run_special En|split; [exact Hag|reflexivity]|value Hag]
      | OP_SUB => eapply lockstep_rd; [run_special En|split; [exact Hag|reflexivity]|value Hag]
      | _ => eapply lockstep_rd; [run_special En|reflexivity|value Hag]
      end
  end.

Lemma special_lockstep :
  Z.land (Z.shiftr instr 26) 63 = 0 → agreed xpc instr s →
  lockstep (special host xpc instr) (execute handler (Decode (u32 instr))) s m.
Proof using Hagree Hnpc Hok.
  intros Eop Hag. unfold agreed in Hag. pose proof (Decode_instr instr SPECIAL RFMT) as ED.
  rewrite Eop in ED. specialize (ED eq_refl ltac:(discriminate)). rewrite ED in *. clear ED Eop.
  destruct (six_bits instr) as (n & Hn & En). rewrite En, Nat2Z.id in *. rewrite decide_True in * by done.
  do 64 (destruct n as [|n];
    [cbn [nth specialTable opCode] in *; cbv iota in Hag; first [destruct Hag; fail|special_case En Hag]|]).
  lia.
Qed.

(** The other instructions. *)
Lemma immed_is_int : is_int (immed instr).
Proof. pose proof (immed_range instr). unfold is_int. lia. Qed.

Ltac run_switch En :=
  unfold switch, mbind, Sim_bind, get; rewrite En; cbn [Z.of_nat Pos.of_succ_nat Pos.succ]; cbv beta iota zeta; reflexivity.
Ltac value_i Hag :=
  first [ same | apply same_lui
        | rewrite small_immediate by exact Hag; same
        | apply same_slt; [apply int_reg|apply immed_is_int|apply Hag|apply Hag] ].
Ltac switch_case En Hag :=
  lazymatch goal with
  | |- lockstep _ (execute _ (mkInstr ?op _ _ _ _)) _ _ =>
      lazymatch op with
      | OP_J => destruct Hag; apply lockstep_j; [done|done|run_switch En]
      | OP_JAL => destruct Hag; apply lockstep_jal; [done|done|run_switch En]
      | OP_BEQ => eapply lockstep_branch; [done|done|done|reflexivity|run_switch En]
      | OP_BNE => eapply lockstep_branch; [done|done|done|reflexivity|run_switch En]
      | OP_BLEZ => destruct Hag; eapply lockstep_branch; [done|done|done|split; [done|reflexivity]|run_switch En]
      | OP_BGTZ => destruct Hag; eapply lockstep_branch; [done|done|done|split; [done|reflexivity]|run_switch En]
      | OP_ADDI => eapply lockstep_rt; [run_switch En|split; [exact Hag|reflexivity]|value_i Hag]
      | _ => eapply lockstep_rt; [run_switch En|reflexivity|value_i Hag]
      end
  end.

Lemma bcond_lockstep :
  Z.land (Z.shiftr instr 26) 63 = 1 → agreed xpc instr s →
  lockstep (bcond xpc instr) (execute handler (Decode (u32 instr))) s m.
Proof using Hagree Hnpc Hok.
  intros Eop Hag. unfold agreed in Hag. rewrite (Decode_bcond instr Eop) in *. cbn [opCode] in *.
  pose proof (rt_bound instr) as Hn. remember (rt instr) as n eqn:En. symmetry in En.
  do 32 (destruct n as [|n]; [
    cbv iota in Hag |- *; first [destruct Hag; fail
      | rewrite <- En; eapply lockstep_branch; [done|done|done|reflexivity|]; unfold bcond; rewrite En; reflexivity
      | rewrite <- En; eapply lockstep_branch_link; [done|by auto|reflexivity|]; unfold bcond; rewrite En; reflexivity]|]).
  lia.
Qed.

Lemma switch_lockstep :
  agreed xpc instr s → lockstep (switch host xpc instr) (execute handler (Decode (u32 instr))) s m.
Proof using Hagree Hnpc Hok.
  intros Hag. destruct (six_bits (Z.shiftr instr 26)) as (n & Hn & En).
  destruct (decide (n = 0%nat)) as [->|H0].
  { apply (lockstep_ext _ (special host xpc instr)); [run_switch En|]. by apply special_lockstep. }
  destruct (decide (n = 1%nat)) as [->|H1].
  { apply (lockstep_ext _ (bcond xpc instr)); [run_switch En|]. by apply bcond_lockstep. }
  unfold agreed in Hag.
  destruct (nth n opTable (OP_RES, IFMT)) as [op fmt] eqn:Et.
  pose proof (Decode_instr instr op fmt) as ED. rewrite En, Nat2Z.id in ED. specialize (ED Et).
  destruct n as [|[|n]]; [exact (False_ind _ (H0 eq_refl))|exact (False_ind _ (H1 eq_refl))|].
  do 62 (destruct n as [|n];
    [cbn [nth opTable] in Et; injection Et as <- <-; rewrite (ED ltac:(discriminate)) in *; clear ED;
     rewrite decide_False in * by discriminate; cbn [opCode] in *; cbv iota in Hag;
     first [destruct Hag; fail|switch_case En Hag]|]).
  lia.
Qed.
End instructions.

(** ** Lock-step simulation *)

(** The interpreter's state when it has fetched an instruction. *)
Definition fetched (s : Interp) : Interp :=
  set_Reg (<[0%nat := 0]> (Reg s)) (set_npc (s32 (npc s + 4)) (set_pc (npc s) s)).

Lemma fetched_agree s m : corresponds s m → interp_ok (fetched s) ∧ agree_regs 0 (npc s) (fetched s) m.
Proof.
  intros [Hok Hm Ha H0 _]. split.
  - destruct Hok. split; cbn; try done; [by rewrite length_insert|by apply Forall_insert|apply s32_int].
  - destruct Ha as [A1 A2 A3 A4 A5 A6 A7 A8]. split; try done; [cbn; by rewrite length_insert|].
    intros r Hr. unfold fetched. cbn [Reg set_Reg]. destruct (decide (r = 0%nat)) as [->|Hn].
    + rewrite lookup_total_insert_eq by (rewrite A1; lia). done.
    + rewrite lookup_total_insert_ne by done. apply A4. lia.
Qed.

(** Skipping a no-op is the same as executing it. *)
Lemma switch_nop host xpc s : (0 < length (Reg s))%nat → switch host xpc 0 (fetched s) = Next () (fetched s).
Proof.
  intros Hl. change (switch host xpc 0 (fetched s)) with (put 0 (s32 (Z.shiftl (Reg (fetched s) !!! 0%nat) 0)) (fetched s)).
  unfold put, fetched. cbn [Reg set_Reg]. rewrite lookup_total_insert_eq by done.
  change (s32 (Z.shiftl 0 0)) with 0. by rewrite list_insert_insert_eq.
Qed.

Lemma cycle_switch host s instr :
  interp_ok s → fetch (pc s) s = Next instr s → cycle host s = switch host (pc s) instr (fetched s).
Proof.
  intros Hok Hf. unfold cycle.
  assert (fetch (pc s) (set_npc (s32 (npc s + 4)) (set_pc (npc s) s)) =
    Next instr (set_npc (s32 (npc s + 4)) (set_pc (npc s) s))) as E.
  { revert Hf. unfold fetch, fetch_bytes, mbind, Sim_bind. case_decide; [|done]. cbn. by intros [= ->]. }
  change (pc (set_pc (npc s) s)) with (npc s). cbv zeta. rewrite E.
  case_decide as H0; [|done]. subst. change (Next () (fetched s) = switch host (pc s) 0 (fetched s)).
  rewrite switch_nop; [done|]. rewrite (ok_Reg s Hok). lia.
Qed.

(** A successful [ReadMem] changes nothing but the tables. *)
Lemma ReadMem_tables handler addr m v m1 :
  machine_ok m → ReadMem handler addr 4 m = Ok (Some v, m1) → machine_ok m1 ∧ same_but_tables m m1.
Proof.
  intros Hm. unfold ReadMem. destruct (Translate_spec addr 4 false m Hm) as (r & m' & -> & Hm' & Hsame & Hr); [by auto|].
  rcbn. destruct r as [exn|p].
  - intros E. apply bind_Ok in E as (? & _ & [=]).
  - rewrite !decide_False, decide_True by done. intros E. apply bind_Ok in E as (w & _ & [= _ <-]). done.
Qed.

Section simulation.
Context (host : hostcall → gmap Z Z → Z * gmap Z Z) (handler : ExceptionType → Machine → Result Machine).

(** Both fetch [instr] next. *)
Definition same_fetch (s : Interp) (m : Machine) (instr : Z) : Prop :=
  fetch (pc s) s = Next instr s ∧ ∃ m1, ReadMem handler (s32 (u32 (pc s))) 4 m = Ok (Some instr, m1).

Lemma cycle_simulated s m instr :
  (∀ c mm, map_Forall (λ _, is_byte) mm → map_Forall (λ _, is_byte) (host c mm).2) →
  corresponds s m → same_fetch s m instr → agreed (pc s) instr (fetched s) →
  ∃ s' m', cycle host s = Next () s' ∧ OneInstruction handler m = Ok (Some (), m') ∧
    corresponds s' m' ∧ mem s' = mem s ∧ mainMemory m' = mainMemory m.
Proof.
  intros Hhost Hco [Hf (m1 & Hr)] Hag. destruct (fetched_agree s m Hco) as [Hok1 Ha1].
  destruct (ReadMem_tables _ _ _ _ _ (co_machine _ _ Hco) Hr) as (Hm1 & Er & Em & _).
  assert (agree_regs 0 (pc (fetched s)) (fetched s) m1) as Ha2.
  { change (pc (fetched s)) with (npc s). destruct Ha1. split; rewrite ?Er; assumption. }
  destruct (switch_lockstep host handler (pc s) instr (fetched s) m1 Hok1 Ha2 eq_refl Hag)
    as (s' & m2 & pcAfter & Es & Ex & Ha3 & Hpc & Hpa & Hmem & rs & ->).
  assert (interp_ok s') as Hok' by (pose proof (keeps_switch host Hhost (pc s) instr (fetched s) Hok1) as H; rewrite Es in H; apply H).
  rewrite <- Hpc in Ha3.
  assert (machine_ok (set_registers rs m1)) as Hm2.
  { exact (agree_machine_ok _ _ _ _ _ Ha3 Hm1). }
  destruct (advance_corresponds s' _ pcAfter Hok' Hm2 Ha3 Hpa) as (m' & Ea & Hco' & rs' & ->).
  exists s', (set_registers rs' (set_registers rs m1)).
  split; [by rewrite (cycle_switch host s instr (co_ok _ _ Hco) Hf)|]. split; [|split; [exact Hco'|]; split; [exact Hmem|exact Em]].
  unfold OneInstruction, mbind, Cpu_bind, Mips.get, reg. rewrite (co_pc _ _ Hco). rcbn. unfold read_mem. rewrite Hr.
  rewrite Ex. exact Ea.
Qed.

(** In the next [n] instructions both fetch the same words, and agree on them. *)
Fixpoint paired (n : nat) (s : Interp) (m : Machine) : Prop :=
  match n with
  | O => True
  | S n => ∃ instr, same_fetch s m instr ∧ agreed (pc s) instr (fetched s) ∧
      ∀ s' m', cycle host s = Next () s' → OneInstruction handler m = Ok (Some (), m') → paired n s' m'
  end.

(** C30: the two MIPS simulators compute the same.  From states whose registers,
    [HI], [LO] and program counters hold the same words, as long as both fetch
    the same instructions and these are ones on which they agree, the
    interpreter of bin/execute.c and [Machine::Run] reach such states again
    after every number of instructions: neither stops or takes an exception,
    and neither changes its memory. *)
Theorem simulators_agree n s m :
  (∀ c mm, map_Forall (λ _, is_byte) mm → map_Forall (λ _, is_byte) (host c mm).2) →
  corresponds s m → paired n s m →
  ∃ s' m', cycles host n s = Next () s' ∧ Run_loop handler n m = Ok m' ∧
    corresponds s' m' ∧ mem s' = mem s ∧ mainMemory m' = mainMemory m.
Proof.
  intros Hhost. revert s m. induction n as [|n IH]; intros s m Hco Hp.
  { exact (ex_intro _ s (ex_intro _ m (conj eq_refl (conj eq_refl (conj Hco (conj eq_refl eq_refl)))))). }
  destruct Hp as (instr & Hf & Hag & Hnext).
  destruct (cycle_simulated s m instr Hhost Hco Hf Hag) as (s1 & m1 & E1 & E2 & Hco1 & Hm1 & Hm2).
  destruct (IH s1 m1 Hco1 (Hnext s1 m1 E1 E2)) as (s' & m' & E3 & E4 & Hco' & Hm3 & Hm4).
  exists s', m'. cbn [cycles Run_loop]. unfold mbind at 1, Sim_bind at 1. rewrite E1, E2. rcbn.
  split; [exact E3|]. split; [exact E4|]. split; [exact Hco'|]. split; congruence.
Qed.
End simulation.

(** ** A run of both *)

(** [addu $3,$1,$2] at the address where the interpreter starts, in its memory
    and in frame 0 of a machine with a TLB; the operands are 5 and -3. *)
Definition addu_word : Z := encode_R 1 2 3 0 33.

Definition example_interp : Interp :=
  mkInterp (<[1%nat := 5]> (<[2%nat := -3]> (replicate 32 0))) 0 0 memoffset (memoffset + 4)
    (poke ∅ 0 (int_bytes addu_word)).

Definition example_machine : Machine :=
  mkMachine (<[1%nat := 5]> (<[2%nat := 4294967293]> (<[PCReg := memoffset]> (<[NextPCReg := memoffset + 4]>
      (replicate NumTotalRegs 0)))))
    (int_bytes addu_word ++ replicate 4092 0)
    (Some [mkEntry (memoffset `div` PageSize) 0 true false false false]) None 0 UserMode.

Lemma example_interp_ok : interp_ok example_interp.
Proof.
  split; try (by unfold is_int).
  - repeat (apply Forall_insert; [|by unfold is_int]). by apply Forall_replicate; unfold is_int.
  - apply poke_bytes; [apply map_Forall_empty|apply int_bytes_bytes].
Qed.

Lemma example_machine_ok : machine_ok example_machine.
Proof.
  split; cbn [registers mainMemory tlb pageTable pageTableSize example_machine].
  - done.
  - repeat (apply Forall_insert; [|by unfold word]). by apply Forall_replicate; unfold word.
  - by rewrite length_app, length_int_bytes, length_replicate.
  - apply Forall_app_2; [apply int_bytes_bytes|by apply Forall_replicate; unfold byte].
  - done.
  - by intros pt [=].
  - by repeat constructor.
  - intros v Hv. by injection Hv as <-.
Qed.

Lemma example_corresponds : corresponds example_interp example_machine.
Proof.
  split; [apply example_interp_ok|apply example_machine_ok| |done|done].
  split; try done; [apply example_machine_ok|].
  intros r Hr. assert (forallb (λ r, bool_decide (registers example_machine !! r = Some (u32 (Reg example_interp !!! r))))
    (seq 1 31) = true) as H by (by vm_compute).
  rewrite forallb_forall in H. apply (bool_decide_eq_true_1 _), H, in_seq. lia.
Qed.

Lemma example_fetch : same_fetch ExceptionHandler example_interp example_machine addu_word.
Proof.
  split; [apply fetch_word; [by vm_compute|by unfold is_int|by vm_compute]|].
  destruct (ReadMem ExceptionHandler (s32 (u32 (pc example_interp))) 4 example_machine) as [[[v|] m1]|] eqn:E;
    [exists m1|by vm_compute in E..].
  assert (v = addu_word) as -> by (vm_compute in E; by injection E as <- _). done.
Qed.

Lemma simulators_agree_witness :
  ∃ s' m', cycles (λ _ mm, (0, mm)) 1 example_interp = Next () s' ∧
    Run_loop ExceptionHandler 1 example_machine = Ok m' ∧ corresponds s' m'.
Proof.
  destruct (simulators_agree (λ _ mm, (0, mm)) ExceptionHandler 1 example_interp example_machine)
    as (s' & m' & E1 & E2 & Hco & _).
  - intros c mm Hmm. exact Hmm.
  - exact example_corresponds.
  - exact (ex_intro _ addu_word (conj example_fetch (conj I (λ _ _ _ _, I)))).
  - exact (ex_intro _ s' (ex_intro _ m' (conj E1 (conj E2 Hco)))).
Defined.

(** ** Where they differ *)

(** The [int] left in register [r], or in [LO] and [HI], by one instruction of
    the interpreter with [x] and [y] in registers 1 and 2. *)
Definition interp_result {A} (f : Interp → A) (instr x y : Z) : option A :=
  match switch (λ _ mm, (0, mm)) memoffset instr
      (mkInterp (<[1%nat := x]> (<[2%nat := y]> (replicate 32 0))) 0 0 memoffset (memoffset + 4) ∅) with
  | Next _ s => Some (f s)
  | Halted _ => None
  end.

(** [mult] of 0x1ffff by itself is 0x3fffc0001; the interpreter adds the two
    cross products without the carries out of their low halves, and leaves 1
    instead of 3 in [HI]. *)
Example interp_mult_high_word :
  interp_result (λ s, (HI s, LO s)) (encode_R 1 2 0 0 24) 131071 131071 = Some (1, s32 (131071 * 131071)) ∧
  131071 * 131071 = wide 3 (u32 (131071 * 131071)) ∧ Mult 131071 131071 true = (3, u32 (131071 * 131071)).
Proof. by vm_compute. Qed.

(** [lwl] at an aligned address should replace the register by the word; the
    interpreter shifts -1 to the right to make its mask, which leaves -1, and
    the word is or-ed into the old contents. *)
Example interp_lwl_keeps_old_bits : lwl 240 memoffset 15 = 255 ∧ merge_left 0 240 15 = 15.
Proof. by vm_compute. Qed.
