(* ===== verification/Disasm.v ===== *)
(** * The two disassemblers, bin/d.c with bin/opstrings.c, and machine/mipssim.h

    bin/d.c prints instructions for the listing tools of bin/ and for the trace
    of the interpreter; the table [opStrings] of machine/mipssim.h is what
    [OneInstruction] prints with the debugging flag 'm'.  Both are functions to
    strings here, and their texts are compared. *)

From Stdlib Require Import Ascii.
From stdpp Require Import strings pretty.
From S2P Require Import Prelude Bytes Word32 NachList Kernel Machine Mips Interp InterpMips.

Local Open Scope Z_scope.

Abbreviation text := String.string.
#[local] Infix "+++" := String.append (at level 60, right associativity).
Definition tab : text := String (Ascii.ascii_of_nat 9) EmptyString.
Definition newline : text := String (Ascii.ascii_of_nat 10) EmptyString.

(** ** [printf] *)

Definition hex_digit (d : Z) : Ascii.ascii :=
  Ascii.ascii_of_nat (Z.to_nat (if decide (d < 10) then 48 + d else 87 + d)).

(** The [n] low hexadecimal digits: %08x for [n] = 8 and a word. *)
Fixpoint hex_digits (n : nat) (z : Z) : text :=
  match n with
  | O => EmptyString
  | S n => hex_digits n (z `div` 16) +++ String (hex_digit (z `mod` 16)) EmptyString
  end.

Fixpoint strip_zeros (n : nat) (s : text) : text :=
  match n, s with
  | S n, String c s' => if decide (c = hex_digit 0) then strip_zeros n s' else s
  | _, _ => s
  end.

Definition hex8 (z : Z) : text := hex_digits 8 (u32 z).
(** %x *)
Definition hex (z : Z) : text := strip_zeros 7 (hex8 z).

(** A format whose conversions are all %d. *)
Fixpoint printf (format : text) (args : list Z) : text :=
  match format with
  | String "%"%char (String "d"%char format) =>
      match args with
      | z :: args => pretty z +++ printf format args
      | [] => printf format []
      end
  | String c format => String c (printf format args)
  | EmptyString => EmptyString
  end.

(** ** bin/opstrings.c *)

Definition normalops : list text := (
  ["special"; "bcond"; "j"; "jal"; "beq"; "bne"; "blez"; "bgtz";
   "addi"; "addiu"; "slti"; "sltiu"; "andi"; "ori"; "xori"; "lui";
   "cop0"; "cop1"; "cop2"; "cop3"; "024"; "025"; "026"; "027";
   "030"; "031"; "032"; "033"; "034"; "035"; "036"; "037";
   "lb"; "lh"; "lwl"; "lw"; "lbu"; "lhu"; "lwr"; "047";
   "sb"; "sh"; "swl"; "sw"; "054"; "055"; "swr"; "057";
   "lwc0"; "lwc1"; "lwc2"; "lwc3"; "064"; "065"; "066"; "067";
   "swc0"; "swc1"; "swc2"; "swc3"; "074"; "075"; "076"; "077"])%string.

Definition specialops : list text := (
  ["sll"; "001"; "srl"; "sra"; "sllv"; "005"; "srlv"; "srav";
   "jr"; "jalr"; "012"; "013"; "syscall"; "break"; "016"; "017";
   "mfhi"; "mthi"; "mflo"; "mtlo"; "024"; "025"; "026"; "027";
   "mult"; "multu"; "div"; "divu"; "034"; "035"; "036"; "037";
   "add"; "addu"; "sub"; "subu"; "and"; "or"; "xor"; "nor";
   "050"; "051"; "slt"; "sltu"; "054"; "055"; "056"; "057";
   "060"; "061"; "062"; "063"; "064"; "065"; "066"; "067";
   "070"; "071"; "072"; "073"; "074"; "075"; "076"; "077"])%string.

(** ** bin/d.c *)

Definition regstrings : list text := (
  ["0"; "r1"; "r2"; "r3"; "r4"; "r5"; "r6"; "r7"; "r8"; "r9";
   "r10"; "r11"; "r12"; "r13"; "r14"; "r15"; "r16"; "r17"; "r18"; "r19";
   "r20"; "r21"; "r22"; "r23"; "r24"; "r25"; "r26"; "r27"; "gp"; "sp";
   "r30"; "r31"])%string.

Definition R (i : nat) : text := nth i regstrings EmptyString.

(** The macros of bin/instr.h that only d.c uses. *)
Definition off26 (i : Z) : Z := Z.shiftl (Z.land i 67108863) 2.
Definition top4 (i : Z) : Z := Z.land i (Z.lnot 268435455).
Definition off16 (i : Z) : Z := Z.shiftl (immed i) 2.

(** What the calls of [printf] after the mnemonic print, comma by comma. *)
Inductive operand :=
| Register (r : nat)
| Hex (z : Z)
| Address (z : Z)
| Indexed (offset : Z) (r : nat).

Definition print_operand (o : operand) : text :=
  match o with
  | Register r => R r
  | Hex z => ("0x" +++ hex z)%string
  | Address z => hex8 z
  | Indexed offset r => ("0x" +++ hex offset +++ "(" +++ R r +++ ")")%string
  end.

Fixpoint print_operands (os : list operand) : text :=
  match os with
  | [] => EmptyString
  | [o] => print_operand o
  | o :: os => (print_operand o +++ "," +++ print_operands os)%string
  end.

(** The [switch] on the special opcode. *)
Definition special_operands (i : Z) : list operand :=
  match Z.land i 63 with
  | 0 | 2 | 3 => [Register (rd i); Register (rt i); Hex (shamt i)]
  | 4 | 6 | 7 => [Register (rd i); Register (rt i); Register (rs i)]
  | 8 | 9 | 18 | 19 => [Register (rs i)]
  | 12 | 13 => []
  | 16 | 17 => [Register (rd i)]
  | 24 | 25 | 26 | 27 => [Register (rs i); Register (rt i)]
  | 32 | 33 | 34 | 35 | 36 | 37 | 38 | 39 | 42 | 43 => [Register (rd i); Register (rs i); Register (rt i)]
  | _ => []
  end.

(** The [switch] on the normal opcode. *)
Definition normal_operands (i pc : Z) : list operand :=
  match Z.shiftr (u32 i) 26 with
  | 2 | 3 => [Address (Z.lor (top4 pc) (off26 i))]
  | 4 | 5 => [Register (rt i); Register (rs i); Address (off16 i + pc + 4)]
  | 8 | 9 | 10 | 11 | 12 | 13 | 14 => [Register (rt i); Register (rs i); Hex (immed i)]
  | 15 => [Register (rt i); Hex (immed i)]
  | 32 | 33 | 34 | 35 | 36 | 37 | 38 | 40 | 41 | 42 | 43 | 46 | 48 | 49 | 50 | 51 | 56 | 57 | 58 | 59 =>
      [Register (rt i); Indexed (immed i) (rs i)]
  | _ => []
  end.

(** The mnemonic and the operands of an instruction other than the no-op. *)
Definition disassemble (i pc : Z) : text * list operand :=
  let opcode := Z.shiftr (u32 i) 26 in
  if decide (opcode = 0) then (nth (Z.to_nat (Z.land i 63)) specialops EmptyString, special_operands i)
  else if decide (opcode = 1) then
    ((match rt i with
      | 0%nat => "bltz" | 1%nat => "bgez" | 16%nat => "bltzal" | 17%nat => "bgezal" | _ => "BCOND"
      end)%string,
     [Register (rs i); Address (off16 i + pc + 4)])
  else (nth (Z.to_nat opcode) normalops EmptyString, normal_operands i pc).

Definition dump_ascii (longdis : bool) (instruction pc : Z) : text :=
  (if longdis then hex8 pc +++ (": " +++ hex8 instruction +++ "  ")%string else EmptyString) +++ tab +++
  (if decide (instruction = 0) then "nop"%string
   else let '(name, os) := disassemble instruction pc in name +++ tab +++ print_operands os).

(** ** machine/mipssim.h *)

Inductive RegType := NONE | RS | RT | RD | EXTRA.

(** [opStrings[op]]; [SPECIAL] and [BCOND], which [Decode] never leaves, are
    outside the table. *)
Definition opString (op : opcode) : text * list RegType :=
  (match op with
  | OP_ADD => ("ADD r%d,r%d,r%d", [RD; RS; RT])
  | OP_ADDI => ("ADDI r%d,r%d,%d", [RT; RS; EXTRA])
  | OP_ADDIU => ("ADDIU r%d,r%d,%d", [RT; RS; EXTRA])
  | OP_ADDU => ("ADDU r%d,r%d,r%d", [RD; RS; RT])
  | OP_AND => ("AND r%d,r%d,r%d", [RD; RS; RT])
  | OP_ANDI => ("ANDI r%d,r%d,%d", [RT; RS; EXTRA])
  | OP_BEQ => ("BEQ r%d,r%d,%d", [RS; RT; EXTRA])
  | OP_BGEZ => ("BGEZ r%d,%d", [RS; EXTRA; NONE])
  | OP_BGEZAL => ("BGEZAL r%d,%d", [RS; EXTRA; NONE])
  | OP_BGTZ => ("BGTZ r%d,%d", [RS; EXTRA; NONE])
  | OP_BLEZ => ("BLEZ r%d,%d", [RS; EXTRA; NONE])
  | OP_BLTZ => ("BLTZ r%d,%d", [RS; EXTRA; NONE])
  | OP_BLTZAL => ("BLTZAL r%d,%d", [RS; EXTRA; NONE])
  | OP_BNE => ("BNE r%d,r%d,%d", [RS; RT; EXTRA])
  | OP_DIV => ("DIV r%d,r%d", [RS; RT; NONE])
  | OP_DIVU => ("DIVU r%d,r%d", [RS; RT; NONE])
  | OP_J => ("J %d", [EXTRA; NONE; NONE])
  | OP_JAL => ("JAL %d", [EXTRA; NONE; NONE])
  | OP_JALR => ("JALR r%d,r%d", [RD; RS; NONE])
  | OP_JR => ("JR r%d,r%d", [RD; RS; NONE])
  | OP_LB => ("LB r%d,%d(r%d)", [RT; EXTRA; RS])
  | OP_LBU => ("LBU r%d,%d(r%d)", [RT; EXTRA; RS])
  | OP_LH => ("LH r%d,%d(r%d)", [RT; EXTRA; RS])
  | OP_LHU => ("LHU r%d,%d(r%d)", [RT; EXTRA; RS])
  | OP_LUI => ("LUI r%d,%d", [RT; EXTRA; NONE])
  | OP_LW => ("LW r%d,%d(r%d)", [RT; EXTRA; RS])
  | OP_LWL => ("LWL r%d,%d(r%d)", [RT; EXTRA; RS])
  | OP_LWR => ("LWR r%d,%d(r%d)", [RT; EXTRA; RS])
  | OP_MFHI => ("MFHI r%d", [RD; NONE; NONE])
  | OP_MFLO => ("MFLO r%d", [RD; NONE; NONE])
  | OP_MTHI => ("MTHI r%d", [RS; NONE; NONE])
  | OP_MTLO => ("MTLO r%d", [RS; NONE; NONE])
  | OP_MULT => ("MULT r%d,r%d", [RS; RT; NONE])
  | OP_MULTU => ("MULTU r%d,r%d", [RS; RT; NONE])
  | OP_NOR => ("NOR r%d,r%d,r%d", [RD; RS; RT])
  | OP_OR => ("OR r%d,r%d,r%d", [RD; RS; RT])
  | OP_ORI => ("ORI r%d,r%d,%d", [RT; RS; EXTRA])
  | OP_RFE => ("RFE", [NONE; NONE; NONE])
  | OP_SB => ("SB r%d,%d(r%d)", [RT; EXTRA; RS])
  | OP_SH => ("SH r%d,%d(r%d)", [RT; EXTRA; RS])
  | OP_SLL => ("SLL r%d,r%d,%d", [RD; RT; EXTRA])
  | OP_SLLV => ("SLLV r%d,r%d,r%d", [RD; RT; RS])
  | OP_SLT => ("SLT r%d,r%d,r%d", [RD; RS; RT])
  | OP_SLTI => ("SLTI r%d,r%d,%d", [RT; RS; EXTRA])
  | OP_SLTIU => ("SLTIU r%d,r%d,%d", [RT; RS; EXTRA])
  | OP_SLTU => ("SLTU r%d,r%d,r%d", [RD; RS; RT])
  | OP_SRA => ("SRA r%d,r%d,%d", [RD; RT; EXTRA])
  | OP_SRAV => ("SRAV r%d,r%d,r%d", [RD; RT; RS])
  | OP_SRL => ("SRL r%d,r%d,%d", [RD; RT; EXTRA])
  | OP_SRLV => ("SRLV r%d,r%d,r%d", [RD; RT; RS])
  | OP_SUB => ("SUB r%d,r%d,r%d", [RD; RS; RT])
  | OP_SUBU => ("SUBU r%d,r%d,r%d", [RD; RS; RT])
  | OP_SW => ("SW r%d,%d(r%d)", [RT; EXTRA; RS])
  | OP_SWL => ("SWL r%d,%d(r%d)", [RT; EXTRA; RS])
  | OP_SWR => ("SWR r%d,%d(r%d)", [RT; EXTRA; RS])
  | OP_XOR => ("XOR r%d,r%d,r%d", [RD; RS; RT])
  | OP_XORI => ("XORI r%d,r%d,%d", [RT; RS; EXTRA])
  | OP_SYSCALL => ("SYSCALL", [NONE; NONE; NONE])
  | OP_UNIMP => ("Unimplemented", [NONE; NONE; NONE])
  | OP_RES => ("Reserved", [NONE; NONE; NONE])
  | SPECIAL | BCOND => ("Shouldn't happen", [NONE; NONE; NONE])
  end)%string.

Definition TypeToReg (reg : RegType) (instr : Instruction) : Z :=
  match reg with
  | RS => Z.of_nat (Mips.rs instr)
  | RT => Z.of_nat (Mips.rt instr)
  | RD => Z.of_nat (Mips.rd instr)
  | EXTRA => s32 (extra instr)
  | NONE => -1
  end.

(** What [OneInstruction] prints for an instruction at [pc] with the flag 'm'. *)
Definition trace (pc : Z) (instr : Instruction) : text :=
  ("At PC = 0x" +++ hex pc +++ ": ")%string +++
  printf (opString (opCode instr)).1 ((λ t, TypeToReg t instr) <$> (opString (opCode instr)).2) +++ newline.

(** ** The two texts *)

Definition lower_char (c : ascii) : ascii :=
  let n := nat_of_ascii c in if decide (65 ≤ n ≤ 90)%nat then ascii_of_nat (n + 32) else c.
Fixpoint lower (s : text) : text :=
  match s with EmptyString => EmptyString | String c s => String (lower_char c) (lower s) end.
Fixpoint first_word (s : text) : text :=
  match s with
  | EmptyString => EmptyString
  | String c s => if decide (c = " "%char) then EmptyString else String c (first_word s)
  end.

(** The registers named, in the order of the text. *)
Fixpoint named_registers (os : list operand) : list nat :=
  match os with
  | [] => []
  | (Register r | Indexed _ r) :: os => r :: named_registers os
  | (Hex _ | Address _) :: os => named_registers os
  end.
Fixpoint traced_registers (ts : list RegType) (instr : Instruction) : list nat :=
  match ts with
  | [] => []
  | RS :: ts => Mips.rs instr :: traced_registers ts instr
  | RT :: ts => Mips.rt instr :: traced_registers ts instr
  | RD :: ts => Mips.rd instr :: traced_registers ts instr
  | (EXTRA | NONE) :: ts => traced_registers ts instr
  end.

(** The instructions whose registers d.c prints otherwise. *)
Definition printed_otherwise : list opcode :=
  [OP_BEQ; OP_BNE; OP_BLEZ; OP_BGTZ; OP_JR; OP_JALR; OP_MFLO; OP_MTHI].

Definition texts_agree (i pc : Z) : Prop :=
  let instr := Decode (u32 i) in
  (disassemble i pc).1 = lower (first_word (opString (opCode instr)).1) ∧
  (opCode instr ∉ printed_otherwise →
   named_registers (disassemble i pc).2 = traced_registers (opString (opCode instr)).2 instr).

Lemma opcode_field i : Z.shiftr (u32 i) 26 = Z.land (Z.shiftr i 26) 63.
Proof.
  change 63 with (Z.ones 6). rewrite <- (field_same_word (u32 i) i 26 6) by (lia || apply u32_same).
  assert (0 ≤ Z.shiftr (u32 i) 26 < 2 ^ 6) as Hb.
  { rewrite Z.shiftr_div_pow2 by lia. pose proof (u32_range i).
    split; [apply Z.div_pos; lia|apply Z.div_lt_upper_bound; lia]. }
  by rewrite Z.land_ones, Z.mod_small by lia.
Qed.

(** Both sides of a case, computed. *)
Ltac compare_texts :=
  split; [vm_compute; reflexivity|];
  intros Hp; first [reflexivity|exfalso; apply Hp; unfold printed_otherwise; set_solver].

Lemma special_texts i pc :
  Z.land (Z.shiftr i 26) 63 = 0 → opCode (Decode (u32 i)) ≠ OP_UNIMP → opCode (Decode (u32 i)) ≠ OP_RES →
  texts_agree i pc.
Proof.
  intros Eop. unfold texts_agree, disassemble. rewrite opcode_field, Eop, decide_True by done. cbn [fst snd].
  pose proof (Decode_instr i SPECIAL RFMT) as ED. rewrite Eop in ED. specialize (ED eq_refl ltac:(discriminate)).
  rewrite ED, decide_True by done. cbn [opCode]. unfold special_operands.
  destruct (six_bits i) as (n & Hn & En). rewrite En, Nat2Z.id. clear ED Eop En. intros H1 H2.
  do 64 (destruct n as [|n];
    [cbn [nth specialTable] in H1, H2 |- *; first [exact (False_ind _ (H1 eq_refl))|exact (False_ind _ (H2 eq_refl))|
      compare_texts]|]).
  lia.
Qed.

Lemma bcond_texts i pc :
  Z.land (Z.shiftr i 26) 63 = 1 → opCode (Decode (u32 i)) ≠ OP_UNIMP → texts_agree i pc.
Proof.
  intros Eop. unfold texts_agree, disassemble.
  rewrite opcode_field, Eop, decide_False, decide_True by done. cbn [fst snd].
  rewrite (Decode_bcond i Eop). cbn [opCode]. pose proof (rt_bound i) as Hn. revert Hn. generalize (rt i). intros n Hn H1.
  do 32 (destruct n as [|n]; [cbv iota in H1 |- *; first [exact (False_ind _ (H1 eq_refl))|compare_texts]|]).
  lia.
Qed.

(** The mnemonic and the registers of every instruction that is executed. *)
Lemma texts_agree_executed i pc :
  opCode (Decode (u32 i)) ≠ OP_UNIMP → opCode (Decode (u32 i)) ≠ OP_RES → texts_agree i pc.
Proof.
  destruct (six_bits (Z.shiftr i 26)) as (n & Hn & En).
  destruct (decide (n = 0%nat)) as [->|H0]; [by apply special_texts|].
  destruct (decide (n = 1%nat)) as [->|H1]; [intros H1 _; by apply bcond_texts|].
  unfold texts_agree, disassemble, normal_operands.
  rewrite opcode_field, En, decide_False, decide_False by (intros E; lia). cbn [fst snd].
  destruct (nth n opTable (OP_RES, IFMT)) as [op fmt] eqn:Et.
  pose proof (Decode_instr i op fmt) as ED. rewrite En, Nat2Z.id in ED. specialize (ED Et). rewrite Nat2Z.id.
  destruct n as [|[|n]]; [exact (False_ind _ (H0 eq_refl))|exact (False_ind _ (H1 eq_refl))|].
  do 62 (destruct n as [|n];
    [cbn [nth opTable] in Et; injection Et as <- <-; rewrite (ED ltac:(discriminate)); clear ED;
     rewrite decide_False by discriminate; cbn [opCode]; intros Hu Hr;
     first [exact (False_ind _ (Hu eq_refl))|exact (False_ind _ (Hr eq_refl))|compare_texts]|]).
  lia.
Qed.

(** C32: for every instruction the simulator executes, the line d.c prints has
    the mnemonic of [opStrings], in lower case, and but for eight instructions
    names the same registers in the same order.  The word 0, which the simulator
    executes and shows as a shift of register 0, is printed as nop. *)
Theorem disassemblers_agree (longdis : bool) i pc :
  opCode (Decode (u32 i)) ≠ OP_UNIMP → opCode (Decode (u32 i)) ≠ OP_RES →
  let instr := Decode (u32 i) in
  ∃ (prefix : text) os,
    prefix = (if longdis then hex8 pc +++ (": " +++ hex8 i +++ "  ")%string else EmptyString) ∧
    dump_ascii longdis i pc = prefix +++ tab +++
      (if decide (i = 0) then "nop"%string
       else lower (first_word (opString (opCode instr)).1) +++ tab +++ print_operands os) ∧
    (i = 0 → opCode instr = OP_SLL ∧ traced_registers (opString (opCode instr)).2 instr = [0; 0]%nat) ∧
    (opCode instr ∉ printed_otherwise → named_registers os = traced_registers (opString (opCode instr)).2 instr).
Proof.
  intros Hu Hr. destruct (texts_agree_executed i pc Hu Hr) as [Hn Ho].
  eexists _, (disassemble i pc).2. split; [reflexivity|]. split; [|split; [by intros ->|exact Ho]].
  unfold dump_ascii. destruct (decide (i = 0)); [done|]. rewrite <- Hn. by destruct (disassemble i pc).
Qed.

Lemma disassemblers_agree_witness :
  ∃ prefix os, dump_ascii false addu_word memoffset = prefix +++ tab +++ "addu"%string +++ tab +++ print_operands os ∧
    named_registers os = [3; 1; 2]%nat.
Proof.
  destruct (disassemblers_agree false addu_word memoffset ltac:(by vm_compute) ltac:(by vm_compute))
    as (prefix & os & _ & E & _ & Ho).
  exists prefix, os. split; [exact E|]. rewrite Ho; [reflexivity|]. by apply (bool_decide_eq_true_1 _).
Defined.

(** The two texts of one instruction. *)
Example addu_texts :
  dump_ascii true addu_word memoffset = ("10000000: 00221821  " +++ tab +++ "addu" +++ tab +++ "r3,r1,r2")%string ∧
  trace memoffset (Decode (u32 addu_word)) = ("At PC = 0x10000000: ADDU r3,r1,r2" +++ newline)%string.
Proof. by vm_compute. Qed.

(** [mflo r5] moves [LO] to register 5; d.c prints the source field, which the
    instruction does not have.  [blez r5] is printed without operands. *)
Example mflo_wrong_register :
  dump_ascii false (encode_R 0 0 5 0 18) 0 = (tab +++ "mflo" +++ tab +++ "0")%string ∧
  dump_ascii false (encode_I 6 5 0 16) 0 = (tab +++ "blez" +++ tab)%string.
Proof. by vm_compute. Qed.
