(* ===== verification/Debugger.v ===== *)
(** * The debugger of machine/machine.cc and the loop of [Machine::Run]

    With [nachos -s] the loop of [Run] (machine/mipssim.cc) stops after an
    instruction, prints the state and reads a command.  After every instruction
    comes [interrupt->OneTick()], which is that of [Kernel.v]: interrupts are
    handled, and after a timer interrupt the thread yields and other threads run
    until it is scheduled again.  The terminal is the list of the lines [fgets]
    returns; what it leaves in the buffer at the end of the input is what memory
    held when the buffer was allocated, a function of the time. *)

From Stdlib Require Import Ascii.
From stdpp Require Import strings pretty.
From S2P Require Import Prelude Bytes Word32 NachList CommandLine Disasm Kernel KernelClock Machine Mips.

Local Open Scope Z_scope.
#[local] Infix "+++" := String.append (at level 60, right associativity).

(** ** [Machine::DumpState] *)

Definition dump_register (m : Machine) (i : nat) : text :=
  let v := hex (registers m !!! i) in
  let sep := (if decide (i `mod` 4 = 3)%nat then newline else "")%string in
  (if decide (i = StackReg) then tab +++ "SP(" +++ pretty i +++ "):" +++ tab +++ "0x" +++ v +++ sep
   else if decide (i = RetAddrReg) then tab +++ "RA(" +++ pretty i +++ "):" +++ tab +++ "0x" +++ v +++ sep
   else tab +++ pretty i +++ ":" +++ tab +++ "0x" +++ v +++ sep)%string.

Definition NumGPRegs : nat := 32.

Fixpoint dump_registers (m : Machine) (rs : list nat) : text :=
  match rs with
  | [] => EmptyString
  | i :: rs => dump_register m i +++ dump_registers m rs
  end.

Definition dump_named (m : Machine) (name : text) (r : nat) : text :=
  (tab +++ name +++ ":" +++ tab +++ "0x" +++ hex (registers m !!! r))%string.

Definition DumpState (m : Machine) : text :=
  ("Machine registers:" +++ newline +++ dump_registers m (seq 0 NumGPRegs) +++
   dump_named m "Hi" HiReg +++ dump_named m "Lo" LoReg +++ newline +++
   dump_named m "PC" PCReg +++ dump_named m "NextPC" NextPCReg +++ dump_named m "PrevPC" PrevPCReg +++ newline +++
   dump_named m "Load" LoadReg +++ dump_named m "LoadV" LoadValueReg +++ newline +++ newline)%string.

(** ** [Machine::Debugger] *)

Inductive shown :=
| InterruptState                      (**r [interrupt->DumpState()] *)
| MachineState (state : text)
| Prompt (time : Z)
| Help.

(** [sscanf(buf, "%d", &num)]: the number, if there is one. *)
Fixpoint scan_int (s : list Z) : option Z :=
  match s with
  | [] => None
  | c :: s' =>
      if is_space c then scan_int s'
      else
        let digits := if decide (c = 45 ∨ c = 43) then s' else s in
        match digits with
        | d :: _ => if is_digit d then Some (atoi s) else None
        | [] => None
        end
  end.

Section debugger.
Context {C : Client}.
Context (rnd : nat → Z) (randomize : bool).
Context (handler : ExceptionType → Machine → Result Machine).
(** The buffer at a given time, when the input is at its end. *)
Context (garbage : Z → list Z).

(** The machine, the kernel it runs in, the members of [Machine] that steer the
    debugger, the lines still to be read and what was printed. *)
Record debug := mkDebug {
  cpu : Machine;
  kern : kernel;
  singleStep : bool;
  runUntilTime : Z;
  stdin : list (list Z);
  screen : list shown;
}.

Definition clock (st : debug) : Z := totalTicks (stats (kern st)).

Definition Debugger (st : debug) : debug :=
  let buf := match stdin st with line :: _ => line | [] => garbage (clock st) end in
  let out := screen st ++ [InterruptState; MachineState (DumpState (cpu st)); Prompt (clock st)] in
  match scan_int buf with
  | Some num => mkDebug (cpu st) (kern st) (singleStep st) num (tail (stdin st)) out
  | None =>
      if decide (head buf = Some 99) then                  (* 'c' *)
        mkDebug (cpu st) (kern st) false 0 (tail (stdin st)) out
      else if decide (head buf = Some 63) then             (* '?' *)
        mkDebug (cpu st) (kern st) (singleStep st) 0 (tail (stdin st)) (out ++ [Help])
      else mkDebug (cpu st) (kern st) (singleStep st) 0 (tail (stdin st)) out
  end.

(** The kernel runs until thread [t] is current again and has returned from the
    calls above the [depth] frames it had. *)
Fixpoint settle (fuel : nat) (t depth : nat) (k : kernel) : Result kernel :=
  if bool_decide (currentThread k = t) && bool_decide (length ∘ stack <$> threads k !! t = Some depth) then mret k
  else
    match fuel with
    | O => Err OutOfFuel
    | S fuel => k ← kstep rnd randomize k; settle fuel t depth k
    end.

(** [interrupt->OneTick()] called by the current thread while the machine is in
    mode [m]; [fuel] bounds the steps other threads make when it yields. *)
Definition tick (fuel : nat) (m : MachineStatus) (k : kernel) : Result kernel :=
  th ← deref (threads k !! currentThread k);
  k' ← OneTick rnd randomize (set_mstatus m k);
  settle fuel (currentThread k) (length (stack th)) k'.

(** One round of the loop of [Run]. *)
Definition round (fuel : nat) (st : debug) : Result debug :=
  '(_, m) ← OneInstruction handler (cpu st);
  k ← tick fuel (mode m) (kern st);
  let st := mkDebug m k (singleStep st) (runUntilTime st) (stdin st) (screen st) in
  mret (if singleStep st && bool_decide (runUntilTime st ≤ clock st) then Debugger st else st).

Fixpoint rounds (fuel n : nat) (st : debug) : Result debug :=
  match n with
  | O => mret st
  | S n => st ← round fuel st; rounds fuel n st
  end.

(** [Machine::Run], [n] times round. *)
Definition Run (fuel n : nat) (st : debug) : Result debug :=
  rounds fuel n (mkDebug (set_mode UserMode (cpu st)) (kern st) (singleStep st) (runUntilTime st) (stdin st) (screen st)).

(** ** Specification *)

Inductive command := StepOnce | RunUntil (time : Z) | Continue.

Definition command_of (line : list Z) : command :=
  match scan_int line with
  | Some num => RunUntil num
  | None => if decide (head line = Some 99) then Continue else StepOnce
  end.

(** The times at which the commands are asked for, from time [now] on: at least
    one tick later and not before the time given. *)
Fixpoint prompt_times (now until : Z) (cmds : list command) : list Z :=
  match cmds with
  | [] => []
  | c :: cmds =>
      let t := Z.max (now + 1) until in
      t :: match c with
           | StepOnce => prompt_times t 0 cmds
           | RunUntil u => prompt_times t u cmds
           | Continue => []
           end
  end.

Definition prompts (out : list shown) : list Z :=
  omap (λ s, match s with Prompt t => Some t | _ => None end) out.

(** ** Programs run in user mode *)

Definition in_mode {A} (c : Cpu A) : Prop :=
  ∀ m a m', c m = Ok (a, m') → mode m = UserMode → mode m' = UserMode.

Lemma in_mode_ret {A} (a : A) : in_mode (mret a).
Proof. by intros m b m' [= _ <-]. Qed.

Lemma in_mode_bind {A B} (c : Cpu A) (f : A → Cpu B) : in_mode c → (∀ a, in_mode (f a)) → in_mode (c ≫= f).
Proof.
  intros Hc Hf m b m' H Hm. unfold mbind, Cpu_bind in H. destruct (c m) as [[[a|] m1]|] eqn:E; [| |done].
  - eapply Hf; [exact H|]. by eapply Hc.
  - injection H as _ <-. by eapply Hc.
Qed.

Lemma set_reg_mode r v m m' : set_reg r v m = Ok m' → mode m' = mode m.
Proof. unfold set_reg. intros H. by apply bind_Ok in H as (? & _ & [= <-]). Qed.

Lemma DelayedLoad_mode r v m m' : DelayedLoad r v m = Ok m' → mode m' = mode m.
Proof.
  unfold DelayedLoad. intros H. apply bind_Ok in H as (t & _ & H). apply bind_Ok in H as (x & _ & H).
  apply bind_Ok in H as (m1 & E1%set_reg_mode & H). apply bind_Ok in H as (m2 & E2%set_reg_mode & H).
  apply bind_Ok in H as (m3 & E3%set_reg_mode & H%set_reg_mode). congruence.
Qed.

Lemma in_mode_get r : in_mode (get r).
Proof. intros m a m' H. unfold get in H. by apply bind_Ok in H as (? & _ & [= _ <-]). Qed.
Lemma in_mode_put r v : in_mode (put r v).
Proof. intros m a m' H Hm. unfold put in H. apply bind_Ok in H as (m1 & E%set_reg_mode & [= _ <-]). congruence. Qed.
Lemma in_mode_assert b : in_mode (assert b).
Proof. intros m a m' H. unfold assert in H. by apply bind_Ok in H as (? & _ & [= _ <-]). Qed.

(** An exception ends in user mode, whatever the handler does. *)
Lemma RaiseException_mode which bad m m' : RaiseException handler which bad m = Ok m' → mode m' = UserMode.
Proof.
  unfold RaiseException. intros H. apply bind_Ok in H as (m1 & _ & H). apply bind_Ok in H as (m2 & _ & H).
  by apply bind_Ok in H as (m3 & _ & [= <-]).
Qed.

Lemma in_mode_raise {A} which bad : in_mode (A := A) (raise handler which bad).
Proof.
  intros m a m' H _. unfold raise in H. apply bind_Ok in H as (m1 & E & [= _ <-]). by eapply RaiseException_mode.
Qed.

Lemma Translate_mode addr size w m r m' : Translate addr size w m = Ok (r, m') → mode m' = mode m.
Proof.
  unfold Translate. intros H. destruct (_ || _); [by injection H as _ <-|].
  apply bind_Ok in H as (_ & _ & H). apply bind_Ok in H as (_ & _ & H). apply bind_Ok in H as (x & E & H).
  destruct x as [exn|[e p]]; [by injection H as _ <-|].
  destruct (readOnly e && w); [by injection H as _ <-|]. case_decide; [by injection H as _ <-|].
  apply bind_Ok in H as (_ & _ & [= _ <-]). unfold lookup_entry in E. destruct (tlb m).
  - destruct (find_tlb _ _ _) as [[? ?]|]; [|done]. by injection E as _ <-.
  - apply bind_Ok in E as (pt & _ & E). case_decide; [done|]. apply bind_Ok in E as (e' & _ & E).
    destruct (valid e'); [|done]. by injection E as _ <-.
Qed.

Lemma in_mode_read addr size : in_mode (read_mem handler addr size).
Proof.
  intros m a m' H Hm. unfold read_mem, ReadMem in H. apply bind_Ok in H as ([r m1] & E%Translate_mode & H).
  destruct r as [exn|p].
  - apply bind_Ok in H as (m2 & E2 & [= _ <-]). by eapply RaiseException_mode.
  - repeat case_decide; try done; apply bind_Ok in H as (v & _ & [= _ <-]); congruence.
Qed.

Lemma in_mode_write addr size v : in_mode (write_mem handler addr size v).
Proof.
  intros m a m' H Hm. unfold write_mem, WriteMem in H. apply bind_Ok in H as ([r m1] & E%Translate_mode & H).
  destruct r as [exn|p].
  - apply bind_Ok in H as (m2 & E2 & [= _ <-]). by eapply RaiseException_mode.
  - repeat case_decide; try done; apply bind_Ok in H as (x & _ & [= _ <-]); cbn; congruence.
Qed.

(** Go through a computation piece by piece. *)
Ltac go_keeps :=
  repeat match goal with
  | |- in_mode (get _) => apply in_mode_get
  | |- in_mode (put _ _) => apply in_mode_put
  | |- in_mode (assert _) => apply in_mode_assert
  | |- in_mode (raise _ _ _) => apply in_mode_raise
  | |- in_mode (read_mem _ _ _) => apply in_mode_read
  | |- in_mode (write_mem _ _ _ _) => apply in_mode_write
  | |- in_mode (mret _) => apply in_mode_ret
  | |- in_mode (_ ≫= _) => apply in_mode_bind; [|intros ?]
  | |- in_mode (if ?b then _ else _) => destruct b
  | |- in_mode (let '(_, _) := ?p in _) => destruct p
  end.

Lemma in_mode_exec_add i : in_mode (exec_add handler i).
Proof. unfold exec_add. destruct (opCode i); go_keeps. Qed.
Lemma in_mode_exec_branch i : in_mode (exec_branch i).
Proof. unfold exec_branch. destruct (opCode i); go_keeps. Qed.
Lemma in_mode_exec_div i : in_mode (exec_div i).
Proof. unfold exec_div. go_keeps. Qed.
Lemma in_mode_exec_jump i : in_mode (exec_jump i).
Proof. unfold exec_jump. destruct (opCode i); go_keeps. Qed.
Lemma in_mode_exec_load_part i : in_mode (exec_load_part handler i).
Proof. unfold exec_load_part. destruct (opCode i); go_keeps. Qed.
Lemma in_mode_exec_load_word i : in_mode (exec_load_word handler i).
Proof. unfold exec_load_word. destruct (opCode i); go_keeps. Qed.
Lemma in_mode_exec_move i : in_mode (exec_move i).
Proof. unfold exec_move. destruct (opCode i); go_keeps. Qed.
Lemma in_mode_exec_store i : in_mode (exec_store handler i).
Proof. unfold exec_store. destruct (opCode i); go_keeps. Qed.
Lemma in_mode_exec_shift i : in_mode (exec_shift handler i).
Proof. unfold exec_shift. destruct (opCode i); go_keeps. Qed.
Lemma in_mode_exec_logic i : in_mode (exec_logic i).
Proof. unfold exec_logic. destruct (opCode i); go_keeps. Qed.

Lemma in_mode_execute i : in_mode (execute handler i).
Proof.
  unfold execute. apply in_mode_bind; [apply in_mode_get|intros next].
  destruct (opCode i); go_keeps;
    auto using in_mode_exec_add, in_mode_exec_branch, in_mode_exec_div, in_mode_exec_jump, in_mode_exec_load_part,
      in_mode_exec_load_word, in_mode_exec_move, in_mode_exec_store, in_mode_exec_shift, in_mode_exec_logic.
Qed.

Lemma in_mode_advance a : in_mode (advance a).
Proof.
  intros m b m' H Hm. destruct a as [[pc r] v]. unfold advance in H.
  apply bind_Ok in H as (m1 & E1%DelayedLoad_mode & H). apply bind_Ok in H as (x & _ & H). apply bind_Ok in H as (y & _ & H).
  apply bind_Ok in H as (m2 & E2%set_reg_mode & H). apply bind_Ok in H as (m3 & E3%set_reg_mode & H).
  apply bind_Ok in H as (m4 & E4%set_reg_mode & [= _ <-]). congruence.
Qed.

Lemma in_mode_OneInstruction : in_mode (OneInstruction handler).
Proof.
  unfold OneInstruction. apply in_mode_bind; [apply in_mode_get|intros pc]. apply in_mode_bind; [apply in_mode_read|intros raw].
  apply in_mode_bind; [apply in_mode_execute|intros a; apply in_mode_advance].
Qed.
(** ** The debugger *)

Lemma Debugger_cpu st : cpu (Debugger st) = cpu st ∧ kern (Debugger st) = kern st.
Proof. unfold Debugger. destruct (scan_int _); [done|]. by repeat case_decide. Qed.

Lemma prompts_app l l' : prompts (l ++ l') = prompts l ++ prompts l'.
Proof. apply omap_app. Qed.

(** What a command does. *)
Lemma Debugger_command st line rest :
  stdin st = line :: rest →
  prompts (screen (Debugger st)) = prompts (screen st) ++ [clock st] ∧ stdin (Debugger st) = rest ∧
  singleStep (Debugger st) = match command_of line with Continue => false | _ => singleStep st end ∧
  runUntilTime (Debugger st) = match command_of line with RunUntil u => u | _ => 0 end.
Proof.
  intros E. unfold Debugger, command_of. rewrite E. destruct (scan_int line) as [num|].
  - cbn. by rewrite prompts_app.
  - repeat case_decide; cbn; rewrite !prompts_app, ?app_nil_r; split_and!; try done; congruence.
Qed.

(** No interrupt is pending and no time slice was asked for. *)
Definition quiet (k : kernel) : Prop :=
  pending (interrupt k) = [] ∧ yieldOnReturn (interrupt k) = false ∧ is_Some (threads k !! currentThread k).

(** Then time passes and nothing else happens. *)
Lemma tick_quiet fuel m k :
  quiet k → m ≠ SystemMode →
  ∃ k', tick fuel m k = Ok k' ∧ quiet k' ∧ totalTicks (stats k') = totalTicks (stats k) + 1.
Proof.
  intros (Hp & Hy & [th Hth]) Hm. unfold tick. rewrite Hth. rcbn.
  unfold OneTick, check_fuel. cbn [interrupt set_mstatus set_interrupt set_level set_stats pending mstatus stats].
  rewrite Hp, decide_False by done. cbn [length checkLoop]. unfold CheckIfDue.
  cbn [interrupt set_mstatus set_interrupt set_level set_stats pending mstatus stats level]. rewrite Hp.
  rewrite bool_decide_true by done. rcbn.
  cbn [interrupt set_mstatus set_interrupt set_level set_stats yieldOnReturn]. rewrite Hy.
  assert (∀ k1, threads k1 = threads k → currentThread k1 = currentThread k →
    settle fuel (currentThread k) (length (stack th)) k1 = Ok k1) as Hset.
  { intros k1 E1 E2. destruct fuel as [|fuel]; cbn [settle]; rewrite E1, E2, Hth;
      cbn [fmap option_fmap option_map compose]; by rewrite !bool_decide_true. }
  eexists. split; [by apply Hset|]. split; [|done]. split_and!; [done..|]. by exists th.
Qed.

(** One round in user mode. *)
Lemma round_spec fuel st st' :
  quiet (kern st) → mode (cpu st) = UserMode → round fuel st = Ok st' →
  ∃ m k, mode m = UserMode ∧ quiet k ∧ totalTicks (stats k) = clock st + 1 ∧
    let st1 := mkDebug m k (singleStep st) (runUntilTime st) (stdin st) (screen st) in
    st' = if singleStep st && bool_decide (runUntilTime st ≤ clock st + 1) then Debugger st1 else st1.
Proof.
  intros Hq Hm H. unfold round in H. apply bind_Ok in H as ([a m] & E & H).
  pose proof (in_mode_OneInstruction _ _ _ E Hm) as Hm'.
  destruct (tick_quiet fuel (mode m) (kern st) Hq) as (k & Ek & Hk & Et); [by rewrite Hm'|].
  rewrite Ek in H. apply bind_Ok in H as (k1 & [= <-] & [= <-]). exists m, k. split_and!; [done..|].
  cbv zeta. cbn [singleStep runUntilTime].
  assert (∀ c, totalTicks (stats k) = c → clock (mkDebug m k (singleStep st) (runUntilTime st) (stdin st) (screen st)) = c) as Hc
    by done. by rewrite (Hc _ Et).
Qed.

Lemma prompt_times_later now until cmds : Forall (λ t, now < t) (prompt_times now until cmds).
Proof.
  revert now until. induction cmds as [|c cmds IH]; intros now until; [constructor|]. cbn [prompt_times].
  constructor; [lia|]. destruct c as [|u|]; [..|constructor]; (eapply Forall_impl; [apply IH|]; cbn; lia).
Qed.

(** A tick without a prompt. *)
Lemma prompt_times_tick now until cmds :
  now + 1 < until → prompt_times (now + 1) until cmds = prompt_times now until cmds.
Proof. intros H. destruct cmds as [|c cmds]; [done|]. cbn [prompt_times]. by rewrite !Z.max_r by lia. Qed.

Lemma rounds_prompts fuel n st st' :
  quiet (kern st) → mode (cpu st) = UserMode → (n ≤ length (stdin st))%nat → rounds fuel n st = Ok st' →
  clock st' = clock st + Z.of_nat n ∧
  prompts (screen st') = prompts (screen st) ++
    if singleStep st
    then filter (λ t, t ≤ clock st + Z.of_nat n) (prompt_times (clock st) (runUntilTime st) (command_of <$> stdin st))
    else [].
Proof.
  revert st. induction n as [|n IH]; intros st Hq Hm Hn H; cbn [rounds] in H.
  { injection H as <-. split; [lia|]. destruct (singleStep st); [|by rewrite app_nil_r].
    assert (∀ l, Forall (λ t, clock st < t) l → filter (λ t, t ≤ clock st + Z.of_nat 0) l = []) as Hf
      by (induction 1; [done|]; rewrite filter_cons, decide_False by lia; done).
    by rewrite Hf, app_nil_r by apply prompt_times_later. }
  apply bind_Ok in H as (st1 & E & H).
  destruct (round_spec fuel st st1 Hq Hm E) as (m & k & Hm' & Hq' & Ek & Est1). cbn zeta in Est1.
  destruct (stdin st) as [|line rest] eqn:El; [cbn in Hn; lia|]. cbn [length] in Hn.
  destruct (singleStep st) eqn:Es; cbn [andb] in Est1; [case_bool_decide as Hu|].
  - destruct (Debugger_command (mkDebug m k true (runUntilTime st) (line :: rest) (screen st)) line rest eq_refl)
      as (H1 & H2 & H3 & H4).
    destruct (Debugger_cpu (mkDebug m k true (runUntilTime st) (line :: rest) (screen st))) as [H5 H6].
    rewrite <- Est1 in H1, H2, H3, H4, H5, H6. cbn [cpu kern singleStep runUntilTime stdin screen] in *.
    assert (clock st1 = clock st + 1) as Hc1 by (unfold clock at 1; by rewrite H6).
    change (clock (mkDebug m k true (runUntilTime st) (line :: rest) (screen st))) with (totalTicks (stats k)) in H1.
    rewrite Ek in H1.
    destruct (IH st1) as [Hc Hp]; [by rewrite H6|by rewrite H5|rewrite H2; lia|exact H|]. split; [lia|].
    rewrite Hp, H1, H2, H3, H4, Hc1, <- app_assoc. f_equal. cbn [fmap list_fmap prompt_times].
    rewrite Z.max_l, filter_cons, decide_True by lia. cbn [app]. f_equal.
    replace (clock st + Z.of_nat (S n)) with (clock st + 1 + Z.of_nat n) by lia. by destruct (command_of line).
  - subst st1. apply IH in H as [Hc Hp]; [|exact Hq'|exact Hm'|cbn; lia].
    change (clock (mkDebug m k _ _ _ _)) with (totalTicks (stats k)) in Hc, Hp.
    cbn [cpu kern singleStep runUntilTime stdin screen] in *.
    rewrite Ek in Hc, Hp. split; [lia|]. rewrite Hp, prompt_times_tick by lia.
    by replace (clock st + Z.of_nat (S n)) with (clock st + 1 + Z.of_nat n) by lia.
  - subst st1. apply IH in H as [Hc Hp]; [|exact Hq'|exact Hm'|cbn; lia].
    change (clock (mkDebug m k _ _ _ _)) with (totalTicks (stats k)) in Hc.
    cbn [cpu kern singleStep runUntilTime stdin screen] in *. rewrite Ek in Hc.
    split; [lia|]. exact Hp.
Qed.
End debugger.

(** ** Property *)

(** C34: [nachos -s] asks for commands at the times they say.  As long as no
    interrupt is pending (without -rs there is no timer, and no device is in
    use), the clock advances by one tick per instruction, the first prompt is at
    [runUntilTime] or after the first instruction, a number runs to that tick (or
    for one instruction when it has passed), [c] ends the prompts, and every
    other line executes one instruction.  There is a line for every instruction
    executed, and the time fits in an [int]. *)
Theorem debugger_prompts {C : Client} rnd randomize handler garbage fuel n st st' :
  quiet (kern st) → singleStep st = true → (n ≤ length (stdin st))%nat →
  Run rnd randomize handler garbage fuel n st = Ok st' →
  clock st' = clock st + Z.of_nat n ∧
  prompts (screen st') = prompts (screen st) ++
    filter (λ t, t ≤ clock st + Z.of_nat n) (prompt_times (clock st) (runUntilTime st) (command_of <$> stdin st)).
Proof.
  intros Hq Hs Hn H. unfold Run in H.
  apply rounds_prompts in H as [Hc Hp]; [|exact Hq|done|exact Hn]. cbn [singleStep screen runUntilTime stdin] in Hc, Hp.
  rewrite Hs in Hp. by split.
Qed.

(** ** Executions *)

(** A page of memory full of no-ops. *)
Definition idle_machine : Machine :=
  mkMachine (<[NextPCReg := 4]> (replicate NumTotalRegs 0)) (replicate (Z.to_nat MemorySize) 0) None
    (Some [mkEntry 0 0 true false false false]) 1 SystemMode.

Definition lines : list (list Z) :=
  [[10]; [53; 10]; [63; 10]; [51; 10]; [99; 10]; [10]; [10]; [10]; [10]; [10]; [10]; [10]].

#[local] Existing Instance no_client.

(** The thread of the program, on its own, without a timer or with one whose next
    interrupt is at time 3. *)
Definition alone (irqs : list (option PendingInterrupt * Z)) : kernel (C := no_client) :=
  mkKernel (C := no_client) {[0%nat := mkThread (C := no_client) RUNNING [FFinish] ()]} 1 0 None []
    (mkInterrupt IntOn irqs false false UserMode) (mkStats 0 0 0 0) ∅ ∅ ∅ () 0.

Definition timer_at_3 : option (PendingInterrupt (C := no_client)) * Z := (Some (mkPending HTimer 3 TimerInt), 3).

Definition session (until : Z) (commands : list (list Z)) : debug :=
  mkDebug idle_machine (alone []) true until commands [].

Definition prompts_of (garbage : list Z) (n : nat) (st : debug) : Result (list Z) :=
  prompts ∘ screen <$> Run (λ _, 0) false ExceptionHandler (λ _, garbage) 100 n st.

Lemma debugger_prompts_witness :
  ∃ st', Run (λ _, 0) false ExceptionHandler (λ _, []) 100 12 (session 0 lines) = Ok st' ∧
    prompts (screen st') = [1; 2; 5; 6; 7].
Proof.
  assert (∃ st', Run (λ _, 0) false ExceptionHandler (λ _, []) 100 12 (session 0 lines) = Ok st') as [st' E]
    by (eexists; vm_compute; reflexivity).
  exists st'. split; [exact E|].
  destruct (debugger_prompts (λ _, 0) false ExceptionHandler (λ _, []) 100 12 (session 0 lines) st')
    as [_ Hp]; [split_and!; [reflexivity|reflexivity|by eexists]|reflexivity|apply Nat.leb_le; reflexivity|exact E|].
  etrans; [exact Hp|]. vm_compute. reflexivity.
Defined.

(** With a timer the thread yields when its interrupt comes, which takes time of
    its own. *)
Example prompts_with_timer :
  prompts_of [] 5 (mkDebug idle_machine (alone [timer_at_3]) true 0 (replicate 5 [10]) []) = Ok [1; 2; 13; 14; 15].
Proof. vm_compute. reflexivity. Qed.

(** [runUntilTime] is not initialized: when memory held a large number there,
    [nachos -s] does not stop at all. *)
Example run_until_garbage : prompts_of [] 12 (session 1000 lines) = Ok [].
Proof. vm_compute. reflexivity. Qed.

(** At the end of the input the buffer decides: an empty one steps for ever. *)
Example end_of_input : prompts_of [] 3 (session 0 []) = Ok [1; 2; 3] ∧ prompts_of [99] 3 (session 0 []) = Ok [1].
Proof. by vm_compute. Qed.

Example dump_example :
  dump_registers idle_machine [3; 29]%nat +++ dump_named idle_machine "NextPC" NextPCReg =
  (tab +++ "3:" +++ tab +++ "0x0" +++ newline +++ tab +++ "SP(29):" +++ tab +++ "0x0" +++
   tab +++ "NextPC:" +++ tab +++ "0x4")%string.
Proof. vm_compute. reflexivity. Qed.
