(* ===== verification/Disk.v ===== *)
(** * machine/disk.cc and filesys/synchdisk.cc: the disk

    [Disk] is the device: its sectors (the UNIX file after the magic number),
    whether a request is in progress, where the head was sent last and since
    when the track buffer fills.  [ReadSector] and [WriteSector] are what
    [SynchDisk] makes of it for its caller: a request followed by the wait for
    its interrupt.  The times are [stats->totalTicks]. *)

From S2P Require Import Prelude Bytes.

Local Open Scope Z_scope.

Definition SectorSize : Z := 128.
Definition SectorsPerTrack : Z := 32.
Definition NumTracks : Z := 32.
Definition NumSectors : Z := SectorsPerTrack * NumTracks.

Definition RotationTime : Z := 500.
Definition SeekTime : Z := 500.

Record Disk := mkDisk {
  sectors : list (list Z);
  active : bool;
  lastSector : Z;
  bufferInit : Z;
}.

(** The time the seek takes, and then the time to the next sector boundary. *)
Definition TimeToSeek (totalTicks newSector : Z) (d : Disk) : Z * Z :=
  let newTrack := newSector `quot` SectorsPerTrack in
  let oldTrack := lastSector d `quot` SectorsPerTrack in
  let seek := Z.abs (newTrack - oldTrack) * SeekTime in
  let over := (totalTicks + seek) `rem` RotationTime in
  (seek, if decide (over > 0) then RotationTime - over else 0).

Definition ModuloDiff (to from : Z) : Z :=
  let toOffset := to `rem` SectorsPerTrack in
  let fromOffset := from `rem` SectorsPerTrack in
  ((toOffset - fromOffset) + SectorsPerTrack) `rem` SectorsPerTrack.

(** The test of [ComputeLatency] that the sector is in the track buffer. *)
Definition in_track_buffer (totalTicks newSector : Z) (writing : bool) (d : Disk) : bool :=
  let '(seek, rotation) := TimeToSeek totalTicks newSector d in
  let timeAfter := totalTicks + seek + rotation in
  negb writing && bool_decide (seek = 0) &&
  bool_decide ((timeAfter - bufferInit d) `quot` RotationTime
               > ModuloDiff newSector (bufferInit d `quot` RotationTime)).

Definition ComputeLatency (totalTicks newSector : Z) (writing : bool) (d : Disk) : Z :=
  let '(seek, rotation) := TimeToSeek totalTicks newSector d in
  let timeAfter := totalTicks + seek + rotation in
  if in_track_buffer totalTicks newSector writing d then RotationTime
  else
    let rotation := rotation + ModuloDiff newSector (timeAfter `quot` RotationTime) * RotationTime in
    seek + rotation + RotationTime.

Definition UpdateLast (totalTicks newSector : Z) (d : Disk) : Disk :=
  let '(seek, rotate) := TimeToSeek totalTicks newSector d in
  mkDisk (sectors d) (active d) newSector
    (if decide (seek = 0) then bufferInit d else totalTicks + seek + rotate).

(** The requests: the data moves at once, the interrupt is due after the
    latency, which is returned. *)
Definition set_active (b : bool) (d : Disk) : Disk :=
  mkDisk (sectors d) b (lastSector d) (bufferInit d).

Definition sector_ok (s : Z) : bool := bool_decide (0 ≤ s) && bool_decide (s < NumSectors).

Definition ReadRequest (totalTicks sectorNumber : Z) (d : Disk) : Result (list Z * Z * Disk) :=
  let ticks := ComputeLatency totalTicks sectorNumber false d in
  ASSERT (negb (active d));;
  ASSERT (sector_ok sectorNumber);;
  data ← deref (sectors d !! Z.to_nat sectorNumber);
  mret (data, ticks, UpdateLast totalTicks sectorNumber (set_active true d)).

Definition WriteRequest (totalTicks sectorNumber : Z) (data : list Z) (d : Disk) : Result (Z * Disk) :=
  let ticks := ComputeLatency totalTicks sectorNumber true d in
  ASSERT (negb (active d));;
  ASSERT (sector_ok sectorNumber);;
  data ← bytes_at 0 (Z.to_nat SectorSize) data;
  let d := mkDisk (<[Z.to_nat sectorNumber := data]> (sectors d)) true (lastSector d) (bufferInit d) in
  mret (ticks, UpdateLast totalTicks sectorNumber d).

(** [Disk::HandleInterrupt], whose handler is the [V] of [SynchDisk]. *)
Definition HandleInterrupt (d : Disk) : Disk := set_active false d.

(** [SynchDisk::ReadSector] and [WriteSector] on the device: the request, and
    the wait for its interrupt. *)
Definition SynchDisk_ReadSector (totalTicks sectorNumber : Z) (d : Disk) : Result (list Z * Disk) :=
  '(data, ticks, d) ← ReadRequest totalTicks sectorNumber d;
  mret (data, HandleInterrupt d).

Definition SynchDisk_WriteSector (totalTicks sectorNumber : Z) (data : list Z) (d : Disk) : Result Disk :=
  '(ticks, d) ← WriteRequest totalTicks sectorNumber data d;
  mret (HandleInterrupt d).

(** ** What the file system sees: an array of sectors *)

Definition ReadSector (sectorNumber : Z) (ds : list (list Z)) : Result (list Z) :=
  ASSERT (sector_ok sectorNumber);;
  deref (ds !! Z.to_nat sectorNumber).

Definition WriteSector (sectorNumber : Z) (data : list Z) (ds : list (list Z)) : Result (list (list Z)) :=
  ASSERT (sector_ok sectorNumber);;
  data ← bytes_at 0 (Z.to_nat SectorSize) data;
  mret (<[Z.to_nat sectorNumber := data]> ds).

(** The disk has [NumSectors] sectors of [SectorSize] bytes. *)
Definition is_sector (s : list Z) : Prop := length s = Z.to_nat SectorSize ∧ Forall is_byte s.
Definition disk_wf (ds : list (list Z)) : Prop :=
  length ds = Z.to_nat NumSectors ∧ Forall is_sector ds.

Lemma sector_ok_true s : sector_ok s = true ↔ 0 ≤ s < NumSectors.
Proof. unfold sector_ok. rewrite andb_true_iff, !bool_decide_eq_true. done. Qed.

Lemma ReadSector_Ok s ds :
  disk_wf ds → 0 ≤ s < NumSectors →
  ∃ data, ReadSector s ds = Ok data ∧ ds !! Z.to_nat s = Some data ∧ is_sector data.
Proof.
  intros [Hl Hs] Hr. unfold ReadSector. rewrite (proj2 (sector_ok_true s)) by done. rcbn.
  destruct (lookup_lt_is_Some_2 ds (Z.to_nat s)) as [data Hd]; [lia|].
  rewrite Hd. exists data. split_and!; [done..|]. by eapply Forall_lookup_1 in Hs.
Qed.

Lemma WriteSector_Ok s data ds :
  0 ≤ s < NumSectors → length data = Z.to_nat SectorSize →
  WriteSector s data ds = Ok (<[Z.to_nat s := data]> ds).
Proof.
  intros Hr Hd. unfold WriteSector. rewrite (proj2 (sector_ok_true s)) by done. rcbn.
  destruct (bytes_at_Ok 0 (Z.to_nat SectorSize) data) as [-> _]; [lia|rewrite Hd; lia|]. rcbn.
  by rewrite drop_0, take_ge by lia.
Qed.

Lemma disk_wf_insert s data ds : disk_wf ds → is_sector data → disk_wf (<[s := data]> ds).
Proof. intros [??] ?. split; [by rewrite length_insert|by apply Forall_insert]. Qed.

Lemma UpdateLast_fields totalTicks s d :
  sectors (UpdateLast totalTicks s d) = sectors d ∧ active (UpdateLast totalTicks s d) = active d ∧
  lastSector (UpdateLast totalTicks s d) = s.
Proof. unfold UpdateLast. by destruct (TimeToSeek totalTicks s d). Qed.

(** The wait for an interrupt is never empty, whatever the time. *)
Lemma ComputeLatency_pos totalTicks s writing d :
  0 ≤ s → RotationTime ≤ ComputeLatency totalTicks s writing d.
Proof.
  intros Hs. unfold ComputeLatency, in_track_buffer, TimeToSeek, RotationTime, SeekTime.
  set (seek := Z.abs _ * 500). assert (0 ≤ seek) by (unfold seek; lia). clearbody seek.
  set (rot := if decide _ then _ else _).
  assert (0 ≤ rot).
  { unfold rot. pose proof (Z.rem_bound_abs (totalTicks + seek) 500). case_decide; lia. }
  clearbody rot. case_match; [lia|].
  enough (0 ≤ ModuloDiff s ((totalTicks + seek + rot) `quot` 500)) by lia.
  unfold ModuloDiff, SectorsPerTrack. generalize ((totalTicks + seek + rot) `quot` 500). intros n.
  pose proof (Z.rem_bound_abs n 32). pose proof (Z.rem_nonneg s 32). apply Z.rem_nonneg; lia.
Qed.

(** ** Properties *)

(** From an idle device, [SynchDisk::ReadSector] and [WriteSector] return
    exactly what reading and writing an array of sectors gives, errors
    included, whatever the time and the position of the head, and leave the
    device idle; a second request while one is in progress fails the
    [ASSERT]. *)
Theorem SynchDisk_refines_array totalTicks s data d :
  (active d = false →
    (SynchDisk_ReadSector totalTicks s d =
      (x ← ReadSector s (sectors d);
       mret (x, set_active false (UpdateLast totalTicks s d)))) ∧
    (sectors <$> SynchDisk_WriteSector totalTicks s data d = WriteSector s data (sectors d)) ∧
    (∀ d', SynchDisk_WriteSector totalTicks s data d = Ok d' → active d' = false)) ∧
  (active d = true →
    SynchDisk_ReadSector totalTicks s d = Err AssertFailed ∧
    SynchDisk_WriteSector totalTicks s data d = Err AssertFailed).
Proof.
  unfold SynchDisk_ReadSector, SynchDisk_WriteSector, ReadRequest, WriteRequest, ReadSector,
    WriteSector. split; intros ->; [|done]. rcbn.
  destruct (sector_ok s); rcbn; [|done]. split_and!.
  - by destruct (_ !! _).
  - by destruct (bytes_at _ _ _).
  - intros d' H. by destruct (bytes_at _ _ _); invert_ok.
Qed.

Lemma track_bound s : 0 ≤ s < NumSectors → 0 ≤ s `div` SectorsPerTrack < NumTracks.
Proof. unfold NumSectors, NumTracks, SectorsPerTrack. intros. dlia. Qed.

Lemma ModuloDiff_spec to from :
  0 ≤ to → 0 ≤ from →
  0 ≤ ModuloDiff to from < SectorsPerTrack ∧
  (from + ModuloDiff to from) `mod` SectorsPerTrack = to `mod` SectorsPerTrack.
Proof.
  intros. unfold ModuloDiff, SectorsPerTrack. rewrite !(Z.rem_mod_nonneg _ 32) by dlia. dlia.
Qed.

Section latency.
Context (totalTicks newSector : Z) (d : Disk).
Hypothesis Htime : 0 ≤ totalTicks.
Hypothesis Hsector : 0 ≤ newSector < NumSectors.
Hypothesis Hlast : 0 ≤ lastSector d < NumSectors.

Lemma TimeToSeek_spec :
  let '(seek, rotation) := TimeToSeek totalTicks newSector d in
  seek = SeekTime * Z.abs (newSector `div` SectorsPerTrack - lastSector d `div` SectorsPerTrack) ∧
  0 ≤ rotation < RotationTime ∧
  (totalTicks + seek + rotation) `mod` RotationTime = 0.
Proof.
  unfold TimeToSeek, SeekTime, RotationTime, SectorsPerTrack, NumSectors in *.
  rewrite !Z.quot_div_nonneg by lia. rewrite Z.rem_mod_nonneg by lia.
  case_decide; split_and!; dlia.
Qed.
End latency.

(** At time [at_time], [newSector] has just passed under the head. *)
Definition passed (at_time newSector : Z) : Prop :=
  at_time `mod` RotationTime = 0 ∧
  (at_time `div` RotationTime - 1) `mod` SectorsPerTrack = newSector `mod` SectorsPerTrack.

(** The first multiple of [RotationTime] after [A] in a given slot. *)
Lemma first_pass A q D B :
  A = q * RotationTime → 0 ≤ D < SectorsPerTrack → A < B → B `mod` RotationTime = 0 →
  (B `div` RotationTime - 1) `mod` SectorsPerTrack = (q + D) `mod` SectorsPerTrack →
  A + D * RotationTime + RotationTime ≤ B.
Proof.
  unfold RotationTime, SectorsPerTrack. intros HA HD Hlt H0 Heq.
  destruct (Z.mod_divide B 500) as [[k Hk] _]; [lia|done|].
  rewrite Hk, Z.div_mul in Heq by lia. clear H0. subst A B.
  assert (q < k) by lia. clear Hlt.
  enough (q + D + 1 ≤ k) by lia. dlia.
Qed.

(** [ComputeLatency] of a write is seek time plus the shortest wait: at
    the end of it the sector has just passed under the head, no earlier time
    that leaves room for the seek and for one sector's transfer has this
    property, and it is under 64 sector times plus one rotation slot.  A read
    takes one sector time if the track buffer has the sector, and the same as
    a write otherwise. *)
Theorem ComputeLatency_least totalTicks newSector d :
  0 ≤ totalTicks → 0 ≤ newSector < NumSectors → 0 ≤ lastSector d < NumSectors →
  let seek := (TimeToSeek totalTicks newSector d).1 in
  let t := ComputeLatency totalTicks newSector true d in
  seek = SeekTime * Z.abs (newSector `div` SectorsPerTrack - lastSector d `div` SectorsPerTrack) ∧
  seek + RotationTime ≤ t < 64 * RotationTime ∧
  passed (totalTicks + t) newSector ∧
  (∀ t', seek + RotationTime ≤ t' → passed (totalTicks + t') newSector → t ≤ t') ∧
  ComputeLatency totalTicks newSector false d =
    (if in_track_buffer totalTicks newSector false d then RotationTime else t).
Proof.
  intros Ht Hs Hl. pose proof (TimeToSeek_spec totalTicks newSector d Ht Hs Hl) as HT.
  unfold ComputeLatency, in_track_buffer, passed.
  destruct (TimeToSeek totalTicks newSector d) as [seek rotation]. destruct HT as (Hseek & Hrot & Hmod).
  cbn [fst negb andb]. set (A := totalTicks + seek + rotation) in *.
  assert (0 ≤ seek ≤ 31 * SeekTime) as Hsb.
  { pose proof (track_bound _ Hs). pose proof (track_bound _ Hl).
    rewrite Hseek. unfold SeekTime, NumTracks in *. clear -H H0.
    generalize dependent (newSector `div` SectorsPerTrack).
    generalize dependent (lastSector d `div` SectorsPerTrack). lia. }
  unfold RotationTime in *. rewrite (Z.quot_div_nonneg A) by lia.
  destruct (ModuloDiff_spec newSector (A `div` 500)) as [Hm1 Hm2]; [lia|apply Z.div_pos; lia|].
  set (D := ModuloDiff newSector (A `div` 500)) in *.
  destruct (Z.mod_divide A 500) as [[q Hq] _]; [lia|done|].
  assert (A `div` 500 = q) as HA by (rewrite Hq; apply Z.div_mul; lia). rewrite HA in Hm2.
  replace (totalTicks + (seek + (rotation + D * 500) + 500)) with ((q + D + 1) * 500)
    by (clear -Hq; unfold A in Hq; lia).
  rewrite Z.mod_mul, Z.div_mul by done. split_and!.
  - done.
  - clear -Hrot Hm1. lia.
  - clear -Hrot Hm1 Hsb. unfold SectorsPerTrack, SeekTime in *. lia.
  - done.
  - rewrite <- Hm2. f_equal. clear. lia.
  - intros t' Ht' [Hp1 Hp2].
    assert (A < totalTicks + t') as Hlt by (clear -Ht' Hrot; unfold A; lia).
    rewrite <- Hm2 in Hp2. pose proof (first_pass A q D _ Hq Hm1 Hlt Hp1 Hp2) as Hf.
    clear -Hf. unfold A, RotationTime in Hf. lia.
  - case_bool_decide; cbn [andb]; [|done]. case_bool_decide; done.
Qed.

Lemma ComputeLatency_least_witness :
  let d := mkDisk [] false 5 0 in
  ComputeLatency 1234 70 true d = 2266 ∧
  ∀ t', 1500 ≤ t' → passed (1234 + t') 70 → 2266 ≤ t'.
Proof.
  intros d. split; [reflexivity|]. intros t' H1 H2.
  destruct (ComputeLatency_least 1234 70 d) as (_ & _ & _ & H & _);
    [lia|vm_compute; split; congruence|vm_compute; split; congruence|].
  exact (H t' H1 H2).
Defined.
