(* ===== verification/SynchDisk.v ===== *)
(** * filesys/synchdisk.cc among threads

    Threads that call [SynchDisk::ReadSector] and [WriteSector] of one disk,
    as a client of the kernel: the lock ("synch disk lock") is lock 0, the
    semaphore ("synch disk") is semaphore 0, and the disk is the device whose
    interrupt runs [Disk::HandleInterrupt] and through it
    [SynchDisk::RequestDone].  [Disk.v] has the device and the array of sectors
    the calls amount to. *)

From S2P Require Import Prelude NachList Bytes Kernel KernelInv KernelSpec KernelMachine KernelLocks Disk.

Local Open Scope Z_scope.

(** What a thread asks for, and what it got: the data in its buffer. *)
Inductive op := OpRead (sector : Z) | OpWrite (sector : Z) (data : list Z).
Inductive event := DidRead (sector : Z) (data : list Z) | DidWrite (sector : Z) (data : list Z).

(** The thread of program [index] has made these calls, the last of which may
    not have returned. *)
Record caller := mkCaller { index : nat; did : list event }.

Inductive place :=
| Boot (programs : list (list op))              (**r [new SynchDisk] *)
| Start (n : nat) (programs : list (list op))   (**r forks a thread for program [n] and those after it *)
| At (me : caller) (ops : list op)              (**r between two operations *)
| Locked (me : caller) (o : op) (ops : list op) (**r after [lock->Acquire()] *)
| Requested (me : caller) (ops : list op)       (**r after the request *)
| Finished (me : caller) (ops : list op).       (**r after [semaphore->P()] *)

(** [history] is not a variable of the program: the requests in their order. *)
Record vars := mkVars { disk : Disk; history : list (nat * event) }.

Definition lock : nat := 0.
Definition semaphore : nat := 0.

Definition outcome : Type := vars * place * call place unit.

(** A request was made, with this result. *)
Definition did_request (me : caller) (e : event) (ops : list op) (ticks : Z) (d : Disk) (g : vars) : outcome :=
  (mkVars d (history g ++ [(index me, e)]), Requested (mkCaller (index me) (did me ++ [e])) ops,
   CSchedule () ticks DiskInt).

(** [disk->ReadRequest] or [disk->WriteRequest], which ends in
    [interrupt->Schedule(DiskDone, ..., ticks, DiskInt)]. *)
Definition Request (now : Z) (me : caller) (o : op) (ops : list op) (g : vars) : Result outcome :=
  match o with
  | OpRead s =>
      '(data, ticks, d) ← ReadRequest now s (disk g);
      mret (did_request me (DidRead s data) ops ticks d g)
  | OpWrite s data =>
      '(ticks, d) ← WriteRequest now s data (disk g);
      mret (did_request me (DidWrite s data) ops ticks d g)
  end.

Definition resume_at (now : Z) (pc : place) (g : vars) : Result outcome :=
  match pc with
  | Boot ps => mret (g, Start 0 ps, CNewSem semaphore 0)
  | Start n [] => mret (g, Start n [], CReturn)
  | Start n (p :: ps) => mret (g, Start (S n) ps, CFork (At (mkCaller n []) p))
  | At me [] => mret (g, At me [], CReturn)
  | At me (o :: ops) => mret (g, Locked me o ops, CAcquire lock)
  | Locked me o ops => Request now me o ops g
  | Requested me ops => mret (g, Finished me ops, CP semaphore)
  | Finished me ops => mret (g, At me ops, CRelease lock)
  end.

(** [DiskDone]: [HandleInterrupt], whose handler [DiskRequestDone] calls
    [RequestDone]: [semaphore->V()]. *)
Definition DiskDone (g : vars) : vars * list (unit * Z * IntType) * list nat :=
  (mkVars (HandleInterrupt (disk g)) (history g), [], [semaphore]).

#[global] Instance client : Client := {
  local := place;
  globals := vars;
  device := unit;
  client_step _ now pc g := resume_at now pc g;
  device_handler _ g := Ok (DiskDone g);
}.

Lemma Request_Ok now me o ops g g' pc' c :
  Request now me o ops g = Ok (g', pc', c) →
  Disk.active (disk g) = false ∧ Disk.active (disk g') = true ∧ (∃ me', pc' = Requested me' ops) ∧
  ∃ ticks, c = CSchedule () ticks DiskInt.
Proof.
  unfold Request, ReadRequest, WriteRequest, did_request. intros H.
  destruct o as [s|s data]; invert_ok;
    (split_and!; [by apply negb_true_iff|done|by eexists|by eexists]).
Qed.

#[global] Instance client_sane : SaneClient.
Proof.
  intros t now pc g g' pc' s v H. cbn in H.
  destruct pc as [?|n []|me []|me o ops|? ?|? ?]; cbn in H; try (injection H; intros; lia || done).
  by apply Request_Ok in H as (_ & _ & _ & ? & ?).
Qed.

(** ** The lock *)

Definition place_holds (pc : place) : gset nat :=
  match pc with Locked _ _ _ | Requested _ _ | Finished _ _ => {[lock]} | _ => ∅ end.

Lemma SynchDisk_holds_call now pc g g' pc' c :
  resume_at now pc g = Ok (g', pc', c) → lock_call place_holds (place_holds pc) c (place_holds pc').
Proof.
  intros H. destruct pc as [?|n []|me []|me o ops|? ?|? ?]; cbn in H; try (injection H as <- <- <-; cbn; set_solver).
  by apply Request_Ok in H as (_ & _ & [? ->] & ? & ->).
Qed.

#[global] Instance discipline : LockDiscipline client.
Proof. exists place_holds. intros t now pc g g' pc' c H. by eapply SynchDisk_holds_call. Defined.

(** ** The protocol of the interrupt and the semaphore *)

(** The calls a thread can be inside of, place by place. *)
Inductive shape : list frame → place → Prop :=
| shape_client pc : shape [FClient] pc
| shape_acquire me o ops : shape [FAcquire lock; FClient] (Locked me o ops)
| shape_P me o ops : shape [FP (LockSem lock); FOwner lock; FClient] (Locked me o ops)
| shape_owner me o ops : shape [FOwner lock; FClient] (Locked me o ops)
| shape_wait me ops : shape [FP (SemId semaphore); FClient] (Finished me ops)
| shape_release me ops : shape [FRelease lock; FClient] (At me ops)
| shape_V me ops : shape [FV (LockSem lock); FClient] (At me ops).

(** The thread made a request and has not taken the unit of its interrupt. *)
Definition waits (ws : list frame) (pc : place) : bool :=
  match pc with
  | Requested _ _ => true
  | Finished _ _ => bool_decide (ws = [FP (SemId semaphore); FClient])
  | _ => false
  end.

(** The disk, the interrupt and the semaphore: idle, busy with a request, or
    done with the unit of [V] not taken yet. *)
Inductive phase := Idle | Busy | Served.

Abbreviation machine := (amachine (C := client)).

Definition phase_of (p : phase) (a : machine) : Prop :=
  match p with
  | Idle => Disk.active (disk (aglobals a)) = false ∧ irqs a = [] ∧ avalues a !! SemId semaphore = Some 0
  | Busy => Disk.active (disk (aglobals a)) = true ∧ irqs a = [((), DiskInt)] ∧ avalues a !! SemId semaphore = Some 0
  | Served => Disk.active (disk (aglobals a)) = false ∧ irqs a = [] ∧ avalues a !! SemId semaphore = Some 1
  end.

(** Thread [t] waits. *)
Definition waiting_at (a : machine) (t : nat) : bool :=
  match clients a !! t with
  | Some (ws, pc) => waits ws pc
  | None => false
  end.

(** Before [new SynchDisk] nothing runs but [main]; after it some thread waits
    exactly when the disk is not idle. *)
Definition booting (a : machine) : Prop :=
  Disk.active (disk (aglobals a)) = false ∧ irqs a = [] ∧ avalues a !! SemId semaphore = None ∧
  ∀ t ws pc, clients a !! t = Some (ws, pc) → t = 0%nat ∧ ∃ ps, pc = Boot ps.

Definition running (a : machine) : Prop :=
  (∀ t ws ps, clients a !! t ≠ Some (ws, Boot ps)) ∧
  ∃ p, phase_of p a ∧ (p ≠ Idle ↔ ∃ t, waiting_at a t = true).

Definition shapes (a : machine) : Prop := ∀ t ws pc, clients a !! t = Some (ws, pc) → shape ws pc.

Definition J (a : machine) : Prop :=
  disciplined a ∧ is_Some (owners a !! lock) ∧ shapes a ∧ (booting a ∨ running a).

Lemma shape_waits_holds ws pc : shape ws pc → waits ws pc = true → lock ∈ held ws (place_holds pc).
Proof.
  intros Hs Hw. destruct Hs as [[]| | | | | |]; try discriminate Hw; cbn; clear Hw; set_solver.
Qed.

Lemma waiting_at_Some (a : machine) t ws pc :
  clients a !! t = Some (ws, pc) → waiting_at a t = waits ws pc.
Proof. intros H. unfold waiting_at. by rewrite H. Qed.

Lemma waiting_at_None (a : machine) t : clients a !! t = None → waiting_at a t = false.
Proof.
  intros H. exact (f_equal (λ x : option (list frame * place),
    match x with Some (ws, pc) => waits ws pc | None => false end) H).
Qed.

(** The thread that waits is the only one that holds the lock. *)
Lemma one_waits (a : machine) t t' ws pc :
  J a → clients a !! t = Some (ws, pc) → lock ∈ held ws (place_holds pc) →
  waiting_at a t' = true → t' = t.
Proof.
  intros (Hd & Ho & Hsh & _) Ht Hh Hw. unfold waiting_at in Hw.
  destruct (clients a !! t') as [[ws' pc']|] eqn:Ht'; [|done].
  eapply one_holder; [done..| |done]. apply shape_waits_holds; [by eapply Hsh|done].
Qed.

Lemma not_booting (a : machine) t ws pc :
  J a → clients a !! t = Some (ws, pc) → (∀ ps, pc ≠ Boot ps) → running a.
Proof.
  intros (_ & _ & _ & [(_ & _ & _ & Hb)|?]) Ht Hpc; [|done].
  destruct (Hb _ _ _ Ht) as [_ [ps ->]]. by destruct (Hpc ps).
Qed.

(** A thread that holds the lock without waiting finds the disk idle. *)
Lemma holder_idle (a : machine) t ws pc :
  J a → clients a !! t = Some (ws, pc) → lock ∈ held ws (place_holds pc) → waits ws pc = false →
  (∀ ps, pc ≠ Boot ps) → phase_of Idle a ∧ ∀ t', waiting_at a t' = false.
Proof.
  intros HJ Ht Hh Hw Hpc. destruct (not_booting _ _ _ _ HJ Ht Hpc) as (_ & p & Hp & Hiff).
  assert (∀ t', waiting_at a t' = false) as Hn.
  { intros t'. destruct (waiting_at a t') eqn:E; [|done].
    assert (t' = t) as -> by (by eapply one_waits). erewrite waiting_at_Some in E; [|done]. congruence. }
  split; [|done]. destruct p; [done| |]; destruct Hiff as [Hi _];
    destruct (Hi ltac:(done)) as [t' Ht']; by rewrite Hn in Ht'.
Qed.

(** ** Steps *)

Lemma waiting_at_put (a a' : machine) t ws pc t' :
  clients a' = put t ws pc (clients a) → (ws = [] → waits ws pc = false) →
  waiting_at a' t' = if decide (t = t') then waits ws pc else waiting_at a t'.
Proof.
  intros E Hw. unfold waiting_at. rewrite E. unfold put. destruct ws as [|f ws].
  - rewrite lookup_delete. case_decide; [|done]. by rewrite Hw.
  - rewrite lookup_insert. by case_decide.
Qed.

Lemma shapes_put (a a' : machine) t ws pc :
  shapes a → clients a' = put t ws pc (clients a) → ws = [] ∨ shape ws pc → shapes a'.
Proof.
  intros Hsh E Hok t' ws' pc'. rewrite E. unfold put. destruct ws as [|f ws].
  - intros [_ ?]%lookup_delete_Some. by eapply Hsh.
  - rewrite lookup_insert. case_decide; [|by apply Hsh]. intros [= <- <-]. by destruct Hok.
Qed.

Lemma boot_put (a a' : machine) t ws pc :
  (∀ t ws ps, clients a !! t ≠ Some (ws, Boot ps)) → clients a' = put t ws pc (clients a) →
  (∀ ps, pc ≠ Boot ps) → ∀ t ws ps, clients a' !! t ≠ Some (ws, Boot ps).
Proof.
  intros Hb E Hpc t' ws' ps. rewrite E. unfold put. destruct ws as [|f ws].
  - intros [_ ?]%lookup_delete_Some. by eapply Hb.
  - rewrite lookup_insert. case_decide; [|by apply Hb]. intros [= <- Hp]. by apply (Hpc ps).
Qed.

(** Nothing changes for the disk, its interrupt and its semaphore. *)
Definition same_disk (a a' : machine) : Prop :=
  Disk.active (disk (aglobals a')) = Disk.active (disk (aglobals a)) ∧ irqs a' = irqs a ∧
  avalues a' !! SemId semaphore = avalues a !! SemId semaphore.

Lemma phase_same p (a a' : machine) : same_disk a a' → phase_of p a → phase_of p a'.
Proof. intros (E1 & E2 & E3). unfold phase_of. by rewrite E1, E2, E3. Qed.

(** A thread moves and waits after it if and only if it did before. *)
Lemma running_move (a a' : machine) t ws pc :
  running a → same_disk a a' → clients a' = put t ws pc (clients a) → (∀ ps, pc ≠ Boot ps) →
  (ws = [] → waits ws pc = false) → waiting_at a t = waits ws pc → running a'.
Proof.
  intros (Hb & p & Hp & Hiff) Hs E Hpc Hw Ew. split; [by eapply boot_put|].
  exists p. split; [by eapply phase_same|]. rewrite Hiff. f_equiv. intros t'.
  rewrite (waiting_at_put _ _ _ _ _ _ E Hw). by case_decide; subst; rewrite ?Ew.
Qed.

(** A thread inside a kernel call moves on. *)
Definition stage (a : machine) : Prop := shapes a ∧ (booting a ∨ running a).

Lemma stage_move (a a' : machine) t ws pc ws' pc' :
  J a → clients a !! t = Some (ws, pc) → clients a' = put t ws' pc' (clients a) → same_disk a a' →
  shape ws' pc' → (∀ ps, pc ≠ Boot ps) → (∀ ps, pc' ≠ Boot ps) → waits ws pc = waits ws' pc' → stage a'.
Proof.
  intros HJ Ht E Hs Hsh Hpc Hpc' Ew. pose proof HJ as (_ & _ & Hshs & _).
  split; [eapply shapes_put; [exact Hshs|exact E|by right]|]. right.
  eapply running_move; [by eapply not_booting|exact Hs|exact E|done| |].
  - intros ->. inversion Hsh.
  - by erewrite waiting_at_Some.
Qed.

(** [ReadRequest] or [WriteRequest]. *)
Lemma stage_request (a : machine) t me o ops me' g :
  J a → clients a !! t = Some ([FClient], Locked me o ops) → Disk.active (disk g) = true →
  stage (with_irqs (((), DiskInt) :: irqs a) (with_client t [FClient] (Requested me' ops) (with_globals g a))).
Proof.
  intros HJ Ht Hg. pose proof HJ as (_ & _ & Hshs & _).
  destruct (holder_idle _ _ _ _ HJ Ht) as [(_ & Ei & Ev) Hn]; [cbn; set_solver|done|done|].
  destruct (not_booting _ _ _ _ HJ Ht) as (Hb & _); [done|].
  split; [eapply shapes_put; [exact Hshs|reflexivity|right; constructor]|]. right.
  split; [eapply boot_put; [exact Hb|reflexivity|done]|]. exists Busy. split.
  - split_and!; [exact Hg|cbn; by rewrite Ei|exact Ev].
  - split; [|done]. intros _. exists t. unfold waiting_at. cbn. by rewrite lookup_insert_eq.
Qed.

(** The waiting thread takes the unit. *)
Lemma stage_P (a : machine) t me ops v :
  J a → clients a !! t = Some ([FP (SemId semaphore); FClient], Finished me ops) →
  avalues a !! SemId semaphore = Some v → v ≠ 0 →
  stage (with_value (SemId semaphore) (v - 1) (with_client t [FClient] (Finished me ops) a)).
Proof.
  intros HJ Ht Hv Hne. pose proof HJ as (_ & _ & Hshs & _).
  destruct (not_booting _ _ _ _ HJ Ht) as (Hb & p & Hp & Hiff); [done|].
  assert (p = Served) as ->.
  { destruct p; [..|done]; destruct Hp as (_ & _ & Ev); congruence. }
  destruct Hp as (Ea & Ei & Ev). assert (v = 1) as -> by congruence.
  split; [eapply shapes_put; [exact Hshs|reflexivity|right; constructor]|]. right.
  split; [eapply boot_put; [exact Hb|reflexivity|done]|]. exists Idle. split.
  - split_and!; [exact Ea|exact Ei|cbn; by rewrite lookup_insert_eq].
  - split; [done|]. intros [t' Ht']. exfalso.
    erewrite (waiting_at_put a _ t [FClient] (Finished me ops)) in Ht' by done.
    case_decide; [done|]. eapply one_waits in Ht'; [|exact HJ|exact Ht|cbn; set_solver]. done.
Qed.

(** [DiskDone] *)
Lemma stage_device (a : machine) d ds vs :
  J a → irqs a = d :: ds → bump [semaphore] (avalues a) = Some vs →
  stage (mkAMachine (clients a) vs (owners a) ds (DiskDone (aglobals a)).1.1).
Proof.
  intros (_ & _ & Hshs & Hst) Ei Hb. split; [done|]. right.
  destruct Hst as [(_ & E & _)|(Hboot & p & Hp & Hiff)]; [congruence|].
  split; [done|]. assert (p = Busy) as ->.
  { destruct p; [|done|]; destruct Hp as (_ & E & _); congruence. }
  destruct Hp as (_ & Ei' & Ev). rewrite Ei in Ei'. injection Ei' as -> ->.
  cbn [bump] in Hb. rewrite Ev in Hb. injection Hb as <-. exists Served. split.
  - split_and!; [done..|cbn; by rewrite lookup_insert_eq].
  - rewrite <- Hiff. naive_solver.
Qed.

(** The end of a thread, and a new one. *)
Lemma stage_return (a : machine) t pc pc' g :
  J a → clients a !! t = Some ([FClient], pc) → waits [FClient] pc = false → (∀ ps, pc ≠ Boot ps) → (∀ ps, pc' ≠ Boot ps) →
  waits [] pc' = false → Disk.active (disk g) = Disk.active (disk (aglobals a)) →
  stage (with_client t [] pc' (with_globals g a)).
Proof.
  intros HJ Ht Hw Hpc Hpc' Hw' Eg. pose proof HJ as (_ & _ & Hshs & _).
  split; [eapply shapes_put; [exact Hshs|reflexivity|by left]|]. right.
  eapply (running_move a _ t [] pc'); [by eapply not_booting|done..|].
  erewrite waiting_at_Some; [|exact Ht]. congruence.
Qed.

Lemma stage_fork (a : machine) n me p :
  shapes a → running a → clients a !! n = None → stage (with_client n [FClient] (At me p) a).
Proof.
  intros Hshs Hr Hn. split; [eapply shapes_put; [exact Hshs|reflexivity|right; constructor]|]. right.
  eapply (running_move a _ n [FClient] (At me p)); [done..|]. by apply waiting_at_None.
Qed.

(** [new SynchDisk] *)
Lemma stage_boot (a : machine) t ps :
  J a → clients a !! t = Some ([FClient], Boot ps) →
  stage (with_value (SemId semaphore) 0 (with_client t [FClient] (Start 0 ps) (with_globals (aglobals a) a))).
Proof.
  intros (_ & _ & Hshs & Hst) Ht.
  destruct Hst as [(Ea & Ei & _ & Hb)|[Hb _]]; [|by apply Hb in Ht].
  assert (t = 0%nat) as -> by (by apply Hb in Ht as [-> _]).
  assert (∀ t', waiting_at a t' = false) as Hn.
  { intros t'. unfold waiting_at. destruct (clients a !! t') as [[ws pc]|] eqn:E; [|done].
    by apply Hb in E as [_ [? ->]]. }
  split; [eapply shapes_put; [exact Hshs|reflexivity|right; constructor]|]. right. split.
  - intros t' ws ps' Ht'. cbn in Ht'. rewrite lookup_insert in Ht'. case_decide; [done|].
    by apply Hb in Ht' as [-> _].
  - exists Idle. split; [split_and!; [done..|cbn; by rewrite lookup_insert_eq]|].
    split; [done|]. intros [t' Ht'].
    erewrite (waiting_at_put a _ 0 [FClient] (Start 0 ps)) in Ht' by done. rewrite Hn in Ht'. by case_decide.
Qed.

Lemma stage_client (a a' : machine) t now pc g pc' c :
  J a → clients a !! t = Some ([FClient], pc) → resume_at now pc (aglobals a) = Ok (g, pc', c) →
  call_effect c (with_client t (call_frames c) pc' (with_globals g a)) a' → stage a'.
Proof.
  intros HJ Ht Hc He. pose proof HJ as (_ & _ & Hshs & Hst).
  destruct pc as [ps|n [|p ps]|me [|o ops]|me o ops|me ops|me ops]; cbn in Hc;
    try (injection Hc as <- <- <-; inversion He; subst; try done; cbn [call_frames] in *).
  - by apply stage_boot.
  - by eapply stage_return.
  - assert (stage (with_client t [FClient] (Start (S n) ps) (with_globals (aglobals a) a))) as [Hs Hr]
      by (by eapply stage_move; try apply shape_client).
    apply stage_fork; [done| |done]. destruct Hr as [(_ & _ & _ & Hr)|Hr]; [|done].
    by destruct (Hr t [FClient] (Start (S n) ps)) as [_ [? ?]]; [cbn; rewrite lookup_insert_eq|].
  - by eapply stage_return.
  - eapply stage_move; try done; constructor.
  - apply Request_Ok in Hc as (_ & Hg & [me' ->] & ticks & ->). inversion He; subst; [|done].
    by apply (stage_request a t me o ops me' g).
  - eapply stage_move; try done; constructor.
  - eapply stage_move; try done; constructor.
Qed.

Lemma irqs_perm {A} (l l' : list A) : l ≡ₚ l' → (length l ≤ 1)%nat → l = l'.
Proof.
  intros E Hl. destruct l as [|x [|? ?]]; [|by apply Permutation_singleton_l in E|cbn in Hl; lia].
  symmetry. by apply Permutation_nil_r.
Qed.

(** At most one interrupt is pending. *)
Lemma J_irqs (a : machine) : J a → (length (irqs a) ≤ 1)%nat.
Proof. intros (_ & _ & _ & [(_ & -> & _)|(_ & [] & (_ & -> & _) & _)]); cbn; lia. Qed.

Lemma stage_step (a a' : machine) : J a → astep a a' → stage a'.
Proof.
  intros HJ H. pose proof HJ as (_ & _ & Hshs & Hst).
  assert (∀ t ws pc ws' b, clients a !! t = Some (ws, pc) → ws ≠ [FClient] →
    clients b = put t ws' pc (clients a) → same_disk a b → shape ws' pc →
    waits ws pc = waits ws' pc → stage b) as Hmove.
  { intros t ws pc ws' b Ht Hne E Hs Hsh Ew.
    assert (∀ ps, pc ≠ Boot ps) by (intros ps ->; apply Hshs in Ht; by inversion Ht).
    by eapply stage_move. }
  destruct H as [a a' (E1 & E2 & _ & E4 & E5)|?????? a a' Ht Hc He|t s ws pc v a Ht Hv Hne|
    t s ws pc v a Ht Hv|t l ws pc o a Ht|t l ws pc a Ht|t l ws pc a Ht|t c l ws pc a Ht|
    t f c l ws pc a Ht Hf|d ty ds g es ss vs a Ei Hd Hb].
  - apply irqs_perm in E4; [|by apply J_irqs].
    unfold stage, shapes, booting, running, phase_of, waiting_at in *. by rewrite <- E1, <- E2, <- E4, <- E5.
  - by eapply stage_client.
  - pose proof (Hshs _ _ _ Ht) as Hs. inversion Hs; subst; [|by apply stage_P].
    eapply Hmove; try done; [|constructor]. split_and!; try done. cbn. by rewrite lookup_insert_ne.
  - pose proof (Hshs _ _ _ Ht) as Hs. inversion Hs; subst.
    eapply Hmove; try done; [|constructor]. split_and!; try done. cbn. by rewrite lookup_insert_ne.
  - pose proof (Hshs _ _ _ Ht) as Hs. inversion Hs; subst. eapply Hmove; try done; constructor.
  - pose proof (Hshs _ _ _ Ht) as Hs. inversion Hs; subst. eapply Hmove; try done; constructor.
  - pose proof (Hshs _ _ _ Ht) as Hs. inversion Hs; subst. eapply Hmove; try done; constructor.
  - pose proof (Hshs _ _ _ Ht) as Hs. inversion Hs.
  - pose proof (Hshs _ _ _ Ht) as Hs. destruct Hf as [-> | ->]; inversion Hs.
  - injection Hd as <- <- <-. by eapply stage_device.
Qed.

Lemma SynchDisk_step (a a' : machine) : J a → astep a a' → J a'.
Proof.
  intros HJ H. pose proof HJ as (Hd & Ho & _).
  split; [by eapply disciplined_step|]. split; [by eapply astep_owners|]. by eapply stage_step.
Qed.

(** ** Theorems *)

(** [main] creates the [SynchDisk] on the sectors [ds] and forks the programs. *)
Definition start (rnd : nat → Z) (useTimer : bool) (ds : list (list Z)) (programs : list (list op))
  : Result kernel :=
  initial rnd useTimer useTimer 1 0 (mkVars (mkDisk ds false 0 0) []) (Boot programs).

Lemma J_init ds programs : J (ainit 1 (mkVars (mkDisk ds false 0 0) []) (Boot programs)).
Proof.
  split; [by apply (disciplined_init (λ _, 0))|]. split; [by eexists|]. split.
  - intros t ws pc H. destruct (ainit_client (C := client) _ _ _ _ _ _ H) as (_ & -> & ->). constructor.
  - left. split_and!; [done..|]. intros t ws pc H.
    destruct (ainit_client (C := client) _ _ _ _ _ _ H) as (-> & -> & ->). eauto.
Qed.

Lemma start_J rnd useTimer ds programs k0 k :
  start rnd useTimer ds programs = Ok k0 → steps (kstep rnd useTimer) k0 k → J (absf k).
Proof.
  intros Hi Hs. eapply (machine_invariant rnd useTimer J); [exact Hi|exact Hs|apply J_init|exact SynchDisk_step].
Qed.

(** ** Programs whose requests are in order do not fail *)

(** A sector that exists and a buffer of (at least) a sector. *)
Definition op_valid (o : op) : Prop :=
  match o with
  | OpRead s => 0 ≤ s < NumSectors
  | OpWrite s data => 0 ≤ s < NumSectors ∧ SectorSize ≤ Z.of_nat (length data)
  end.

Definition place_valid (pc : place) : Prop :=
  match pc with
  | Boot ps | Start _ ps => Forall (Forall op_valid) ps
  | At _ ops | Requested _ ops | Finished _ ops => Forall op_valid ops
  | Locked _ o ops => op_valid o ∧ Forall op_valid ops
  end.

Definition valid (a : machine) : Prop :=
  (∀ t ws pc, clients a !! t = Some (ws, pc) → place_valid pc) ∧
  length (sectors (disk (aglobals a))) = Z.to_nat NumSectors.

Lemma valid_put (a a' : machine) t ws pc :
  valid a → clients a' = put t ws pc (clients a) → place_valid pc →
  length (sectors (disk (aglobals a'))) = length (sectors (disk (aglobals a))) → valid a'.
Proof.
  intros [Hv Hl] E Hpc El. split; [|congruence]. intros t' ws' pc'. rewrite E. unfold put. destruct ws.
  - intros [_ ?]%lookup_delete_Some. by eapply Hv.
  - rewrite lookup_insert. case_decide; [|by apply Hv]. by intros [= <- <-].
Qed.

(** What a call hands on is valid. *)
Lemma resume_valid now pc g g' pc' c :
  place_valid pc → resume_at now pc g = Ok (g', pc', c) →
  place_valid pc' ∧ length (sectors (disk g')) = length (sectors (disk g)) ∧
  match c with CFork p => place_valid p | _ => True end.
Proof.
  intros Hv H. destruct pc as [ps|n [|p ps]|me [|o ops]|me [s|s data] ops|me ops|me ops]; cbn in H, Hv;
    try (injection H as <- <- <-; cbn; rewrite ?Forall_cons in Hv; naive_solver).
  - unfold ReadRequest in H. invert_ok. naive_solver.
  - unfold WriteRequest in H. invert_ok. rewrite length_insert. naive_solver.
Qed.

Lemma valid_step (a a' : machine) : valid a → astep a a' → valid a'.
Proof.
  intros HJ H. pose proof HJ as [Hv Hl].
  destruct H as [a a' (E1 & _ & _ & _ & E2)|t now pc g pc' c a a' Ht Hc He| | | | | | | |
    d ty ds' g es ss vs a Ei Hd Hb];
    try (eapply valid_put; [exact HJ|reflexivity|by eapply Hv|done]).
  - unfold valid. by rewrite <- E1, <- E2.
  - destruct (resume_valid _ _ _ _ _ _ (Hv _ _ _ Ht) Hc) as (Hv' & Hl' & Hf).
    assert (valid (with_client t (call_frames c) pc' (with_globals g a))) as HJ'
      by (eapply valid_put; [exact HJ|reflexivity|done..]).
    inversion He; subst; try exact HJ'. eapply valid_put; [exact HJ'|reflexivity|done..].
  - injection Hd as <- <- <-. split; [exact Hv|exact Hl].
Qed.

Lemma Request_total now me o ops g :
  op_valid o → length (sectors (disk g)) = Z.to_nat NumSectors → Disk.active (disk g) = false →
  ∃ g' me' ticks, Request now me o ops g = Ok (g', Requested me' ops, CSchedule () ticks DiskInt) ∧ 0 < ticks.
Proof.
  intros Hv Hl Ha. destruct o as [s|s data]; cbn in Hv; unfold Request, ReadRequest, WriteRequest.
  - pose proof (ComputeLatency_pos now s false (disk g) ltac:(lia)). unfold RotationTime in *.
    destruct (lookup_lt_is_Some_2 (sectors (disk g)) (Z.to_nat s)) as [x Hx]; [lia|].
    rewrite Ha, (proj2 (sector_ok_true s)) by done. rcbn. rewrite Hx. rcbn.
    eexists _, _, _. split; [reflexivity|lia].
  - destruct Hv as [Hs Hd]. pose proof (ComputeLatency_pos now s true (disk g) ltac:(lia)).
    unfold RotationTime in *.
    destruct (bytes_at_Ok 0 (Z.to_nat SectorSize) data) as [E _]; [lia|lia|].
    rewrite Ha, (proj2 (sector_ok_true s)) by done. rcbn. rewrite E. rcbn.
    eexists _, _, _. split; [reflexivity|lia].
Qed.

(** The code of the threads returns, and what it asks of the kernel is in order. *)
Lemma resume_total (a : machine) t now pc v :
  J a → valid a → avalues a !! SemId semaphore = Some v → clients a !! t = Some ([FClient], pc) →
  ∃ g pc' c, resume_at now pc (aglobals a) = Ok (g, pc', c) ∧ (∀ n v, c ≠ CNewSem n v) ∧
    (∀ d n ty, c = CSchedule d n ty → 0 < n).
Proof.
  intros HJ [Hv Hl] Hsem Ht.
  destruct pc as [ps|n [|p ps]|me [|o ops]|me o ops|me ops|me ops]; cbn; try by eexists _, _, _.
  - destruct HJ as (_ & _ & _ & [(_ & _ & E & _)|[Hb _]]); [congruence|by apply Hb in Ht].
  - destruct (holder_idle _ _ _ _ HJ Ht) as [(Ha & _) _]; [cbn; set_solver|done..|].
    destruct (Hv _ _ _ Ht) as [Ho _].
    destruct (Request_total now me o ops (aglobals a)) as (g' & me' & ticks & -> & Hp); [done..|].
    eexists _, _, _. split; [done|]. split; [done|]. by intros ? ? ? [= <- <- <-].
Qed.

(** The only thing that can go wrong with a frame of such a program. *)
Lemma SynchDisk_fault k th f fs e :
  wf k → J (absf k) → valid (absf k) → is_Some (sems k !! SemId semaphore) →
  threads k !! currentThread k = Some th → stack th = f :: fs → fault f e k → e = Exit.
Proof.
  intros Hwf HJ Hv [sem Hsem] Hth Est Hf. pose proof HJ as (Hd & [o Ho] & Hshs & _).
  assert (is_Some (locks k !! lock)) as [lk Hlk]
    by (cbn in Ho; rewrite lookup_fmap in Ho; destruct (locks k !! lock); [by eexists|done]).
  assert (is_Some (sems k !! LockSem lock)) as [sem' Hsem']
    by (destruct Hwf as (Hw & _); apply (w_locksem _ _ _ Hw); by eexists).
  destruct (watch f) as [f'|] eqn:Ef; [|destruct f; try done; by destruct e].
  assert (clients (absf k) !! currentThread k = Some (f' :: omap watch fs, resume th)) as Hc
    by (apply (absf_lookup _ th); [done|]; by rewrite Est; cbn; rewrite Ef).
  pose proof (Hshs _ _ _ Hc) as Hsh.
  destruct (decide (f = FClient)) as [->|Hne].
  - cbn in Ef. injection Ef as <-. inversion Hsh as [pc E1 E2| | | | | |]. rewrite <- E1 in Hc.
    destruct (resume_total _ _ (totalTicks (stats k)) _ (value sem) HJ Hv ltac:(cbn; by rewrite lookup_fmap, Hsem) Hc)
      as (g & pc' & c & Er & Hns & Hsc).
    by destruct (client_no_fault k th g pc' c e Hth Er Hns Hsc).
  - destruct e; [done| | |].
    + destruct (disciplined_fault f fs k th Hd Hth Est Hf) as [?|[c ->]]; [done|].
      cbn in Ef. injection Ef as <-. inversion Hsh.
    + destruct f; cbn in Ef; try done; injection Ef as <-; inversion Hsh; subst; cbn in Hf; congruence.
    + by destruct f.
Qed.

(** C8: [SynchDisk] turns the disk's interrupts into waiting calls: whatever
    the schedule, a thread about to make a request finds the disk idle, at most
    one disk interrupt is pending, and a thread that has returned from [P] in
    [ReadSector] or [WriteSector] does so after the interrupt of its own
    request, no unit of the semaphore being left over. *)
Theorem SynchDisk_protocol rnd useTimer ds programs k0 k t me ops :
  start rnd useTimer ds programs = Ok k0 → steps (kstep rnd useTimer) k0 k →
  (∀ o, clients (absf k) !! t = Some ([FClient], Locked me o ops) → Disk.active (disk (shared k)) = false) ∧
  (length (irqs (absf k)) ≤ 1)%nat ∧
  (clients (absf k) !! t = Some ([FClient], Finished me ops) →
    Disk.active (disk (shared k)) = false ∧ irqs (absf k) = [] ∧
    value <$> sems k !! SemId semaphore = Some 0).
Proof.
  intros Hi Hs. pose proof (start_J _ _ _ _ _ _ Hi Hs) as HJ. split_and!.
  - intros o Ht. destruct (holder_idle _ _ _ _ HJ Ht) as [(? & _) _]; [cbn; set_solver|done..].
  - by apply J_irqs.
  - intros Ht. destruct (holder_idle _ _ _ _ HJ Ht) as [(? & ? & Hv) _]; [cbn; set_solver|done|done|].
    split_and!; [done..|]. by rewrite <- lookup_fmap.
Qed.

(** C10: with requests for sectors that exist and buffers of a sector, and once
    the [SynchDisk] is constructed, no step fails whatever the schedule: in
    particular the disk's [ASSERT] that no request is in progress and the
    assertions of [Lock], [Semaphore] and [Interrupt] hold.  The machine only
    stops by halting when nothing is left to do. *)
Theorem SynchDisk_no_fault rnd useTimer ds programs k0 k e :
  (∀ n, 0 ≤ rnd n) → Forall (Forall op_valid) programs → length ds = Z.to_nat NumSectors →
  start rnd useTimer ds programs = Ok k0 → steps (kstep rnd useTimer) k0 k →
  is_Some (sems k !! SemId semaphore) → kstep rnd useTimer k = Err e → e = Exit.
Proof.
  intros Hr Hp Hl Hi Hs Hsem H. pose proof (start_J _ _ _ _ _ _ Hi Hs) as HJ.
  assert (valid (absf k)) as Hv.
  { eapply (machine_invariant rnd useTimer valid); [exact Hi|exact Hs| |exact valid_step].
    split; [|done]. intros t ws pc E.
    by destruct (ainit_client (C := client) _ _ _ _ _ _ E) as (_ & _ & ->). }
  assert (wf k) as Hwf by (apply (reachable_wf rnd useTimer); by eexists _, _, _, _, _, _).
  assert (devices_safe k) as Hd.
  { intros d g _. eexists _, _, _. split; [done|]. split; [constructor|]. by constructor; [|constructor]. }
  destruct (kstep_fault rnd useTimer Hr k e Hwf Hd H) as (th & f & fs & Hth & Est & Hf).
  by eapply SynchDisk_fault.
Qed.

(** ** An execution: one thread writes sector 0, another reads it *)

Definition example_programs : list (list op) := [[OpWrite 0 (replicate 128 1)]; [OpRead 0]].

(** The thread of the first program after its write. *)
Definition wrote : caller := mkCaller 0 [DidWrite 0 (replicate 128 1)].

Lemma SynchDisk_protocol_witness :
  ∃ k : kernel, clients (absf k) !! 1%nat = Some ([FClient], Finished wrote []) ∧
    Disk.active (disk (shared k)) = false ∧ irqs (absf k) = [] ∧
    value <$> sems k !! SemId semaphore = Some 0.
Proof.
  assert (∃ k0, start (λ _, 150) true [replicate 128 7] example_programs = Ok k0) as [k0 E]
    by (eexists; reflexivity).
  pose (k := (run (kstep (λ _, 150) true) 139 k0).1).
  assert (clients (absf k) !! 1%nat = Some ([FClient], Finished wrote [])) as Ht
    by (unfold k; injection E as <-; vm_compute; reflexivity).
  exists k. split; [exact Ht|].
  apply (SynchDisk_protocol (λ _, 150) true _ _ k0 k 1 wrote [] E (run_steps _ 139 k0)). exact Ht.
Defined.

Definition example_disk : list (list Z) := replicate (Z.to_nat NumSectors) (replicate 128 7).

Lemma SynchDisk_no_fault_witness :
  ∃ (k : kernel) e, kstep (λ _, 150) true k = Err e ∧ e = Exit.
Proof.
  pose (final := λ k0, (run (kstep (λ _, 150) true) 1000 k0).1).
  assert (match start (λ _, 150) true example_disk example_programs with
          | Ok k0 => (match kstep (λ _, 150) true (final k0) with Err e => Some e | _ => None end,
                      value <$> sems (final k0) !! SemId semaphore)
          | Err _ => (None, None)
          end = (Some Exit, Some 0)) as H by (vm_compute; reflexivity).
  destruct (start (λ _, 150) true example_disk example_programs) as [k0|e] eqn:E; [|discriminate H].
  destruct (kstep (λ _, 150) true (final k0)) as [k'|e] eqn:Hk; [discriminate H|].
  exists (final k0), e. split; [exact Hk|].
  apply (SynchDisk_no_fault (λ _, 150) true example_disk example_programs k0 (final k0) e);
    [intros; lia| |apply length_replicate|exact E|apply run_steps| |exact Hk].
  - repeat constructor; vm_compute; congruence.
  - destruct (sems (final k0) !! SemId semaphore) as [sem|]; [by exists sem|discriminate H].
Defined.
