(* ===== verification/SynchDiskLin.v ===== *)
(** * filesys/synchdisk.cc: concurrent calls are linearizable

    The calls of [ReadSector] and [WriteSector] that threads make, each with the
    data it got ([did]), against the array of sectors: the requests, in the order
    in which the disk served them, are a sequential execution that every thread
    agrees with. *)

From stdpp Require Import relations.
From S2P Require Import Prelude NachList Bytes Kernel KernelInv KernelSpec KernelMachine KernelLocks Disk SynchDisk.

Local Open Scope Z_scope.

(** ** Sequential executions *)

Definition apply_event (e : event) (ds : list (list Z)) : Result (list (list Z)) :=
  match e with
  | DidRead s data => data' ← ReadSector s ds; ASSERT (bool_decide (data = data'));; mret ds
  | DidWrite s data => WriteSector s data ds
  end.

(** The calls one after the other on the array: every read returns what the
    array holds. *)
Fixpoint apply_events (es : list event) (ds : list (list Z)) : Result (list (list Z)) :=
  match es with
  | [] => mret ds
  | e :: es => ds ← apply_event e ds; apply_events es ds
  end.

Lemma apply_events_snoc es e ds ds1 ds2 :
  apply_events es ds = Ok ds1 → apply_event e ds1 = Ok ds2 → apply_events (es ++ [e]) ds = Ok ds2.
Proof.
  revert ds. induction es as [|e' es IH]; intros ds; cbn [apply_events app].
  - intros [= ->] H. by rewrite H.
  - intros H1 H2. apply bind_Ok in H1 as (ds' & -> & H1). rcbn. by apply IH.
Qed.

(** The call an event answers. *)
Definition op_of (e : event) : op :=
  match e with DidRead s _ => OpRead s | DidWrite s data => OpWrite s data end.

(** The part of the history that belongs to a program. *)
Definition own (i : nat) (h : list (nat * event)) : list event := (filter (λ x, x.1 = i) h).*2.

Lemma own_snoc i h j e : own i (h ++ [(j, e)]) = own i h ++ (if decide (j = i) then [e] else []).
Proof. unfold own. rewrite filter_app, fmap_app. f_equal. rewrite filter_cons. cbn. by case_decide. Qed.

Lemma Request_event now me o ops g g' pc' c :
  Request now me o ops g = Ok (g', pc', c) →
  ∃ e, op_of e = o ∧ history g' = history g ++ [(index me, e)] ∧
    pc' = Requested (mkCaller (index me) (did me ++ [e])) ops ∧
    apply_event e (sectors (disk g)) = Ok (sectors (disk g')).
Proof.
  unfold Request, ReadRequest, WriteRequest, did_request. intros H.
  destruct o as [s|s data]; invert_ok; [eexists (DidRead s _)|exists (DidWrite s data)];
    (split; [done|]); (split; [reflexivity|]); (split; [reflexivity|]); unfold apply_event, ReadSector, WriteSector.
  - rewrite H2. rcbn. rewrite H3. rcbn. by rewrite bool_decide_true.
  - rewrite H2. rcbn. rewrite H3. done.
Qed.

(** ** What the threads have seen *)

(** The caller at a place, or how many programs [main] has forked. *)
Definition caller_at (pc : place) : nat + caller :=
  match pc with
  | Boot _ => inl 0%nat
  | Start n _ => inl n
  | At me _ | Locked me _ _ | Requested me _ | Finished me _ => inr me
  end.

(** The calls still to be made. *)
Definition todo (pc : place) : list op :=
  match pc with
  | Boot _ | Start _ _ => []
  | At _ ops | Requested _ ops | Finished _ ops => ops
  | Locked _ o ops => o :: ops
  end.

Section history.
Context (ds : list (list Z)) (programs : list (list op)).

(** What a thread knows of its own calls is right. *)
Definition told (h : list (nat * event)) (pc : place) : Prop :=
  match caller_at pc with
  | inl n => (∀ ps, pc = Boot ps ∨ pc = Start n ps → ps = drop n programs) ∧ ∀ i, (n ≤ i)%nat → own i h = []
  | inr me => own (index me) h = did me ∧ programs !! index me = Some ((op_of <$> did me) ++ todo pc)
  end.

(** Two threads run different programs, both forked. *)
Definition apart (pc pc' : place) : Prop :=
  match caller_at pc, caller_at pc' with
  | inl _, inl _ => False
  | inl n, inr me | inr me, inl n => (index me < n)%nat
  | inr me, inr me' => index me ≠ index me'
  end.

Record sequential (a : machine) : Prop := {
  s_replay : apply_events (history (aglobals a)).*2 ds = Ok (sectors (disk (aglobals a)));
  s_order : ∀ i, (op_of <$> own i (history (aglobals a))) `prefix_of` default [] (programs !! i);
  s_told : ∀ t ws pc, clients a !! t = Some (ws, pc) → told (history (aglobals a)) pc;
  s_apart : ∀ t t' ws ws' pc pc', clients a !! t = Some (ws, pc) → clients a !! t' = Some (ws', pc') →
    t ≠ t' → apart pc pc';
}.

Lemma apart_sym pc pc' : apart pc pc' → apart pc' pc.
Proof. unfold apart. destruct (caller_at pc), (caller_at pc'); auto. Qed.

(** Threads move inside kernel calls, or end. *)
Lemma sequential_same (a a' : machine) :
  sequential a → history (aglobals a') = history (aglobals a) →
  sectors (disk (aglobals a')) = sectors (disk (aglobals a)) →
  (∀ t ws pc, clients a' !! t = Some (ws, pc) → ∃ ws', clients a !! t = Some (ws', pc)) → sequential a'.
Proof.
  intros [] Eh Es Hc. constructor; rewrite ?Eh, ?Es; [done..| |].
  - intros t ws pc (ws' & Ht)%Hc. by eapply s_told0.
  - intros t t' ws ws' pc pc' (? & Ht)%Hc (? & Ht')%Hc. by eapply s_apart0.
Qed.

Lemma put_places (a a' : machine) t ws ws' (pc : place) :
  clients a !! t = Some (ws, pc) → clients a' = put t ws' pc (clients a) →
  ∀ t' ws'' pc', clients a' !! t' = Some (ws'', pc') → ∃ ws0, clients a !! t' = Some (ws0, pc').
Proof.
  intros Ht E t' ws'' pc'. rewrite E. unfold put. destruct ws'.
  - intros [_ ?]%lookup_delete_Some. eauto.
  - rewrite lookup_insert. case_decide as Ed; [|eauto]. subst t'. intros [= <- <-]. eauto.
Qed.

(** A thread goes to another place and the history grows accordingly. *)
Lemma sequential_moved (a a' : machine) t ws pc ws' pc' :
  sequential a → clients a !! t = Some (ws, pc) → clients a' = put t ws' pc' (clients a) →
  apply_events (history (aglobals a')).*2 ds = Ok (sectors (disk (aglobals a'))) →
  (∀ i, (op_of <$> own i (history (aglobals a'))) `prefix_of` default [] (programs !! i)) →
  told (history (aglobals a')) pc' →
  (∀ q, apart pc q → apart pc' q ∧ (told (history (aglobals a)) q → told (history (aglobals a')) q)) →
  sequential a'.
Proof.
  intros [] Ht E Hr Ho Htold Hq.
  assert (∀ t' ws'' q, clients a' !! t' = Some (ws'', q) → (t' = t ∧ q = pc') ∨ (t' ≠ t ∧ clients a !! t' = Some (ws'', q))) as Hc.
  { intros t' ws'' q. rewrite E. unfold put. destruct ws'.
    - intros [? ?]%lookup_delete_Some. right. by split.
    - rewrite lookup_insert. case_decide; [|intros; right; by split]. intros [= <- <-]. by left. }
  constructor; [done..| |].
  - intros t' ws'' q [[-> ->]|[Hne Ht']]%Hc; [done|].
    apply (Hq q); [by eapply (s_apart0 t t')|by eapply s_told0].
  - intros t1 t2 ws1 ws2 q1 q2 [[-> ->]|[Hn1 H1]]%Hc [[-> ->]|[Hn2 H2]]%Hc Hne; [done|..].
    + apply (Hq q2). by eapply (s_apart0 t t2).
    + apply apart_sym, (Hq q1). by eapply (s_apart0 t t1).
    + by eapply (s_apart0 t1 t2).
Qed.

(** The place changes and the calls made do not. *)
Lemma sequential_on (a a' : machine) t ws pc ws' pc' :
  sequential a → clients a !! t = Some (ws, pc) → clients a' = put t ws' pc' (clients a) →
  aglobals a' = aglobals a → caller_at pc' = caller_at pc → told (history (aglobals a)) pc' → sequential a'.
Proof.
  intros Hs Ht E Eg Ec Htold. pose proof Hs as []. eapply sequential_moved; [exact Hs|exact Ht|exact E|..]; rewrite ?Eg; try done.
  intros q Hq. split; [|done]. unfold apart in *. by rewrite Ec.
Qed.

(** A request. *)
Lemma sequential_request (a a' : machine) t now me o ops g pc' c :
  sequential a → clients a !! t = Some ([FClient], Locked me o ops) →
  Request now me o ops (aglobals a) = Ok (g, pc', c) →
  clients a' = put t [FClient] pc' (clients a) → aglobals a' = g → sequential a'.
Proof.
  intros Hs Ht Hr E Eg. pose proof Hs as []. destruct (s_told0 _ _ _ Ht) as [Eo Ep]. cbn in Eo, Ep.
  apply Request_event in Hr as (e & Hop & Eh & -> & Hev). rewrite <- Eg in *.
  eapply sequential_moved; [exact Hs|exact Ht|exact E|..]; rewrite ?Eh.
  - rewrite fmap_app. by eapply apply_events_snoc.
  - intros i. rewrite own_snoc. case_decide as Ei; [subst i|rewrite app_nil_r; apply s_order0].
    rewrite Eo, Ep, fmap_app. cbn. rewrite Hop. exists ops. by rewrite <- app_assoc.
  - split; cbn [index did todo]; [by rewrite own_snoc, decide_True, Eo|].
    rewrite Ep, fmap_app, <- app_assoc. cbn. by rewrite Hop.
  - intros q Hq. split; [exact Hq|]. unfold told, apart in *. cbn in Hq. destruct (caller_at q) as [n|me'].
    + intros [? Hn]. split; [done|]. intros i Hi. rewrite own_snoc, decide_False, app_nil_r by lia. by apply Hn.
    + rewrite own_snoc, decide_False, app_nil_r by done. done.
Qed.

Lemma sequential_fork (a : machine) t n p ps n' :
  sequential a → clients a !! t = Some ([FClient], Start n (p :: ps)) →
  clients (with_client t [FClient] (Start (S n) ps) a) !! n' = None →
  sequential (with_client n' [FClient] (At (mkCaller n []) p) (with_client t [FClient] (Start (S n) ps) a)).
Proof.
  intros Hs Ht Hn. pose proof Hs as []. destruct (s_told0 _ _ _ Ht) as [Ep Ho]. cbn in Ep.
  specialize (Ep (p :: ps) (or_intror eq_refl)).
  assert (programs !! n = Some p ∧ ps = drop (S n) programs) as [Hp Hps].
  { split; [rewrite <- (Nat.add_0_r n), <- lookup_drop, <- Ep; done|].
    replace (S n) with (n + 1)%nat by lia. rewrite <- drop_drop, <- Ep. done. }
  assert (sequential (with_client t [FClient] (Start (S n) ps) a)) as Hs1.
  { eapply sequential_moved; [exact Hs|exact Ht|reflexivity|done..| |].
    - split; [by intros ps' [?|[= ->]]|]. intros i Hi. apply Ho. lia.
    - intros q Hq. split; [|done]. unfold apart in *. cbn in *. destruct (caller_at q); [done|lia]. }
  assert (∀ t' ws q, clients (with_client t [FClient] (Start (S n) ps) a) !! t' = Some (ws, q) →
    apart (At (mkCaller n []) p) q) as Hnew.
  { intros t' ws q Hq. cbn [clients with_client put] in Hq. rewrite lookup_insert in Hq. case_decide as Et.
    - injection Hq as <- <-. cbn. lia.
    - pose proof (s_apart0 _ _ _ _ _ _ Ht Hq ltac:(done)) as Hap. unfold apart in *. cbn in *.
      destruct (caller_at q); [done|lia]. }
  destruct Hs1 as [Hr1 Ho1 Ht1 Ha1]. constructor; [done..| |].
  - intros t' ws q Hq. cbn [clients with_client put] in Hq. rewrite lookup_insert in Hq. case_decide as Et; [|by eapply Ht1].
    injection Hq as <- <-. split; [cbn; apply Ho; lia|]. cbn. by rewrite Hp.
  - intros t1 t2 ws1 ws2 q1 q2 H1 H2 Hne. cbn [clients with_client put] in H1, H2.
    destruct (decide (n' = t1)) as [Hn1|Hn1], (decide (n' = t2)) as [Hn2|Hn2]; [congruence|..].
    + subst t1. rewrite lookup_insert_eq in H1. rewrite lookup_insert_ne in H2 by done. injection H1 as <- <-. by eapply Hnew.
    + subst t2. rewrite lookup_insert_eq in H2. rewrite lookup_insert_ne in H1 by done.
      injection H2 as <- <-. by eapply apart_sym, Hnew.
    + rewrite lookup_insert_ne in H1, H2 by done. by eapply (Ha1 t1 t2).
Qed.

Lemma sequential_client (a a' : machine) t now pc g pc' c :
  sequential a → clients a !! t = Some ([FClient], pc) → resume_at now pc (aglobals a) = Ok (g, pc', c) →
  call_effect c (with_client t (call_frames c) pc' (with_globals g a)) a' → sequential a'.
Proof.
  intros Hs Ht Hc He. pose proof (s_told _ Hs _ _ _ Ht) as Htold.
  destruct pc as [ps|n [|p ps]|me [|o ops]|me o ops|me ops|me ops]; cbn in Hc;
    try (injection Hc as <- <- <-; inversion He; subst; try done; cbn [call_frames];
         eapply sequential_on; try exact Hs; try exact Ht; try reflexivity; exact Htold).
  - injection Hc as <- <- <-. inversion He; subst; [|done].
    eapply sequential_on; try exact Hs; try exact Ht; try reflexivity. destruct Htold as [Hp Ho].
    split; [|exact Ho]. intros ps' [?|[= ->]]; [done|]. apply Hp. by left.
  - injection Hc as <- <- <-. inversion He; subst; [|done].
    assert (with_globals (aglobals a) a = a) as E by (by destruct a). rewrite E in *. by apply sequential_fork.
  - pose proof Hc as (_ & _ & [me' ->] & ticks & ->)%Request_Ok. inversion He; subst; [|done].
    eapply sequential_request; [exact Hs|exact Ht|exact Hc|reflexivity|reflexivity].
Qed.

Lemma sequential_step (a a' : machine) : sequential a → astep a a' → sequential a'.
Proof.
  intros Hs H.
  destruct H as [a a' (E1 & _ & _ & _ & E2)|t now pc g pc' c a a' Ht Hc He| | | | | | | |
    d ty ds' g es ss vs a Ei Hd Hb];
    try (eapply sequential_same; [exact Hs|reflexivity|reflexivity|by eapply put_places]).
  - eapply sequential_same; [exact Hs|by rewrite E2|by rewrite E2|]. intros t ws pc. rewrite <- E1. eauto.
  - by eapply sequential_client.
  - injection Hd as <- <- <-. eapply sequential_same; [exact Hs|reflexivity|reflexivity|]. eauto.
Qed.
End history.

(** ** One call at a time *)

(** The thread has made its request and not yet given the lock back: its call is
    the last in the history. *)
Definition inside (pc : place) : option caller :=
  match pc with Requested me _ | Finished me _ => Some me | _ => None end.

Definition latest (a : machine) : Prop :=
  ∀ t ws pc me, clients a !! t = Some (ws, pc) → inside pc = Some me →
    ∃ e, list.last (did me) = Some e ∧ list.last (history (aglobals a)) = Some (index me, e).

Lemma inside_holds ws pc me : shape ws pc → inside pc = Some me → lock ∈ held ws (place_holds pc).
Proof. intros Hs Hi. destruct Hs as [[]| | | | | |]; try discriminate Hi; cbn; clear Hi; set_solver. Qed.

Lemma latest_put (a a' : machine) t ws ws' pc pc' :
  latest a → clients a !! t = Some (ws, pc) → clients a' = put t ws' pc' (clients a) →
  history (aglobals a') = history (aglobals a) → (∀ me, inside pc' = Some me → inside pc = Some me) → latest a'.
Proof.
  intros HL Ht E Eh Hi t' ws'' q me. rewrite E, Eh. unfold put. destruct ws'.
  - intros [_ ?]%lookup_delete_Some. by eapply HL.
  - rewrite lookup_insert. case_decide as Et; [|by apply HL]. intros [= <- <-] Hme. eapply HL; [exact Ht|auto].
Qed.

Lemma latest_request (a a' : machine) t now me o ops g pc' c :
  J a → clients a !! t = Some ([FClient], Locked me o ops) →
  Request now me o ops (aglobals a) = Ok (g, pc', c) →
  clients a' = put t [FClient] pc' (clients a) → aglobals a' = g → latest a'.
Proof.
  intros HJ Ht Hr E Eg. pose proof HJ as (Hd & Ho & Hsh & _).
  apply Request_event in Hr as (e & _ & Eh & -> & _). rewrite <- Eg in Eh.
  intros t' ws' q me' Hq Hin. rewrite E in Hq. cbn [put] in Hq. rewrite lookup_insert in Hq. case_decide as Et.
  - injection Hq as <- <-. injection Hin as <-. exists e. cbn. by rewrite Eh, !last_snoc.
  - destruct Et. eapply (one_holder a lock t t'); [done|done|exact Ht|exact Hq|cbn; set_solver|].
    eapply inside_holds; [by eapply Hsh|exact Hin].
Qed.

Lemma latest_step (a a' : machine) : J a → latest a → astep a a' → latest a'.
Proof.
  intros HJ HL H.
  destruct H as [a a' (E1 & _ & _ & _ & E2)|t now pc g pc' c a a' Ht Hc He| | | | | | | |
    d ty ds' g es ss vs a Ei Hd Hb];
    try (eapply latest_put; [exact HL|eassumption|reflexivity|reflexivity|by intros]).
  - unfold latest. by rewrite <- E1, <- E2.
  - destruct pc as [ps|n [|p ps]|me [|o ops]|me o ops|me ops|me ops]; cbn in Hc;
      try (injection Hc as <- <- <-; inversion He; subst; try done; cbn [call_frames];
           eapply latest_put; [exact HL|exact Ht|reflexivity|reflexivity|done]).
    + injection Hc as <- <- <-. inversion He; subst; [|done].
      assert (latest (with_client t [FClient] (Start (S n) ps) (with_globals (aglobals a) a))) as HL1
        by (eapply latest_put; [exact HL|exact Ht|reflexivity|reflexivity|done]).
      intros t' ws q me Hq Hin. cbn [clients with_client put] in Hq. rewrite lookup_insert in Hq.
      case_decide; [by injection Hq as <- <-|by eapply HL1].
    + pose proof Hc as (_ & _ & [me' ->] & ticks & ->)%Request_Ok. inversion He; subst; [|done].
      eapply latest_request; [exact HJ|exact Ht|exact Hc|reflexivity|reflexivity].
  - injection Hd as <- <- <-. exact HL.
Qed.

(** A busy disk works for the thread that made the last request. *)
Lemma busy_inside (a : machine) :
  J a → Disk.active (disk (aglobals a)) = true → ∃ t ws pc me, clients a !! t = Some (ws, pc) ∧ inside pc = Some me.
Proof.
  intros (_ & _ & _ & Hst) Ha. destruct Hst as [(E & _)|(_ & p & Hp & Hiff)]; [congruence|].
  assert (p ≠ SynchDisk.Idle) as Hne by (intros ->; destruct Hp as [E _]; congruence).
  apply Hiff in Hne as [t Ht]. unfold waiting_at in Ht. destruct (clients a !! t) as [[ws pc]|] eqn:E; [|done].
  exists t, ws, pc. destruct pc; try done; by eexists.
Qed.

(** ** The history only grows *)

Definition extends (h : list (nat * event)) (a : machine) : Prop := h `prefix_of` history (aglobals a).

Lemma extends_step h (a a' : machine) : extends h a → astep a a' → extends h a'.
Proof.
  intros Hh H. unfold extends in *.
  destruct H as [a a' (_ & _ & _ & _ & <-)|t now pc g pc' c a a' Ht Hc He| | | | | | | |
    d ty ds' g es ss vs a Ei Hd Hb]; try exact Hh.
  - assert (aglobals a' = g) as -> by (by inversion He; subst).
    destruct pc as [ps|n [|p ps]|me [|o ops]|me o ops|me ops|me ops]; cbn in Hc; try (injection Hc as <- _ _; exact Hh).
    apply Request_event in Hc as (e & _ & -> & _). by apply prefix_app_r.
  - injection Hd as <- <- <-. exact Hh.
Qed.

Lemma history_grows rnd useTimer k k' :
  wf k → steps (kstep rnd useTimer) k k' → history (shared k) `prefix_of` history (shared k').
Proof.
  intros Hwf Hs. change (extends (history (shared k)) (absf k')).
  enough (wf k' ∧ extends (history (shared k)) (absf k')) by naive_solver.
  eapply (steps_inv (kstep rnd useTimer) (λ k', wf k' ∧ extends (history (shared k)) (absf k'))); [|exact Hs|split; [done|]; unfold extends; reflexivity].
  intros k1 k2 [Hw1 H1] Hk. split; [exact (kstep_wf rnd useTimer k1 k2 Hw1 Hk)|].
  eapply rtc_ind_r; [exact H1| |exact (kstep_follows rnd useTimer k1 k2 Hw1 Hk)]. intros a a' _ Ha ?. by eapply extends_step.
Qed.

(** ** Theorem *)

(** C9: concurrent calls of [ReadSector] and [WriteSector] are linearizable.
    Under every schedule the requests, in the order in which they were made, are
    an execution of the calls one after the other on the array of sectors, with
    the data the callers got, and lead to the present disk; the calls of each
    program are in it in the order of the program, from the first on; what a
    thread has got, in the calls that returned and the one it is inside of, is
    its part of the history.  A thread that has made its request and not yet
    given the lock back made the last one, and while the disk is busy there is
    such a thread, so that a call does not return before it is done.  The history
    only grows at its end, so that a call made after another one returned comes
    after it. *)
Theorem SynchDisk_linearizable rnd useTimer ds programs k0 k :
  start rnd useTimer ds programs = Ok k0 → steps (kstep rnd useTimer) k0 k →
  let h := history (shared k) in
  apply_events h.*2 ds = Ok (sectors (disk (shared k))) ∧
  (∀ i, (op_of <$> own i h) `prefix_of` default [] (programs !! i)) ∧
  (∀ t ws pc me, clients (absf k) !! t = Some (ws, pc) → caller_at pc = inr me →
    own (index me) h = did me ∧ programs !! index me = Some ((op_of <$> did me) ++ todo pc)) ∧
  (∀ t ws pc me, clients (absf k) !! t = Some (ws, pc) → inside pc = Some me →
    ∃ e, list.last (did me) = Some e ∧ list.last h = Some (index me, e)) ∧
  (Disk.active (disk (shared k)) = true →
    ∃ t ws pc me, clients (absf k) !! t = Some (ws, pc) ∧ inside pc = Some me) ∧
  (∀ k', steps (kstep rnd useTimer) k k' → h `prefix_of` history (shared k')).
Proof.
  intros Hi Hs h. pose proof (start_J _ _ _ _ _ _ Hi Hs) as HJ.
  assert (sequential ds programs (absf k)) as [Hr Ho Ht _].
  { eapply (machine_invariant rnd useTimer (sequential ds programs)); [exact Hi|exact Hs| |exact (sequential_step _ _)].
    constructor; [done|intros; apply prefix_nil| |].
    - intros t ws pc H. destruct (ainit_client (C := client) _ _ _ _ _ _ H) as (_ & _ & ->). split; [|done].
      by intros ps [[= ->]|?].
    - intros t t' ws ws' pc pc' H H'. destruct (ainit_client (C := client) _ _ _ _ _ _ H) as (-> & _).
      by destruct (ainit_client (C := client) _ _ _ _ _ _ H') as (-> & _). }
  assert (J (absf k) ∧ latest (absf k)) as [_ HL].
  { eapply (machine_invariant rnd useTimer (λ a, J a ∧ latest a)); [exact Hi|exact Hs| |].
    - split; [apply J_init|]. intros t ws pc me H. by destruct (ainit_client (C := client) _ _ _ _ _ _ H) as (_ & _ & ->).
    - intros a a' [HJa HLa] H. split; [by eapply SynchDisk_step|by eapply latest_step]. }
  split_and!; [exact Hr|exact Ho| |exact HL|exact (busy_inside _ HJ)|].
  - intros t ws pc me Hc Hme. pose proof (Ht _ _ _ Hc) as Htold. unfold told in Htold. by rewrite Hme in Htold.
  - intros k' Hs'. eapply history_grows; [|exact Hs']. apply (reachable_wf rnd useTimer). by eexists _, _, _, _, _, _.
Qed.

(** The write of one thread and the read of the other, which gets what was
    written. *)
Lemma SynchDisk_linearizable_witness :
  ∃ k : kernel,
    history (shared k) = [(0%nat, DidWrite 0 (replicate 128 1)); (1%nat, DidRead 0 (replicate 128 1))] ∧
    apply_events (history (shared k)).*2 [replicate 128 7] = Ok (sectors (disk (shared k))).
Proof.
  assert (∃ k0, start (λ _, 150) true [replicate 128 7] example_programs = Ok k0) as [k0 E]
    by (eexists; reflexivity).
  exists (run (kstep (λ _, 150) true) 1000 k0).1.
  split; [injection E as <-; vm_compute; reflexivity|].
  exact (proj1 (SynchDisk_linearizable (λ _, 150) true _ _ k0 _ E (run_steps _ 1000 k0))).
Defined.
