(* ===== verification/Console.v ===== *)
(** * machine/console.cc and ConsoleTest of userprog/progtest.cc

    The console device and the thread that echoes what is typed, as a client of
    the kernel.  The device has two interrupts, which it schedules itself: the
    periodic poll of the keyboard and the end of a [PutChar].  What [PollFile]
    and [Read] of the host answer, poll by poll, is the list [typed]; a list
    that has run out means that nothing more is typed, while the end of a file is
    an answer of its own.  Characters are signed ([char] on i386).  The thread is
    that of main.cc with -c, which halts the machine when [ConsoleTest] returns. *)

From S2P Require Import Prelude NachList Kernel KernelInv KernelSpec KernelMachine.

Local Open Scope Z_scope.

Definition ConsoleTime : Z := 100.
Definition EOF : Z := -1.

(** The handlers the device schedules. *)
Inductive irq := ConsoleReadPoll | ConsoleWriteDone.

#[export] Instance irq_eq_dec : EqDecision irq.
Proof. solve_decision. Defined.

(** What a poll finds: nothing to read, a character, or the end of the file
    the input comes from, where [PollFile] says that it can be read. *)
Inductive key := Nothing | Key (c : Z) | EndOfFile.

#[export] Instance key_eq_dec : EqDecision key.
Proof. solve_decision. Defined.

Definition char_of (k : key) : option Z := match k with Key c => Some c | _ => None end.

Record Console := mkConsole { putBusy : bool; incoming : Z }.

(** The console, what will be typed, the characters read from the keyboard
    ([numConsoleCharsRead] is their number) and those written to the display. *)
Record vars := mkVars {
  console : Console;
  typed : list key;
  arrived : list Z;
  display : list Z;
}.

(** Semaphores of ConsoleTest. *)
Definition readAvail : nat := 0.
Definition writeDone : nat := 1.

(** What a handler does: the globals, what it schedules, the semaphores it Vs. *)
Definition effect : Type := vars * list (irq * Z * IntType) * list nat.

(** ** machine/console.cc *)

Definition new_Console : Console := mkConsole false EOF.

(** [Read] of sysdep.cc asserts that it got the byte it asked for. *)
Definition CheckCharAvail (g : vars) : Result effect :=
  let next := [(ConsoleReadPoll, ConsoleTime, ConsoleReadInt)] in
  if decide (incoming (console g) ≠ EOF) then mret (g, next, [])
  else
    match typed g with
    | [] => mret (g, next, [])
    | Nothing :: rest => mret (mkVars (console g) rest (arrived g) (display g), next, [])
    | Key c :: rest =>
        mret (mkVars (mkConsole (putBusy (console g)) c) rest (arrived g ++ [c]) (display g), next, [readAvail])
    | EndOfFile :: _ => Err AssertFailed
    end.

Definition WriteDone (g : vars) : effect :=
  (mkVars (mkConsole false (incoming (console g))) (typed g) (arrived g) (display g), [], [writeDone]).

Definition GetChar (c : Console) : Z * Console := (incoming c, mkConsole (putBusy c) EOF).

(** Up to [interrupt->Schedule(ConsoleWriteDone, ..., ConsoleTime, ConsoleWriteInt)]. *)
Definition PutChar (ch : Z) (g : vars) : Result vars :=
  ASSERT (negb (putBusy (console g)));;
  mret (mkVars (mkConsole true (incoming (console g))) (typed g) (arrived g) (display g ++ [ch])).

(** ** ConsoleTest *)

Inductive place :=
| Boot                (**r before [new Console] *)
| NewReadAvail        (**r before [new Semaphore("read avail", 0)] *)
| NewWriteDone        (**r before [new Semaphore("write done", 0)] *)
| Loop                (**r at the head of [for (;;)] *)
| Get                 (**r after [readAvail->P()] *)
| Echoed (ch : Z)     (**r after [console->PutChar(ch)] *)
| Test (ch : Z).      (**r after [writeDone->P()] *)

Definition outcome : Type := vars * place * call place irq.

(** [ch = console->GetChar(); console->PutChar(ch);] *)
Definition echo (g : vars) : Result outcome :=
  let '(ch, c) := GetChar (console g) in
  g ← PutChar ch (mkVars c (typed g) (arrived g) (display g));
  mret (g, Echoed ch, CSchedule ConsoleWriteDone ConsoleTime ConsoleWriteInt).

Definition letter_q : Z := 113.

(** When [ConsoleTest] returns, main.cc calls [interrupt->Halt()]. *)
Definition ConsoleTest (pc : place) (g : vars) : Result outcome :=
  match pc with
  | Boot =>
      mret (mkVars new_Console (typed g) (arrived g) (display g), NewReadAvail,
        CSchedule ConsoleReadPoll ConsoleTime ConsoleReadInt)
  | NewReadAvail => mret (g, NewWriteDone, CNewSem readAvail 0)
  | NewWriteDone => mret (g, Loop, CNewSem writeDone 0)
  | Loop => mret (g, Get, CP readAvail)
  | Get => echo g
  | Echoed ch => mret (g, Test ch, CP writeDone)
  | Test ch => if decide (ch = letter_q) then Err Exit else mret (g, Get, CP readAvail)
  end.

Definition handle (d : irq) (g : vars) : Result effect :=
  match d with ConsoleReadPoll => CheckCharAvail g | ConsoleWriteDone => mret (WriteDone g) end.

#[global] Instance client : Client := {
  local := place;
  globals := vars;
  device := irq;
  client_step _ _ pc g := ConsoleTest pc g;
  device_handler d g := handle d g;
}.

Lemma echo_Ok g g' pc' c :
  echo g = Ok (g', pc', c) →
  putBusy (console g) = false ∧ pc' = Echoed (incoming (console g)) ∧
  c = CSchedule ConsoleWriteDone ConsoleTime ConsoleWriteInt ∧
  g' = mkVars (mkConsole true EOF) (typed g) (arrived g) (display g ++ [incoming (console g)]).
Proof. unfold echo, PutChar. cbn. intros H. invert_ok. by destruct (putBusy (console g)). Qed.

#[global] Instance client_sane : SaneClient.
Proof.
  intros t now pc g g' pc' s v H. cbn in H.
  destruct pc; cbn in H; try case_decide; try (unfold mret, Result_ret in H; by simplify_eq).
  by apply echo_Ok in H as (_ & _ & ? & _).
Qed.

(** ** The protocol of the interrupts and the semaphores *)

Abbreviation machine := (amachine (C := client)).

(** The calls the thread can be inside of, place by place. *)
Inductive shape : list frame → place → Prop :=
| shape_client pc : shape [FClient] pc
| shape_read : shape [FP (SemId readAvail); FClient] Get
| shape_write ch : shape [FP (SemId writeDone); FClient] (Test ch).

(** The thread has taken the unit of [readAvail] of a character and not yet
    fetched it. *)
Definition taking (th : option (list frame * place)) : Z :=
  match th with Some ([FClient], Get) => 1 | _ => 0 end.

(** The thread has put a character and not yet taken the unit of [writeDone]. *)
Definition putting (th : option (list frame * place)) : Z :=
  match th with
  | Some ([FClient], Echoed _) | Some ([FP _; FClient], Test _) => 1
  | _ => 0
  end.

Definition booting (th : option (list frame * place)) : Z :=
  match th with Some (_, Boot) => 1 | _ => 0 end.

Definition full (c : Console) : Z := if decide (incoming c = EOF) then 0 else 1.

Definition busy (c : Console) : Z := if putBusy c then 1 else 0.

Definition units (s : nat) (a : machine) : Z := default 0 (avalues a !! SemId s).

(** How often [d] is scheduled. *)
Definition scheduled (d : irq) (ds : list (irq * IntType)) : Z :=
  Z.of_nat (length (filter (λ x, d = x.1) ds)).

(** The character in the buffer of the device, if there is one. *)
Definition buffered (c : Console) : list Z := if decide (incoming c = EOF) then [] else [incoming c].

(** 'q' is only ever the last character displayed; the thread does not return. *)
Definition quits (th : option (list frame * place)) (shown : list Z) : Prop :=
  match th with
  | Some (_, Echoed ch) | Some (_, Test ch) => ∃ l, shown = l ++ [ch] ∧ letter_q ∉ l
  | None => False
  | Some _ => letter_q ∉ shown
  end.

(** The thread [th], the values [r] and [w] of the semaphores, the scheduled
    interrupts [ds] and the globals [g] when the keys were [keys]. *)
Record conf (keys : list key) (th : option (list frame * place)) (r w : Z)
    (ds : list (irq * IntType)) (g : vars) : Prop := {
  c_shape : match th with Some (ws, pc) => shape ws pc | None => True end;
  c_units : 0 ≤ r ∧ 0 ≤ w;
  c_read : r + taking th = full (console g);
  c_write : w + busy (console g) = putting th;
  c_poll : scheduled ConsoleReadPoll ds = 1 - booting th;
  c_done : scheduled ConsoleWriteDone ds = busy (console g);
  c_types : Forall (λ x, x.2 ≠ TimerInt) ds;
  c_keys : Forall (λ o, o ≠ Key EOF) (typed g);
  c_typed : typed g `suffix_of` keys;
  c_boot : booting th = 1 → console g = new_Console;
  c_arrived : omap char_of keys = arrived g ++ omap char_of (typed g);
  c_display : arrived g = display g ++ buffered (console g);
  c_quits : quits th (display g);
}.

(** Only thread 0 runs. *)
Definition J (keys : list key) (a : machine) : Prop :=
  (∀ t, t ≠ 0%nat → clients a !! t = None) ∧
  conf keys (clients a !! 0%nat) (units readAvail a) (units writeDone a) (irqs a) (aglobals a).

Lemma scheduled_perm d ds ds' : ds ≡ₚ ds' → scheduled d ds = scheduled d ds'.
Proof. intros E. unfold scheduled. by rewrite E. Qed.

Lemma scheduled_same d ty ds : scheduled d ((d, ty) :: ds) = 1 + scheduled d ds.
Proof. unfold scheduled. rewrite filter_cons_True by done. cbn [length]. lia. Qed.

Lemma scheduled_other d d' ty ds : d ≠ d' → scheduled d ((d', ty) :: ds) = scheduled d ds.
Proof. intros. unfold scheduled. by rewrite filter_cons_False. Qed.

(** The thread moves on. *)
Lemma J_put keys (a a' : machine) ws pc :
  J keys a → clients a' = put 0 ws pc (clients a) →
  conf keys (match ws with [] => None | _ => Some (ws, pc) end)
    (units readAvail a') (units writeDone a') (irqs a') (aglobals a') → J keys a'.
Proof.
  intros [Ho _] E Hc. split.
  - intros t Ht. rewrite E. unfold put. destruct ws; [rewrite lookup_delete_ne|rewrite lookup_insert_ne]; auto.
  - rewrite E. unfold put. destruct ws; [by rewrite lookup_delete_eq|by rewrite lookup_insert_eq].
Qed.

Lemma buffered_full c : full c = Z.of_nat (length (buffered c)).
Proof. unfold full, buffered. by case_decide. Qed.

(** What a configuration says, computed as far as it goes. *)
Ltac conf :=
  repeat match goal with H : conf _ _ _ _ _ _ |- _ => destruct H end;
  cbn [taking putting booting quits Z.add Z.sub] in *;
  constructor; cbn [taking putting booting quits console typed arrived display];
  rewrite ?scheduled_same, ?scheduled_other by done; try done; try lia; try by constructor.

Lemma conf_echo keys r w ds g g' pc' c :
  conf keys (Some ([FClient], Get)) r w ds g → echo g = Ok (g', pc', c) →
  conf keys (Some ([FClient], pc')) r w ((ConsoleWriteDone, ConsoleWriteInt) :: ds) g'.
Proof.
  intros H (Hb & -> & -> & ->)%echo_Ok.
  assert (incoming (console g) ≠ EOF) as Hn.
  { intros E. destruct H. unfold full in *. rewrite decide_True in * by done. cbn in *. lia. }
  assert (full (console g) = 1 ∧ busy (console g) = 0 ∧ buffered (console g) = [incoming (console g)])
    as (Ef & Eb & Ebuf) by (unfold full, busy, buffered; by rewrite !decide_False, Hb by done).
  pose proof (c_display _ _ _ _ _ _ H) as Ed. rewrite Ebuf in Ed.
  conf; change (full (mkConsole true EOF)) with 0; change (busy (mkConsole true EOF)) with 1;
    change (buffered (mkConsole true EOF)) with (@nil Z); rewrite ?app_nil_r; try lia; try done.
  by eexists.
Qed.

(** ** Steps *)

Lemma units_new s (a : machine) : avalues a !! SemId s = None → units s (with_value (SemId s) 0 a) = units s a.
Proof. intros H. unfold units. cbn. by rewrite lookup_insert_eq, H. Qed.

Lemma ConsoleTest_units_other s s' v (a : machine) : s ≠ s' → units s (with_value (SemId s') v a) = units s a.
Proof. intros H. unfold units. cbn. rewrite lookup_insert_ne; [done|]. congruence. Qed.

Lemma units_set s v (a : machine) : units s (with_value (SemId s) v a) = v.
Proof. unfold units. cbn. by rewrite lookup_insert_eq. Qed.

(** A piece of the thread's code. *)
Lemma J_client keys (a a' : machine) pc g pc' c :
  J keys a → clients a !! 0%nat = Some ([FClient], pc) → ConsoleTest pc (aglobals a) = Ok (g, pc', c) →
  call_effect c (with_client 0 (call_frames c) pc' (with_globals g a)) a' → J keys a'.
Proof.
  intros HJ Ht Hc He. pose proof HJ as [_ Hconf]. rewrite Ht in Hconf.
  destruct pc as [| | | | |ch|ch]; cbn [ConsoleTest] in Hc; try case_decide;
    try (injection Hc as <- <- <-; inversion He; subst; try done; 
         eapply J_put; [exact HJ|reflexivity|]; cbn [call_frames]).
  - pose proof (c_boot _ _ _ _ _ _ Hconf eq_refl) as Eb. cbn [aglobals with_irqs with_client with_globals irqs].
    rewrite <- Eb. change (units ?s _) with (units s a). conf.
  - rewrite units_new by done. rewrite ConsoleTest_units_other by done. conf.
  - rewrite units_new by done. rewrite ConsoleTest_units_other by done. conf.
  - change (units ?s _) with (units s a). conf.
  - pose proof Hc as (_ & _ & -> & _)%echo_Ok. inversion He; subst; [|done].
    eapply J_put; [exact HJ|reflexivity|]. change (units ?s _) with (units s a). by eapply conf_echo.
  - change (units ?s _) with (units s a). conf.
  - change (units ?s _) with (units s a). conf.
  - change (units ?s _) with (units s a). conf.
    destruct c_quits0 as (l & El & Hl). change (letter_q ∉ display (aglobals a)). rewrite El. set_solver.
Qed.

(** A [P] goes through. *)
Lemma J_P keys (a : machine) s ws (pc : place) v :
  J keys a → clients a !! 0%nat = Some (FP s :: ws, pc) → avalues a !! s = Some v → v ≠ 0 →
  J keys (with_value s (v - 1) (with_client 0 ws pc a)).
Proof.
  intros HJ Ht Hv Hne. pose proof HJ as [_ Hconf]. rewrite Ht in Hconf.
  assert (∀ n, s = SemId n → units n a = v) as Hu by (intros n ->; unfold units; by rewrite Hv).
  pose proof (c_shape _ _ _ _ _ _ Hconf) as Hs. inversion Hs; subst; eapply J_put; try exact HJ; try reflexivity;
    rewrite units_set, ConsoleTest_units_other by done; change (units ?s (with_client _ _ _ _)) with (units s a);
    change (aglobals _) with (aglobals a); rewrite (Hu _ eq_refl) in Hconf; conf.
Qed.

Lemma full_char ch b : ch ≠ EOF → full (mkConsole b ch) = 1 ∧ buffered (mkConsole b ch) = [ch].
Proof. intros H. unfold full, buffered. cbn. by rewrite !decide_False. Qed.

Lemma empty_console c : incoming c = EOF → full c = 0 ∧ buffered c = [].
Proof. intros H. unfold full, buffered. by rewrite !decide_True. Qed.

(** The poll is scheduled again. *)
Lemma conf_repoll keys th r w ty ds g :
  conf keys th r w ((ConsoleReadPoll, ty) :: ds) g →
  conf keys th r w ((ConsoleReadPoll, ConsoleReadInt) :: ds) g.
Proof.
  intros []. rewrite scheduled_same in c_poll0. rewrite scheduled_other in c_done0 by done.
  apply Forall_cons in c_types0 as [_ ?].
  constructor; rewrite ?scheduled_same, ?scheduled_other by done; try done. by constructor.
Qed.

(** A character arrives. *)
Lemma conf_char keys th r w ds g ch rest :
  conf keys th r w ((ConsoleReadPoll, ConsoleReadInt) :: ds) g → incoming (console g) = EOF → typed g = Key ch :: rest →
  conf keys th (r + 1) w ((ConsoleReadPoll, ConsoleReadInt) :: ds)
    (mkVars (mkConsole (putBusy (console g)) ch) rest (arrived g ++ [ch]) (display g)).
Proof.
  intros Hc (Ef & Eb)%empty_console Et. destruct Hc as [Hsh [Hr Hw] Hrd Hwr Hp Hd Hty Hk Hsu Hb Ha Hdi Hq].
  rewrite Et in Hk, Ha, Hsu. apply Forall_cons in Hk as [Hch Hk].
  destruct (full_char ch (putBusy (console g))) as [Ef' Eb']; [congruence|].
  rewrite Ef in Hrd. rewrite Eb, app_nil_r in Hdi.
  assert (booting th = 0) as Hboot.
  { rewrite scheduled_same in Hp. unfold scheduled in Hp. unfold booting in *. repeat case_match; lia. }
  constructor; cbn [console typed arrived display]; rewrite ?Ef', ?Eb', ?Hdi; try done; try lia.
  - by eapply suffix_cons_l.
  - cbn in Ha. by rewrite <- Hdi, Ha, <- app_assoc.
Qed.

Lemma conf_nothing keys th r w ds g rest :
  conf keys th r w ds g → typed g = Nothing :: rest →
  conf keys th r w ds (mkVars (console g) rest (arrived g) (display g)).
Proof.
  intros [] Et. rewrite Et in *. constructor; cbn [console typed arrived display]; try done.
  - by apply Forall_cons in c_keys0 as [_ ?].
  - by eapply suffix_cons_l.
Qed.

(** The interrupts. *)
Lemma bump_one s (a : machine) vs ds g :
  bump [s] (avalues a) = Some vs →
  units s (mkAMachine (clients a) vs (owners a) ds g) = units s a + 1 ∧
  ∀ s', s' ≠ s → units s' (mkAMachine (clients a) vs (owners a) ds g) = units s' a.
Proof.
  cbn. intros (v & Hv & [= <-])%bind_Some. unfold units. cbn. rewrite lookup_insert_eq, Hv. split; [done|].
  intros s' Hne. rewrite lookup_insert_ne; [done|]. congruence.
Qed.

Lemma J_poll keys (a : machine) ty ds g es ss vs :
  J keys a → irqs a = (ConsoleReadPoll, ty) :: ds → CheckCharAvail (aglobals a) = Ok (g, es, ss) →
  bump ss (avalues a) = Some vs → J keys (mkAMachine (clients a) vs (owners a) ((called <$> es) ++ ds) g).
Proof.
  intros [Ho Hc] Ei E Hb. split; [done|]. rewrite Ei in Hc. apply conf_repoll in Hc.
  unfold CheckCharAvail in E. case_decide as Hin; [|destruct (typed (aglobals a)) as [|[|ch|] rest] eqn:Et];
    try discriminate E; injection E as <- <- <-; try (injection Hb as <-).
  - exact Hc.
  - exact Hc.
  - by apply conf_nothing.
  - pose proof (λ ds g, bump_one _ _ _ ds g Hb) as Hu. cbn [clients irqs aglobals].
    rewrite (proj1 (Hu _ _)), (proj2 (Hu _ _)) by done.
    apply conf_char; [done|by destruct (decide (incoming (console (aglobals a)) = EOF))|done].
Qed.

Lemma J_done keys (a : machine) ty ds vs :
  J keys a → irqs a = (ConsoleWriteDone, ty) :: ds → bump [writeDone] (avalues a) = Some vs →
  J keys (mkAMachine (clients a) vs (owners a) ds (WriteDone (aglobals a)).1.1).
Proof.
  intros [Ho Hc] Ei Hb. split; [done|]. rewrite Ei in Hc.
  destruct (bump_one _ _ _ ds (WriteDone (aglobals a)).1.1 Hb) as [E1 E2].
  rewrite E1, E2 by done. cbn [WriteDone clients irqs aglobals fst].
  destruct Hc as [Hsh [Hr Hw] Hrd Hwr Hp Hd Hty Hk Hsu Hbo Ha Hdi Hq].
  apply Forall_cons in Hty as [_ Hty].
  rewrite scheduled_same in Hd. rewrite scheduled_other in Hp by done.
  assert (busy (console (aglobals a)) = 1 ∧ scheduled ConsoleWriteDone ds = 0) as [Eb Es].
  { unfold busy, scheduled in *. case_match; lia. }
  constructor; cbn [console typed arrived display]; try done.
  - lia.
  - change (busy _) with 0. lia.
  - intros Hboot. by rewrite (Hbo Hboot).
Qed.

(** What [quits] says of the display. *)
Lemma quits_shown th shown : quits th shown → letter_q ∉ shown ∨ ∃ l, shown = l ++ [letter_q] ∧ letter_q ∉ l.
Proof.
  intros H. unfold quits in H. repeat case_match; try done; try (by left); destruct H as (l' & -> & Hl).
  all: destruct (decide (ch = letter_q)) as [->|Hne]; [right; by eexists|left; set_solver].
Qed.

Lemma quits_last th ws shown :
  quits th shown → th = Some (ws, Test letter_q) → list.last shown = Some letter_q.
Proof. intros H ->. destruct H as (l & -> & _). apply last_snoc. Qed.

(** The only thread, and the calls it is inside of. *)
Lemma J_shape keys (a : machine) t ws (pc : place) :
  J keys a → clients a !! t = Some (ws, pc) → t = 0%nat ∧ shape ws pc.
Proof.
  intros [Ho Hc] Ht. destruct (decide (t = 0%nat)) as [->|Hne]; [|by rewrite Ho in Ht].
  apply c_shape in Hc. by rewrite Ht in Hc.
Qed.

Lemma J_step keys (a a' : machine) : J keys a → astep a a' → J keys a'.
Proof.
  intros HJ H.
  pose proof (λ t ws pc, J_shape keys a t ws pc HJ) as Hth.
  destruct H as [a a' (E1 & E2 & _ & E4 & E5)|t ? pc g pc' c a a' Ht Hc He|t s ws pc v a Ht Hv Hne|
    t s ws pc v a Ht Hv|t l ws pc o a Ht|t l ws pc a Ht|t l ws pc a Ht|t c l ws pc a Ht|
    t f c l ws pc a Ht Hf|d ty ds g es ss vs a Ei Hd Hb];
    try (apply Hth in Ht as [_ Hs]; destruct_or?; subst; by inversion Hs).
  - destruct HJ as [Ho Hc]. unfold J, units. rewrite <- E1, <- E2, <- E5. split; [done|].
    destruct Hc. constructor; try done; [by rewrite <- (scheduled_perm _ _ _ E4)..|by rewrite <- E4].
  - pose proof (Hth _ _ _ Ht) as [-> _]. by eapply J_client.
  - pose proof (Hth _ _ _ Ht) as [-> _]. by apply J_P.
  - destruct d; [by eapply J_poll|]. injection Hd as <- <- <-. by apply (J_done keys _ ty).
Qed.

(** Before the semaphores exist. *)
Definition early (pc : place) : bool :=
  match pc with Boot | NewReadAvail | NewWriteDone => true | _ => false end.

Definition early_ok (a : machine) : Prop :=
  ∀ t ws (pc : place), clients a !! t = Some (ws, pc) → early pc = true →
    avalues a !! SemId writeDone = None.

Lemma early_put (a a' : machine) t ws pc ws' pc' :
  early_ok a → clients a !! t = Some (ws, pc) → clients a' = put t ws' pc' (clients a) →
  (early pc' = true → early pc = true) →
  (early pc' = true → avalues a' !! SemId writeDone = avalues a !! SemId writeDone) →
  (∀ t', t' ≠ t → clients a !! t' = None) → early_ok a'.
Proof.
  intros He Ht E Hpc Hv Ho t' ws'' pc'' Ht' Hearly. rewrite E in Ht'. unfold put in Ht'.
  destruct (decide (t' = t)) as [->|Hne].
  - destruct ws'; [by rewrite lookup_delete_eq in Ht'|]. rewrite lookup_insert_eq in Ht'.
    injection Ht' as <- <-. rewrite Hv by auto. eapply He; [exact Ht|auto].
  - destruct ws'; [rewrite lookup_delete_ne in Ht' by done|rewrite lookup_insert_ne in Ht' by done];
      by rewrite Ho in Ht'.
Qed.

(** What a handler asks for; it takes nothing but the first key. *)
Lemma handle_effect d g g' es ss :
  handle d g = Ok (g', es, ss) →
  Forall (λ x : irq * Z * IntType, 0 < x.1.2) es ∧ (ss = [] ∨ ss = [readAvail] ∨ ss = [writeDone]) ∧
  typed g' `suffix_of` typed g.
Proof.
  intros H. destruct d; cbn in H; [unfold CheckCharAvail in H; case_decide; [|destruct (typed g) as [|[|c|] rest] eqn:Et]|];
    try discriminate H; injection H as <- <- <-; split_and!; auto; try (by repeat constructor);
    cbn [typed]; rewrite ?Et; try reflexivity; by apply suffix_cons_r.
Qed.

Lemma early_step keys (a a' : machine) : J keys a → early_ok a → astep a a' → early_ok a'.
Proof.
  intros HJ He H.
  assert (∀ t ws (pc : place), clients a !! t = Some (ws, pc) →
    (∀ t', t' ≠ t → clients a !! t' = None) ∧ shape ws pc) as Hth.
  { intros t ws pc Ht. destruct (J_shape _ _ _ _ _ HJ Ht) as [-> Hs]. split; [apply HJ|done]. }
  destruct H as [a a' (E1 & E2 & _)|t ? pc g pc' c a a' Ht Hc Hef|t s ws pc v a Ht Hv Hne|
    t s ws pc v a Ht Hv|t l ws pc o a Ht|t l ws pc a Ht|t l ws pc a Ht|t c l ws pc a Ht|
    t f c l ws pc a Ht Hf|d ty ds g es ss vs a Ei Hd Hb];
    try (apply Hth in Ht as [_ Hs]; destruct_or?; subst; by inversion Hs).
  - unfold early_ok. by rewrite <- E1, <- E2.
  - destruct (Hth _ _ _ Ht) as [Ho _]. destruct pc as [| | | | |ch|ch]; cbn [client_step client ConsoleTest] in Hc;
      try case_decide; try (injection Hc as <- <- <-); try (apply echo_Ok in Hc as (_ & -> & -> & _));
      inversion Hef; subst; try done; eapply early_put; try exact Ht; try exact Ho; try reflexivity; try done.
    intros _. cbn. by rewrite lookup_insert_ne.
  - destruct (Hth _ _ _ Ht) as [Ho Hs]. eapply early_put; try exact Ht; try exact Ho; try reflexivity; try done.
    by inversion Hs; subst.
  - intros t ws pc Ht Hearly. specialize (He t ws pc Ht Hearly). cbn.
    destruct (handle_effect _ _ _ _ _ Hd) as (_ & [->|[->| ->]] & _).
    + by injection Hb as <-.
    + cbn in Hb. apply bind_Some in Hb as (v & _ & [= <-]). by rewrite lookup_insert_ne.
    + cbn in Hb. by rewrite He in Hb.
Qed.

(** ** Theorems *)

(** [ConsoleTest(in, out)] with the keyboard answering [keys]. *)
Definition start (rnd : nat → Z) (useTimer : bool) (keys : list key) : Result kernel :=
  initial rnd useTimer useTimer 0 0 (mkVars new_Console keys [] []) Boot.

Lemma ConsoleTest_J rnd useTimer keys k0 k :
  Forall (λ o, o ≠ Key EOF) keys → start rnd useTimer keys = Ok k0 → steps (kstep rnd useTimer) k0 k →
  J keys (absf k) ∧ early_ok (absf k).
Proof.
  intros Hk Hi Hs. eapply (machine_invariant rnd useTimer (λ a, J keys a ∧ early_ok a)); [exact Hi|exact Hs| |].
  - split; [split|done].
    + intros t Ht. cbn [ainit clients]. by rewrite lookup_singleton_ne.
    + constructor; try done; [constructor|apply not_elem_of_nil].
  - intros a a' [HJ He] H. split; [by eapply J_step|by eapply early_step].
Qed.

(** C21: [ConsoleTest] echoes what is typed: under every schedule, the
    characters the device has read are those typed, in order; the display shows
    them all but at most the one that waits in the buffer of the device; 'q' is
    only ever the last character shown, and when the test returns, whereupon
    main.cc halts the machine, it is.
    (No character typed is 0xff, which [char] cannot tell from EOF.) *)
Theorem ConsoleTest_echoes rnd useTimer keys k0 k :
  Forall (λ o, o ≠ Key EOF) keys → start rnd useTimer keys = Ok k0 → steps (kstep rnd useTimer) k0 k →
  (∃ later, omap char_of keys = arrived (shared k) ++ later) ∧
  arrived (shared k) = display (shared k) ++ buffered (console (shared k)) ∧
  (letter_q ∉ display (shared k) ∨ ∃ l, display (shared k) = l ++ [letter_q] ∧ letter_q ∉ l) ∧
  (clients (absf k) !! 0%nat = Some ([FClient], Test letter_q) →
   list.last (display (shared k)) = Some letter_q).
Proof.
  intros Hk Hi Hs. destruct (ConsoleTest_J _ _ _ _ _ Hk Hi Hs) as [[Ho Hc] _].
  pose proof (c_quits _ _ _ _ _ _ Hc) as Hq. destruct Hc. split_and!; [by eexists|done|by eapply quits_shown|].
  intros E. by eapply quits_last.
Qed.

(** The code of the thread returns, and what it asks of the kernel is in order,
    unless it halts after a 'q'. *)
Lemma ConsoleTest_total keys (a : machine) pc :
  J keys a → early_ok a → is_Some (avalues a !! SemId writeDone) → clients a !! 0%nat = Some ([FClient], pc) →
  pc = Test letter_q ∨
  ∃ g pc' c, ConsoleTest pc (aglobals a) = Ok (g, pc', c) ∧ (∀ n v, c ≠ CNewSem n v) ∧
    (∀ d n ty, c = CSchedule d n ty → 0 < n).
Proof.
  intros [_ Hc] He [v Hv] Ht. rewrite Ht in Hc.
  assert (early pc = false) as Hn
    by (destruct (early pc) eqn:E; [|done]; rewrite (He _ _ _ Ht E) in Hv; done).
  destruct pc as [| | | | |ch|ch]; try discriminate Hn; cbn; try case_decide as Hq;
    try (by left; rewrite Hq); right; try by eexists _, _, _.
  pose proof (c_write _ _ _ _ _ _ Hc) as Hw. pose proof (c_units _ _ _ _ _ _ Hc) as [_ Hu]. cbn in Hw.
  unfold echo, PutChar. cbn [GetChar console putBusy]. unfold busy in Hw.
  destruct (putBusy (console (aglobals a))); [lia|]. eexists _, _, _. split; [reflexivity|]. split; [done|].
  by intros ? ? ? [= <- <- <-].
Qed.

(** The poll keeps the machine from idling for ever. *)
Lemma polled keys k : J keys (absf k) → booting (clients (absf k) !! 0%nat) = 0 → ¬ idle_forever k.
Proof.
  intros [_ Hc] Hb [_ Hi]. pose proof (c_types _ _ _ _ _ _ Hc) as Ht. pose proof (c_poll _ _ _ _ _ _ Hc) as Hp.
  rewrite Hb in Hp. cbn [absf irqs] in Ht, Hp.
  destruct Hi as [E|([[|d] w' ty] & w & E & Ety)]; rewrite E in Ht, Hp; [done|done|].
  apply Forall_cons in Ht as [Ht _]. by destruct Ht.
Qed.

(** Nothing can go wrong with a frame of the test but the halt after a 'q'. *)
Lemma ConsoleTest_fault keys k th f fs e :
  J keys (absf k) → early_ok (absf k) → (∀ n : nat, (n < 2)%nat → is_Some (sems k !! SemId n)) →
  threads k !! currentThread k = Some th → stack th = f :: fs → fault f e k →
  e = Exit ∧ clients (absf k) !! 0%nat = Some ([FClient], Test letter_q).
Proof.
  intros HJ He Hsem Hth Est Hf. pose proof HJ as [Ho Hc].
  assert (is_Some (avalues (absf k) !! SemId writeDone)) as Hw.
  { cbn. rewrite lookup_fmap. destruct (Hsem writeDone) as [? ->]; [unfold writeDone; lia|by eexists]. }
  destruct (watch f) as [f'|] eqn:Ef.
  2: { exfalso. destruct f; try done; destruct e; try done. eapply polled; [exact HJ| |exact Hf].
       destruct (clients (absf k) !! 0%nat) as [[ws pc]|] eqn:E; [|done].
       destruct pc; try done. rewrite (He _ _ _ E eq_refl) in Hw. by destruct Hw. }
  assert (clients (absf k) !! currentThread k = Some (f' :: omap watch fs, resume th)) as Hcl
    by (apply (absf_lookup _ th); [done|]; by rewrite Est; cbn; rewrite Ef).
  destruct (J_shape _ _ _ _ _ HJ Hcl) as [E0 Hs]. rewrite E0 in Hcl.
  assert (∀ n : nat, (n < 2)%nat → sems k !! SemId n ≠ None) as Hsn
    by (intros n Hn E; destruct (Hsem n Hn) as [? E']; congruence).
  inversion Hs as [pc E1 E2|E1|ch E1]; subst f'; destruct f; try discriminate Ef; try (injection Ef as ->).
  - match goal with H : [] = _ |- _ => rewrite <- H in Hcl end.
    destruct (ConsoleTest_total keys (absf k) (resume th) HJ He Hw Hcl) as [Eq|(g & pc' & c & Er & Hns & Hsc)];
      [|by destruct (client_no_fault k th g pc' c e Hth Er Hns Hsc)].
    split; [|by rewrite <- Eq]. destruct Hf as (th' & Hth' & Hf). rewrite Hth in Hth'. injection Hth' as <-.
    rewrite Eq in Hf. destruct Hf as [[= <-]|(? & ? & ? & [=] & _)]. done.
  - by destruct e.
  - destruct e; try done. by destruct (Hsn readAvail ltac:(unfold readAvail; lia)).
  - by destruct e.
  - destruct e; try done. by destruct (Hsn writeDone ltac:(unfold writeDone; lia)).
Qed.

(** The handlers return as long as the input does not end. *)
Lemma keyboard_safe keys k :
  typed (shared k) `suffix_of` keys → EndOfFile ∉ keys →
  (∀ n : nat, (n < 2)%nat → is_Some (sems k !! SemId n)) → devices_safe k.
Proof.
  intros Ht Hend Hsem d g Hg.
  assert (typed g `suffix_of` keys) as Hsu.
  { clear -Ht Hg. revert Ht. induction Hg as [|g g1 g2 (d & ds & ss & Hh) _ IH]; intros Ht; [done|].
    apply IH. destruct (handle_effect _ _ _ _ _ Hh) as (_ & _ & Hs). by etrans. }
  assert (∃ r, handle d g = Ok r) as [[[g' es] ss] E].
  { destruct d; cbn; [|by eexists]. unfold CheckCharAvail. case_decide; [by eexists|].
    destruct (typed g) as [|[|c|] rest]; try by eexists. exfalso. apply Hend.
    destruct Hsu as [pre ->]. set_solver. }
  exists g', es, ss. destruct (handle_effect _ _ _ _ _ E) as (H1 & H2 & _). split_and!; [exact E|exact H1|].
  destruct H2 as [->|[->| ->]]; repeat constructor; apply Hsem; unfold readAvail, writeDone; lia.
Qed.

(** C22: [ConsoleTest] stops only when it is told to: once its semaphores exist,
    whatever is typed and whatever the schedule, every step succeeds or is the
    halt of the machine after a 'q' was typed and shown.  [PutChar] is never
    called while a character is being written, the assertions of the kernel
    hold, and the poll of the keyboard keeps the machine from idling for ever.
    The input is not at the end of a file (where [Read] fails its assertion), has
    no byte 0xff, and the time of the machine, unbounded here, fits in an [int]. *)
Theorem ConsoleTest_progress rnd useTimer keys k0 k :
  (∀ n, 0 ≤ rnd n) → Forall (λ o, o ≠ Key EOF) keys → EndOfFile ∉ keys →
  start rnd useTimer keys = Ok k0 → steps (kstep rnd useTimer) k0 k →
  (∀ n : nat, (n < 2)%nat → is_Some (sems k !! SemId n)) →
  (∃ k', kstep rnd useTimer k = Ok k') ∨
  kstep rnd useTimer k = Err Exit ∧ clients (absf k) !! 0%nat = Some ([FClient], Test letter_q) ∧
    list.last (display (shared k)) = Some letter_q.
Proof.
  intros Hr Hk Hend Hi Hs Hsem. destruct (ConsoleTest_J _ _ _ _ _ Hk Hi Hs) as [HJ He].
  assert (wf k) as Hwf by (apply (reachable_wf rnd useTimer); by eexists _, _, _, _, _, _).
  pose proof HJ as [_ Hc].
  assert (devices_safe k) as Hd by (apply (keyboard_safe keys); [apply (c_typed _ _ _ _ _ _ Hc)|done..]).
  destruct (kstep rnd useTimer k) as [k'|e] eqn:H; [left; by eexists|right].
  destruct (kstep_fault rnd useTimer Hr k e Hwf Hd H) as (th & f & fs & Hth & Est & Hf).
  destruct (ConsoleTest_fault keys k th f fs e HJ He Hsem Hth Est Hf) as [-> Hcl]. split_and!; [done..|].
  exact (quits_last _ _ _ (c_quits _ _ _ _ _ _ Hc) Hcl).
Qed.

(** ** Executions *)

(** "hiq" typed with pauses. *)
Definition hiq : list key := [Nothing; Key 104; Key 105; Nothing; Nothing; Key 113; Key 33].

(** The state after [n] steps of that run. *)
Definition typing (n : nat) (r : Result kernel) : Result kernel :=
  k0 ← r; mret (run (kstep (λ _, 150) true) n k0).1.

Lemma typing_eval {A} (f : kernel → A) n a :
  (k ← typing n (start (λ _, 150) true hiq); mret (f k)) = Ok a →
  ∃ k0 k, start (λ _, 150) true hiq = Ok k0 ∧ steps (kstep (λ _, 150) true) k0 k ∧ f k = a.
Proof.
  destruct (start (λ _, 150) true hiq) as [k0|e]; [|done]. intros [= H].
  exists k0, (run (kstep (λ _, 150) true) n k0).1. split_and!; [done|apply run_steps|done].
Qed.

Lemma ConsoleTest_echoes_witness :
  ∃ k : kernel, display (shared k) = [104; 105; 113] ∧ list.last (display (shared k)) = Some letter_q.
Proof.
  destruct (typing_eval (λ k, (display (shared k), clients (absf k) !! 0%nat)) 1000
    ([104; 105; 113], Some ([FClient], Test letter_q))) as (k0 & k & E & Hk & [= Hd Hc]); [vm_compute; reflexivity|].
  exists k. split; [exact Hd|].
  apply (ConsoleTest_echoes (λ _, 150) true hiq k0 k); [repeat constructor; discriminate|exact E|exact Hk|exact Hc].
Defined.

(** The end of the run. *)
Lemma ConsoleTest_progress_witness :
  ∃ k : kernel, kstep (λ _, 150) true k = Err Exit ∧ list.last (display (shared k)) = Some letter_q.
Proof.
  destruct (typing_eval (λ k, (match kstep (λ _, 150) true k with Ok _ => None | Err e => Some e end,
      value <$> sems k !! SemId readAvail, value <$> sems k !! SemId writeDone)) 1000
    (Some Exit, Some 1, Some 0)) as (k0 & k & E & Hk & [= H1 H2 H3]); [vm_compute; reflexivity|].
  destruct (ConsoleTest_progress (λ _, 150) true hiq k0 k) as [[k' H]|(H & _ & Hl)];
    [intros; lia|repeat constructor; discriminate|by apply (bool_decide_eq_true_1 _)|exact E|exact Hk| | |].
  - intros [|[|n]] Hn; [| |lia].
    + change (is_Some (sems k !! SemId readAvail)). destruct (sems k !! SemId readAvail) as [sem|]; [by exists sem|discriminate H2].
    + change (is_Some (sems k !! SemId writeDone)). destruct (sems k !! SemId writeDone) as [sem|]; [by exists sem|discriminate H3].
  - rewrite H in H1. discriminate H1.
  - exists k. split; [exact H|exact Hl].
Defined.

(** At the end of the file the input comes from, the program aborts. *)
Example end_of_file_aborts :
  (k ← start (λ _, 1) false [Key 97; EndOfFile]; mret (run (kstep (λ _, 1) false) 600 k).2)
  = Ok (Some AssertFailed).
Proof. vm_compute. reflexivity. Qed.

(** A byte 0xff is taken for "no character": a poll that comes before the
    thread fetched it overwrites it, and what is shown is not what was typed. *)
Example byte_ff_lost :
  (k ← start (λ _, 1) false ((Key <$> replicate 6 EOF) ++ [Key 97; Key 98; Key 99]);
   mret (display (shared (run (kstep (λ _, 1) false) 600 k).1)))
  = Ok (replicate 5 EOF ++ [97; 98; 99] ++ [EOF]).
Proof. vm_compute. reflexivity. Qed.
