(* ===== verification/Network.v ===== *)
(** * machine/network.cc and the formats of network/post.cc

    The network device and the mail format: packets on the wire are
    [MaxWireSize] bytes, a [PacketHeader] followed by data, which for the post
    office is a [MailHeader] followed by the message.  The UNIX socket is the
    boundary: a send appends a packet to [wireOut]; [wireIn] lists what the polls
    of the socket find, one answer per poll ([ReadFromSocket] returns a whole
    packet).  [rolls] are the values of [Random()].  [chanceToWork * 100] is
    represented by the least integer above it, against which [Random() % 100] is
    compared. *)

From S2P Require Import Prelude Bytes Kernel.

Local Open Scope Z_scope.

Definition NetworkTime : Z := 100.

Record PacketHeader := mkPacketHeader { pkt_to : Z; pkt_from : Z; pkt_length : Z }.
Record MailHeader := mkMailHeader { mail_to : Z; mail_from : Z; mail_length : Z }.

Definition sizeof_Header : Z := 12.
Definition MaxWireSize : Z := 64.
Definition MaxPacketSize : Z := MaxWireSize - sizeof_Header.
Definition MaxMailSize : Z := MaxPacketSize - sizeof_Header.

#[export] Instance PacketHeader_eq_dec : EqDecision PacketHeader.
Proof. solve_decision. Defined.
#[export] Instance MailHeader_eq_dec : EqDecision MailHeader.
Proof. solve_decision. Defined.

(** Both headers are two [int]s and an [unsigned]. *)
Definition header_bytes (to from length : Z) : list Z := ints_bytes [to; from; length].

Definition packet_bytes (h : PacketHeader) : list Z := header_bytes (pkt_to h) (pkt_from h) (pkt_length h).
Definition mail_bytes (h : MailHeader) : list Z := header_bytes (mail_to h) (mail_from h) (mail_length h).

(** [*(PacketHeader * )buffer] and [*(MailHeader * )buffer]. *)
Definition read_header {H} (mk : Z → Z → Z → H) (buffer : list Z) : Result H :=
  bs ← bytes_at 0 12 buffer;
  match bytes_ints bs with
  | [to; from; length] => mret (mk (s32 to) (s32 from) length)
  | _ => Err MemFault
  end.

(** ** The device *)

Record Network := mkNetwork {
  ident : Z;
  chanceToWork : Z;       (**r in percent *)
  sendBusy : bool;
  inHdr : PacketHeader;
  inbox : list Z;
}.

(** The handlers the device schedules. *)
Inductive irq := NetworkReadPoll | NetworkSendDone.

#[export] Instance irq_eq_dec : EqDecision irq.
Proof. solve_decision. Defined.

(** The world the device is connected to, and what was read from it. *)
Record Wire := mkWire {
  wireIn : list (option (list Z));
  arrived : list (list Z);
  wireOut : list (Z * list Z);     (**r with the machine it is sent to *)
  rolls : list Z;
}.

Section network.
(** What memory holds when it is allocated. *)
Context (garbage : nat → Z).

Definition new_Network (addr reliability : Z) : Result Network :=
  let chance := if decide (reliability < 0) then 0
                else if decide (reliability > 100) then 100 else reliability in
  inbox ← new_chars garbage MaxPacketSize;
  mret (mkNetwork addr chance false (mkPacketHeader (s32 (garbage 0%nat)) (s32 (garbage 1%nat)) 0) inbox).

(** [Network::CheckPktAvail] after it scheduled the next poll; the boolean says
    whether [readHandler] is called. *)
Definition CheckPktAvail (n : Network) (w : Wire) : Result (bool * Network * Wire) :=
  if decide (pkt_length (inHdr n) ≠ 0) then mret (false, n, w)
  else
    match wireIn w with
    | [] => mret (false, n, w)
    | None :: rest => mret (false, n, mkWire rest (arrived w) (wireOut w) (rolls w))
    | Some buffer :: rest =>
        hdr ← read_header mkPacketHeader buffer;
        ASSERT (bool_decide (pkt_to hdr = ident n) && bool_decide (pkt_length hdr ≤ MaxPacketSize));;
        bs ← bytes_at sizeof_Header (Z.to_nat (pkt_length hdr)) buffer;
        inbox ← bytes_put 0 bs (inbox n);
        mret (true, mkNetwork (ident n) (chanceToWork n) (sendBusy n) hdr inbox,
              mkWire rest (arrived w ++ [buffer]) (wireOut w) (rolls w))
    end.

(** [Network::SendDone] before it calls [writeHandler]. *)
Definition SendDone (n : Network) : Network :=
  mkNetwork (ident n) (chanceToWork n) false (inHdr n) (inbox n).

(** [Network::Send], but for [interrupt->Schedule(NetworkSendDone, ...,
    NetworkTime, NetworkSendInt)] after its [ASSERT]. *)
Definition Send (hdr : PacketHeader) (data : list Z) (n : Network) (w : Wire) : Result Wire :=
  ASSERT (negb (sendBusy n) && bool_decide (pkt_length hdr > 0) &&
          bool_decide (pkt_length hdr ≤ MaxPacketSize) && bool_decide (pkt_from hdr = ident n));;
  let roll := default 0 (head (rolls w)) in
  let w := mkWire (wireIn w) (arrived w) (wireOut w) (tail (rolls w)) in
  if decide (roll `rem` 100 >= chanceToWork n) then mret w
  else
    buffer ← new_chars garbage MaxWireSize;
    buffer ← bytes_put 0 (packet_bytes hdr) buffer;
    bs ← bytes_at 0 (Z.to_nat (pkt_length hdr)) data;
    buffer ← bytes_put sizeof_Header bs buffer;
    mret (mkWire (wireIn w) (arrived w) (wireOut w ++ [(pkt_to hdr, buffer)]) (rolls w)).

(** [Network::Receive(data)] *)
Definition Receive (data : list Z) (n : Network) : Result (PacketHeader * list Z * Network) :=
  let hdr := inHdr n in
  let n := mkNetwork (ident n) (chanceToWork n) (sendBusy n)
             (mkPacketHeader (pkt_to hdr) (pkt_from hdr) 0) (inbox n) in
  if decide (pkt_length hdr ≠ 0) then
    bs ← bytes_at 0 (Z.to_nat (pkt_length hdr)) (inbox n);
    data ← bytes_put 0 bs data;
    mret (hdr, data, n)
  else mret (hdr, data, n).

(** ** Mail (network/post.cc) *)

Record Mail := mkMail { pktHdr : PacketHeader; mailHdr : MailHeader; data : list Z }.

(** [Mail::Mail] *)
Definition new_Mail (pktH : PacketHeader) (mailH : MailHeader) (msgData : list Z) : Result Mail :=
  ASSERT (bool_decide (mail_length mailH ≤ MaxMailSize));;
  d ← new_chars garbage MaxMailSize;
  bs ← bytes_at 0 (Z.to_nat (mail_length mailH)) msgData;
  d ← bytes_put 0 bs d;
  mret (mkMail pktH mailH d).

(** [PostOffice::Send] before [sendLock->Acquire()]: the packet header and the
    buffer for the network.  [to] is [pktHdr.to], the only field of it used. *)
Definition PostOffice_pack (netAddr numBoxes to : Z) (mailHdr : MailHeader) (msg : list Z)
  : Result (PacketHeader * list Z) :=
  buffer ← new_chars garbage MaxPacketSize;
  ASSERT (bool_decide (mail_length mailHdr ≤ MaxMailSize));;
  ASSERT (bool_decide (0 ≤ mail_to mailHdr) && bool_decide (mail_to mailHdr < numBoxes));;
  let hdr := mkPacketHeader to netAddr (u32 (mail_length mailHdr + sizeof_Header)) in
  buffer ← bytes_put 0 (mail_bytes mailHdr) buffer;
  bs ← bytes_at 0 (Z.to_nat (mail_length mailHdr)) msg;
  buffer ← bytes_put sizeof_Header bs buffer;
  mret (hdr, buffer).

(** One turn of [PostOffice::PostalDelivery] between [messageAvailable->P()] and
    [messages->Append]: the new [Mail] and the buffer, for which it allocates. *)
Definition PostOffice_unpack (numBoxes : Z) (buffer : list Z) (n : Network)
  : Result (Mail * list Z * Network) :=
  '(pktHdr, buffer, n) ← Receive buffer n;
  mailHdr ← read_header mkMailHeader buffer;
  ASSERT (bool_decide (0 ≤ mail_to mailHdr) && bool_decide (mail_to mailHdr < numBoxes));;
  ASSERT (bool_decide (mail_length mailHdr ≤ MaxMailSize));;
  mail ← new_Mail pktHdr mailHdr (drop 12 buffer);
  mret (mail, buffer, n).

(** [MailBox::Get] after [messages->Remove()]: what it copies to its caller. *)
Definition MailBox_copy (m : Mail) : Result (PacketHeader * MailHeader * list Z) :=
  bs ← bytes_at 0 (Z.to_nat (mail_length (mailHdr m))) (data m);
  mret (pktHdr m, mailHdr m, bs).
End network.

(** ** What a packet carries *)

Definition header_ok (to from length : Z) : Prop := is_int to ∧ is_int from ∧ 0 ≤ length < 2 ^ 32.

Lemma length_header_bytes to from len : length (header_bytes to from len) = 12%nat.
Proof. unfold header_bytes. by rewrite length_ints_bytes. Qed.

Lemma read_header_bytes {H} (mk : Z → Z → Z → H) to from len rest :
  header_ok to from len → read_header mk (header_bytes to from len ++ rest) = Ok (mk to from len).
Proof.
  intros (Ht & Hf & Hl). unfold read_header.
  destruct (bytes_at_Ok 0 12 (header_bytes to from len ++ rest)) as [-> _];
    [lia|rewrite length_app, length_header_bytes; lia|]. rcbn. rewrite drop_0.
  rewrite take_app_le, take_ge by (rewrite length_header_bytes; lia).
  unfold header_bytes. rewrite bytes_ints_bytes. cbn [fmap list_fmap].
  rewrite !s32_u32, !s32_small by assumption. by rewrite u32_small.
Qed.

Lemma read_packet_header h rest :
  header_ok (pkt_to h) (pkt_from h) (pkt_length h) →
  read_header mkPacketHeader (packet_bytes h ++ rest) = Ok h.
Proof. destruct h. apply read_header_bytes. Qed.

Lemma read_mail_header h rest :
  header_ok (mail_to h) (mail_from h) (mail_length h) →
  read_header mkMailHeader (mail_bytes h ++ rest) = Ok h.
Proof. destruct h. apply read_header_bytes. Qed.

(** The packet [p] holds the headers and the message, padded to [MaxWireSize]. *)
Record carries (p : list Z) (h : PacketHeader) (mh : MailHeader) (msg : list Z) : Prop := {
  c_bytes : ∃ pad, p = packet_bytes h ++ mail_bytes mh ++ msg ++ pad;
  c_size : Z.of_nat (length p) = MaxWireSize;
  c_packet : header_ok (pkt_to h) (pkt_from h) (pkt_length h);
  c_mail : header_ok (mail_to mh) (mail_from mh) (mail_length mh);
  c_message : Z.of_nat (length msg) = mail_length mh;
  c_length : pkt_length h = mail_length mh + sizeof_Header;
  c_fits : mail_length mh ≤ MaxMailSize;
}.

(** The buffer of the device holds the packet. *)
Definition holds (n : Network) (h : PacketHeader) (mh : MailHeader) (msg : list Z) : Prop :=
  inHdr n = h ∧ ∃ rest, inbox n = mail_bytes mh ++ msg ++ rest.

Lemma bytes_put_app (bs mem : list Z) :
  (length bs ≤ length mem)%nat → bytes_put 0 bs mem = Ok (bs ++ drop (length bs) mem).
Proof.
  intros H. rewrite bytes_put_Ok by lia. f_equal. rewrite <- (take_drop (length bs) mem) at 1.
  apply list_inserts_0_r. rewrite length_take. lia.
Qed.

(** ... after a header. *)
Lemma bytes_put_after (pre bs mem : list Z) :
  length pre = 12%nat → (length bs ≤ length mem)%nat →
  bytes_put sizeof_Header bs (pre ++ mem) = Ok (pre ++ bs ++ drop (length bs) mem).
Proof.
  intros Hp H. unfold sizeof_Header. rewrite bytes_put_Ok by (rewrite ?length_app; lia). f_equal.
  change (Z.to_nat 12) with 12%nat. rewrite <- Hp, <- (Nat.add_0_r (length pre)), list_inserts_app_r. f_equal.
  rewrite <- (take_drop (length bs) mem) at 1. apply list_inserts_0_r. rewrite length_take. lia.
Qed.

Lemma bytes_at_app (bs rest : list Z) n : n = length bs → bytes_at 0 n (bs ++ rest) = Ok bs.
Proof.
  intros ->. destruct (bytes_at_Ok 0 (length bs) (bs ++ rest)) as [-> _];
    [lia|rewrite length_app; lia|]. by rewrite drop_0, take_app_length.
Qed.

Lemma bytes_at_after (pre bs rest : list Z) n :
  length pre = 12%nat → n = length bs → bytes_at sizeof_Header n (pre ++ bs ++ rest) = Ok bs.
Proof.
  intros Hp ->. unfold sizeof_Header.
  destruct (bytes_at_Ok 12 (length bs) (pre ++ bs ++ rest)) as [-> _]; [lia|rewrite !length_app; lia|].
  change (Z.to_nat 12) with 12%nat. by rewrite <- Hp, drop_app_length, take_app_length.
Qed.

(** *** Sending *)

Section send.
Context (g : nat → Z).

Lemma length_packet_bytes h : length (packet_bytes h) = 12%nat.
Proof. apply length_header_bytes. Qed.
Lemma length_mail_bytes h : length (mail_bytes h) = 12%nat.
Proof. apply length_header_bytes. Qed.

(** A message the post office accepts. *)
Record mail_valid (numBoxes to : Z) (mh : MailHeader) (msg : list Z) : Prop := {
  v_to : is_int to;
  v_from : is_int (mail_from mh);
  v_box : 0 ≤ mail_to mh < numBoxes;
  v_boxes : is_int numBoxes;
  v_length : 0 ≤ mail_length mh ≤ MaxMailSize;
  v_data : mail_length mh ≤ Z.of_nat (length msg);
}.

Lemma pack_spec netAddr numBoxes to mh msg :
  mail_valid numBoxes to mh msg →
  ∃ pad, PostOffice_pack g netAddr numBoxes to mh msg =
    Ok (mkPacketHeader to netAddr (mail_length mh + sizeof_Header),
        mail_bytes mh ++ take (Z.to_nat (mail_length mh)) msg ++ pad) ∧
    Z.of_nat (length pad) = MaxMailSize - mail_length mh.
Proof.
  intros [Ht Hf Hb Hn Hl Hd]. unfold MaxMailSize, MaxPacketSize, MaxWireSize, sizeof_Header in *.
  unfold PostOffice_pack.
  destruct (new_chars_Ok g MaxPacketSize) as (buf & -> & Hbuf & _); [done|]. rcbn.
  rewrite !bool_decide_true by (unfold MaxMailSize, MaxPacketSize, MaxWireSize, sizeof_Header; lia). rcbn. cbn [andb].
  change (Z.to_nat MaxPacketSize) with 52%nat in Hbuf.
  rewrite bytes_put_app by (rewrite length_mail_bytes; lia). rcbn.
  destruct (bytes_at_Ok 0 (Z.to_nat (mail_length mh)) msg) as [-> Hlen]; [lia|lia|]. rcbn. rewrite drop_0 in *.
  rewrite bytes_put_after by (rewrite ?length_drop, ?length_mail_bytes; lia). rcbn.
  rewrite u32_small by (unfold sizeof_Header; lia). eexists. split; [reflexivity|].
  rewrite !length_drop, length_mail_bytes. lia.
Qed.
(** [Network::Send] of a packet that is not lost. *)
Lemma Send_spec hdr mh msg pad n w :
  sendBusy n = false → pkt_from hdr = ident n → pkt_length hdr = mail_length mh + sizeof_Header →
  header_ok (pkt_to hdr) (pkt_from hdr) (pkt_length hdr) →
  header_ok (mail_to mh) (mail_from mh) (mail_length mh) → mail_length mh ≤ MaxMailSize →
  Z.of_nat (length msg) = mail_length mh →
  (if decide (default 0 (head (rolls w)) `rem` 100 >= chanceToWork n) then
     Send g hdr (mail_bytes mh ++ msg ++ pad) n w = Ok (mkWire (wireIn w) (arrived w) (wireOut w) (tail (rolls w)))
   else ∃ p, carries p hdr mh msg ∧
     Send g hdr (mail_bytes mh ++ msg ++ pad) n w =
     Ok (mkWire (wireIn w) (arrived w) (wireOut w ++ [(pkt_to hdr, p)]) (tail (rolls w)))).
Proof.
  intros Hbusy Hfrom Hplen Hph Hmh Hfit Hmsg. pose proof Hmh as (_ & _ & Hl).
  assert (0 < pkt_length hdr ≤ MaxPacketSize) as Hp
    by (unfold MaxMailSize, sizeof_Header in *; lia).
  unfold Send. rewrite Hbusy, !bool_decide_true by (first [lia|done]). rcbn. cbn [negb andb rolls chanceToWork].
  case_decide; [done|].
  destruct (new_chars_Ok g MaxWireSize) as (buf & -> & Hbuf & _); [done|]. rcbn.
  change (Z.to_nat MaxWireSize) with 64%nat in Hbuf.
  rewrite bytes_put_app by (rewrite length_packet_bytes; lia). rcbn.
  unfold MaxMailSize, MaxPacketSize, MaxWireSize, sizeof_Header in *.
  rewrite app_assoc, bytes_at_app by (rewrite length_app, length_mail_bytes; lia). rcbn.
  rewrite bytes_put_after; [|apply length_packet_bytes|rewrite length_app, length_drop, length_mail_bytes, length_packet_bytes; lia].
  rcbn. eexists. split; [|reflexivity].
  constructor; try done.
  - rewrite <- app_assoc. by eexists.
  - repeat rewrite ?length_app, ?length_drop, ?length_packet_bytes, ?length_mail_bytes. unfold MaxWireSize. lia.
Qed.
End send.

(** *** Receiving *)

Lemma CheckPktAvail_spec n w p rest h mh msg :
  carries p h mh msg → pkt_length (inHdr n) = 0 → wireIn w = Some p :: rest → pkt_to h = ident n →
  Z.of_nat (length (inbox n)) = MaxPacketSize →
  ∃ box, CheckPktAvail n w =
    Ok (true, mkNetwork (ident n) (chanceToWork n) (sendBusy n) h (mail_bytes mh ++ msg ++ box),
        mkWire rest (arrived w ++ [p]) (wireOut w) (rolls w)) ∧
    Z.of_nat (length (mail_bytes mh ++ msg ++ box)) = MaxPacketSize.
Proof.
  intros [[pad ->] Hsz Hph Hmh Hmsg Hlen Hfit] Hin Hw Hto Hbox. pose proof Hmh as (_ & _ & Hl).
  unfold MaxMailSize, MaxPacketSize, MaxWireSize, sizeof_Header in *.
  unfold CheckPktAvail. rewrite decide_False, Hw by lia. cbn [app].
  rewrite read_packet_header by done. rcbn.
  rewrite !bool_decide_true by (unfold MaxPacketSize, MaxWireSize, sizeof_Header; lia). rcbn. cbn [andb].
  rewrite (app_assoc (mail_bytes mh)), bytes_at_after by (rewrite ?length_app, ?length_mail_bytes, ?length_packet_bytes; lia).
  rcbn. rewrite bytes_put_app by (rewrite length_app, length_mail_bytes; lia). rcbn.
  exists (drop (length (mail_bytes mh ++ msg)) (inbox n)).
  split; [by rewrite <- !app_assoc|].
  repeat rewrite ?length_app, ?length_drop, ?length_mail_bytes. unfold MaxPacketSize, MaxWireSize, sizeof_Header. lia.
Qed.

Lemma unpack_spec g numBoxes buffer n h mh msg :
  header_ok (pkt_to h) (pkt_from h) (pkt_length h) → header_ok (mail_to mh) (mail_from mh) (mail_length mh) →
  Z.of_nat (length msg) = mail_length mh → pkt_length h = mail_length mh + sizeof_Header →
  mail_length mh ≤ MaxMailSize → 0 ≤ mail_to mh < numBoxes → holds n h mh msg →
  Z.of_nat (length buffer) = MaxPacketSize →
  ∃ mail buffer', PostOffice_unpack g numBoxes buffer n =
    Ok (mail, buffer', mkNetwork (ident n) (chanceToWork n) (sendBusy n)
      (mkPacketHeader (pkt_to h) (pkt_from h) 0) (inbox n)) ∧
    pktHdr mail = h ∧ mailHdr mail = mh ∧ MailBox_copy mail = Ok (h, mh, msg) ∧
    length buffer' = length buffer.
Proof.
  intros Hph Hmh Hmsg Hlen Hfit Hto [Hh [rest Hin]] Hbuf. pose proof Hmh as (_ & _ & Hl).
  unfold MaxMailSize, MaxPacketSize, MaxWireSize, sizeof_Header in *.
  unfold PostOffice_unpack, Receive. rewrite Hh. cbn [inbox]. rewrite decide_True by lia.
  rewrite Hin, app_assoc, bytes_at_app by (rewrite length_app, length_mail_bytes; lia). rcbn.
  rewrite bytes_put_app by (rewrite length_app, length_mail_bytes; lia). rcbn. rewrite <- app_assoc.
  rewrite read_mail_header by done. rcbn.
  rewrite !bool_decide_true by (unfold MaxMailSize, MaxPacketSize, MaxWireSize, sizeof_Header; lia). rcbn. cbn [andb].
  unfold new_Mail.
  rewrite bool_decide_true by (unfold MaxMailSize, MaxPacketSize, MaxWireSize, sizeof_Header; lia). rcbn.
  destruct (new_chars_Ok g MaxMailSize) as (d & -> & Hd & _); [done|]. rcbn.
  change (Z.to_nat MaxMailSize) with 40%nat in Hd.
  assert (∀ l, drop 12 (mail_bytes mh ++ l) = l) as Hdrop
    by (intros l; by rewrite <- (length_mail_bytes mh), drop_app_length).
  rewrite Hdrop, bytes_at_app by lia. rcbn. rewrite bytes_put_app by lia. rcbn.
  eexists _, _. split; [reflexivity|]. cbn [pktHdr mailHdr]. split_and!; try done.
  - unfold MailBox_copy. cbn. by rewrite bytes_at_app by lia.
  - repeat rewrite ?length_app, ?length_drop, ?length_mail_bytes. lia.
Qed.

(** ** Theorem *)

(** C23: Mail survives the trip: what [PostOffice::Send] hands to the network of
    one machine and the network does not lose, the network of the machine it is
    addressed to accepts when its buffer is free, and [PostalDelivery] and
    [MailBox::Get] there give back the mail header and the bytes of the message,
    with the sender's address in the packet header, whatever the buffers on both
    machines held. *)
Theorem mail_roundtrip gs gr numBoxes to mh msg ns ws nr wr buffer :
  mail_valid numBoxes to mh msg → is_int (ident ns) → sendBusy ns = false →
  ¬ default 0 (head (rolls ws)) `rem` 100 >= chanceToWork ns →
  ident nr = to → pkt_length (inHdr nr) = 0 → Z.of_nat (length (inbox nr)) = MaxPacketSize →
  Z.of_nat (length buffer) = MaxPacketSize →
  ∃ hdr buf p ws', PostOffice_pack gs (ident ns) numBoxes to mh msg = Ok (hdr, buf) ∧
    Send gs hdr buf ns ws = Ok ws' ∧ wireOut ws' = wireOut ws ++ [(to, p)] ∧
  ∀ rest, wireIn wr = Some p :: rest →
  ∃ nr1 wr1 mail buffer' nr2, CheckPktAvail nr wr = Ok (true, nr1, wr1) ∧ wireIn wr1 = rest ∧
    PostOffice_unpack gr numBoxes buffer nr1 = Ok (mail, buffer', nr2) ∧ pkt_length (inHdr nr2) = 0 ∧
    MailBox_copy mail =
    Ok (mkPacketHeader to (ident ns) (mail_length mh + sizeof_Header), mh, take (Z.to_nat (mail_length mh)) msg).
Proof.
  intros Hv Hid Hbusy Hroll Hto Hfree Hbox Hbuffer. pose proof Hv as [Ht Hf Hb Hn Hl Hd].
  destruct (pack_spec gs (ident ns) numBoxes to mh msg Hv) as (pad & Epack & Hpad).
  assert (header_ok (mail_to mh) (mail_from mh) (mail_length mh)) as Hmh
    by (unfold header_ok, is_int, MaxMailSize, MaxPacketSize, MaxWireSize, sizeof_Header in *; lia).
  assert (header_ok to (ident ns) (mail_length mh + sizeof_Header)) as Hph
    by (unfold header_ok, is_int, MaxMailSize, MaxPacketSize, MaxWireSize, sizeof_Header in *; lia).
  set (hdr := mkPacketHeader to (ident ns) (mail_length mh + sizeof_Header)) in *.
  assert (Z.of_nat (length (take (Z.to_nat (mail_length mh)) msg)) = mail_length mh) as Hmsg
    by (rewrite length_take; lia).
  pose proof (Send_spec gs hdr mh (take (Z.to_nat (mail_length mh)) msg) pad ns ws Hbusy eq_refl eq_refl Hph Hmh
    (proj2 Hl) Hmsg) as Hsend.
  rewrite decide_False in Hsend by exact Hroll. destruct Hsend as (p & Hp & Esend).
  eexists hdr, _, p, _. split; [exact Epack|]. split; [exact Esend|]. split; [done|]. intros rest Hw.
  destruct (CheckPktAvail_spec nr wr p rest hdr mh _ Hp Hfree Hw ltac:(done) Hbox) as (box & Echeck & Hbox').
  edestruct (unpack_spec gr numBoxes buffer
    (mkNetwork (ident nr) (chanceToWork nr) (sendBusy nr) hdr
      (mail_bytes mh ++ take (Z.to_nat (mail_length mh)) msg ++ box)) hdr mh
    (take (Z.to_nat (mail_length mh)) msg)) as (mail & buffer' & Eunpack & _ & _ & Ecopy & _);
    [done|done|done|done|apply Hl|done|split; [done|by exists box]|done|].
  by eexists _, _, mail, buffer', _.
Qed.

Definition hello : list Z := [72; 101; 108; 108; 111; 0].

Lemma mail_roundtrip_witness :
  ∃ hdr buf p ws',
    PostOffice_pack (λ _, 7) 0 10 1 (mkMailHeader 0 1 6) hello = Ok (hdr, buf) ∧
    Send (λ _, 7) hdr buf (mkNetwork 0 100 false (mkPacketHeader 0 0 0) []) (mkWire [] [] [] [99]) = Ok ws' ∧
    wireOut ws' = [(1, p)].
Proof.
  edestruct (mail_roundtrip (λ _, 7) (λ _, 9) 10 1 (mkMailHeader 0 1 6) hello
    (mkNetwork 0 100 false (mkPacketHeader 0 0 0) []) (mkWire [] [] [] [99])
    (mkNetwork 1 100 false (mkPacketHeader 0 0 0) (replicate 52 0)) (mkWire [] [] [] [])
    (replicate 52 0)) as (hdr & buf & p & ws' & H1 & H2 & H3 & _);
    [constructor; vm_compute; intuition congruence|split; vm_compute; congruence|reflexivity
    |vm_compute; intros H; by apply H|reflexivity|reflexivity|reflexivity|reflexivity|].
  exists hdr, buf, p, ws'. split_and!; [exact H1|exact H2|exact H3].
Defined.
