(* ===== verification/Post.v ===== *)
(** * network/post.cc among threads

    A [PostOffice] as a client of the kernel: the postal worker, the threads
    that send and receive mail, and the two interrupts of the network.  The
    mailboxes are [SynchList]s: box [i] has its own lock and condition
    variable.  [Network.v] has the device and the packet format.  The network's
    handler [ReadAvail] Vs [messageAvailable], [WriteDone] Vs [messageSent]. *)

From S2P Require Import Prelude NachList Bytes Kernel KernelInv KernelSpec KernelMachine KernelLocks Network.

Local Open Scope Z_scope.

(** What [Receive] gives its caller. *)
Definition letter : Type := PacketHeader * MailHeader * list Z.

(** The program of a thread: it sends and receives, what it does next may depend
    on the letters, and it returns or calls [interrupt->Halt()]. *)
Inductive prog :=
| Done
| DoHalt
| DoSend (to : Z) (mh : MailHeader) (msg : list Z) (next : prog)
| DoReceive (box : Z) (next : letter → prog).

Inductive place :=
| NewAvailable (programs : list prog)          (**r [new PostOffice]: its semaphores, *)
| NewSent (programs : list prog)
| NewNet (programs : list prog)                (**r its mailboxes and network, *)
| ForkWorker (programs : list prog)            (**r and the postal worker *)
| Start (programs : list prog)                 (**r forks one thread per program *)
| Worker                                       (**r the worker: entering [PostalDelivery], *)
| Wait (buffer : list Z)                       (**r at [messageAvailable->P()], *)
| Deliver (buffer : list Z)                    (**r after it, *)
| Put (box : nat) (mail : Mail) (buffer : list Z)  (**r in [Append] with the lock, *)
| Signalled (box : nat) (buffer : list Z)      (**r after [Signal] *)
| At (p : prog)                                (**r a user, between two operations *)
| Sending (hdr : PacketHeader) (buffer : list Z) (next : prog)  (**r with [sendLock] *)
| Sent (next : prog)                           (**r after [network->Send] *)
| Acknowledged (next : prog)                   (**r after [messageSent->P()] *)
| Removing (box : nat) (next : letter → prog)  (**r [while (list->IsEmpty())] of [Remove] *)
| Got (mail : Mail) (next : letter → prog).    (**r after [messages->Remove()] *)

(** [taken]: the mail removed from the boxes so far, with the box; [got]: what
    [Receive] returned; [memory]: what memory holds when it is allocated. *)
Record vars := mkVars {
  netAddr : Z;
  reliability : Z;
  numBoxes : Z;
  network : Network;
  wire : Wire;
  boxes : list (list Mail);
  taken : list (nat * Mail);
  got : list letter;
  memory : nat → Z;
}.

Definition set_network n g := mkVars (netAddr g) (reliability g) (numBoxes g) n (wire g) (boxes g)
  (taken g) (got g) (memory g).
Definition set_wire w g := mkVars (netAddr g) (reliability g) (numBoxes g) (network g) w (boxes g)
  (taken g) (got g) (memory g).
Definition set_boxes bs g := mkVars (netAddr g) (reliability g) (numBoxes g) (network g) (wire g) bs
  (taken g) (got g) (memory g).
Definition set_taken l g := mkVars (netAddr g) (reliability g) (numBoxes g) (network g) (wire g) (boxes g)
  l (got g) (memory g).
Definition set_got l g := mkVars (netAddr g) (reliability g) (numBoxes g) (network g) (wire g) (boxes g)
  (taken g) l (memory g).

Definition messageAvailable : nat := 0.
Definition messageSent : nat := 1.
Definition sendLock : nat := 0.
Definition boxLock (b : nat) : nat := S b.

Definition outcome : Type := vars * place * call place irq.

(** ** [PostOffice::PostOffice] *)

(** [boxes = new MailBox[nBoxes]; network = new Network(...)], which starts to poll. *)
Definition new_boxes (ps : list prog) (g : vars) : Result outcome :=
  n ← new_Network (memory g) (netAddr g) (reliability g);
  mret (set_network n (set_boxes (replicate (Z.to_nat (numBoxes g)) []) g), ForkWorker ps,
    CSchedule NetworkReadPoll NetworkTime NetworkRecvInt).

(** ** [PostalDelivery] *)

(** Receive the packet, make the [Mail], and [boxes[mailHdr.to].Put] as far as
    [lock->Acquire()] of [SynchList::Append]. *)
Definition deliver (buffer : list Z) (g : vars) : Result outcome :=
  '(mail, buffer, n) ← PostOffice_unpack (memory g) (numBoxes g) buffer (network g);
  let b := Z.to_nat (mail_to (mailHdr mail)) in
  mret (set_network n g, Put b mail buffer, CAcquire (boxLock b)).

(** [list->Append(item); listEmpty->Signal(lock)] *)
Definition append (b : nat) (mail : Mail) (buffer : list Z) (g : vars) : Result outcome :=
  box ← deref (boxes g !! b);
  mret (set_boxes (<[b := box ++ [mail]]> (boxes g)) g, Signalled b buffer, CSignal b (boxLock b)).

(** ** [PostOffice::Send] and [PostOffice::Receive] *)

Definition send (hdr : PacketHeader) (buffer : list Z) (next : prog) (g : vars) : Result outcome :=
  w ← Send (memory g) hdr buffer (network g) (wire g);
  mret (set_wire w g, Sent next, CSchedule NetworkSendDone NetworkTime NetworkSendInt).

(** The loop of [SynchList::Remove], and what follows it. *)
Definition remove (b : nat) (next : letter → prog) (g : vars) : Result outcome :=
  box ← deref (boxes g !! b);
  match box with
  | [] => mret (g, Removing b next, CWait b (boxLock b))
  | mail :: rest =>
      mret (set_taken (taken g ++ [(b, mail)]) (set_boxes (<[b := rest]> (boxes g)) g), Got mail next,
        CRelease (boxLock b))
  end.

Definition next_op (p : prog) (g : vars) : Result outcome :=
  match p with
  | Done => mret (g, At Done, CReturn)
  | DoHalt => Err Exit
  | DoSend to mh msg next =>
      '(hdr, buffer) ← PostOffice_pack (memory g) (netAddr g) (numBoxes g) to mh msg;
      mret (g, Sending hdr buffer next, CAcquire sendLock)
  | DoReceive box next =>
      ASSERT (bool_decide (0 ≤ box) && bool_decide (box < numBoxes g));;
      mret (g, Removing (Z.to_nat box) next, CAcquire (boxLock (Z.to_nat box)))
  end.

(** The rest of [MailBox::Get] and [PostOffice::Receive], and the next operation. *)
Definition receive (mail : Mail) (next : letter → prog) (g : vars) : Result outcome :=
  '(h, mh, msg) ← MailBox_copy mail;
  ASSERT (bool_decide (mail_length mh ≤ MaxMailSize));;
  next_op (next (h, mh, msg)) (set_got (got g ++ [(h, mh, msg)]) g).

Definition resume_at (pc : place) (g : vars) : Result outcome :=
  match pc with
  | NewAvailable ps => mret (g, NewSent ps, CNewSem messageAvailable 0)
  | NewSent ps => mret (g, NewNet ps, CNewSem messageSent 0)
  | NewNet ps => new_boxes ps g
  | ForkWorker ps => mret (g, Start ps, CFork Worker)
  | Start [] => mret (g, At Done, CReturn)
  | Start (p :: ps) => mret (g, Start ps, CFork (At p))
  | Worker =>
      buffer ← new_chars (memory g) MaxPacketSize;
      mret (g, Deliver buffer, CP messageAvailable)
  | Wait buffer => mret (g, Deliver buffer, CP messageAvailable)
  | Deliver buffer => deliver buffer g
  | Put b mail buffer => append b mail buffer g
  | Signalled b buffer => mret (g, Wait buffer, CRelease (boxLock b))
  | At p => next_op p g
  | Sending hdr buffer next => send hdr buffer next g
  | Sent next => mret (g, Acknowledged next, CP messageSent)
  | Acknowledged next => mret (g, At next, CRelease sendLock)
  | Removing b next => remove b next g
  | Got mail next => receive mail next g
  end.

(** ** The interrupts *)

Definition handle (d : irq) (g : vars) : Result (vars * list (irq * Z * IntType) * list nat) :=
  match d with
  | NetworkReadPoll =>
      '(arrived, n, w) ← CheckPktAvail (network g) (wire g);
      mret (set_wire w (set_network n g), [(NetworkReadPoll, NetworkTime, NetworkRecvInt)],
        if arrived : bool then [messageAvailable] else [])
  | NetworkSendDone => mret (set_network (SendDone (network g)) g, [], [messageSent])
  end.

#[global] Instance client : Client := {
  local := place;
  globals := vars;
  device := irq;
  client_step _ _ pc g := resume_at pc g;
  device_handler d g := handle d g;
}.

(** ** What each piece of code does to the globals *)

Lemma new_boxes_Ok ps g g' pc' c :
  new_boxes ps g = Ok (g', pc', c) →
  ∃ n, new_Network (memory g) (netAddr g) (reliability g) = Ok n ∧ pc' = ForkWorker ps ∧
    c = CSchedule NetworkReadPoll NetworkTime NetworkRecvInt ∧
    g' = set_network n (set_boxes (replicate (Z.to_nat (numBoxes g)) []) g).
Proof. unfold new_boxes. intros H. apply bind_Ok in H as (n & ? & [= <- <- <-]). by exists n. Qed.

Lemma deliver_Ok buffer g g' pc' c :
  deliver buffer g = Ok (g', pc', c) →
  ∃ mail buffer' n, PostOffice_unpack (memory g) (numBoxes g) buffer (network g) = Ok (mail, buffer', n) ∧
    g' = set_network n g ∧ pc' = Put (Z.to_nat (mail_to (mailHdr mail))) mail buffer' ∧
    c = CAcquire (boxLock (Z.to_nat (mail_to (mailHdr mail)))).
Proof.
  unfold deliver. intros H. apply bind_Ok in H as ([[mail buffer'] n] & ? & [= <- <- <-]).
  by exists mail, buffer', n.
Qed.

Lemma append_Ok b mail buffer g g' pc' c :
  append b mail buffer g = Ok (g', pc', c) →
  ∃ box, boxes g !! b = Some box ∧ g' = set_boxes (<[b := box ++ [mail]]> (boxes g)) g ∧
    pc' = Signalled b buffer ∧ c = CSignal b (boxLock b).
Proof. unfold append. intros H. apply bind_Ok in H as (box & ?%deref_Ok & [= <- <- <-]). by exists box. Qed.

Lemma send_Ok hdr buffer next g g' pc' c :
  send hdr buffer next g = Ok (g', pc', c) →
  ∃ w, Send (memory g) hdr buffer (network g) (wire g) = Ok w ∧ g' = set_wire w g ∧ pc' = Sent next ∧
    c = CSchedule NetworkSendDone NetworkTime NetworkSendInt.
Proof. unfold send. intros H. apply bind_Ok in H as (w & ? & [= <- <- <-]). by exists w. Qed.

Lemma remove_Ok b next g g' pc' c :
  remove b next g = Ok (g', pc', c) →
  (boxes g !! b = Some [] ∧ g' = g ∧ pc' = Removing b next ∧ c = CWait b (boxLock b)) ∨
  ∃ mail rest, boxes g !! b = Some (mail :: rest) ∧
    g' = set_taken (taken g ++ [(b, mail)]) (set_boxes (<[b := rest]> (boxes g)) g) ∧
    pc' = Got mail next ∧ c = CRelease (boxLock b).
Proof.
  unfold remove. intros H. apply bind_Ok in H as ([|mail rest] & ?%deref_Ok & [= <- <- <-]); [by left|].
  right. by exists mail, rest.
Qed.

(** What the user's next operation starts with. *)
Definition op_call (pc : place) (c : call place irq) : Prop :=
  (c = CReturn ∧ pc = At Done) ∨ (∃ hdr buffer next, pc = Sending hdr buffer next ∧ c = CAcquire sendLock) ∨
  ∃ b next, pc = Removing b next ∧ c = CAcquire (boxLock b).

Lemma next_op_Ok p g g' pc' c : next_op p g = Ok (g', pc', c) → g' = g ∧ op_call pc' c.
Proof.
  unfold next_op, op_call. intros H. destruct p as [| |to mh msg p|b k].
  - injection H as <- <- <-. auto.
  - done.
  - apply bind_Ok in H as ([hdr buffer] & _ & [= <- <- <-]). split; [done|]. right. left. eauto.
  - apply bind_Ok in H as (_ & _ & [= <- <- <-]). split; [done|]. right. right. eauto.
Qed.

Lemma receive_Ok mail next g g' pc' c :
  receive mail next g = Ok (g', pc', c) →
  ∃ r, MailBox_copy mail = Ok r ∧ g' = set_got (got g ++ [r]) g ∧ op_call pc' c.
Proof.
  unfold receive. intros H. apply bind_Ok in H as ([[h mh] msg] & E & H).
  apply bind_Ok in H as (_ & _ & [-> Hc]%next_op_Ok). by eexists.
Qed.

#[global] Instance client_sane : SaneClient.
Proof.
  intros t now pc g g' pc' s v H.
  destruct pc as [| | | |[]| | | | | | | | | | |]; cbn [client_step client resume_at] in H;
    try (unfold mret, Result_ret in H; simplify_eq; done).
  - by apply deliver_Ok in H as (? & ? & ? & _ & _ & _ & ?).
  - by apply append_Ok in H as (? & _ & _ & _ & ?).
  - apply next_op_Ok in H as [_ [[? _]|[(? & ? & ? & _ & ?)|(? & ? & _ & ?)]]]; done.
  - by apply send_Ok in H as (? & _ & _ & _ & ?).
  - apply remove_Ok in H as [(_ & _ & _ & ?)|(? & ? & _ & _ & _ & ?)]; done.
  - apply receive_Ok in H as (_ & _ & _ & [[? _]|[(? & ? & ? & _ & ?)|(? & ? & _ & ?)]]); done.
Qed.

(** ** Locks *)

Definition place_holds (pc : place) : gset nat :=
  match pc with
  | Put b _ _ | Signalled b _ | Removing b _ => {[boxLock b]}
  | Sending _ _ _ | Sent _ | Acknowledged _ => {[sendLock]}
  | _ => ∅
  end.

Lemma op_call_holds pc c : op_call pc c → lock_call place_holds ∅ c (place_holds pc).
Proof.
  intros [[-> ->]|[(? & ? & ? & -> & ->)|(b & ? & -> & ->)]]; cbn; set_solver.
Qed.

Lemma Post_holds_call pc g g' pc' c :
  resume_at pc g = Ok (g', pc', c) → lock_call place_holds (place_holds pc) c (place_holds pc').
Proof.
  intros H. destruct pc as [| | | |[]| | | | | | | | | | |]; cbn [resume_at] in H;
    try (injection H as <- <- <-; cbn; set_solver).
  - apply deliver_Ok in H as (? & ? & ? & _ & _ & -> & ->). cbn. set_solver.
  - apply append_Ok in H as (? & _ & _ & -> & ->). cbn. set_solver.
  - by apply next_op_Ok in H as [_ ?%op_call_holds].
  - by apply send_Ok in H as (? & _ & _ & -> & ->).
  - apply remove_Ok in H as [(_ & _ & -> & ->)|(? & ? & _ & _ & -> & ->)]; cbn; set_solver.
  - by apply receive_Ok in H as (? & _ & _ & ?%op_call_holds).
Qed.

#[global] Instance discipline : LockDiscipline client.
Proof. exists place_holds. intros t now pc g g' pc' c H. by eapply Post_holds_call. Defined.

(** ** The mail and where it is *)

(** The message of a packet on the wire, and that of a [Mail]. *)
Definition message (p : list Z) : letter :=
  match read_header mkPacketHeader p, read_header mkMailHeader (drop 12 p) with
  | Ok h, Ok mh => (h, mh, take (Z.to_nat (mail_length mh)) (drop 24 p))
  | _, _ => (mkPacketHeader 0 0 0, mkMailHeader 0 0 0, [])
  end.

Definition letter_of (m : Mail) : letter :=
  (pktHdr m, mailHdr m, take (Z.to_nat (mail_length (mailHdr m))) (data m)).

Lemma carries_message p h mh msg : carries p h mh msg → message p = (h, mh, msg).
Proof.
  intros [[pad ->] _ Hph Hmh Hmsg _ _]. unfold message. rewrite read_packet_header by done.
  assert (∀ l, drop 12 (packet_bytes h ++ l) = l) as Hd
    by (intros l; by rewrite <- (length_packet_bytes h), drop_app_length).
  assert (∀ l, drop 12 (mail_bytes mh ++ l) = l) as Hd'
    by (intros l; by rewrite <- (length_mail_bytes mh), drop_app_length).
  rewrite Hd, read_mail_header by done. f_equal.
  change 24%nat with (12 + 12)%nat. rewrite <- drop_drop, Hd, Hd'.
  rewrite take_app_le, take_ge by lia. done.
Qed.

Lemma copy_letter m r : MailBox_copy m = Ok r → r = letter_of m.
Proof.
  unfold MailBox_copy, letter_of. intros H. apply bind_Ok in H as (bs & E & [= <-]).
  unfold bytes_at in E. case_decide; [|done]. injection E as <-. by rewrite drop_0.
Qed.

(** A packet for this machine that a post office made. *)
Definition valid_packet (me nb : Z) (p : list Z) : Prop :=
  ∃ h mh msg, carries p h mh msg ∧ pkt_to h = me ∧ 0 ≤ mail_to mh < nb.

(** The letters for box [b]. *)
Definition addressed (b : nat) (l : list letter) : list letter :=
  filter (λ x, Z.to_nat (mail_to x.1.2) = b) l.

(** The letters taken out of box [b], and those in it. *)
Definition taken_from (b : nat) (l : list (nat * Mail)) : list letter :=
  letter_of <$> (filter (λ x, x.1 = b) l).*2.
Definition in_box (b : nat) (bs : list (list Mail)) : list letter := letter_of <$> default [] (bs !! b).

(** *** The worker *)

(** The thread that constructs the post office, and then the worker. *)
Definition postal (pc : place) : bool :=
  match pc with
  | NewAvailable _ | NewSent _ | NewNet _ | ForkWorker _ | Worker | Wait _ | Deliver _ | Put _ _ _
  | Signalled _ _ => true
  | _ => false
  end.

(** Before the network exists. *)
Definition early (pc : place) : bool :=
  match pc with NewAvailable _ | NewSent _ | NewNet _ => true | _ => false end.

Definition delivering (pc : place) : bool := match pc with Deliver _ => true | _ => false end.

(** No operation on [messageAvailable] is in progress. *)
Definition quiet (ws : list frame) : Prop :=
  FP (SemId messageAvailable) ∉ ws ∧ FV (SemId messageAvailable) ∉ ws.

Definition worker_shape (ws : list frame) (pc : place) : Prop :=
  (ws = [FP (SemId messageAvailable); FClient] ∧ delivering pc = true) ∨
  (quiet ws ∧ (delivering pc = true → ws = [FClient])).

(** The worker has taken the unit of a packet that is still in the network's buffer. *)
Definition taking (ws : list frame) (pc : place) : Z :=
  if decide (ws = [FClient] ∧ delivering pc = true) then 1 else 0.

Definition full (n : Network) : Z := if decide (pkt_length (inHdr n) = 0) then 0 else 1.

(** The mail the worker carries. *)
Definition carried (pc : place) : list Mail := match pc with Put _ m _ => [m] | _ => [] end.

(** What the network's buffer holds. *)
Definition buffered (nb : Z) (n : Network) (ps : list (list Z)) : Prop :=
  if decide (pkt_length (inHdr n) = 0) then ps = []
  else ∃ p h mh msg, ps = [p] ∧ carries p h mh msg ∧ 0 ≤ mail_to mh < nb ∧ holds n h mh msg.

Definition worker_buffer (pc : place) : Prop :=
  match pc with
  | Wait b | Deliver b | Signalled _ b => Z.of_nat (length b) = MaxPacketSize
  | Put b m buf => Z.of_nat (length buf) = MaxPacketSize ∧ b = Z.to_nat (mail_to (mailHdr m))
  | _ => True
  end.

(** The state of the worker (calls [ws], place [pc]), [v] of [messageAvailable],
    the interrupts [ds] and the globals [g]. *)
Record mailstate (me nb : Z) (ws : list frame) (pc : place) (v : Z) (ds : list (irq * IntType))
    (g : vars) : Prop := {
  m_addr : netAddr g = me;
  m_num : numBoxes g = nb;
  m_ident : ident (network g) = me;
  m_inbox : Z.of_nat (length (inbox (network g))) = MaxPacketSize;
  m_boxes : length (boxes g) = Z.to_nat nb;
  m_early : early pc = true →
    ds = [] ∧ full (network g) = 0 ∧ boxes g = replicate (Z.to_nat nb) [] ∧ taken g = [] ∧ arrived (wire g) = [];
  m_units : 0 ≤ v ∧ v + taking ws pc = full (network g);
  m_wire : Forall (λ o, ∀ p, o = Some p → valid_packet me nb p) (wireIn (wire g));
  m_buffer : worker_buffer pc;
  m_flow : ∃ past now, arrived (wire g) = past ++ now ∧ buffered nb (network g) now ∧
    ∀ b, addressed b (message <$> past) =
      taken_from b (taken g) ++ in_box b (boxes g) ++ addressed b (letter_of <$> carried pc);
}.

Abbreviation machine := (amachine (C := client)).

Definition units (a : machine) : Z := default 0 (avalues a !! SemId messageAvailable).

Definition others (w : nat) (a : machine) : Prop :=
  ∀ t ws (pc : place), t ≠ w → clients a !! t = Some (ws, pc) → postal pc = false ∧ quiet ws.

(** The thread [w] is the postal one; while it constructs the post office it is alone. *)
Definition office (me nb : Z) (a : machine) : Prop :=
  ∃ w ws (pc : place), clients a !! w = Some (ws, pc) ∧ postal pc = true ∧ worker_shape ws pc ∧
    others w a ∧ (early pc = true → ∀ t, t ≠ w → clients a !! t = None) ∧
    mailstate me nb ws pc (units a) (irqs a) (aglobals a).

Definition J (me nb : Z) (a : machine) : Prop := disciplined a ∧ office me nb a.

Lemma quiet_cons f ws : quiet (f :: ws) ↔
  (f ≠ FP (SemId messageAvailable) ∧ f ≠ FV (SemId messageAvailable)) ∧ quiet ws.
Proof. unfold quiet. rewrite !not_elem_of_cons. naive_solver. Qed.

Lemma quiet_client : quiet [FClient].
Proof. rewrite quiet_cons. split; [done|]. split; apply not_elem_of_nil. Qed.

Lemma lookup_put_ne (a a' : machine) t ws pc t' :
  clients a' = put t ws pc (clients a) → t' ≠ t → clients a' !! t' = clients a !! t'.
Proof.
  intros -> Hne. unfold put. destruct ws; [by rewrite lookup_delete_ne|by rewrite lookup_insert_ne].
Qed.

Lemma lookup_put_eq (a a' : machine) t f ws (pc : place) :
  clients a' = put t (f :: ws) pc (clients a) → clients a' !! t = Some (f :: ws, pc).
Proof. intros ->. apply lookup_insert_eq. Qed.

(** What a user's code may do to the globals. *)
Definition user_change (g g' : vars) : Prop :=
  netAddr g' = netAddr g ∧ numBoxes g' = numBoxes g ∧ network g' = network g ∧
  wireIn (wire g') = wireIn (wire g) ∧ arrived (wire g') = arrived (wire g) ∧
  length (boxes g') = length (boxes g) ∧
  ∀ b, taken_from b (taken g') ++ in_box b (boxes g') = taken_from b (taken g) ++ in_box b (boxes g).

Lemma user_change_refl g : user_change g g.
Proof. by split_and!. Qed.

Lemma mailstate_user me nb ws pc v ds ds' g g' :
  mailstate me nb ws pc v ds g → early pc = false → user_change g g' → mailstate me nb ws pc v ds' g'.
Proof.
  intros [] He (E1 & E2 & E3 & E4 & E5 & E6 & E7).
  constructor; rewrite ?E1, ?E2, ?E3, ?E4, ?E5, ?E6; try done; [congruence|].
  destruct m_flow0 as (past & now & Ha & Hb & Hf). exists past, now. split_and!; [done..|].
  intros b. by rewrite Hf, !app_assoc, E7.
Qed.

(** A thread other than the postal one moves. *)
Lemma office_other me nb (a a' : machine) t ws pc ws' pc' :
  office me nb a → clients a !! t = Some (ws, pc) → postal pc = false →
  clients a' = put t ws' pc' (clients a) → (ws' = [] ∨ postal pc' = false ∧ quiet ws') →
  units a' = units a → user_change (aglobals a) (aglobals a') → office me nb a'.
Proof.
  intros (w & wws & wpc & Hw & Hp & Hs & Ho & He & Hm) Ht Hpc E Hq Eu Hg.
  assert (w ≠ t) as Hne by (intros ->; rewrite Hw in Ht; injection Ht as _ ->; congruence).
  assert (early wpc = false) as Hne' by (destruct (early wpc); [|done]; by rewrite He in Ht).
  exists w, wws, wpc. split_and!; try done.
  - exact (eq_trans (lookup_put_ne _ _ _ _ _ _ E Hne) Hw).
  - intros t' ws'' pc'' Ht'w Ht'. destruct (decide (t' = t)) as [->|Hne2].
    + rewrite E in Ht'. unfold put in Ht'. destruct ws' as [|f ws']; [by rewrite lookup_delete_eq in Ht'|].
      rewrite lookup_insert_eq in Ht'. injection Ht' as <- <-. by destruct Hq.
    + pose proof (eq_trans (eq_sym (lookup_put_ne _ _ _ _ _ _ E Hne2)) Ht') as Ht2. by eapply Ho.
  - congruence.
  - rewrite Eu. by eapply mailstate_user.
Qed.

(** A new thread. *)
Lemma office_fork me nb (a : machine) n pc :
  office me nb a → clients a !! n = None → postal pc = false →
  (∀ w ws wpc, clients a !! w = Some (ws, wpc) → postal wpc = true → early wpc = false) →
  office me nb (with_client n [FClient] pc a).
Proof.
  intros (w & wws & wpc & Hw & Hp & Hs & Ho & He & Hm) Hn Hpc Hearly.
  assert (w ≠ n) as Hne by (intros ->; by pose proof (eq_trans (eq_sym Hn) Hw)).
  exists w, wws, wpc. split_and!; try done.
  - cbn. by rewrite lookup_insert_ne.
  - intros t ws' pc' Htw Ht. cbn in Ht. rewrite lookup_insert in Ht. case_decide; [|by eapply Ho].
    injection Ht as <- <-. split; [done|apply quiet_client].
  - intros Hc. by rewrite (Hearly _ _ _ Hw Hp) in Hc.
Qed.

(** The postal thread moves. *)
Lemma office_worker me nb (a a' : machine) t ws pc f ws' pc' :
  office me nb a → clients a !! t = Some (ws, pc) → postal pc = true →
  clients a' = put t (f :: ws') pc' (clients a) → postal pc' = true → worker_shape (f :: ws') pc' →
  (early pc' = true → early pc = true) →
  (worker_shape ws pc → mailstate me nb ws pc (units a) (irqs a) (aglobals a) →
   mailstate me nb (f :: ws') pc' (units a') (irqs a') (aglobals a')) → office me nb a'.
Proof.
  intros (w & wws & wpc & Hw & Hp & Hs & Ho & He & Hm) Ht Hpc E Hpc' Hsh Hear Hms.
  assert (t = w) as ->.
  { destruct (decide (t = w)) as [|Hne]; [done|]. apply Ho in Ht as [? _]; [congruence|done]. }
  rewrite Hw in Ht. injection Ht as -> ->.
  exists w, (f :: ws'), pc'. split_and!; try done; [by eapply lookup_put_eq|..].
  - intros t' ws'' pc'' Hne Ht'.
    pose proof (eq_trans (eq_sym (lookup_put_ne _ _ _ _ _ _ E Hne)) Ht') as Ht2. by eapply Ho.
  - intros Hy t' Hne. refine (eq_trans (lookup_put_ne _ _ _ _ _ _ E Hne) _). by apply He; [apply Hear|].
  - by apply Hms.
Qed.

Lemma addressed_length b l : (length (addressed b l) ≤ length l)%nat.
Proof. apply length_filter. Qed.

Lemma addressed_app b l1 l2 : addressed b (l1 ++ l2) = addressed b l1 ++ addressed b l2.
Proof. apply filter_app. Qed.

(** *** The users *)

Lemma taken_from_snoc b l b' m :
  taken_from b (l ++ [(b', m)]) = taken_from b l ++ (if decide (b' = b) then [letter_of m] else []).
Proof.
  unfold taken_from. rewrite filter_app, !fmap_app, filter_cons, filter_nil.
  cbn. by case_decide.
Qed.

Lemma in_box_insert b b' box bs :
  (b' < length bs)%nat →
  in_box b (<[b' := box]> bs) = if decide (b' = b) then letter_of <$> box else in_box b bs.
Proof.
  intros H. unfold in_box. rewrite list_lookup_insert. case_decide as Hd.
  - destruct Hd as [-> _]. by rewrite decide_True.
  - rewrite decide_False; [done|]. naive_solver.
Qed.

Lemma remove_change b m rest g :
  boxes g !! b = Some (m :: rest) →
  user_change g (set_taken (taken g ++ [(b, m)]) (set_boxes (<[b := rest]> (boxes g)) g)).
Proof.
  intros Hb. split_and!; try done; [cbn; by rewrite length_insert|]. intros b'. cbn [taken boxes set_taken set_boxes].
  rewrite taken_from_snoc, in_box_insert by (by eapply lookup_lt_Some).
  case_decide; [subst b'|by rewrite app_nil_r]. unfold in_box. by rewrite Hb, <- app_assoc.
Qed.

Lemma op_call_user pc c :
  op_call pc c → (c = CReturn ∨ postal pc = false ∧ quiet (call_frames (C := client) c)) ∧
    (∀ s v, c ≠ CNewSem s v) ∧ ∀ p, c ≠ CFork p.
Proof.
  intros [[-> ->]|[(? & ? & ? & -> & ->)|(? & ? & -> & ->)]]; (split; [|done]); [by left|right..];
    (split; [done|]); cbn; rewrite quiet_cons; (split; [done|apply quiet_client]).
Qed.

Lemma user_code pc g g' pc' c :
  postal pc = false → resume_at pc g = Ok (g', pc', c) →
  user_change g g' ∧ (c = CReturn ∨ postal pc' = false ∧ quiet (call_frames (C := client) c)) ∧
  (∀ s v, c ≠ CNewSem s v) ∧ ∀ p, c = CFork p → postal p = false.
Proof.
  intros Hp H. assert (∀ f, f ≠ FP (SemId messageAvailable) → f ≠ FV (SemId messageAvailable) →
    quiet [f; FClient]) as Hq by (intros; rewrite quiet_cons; auto using quiet_client).
  destruct pc as [| | | |[|p ps]| | | | | |next|hdr buffer next| | |b next|m next]; try discriminate Hp;
    cbn [resume_at] in H.
  - injection H as <- <- <-. split_and!; try done. by left.
  - injection H as <- <- <-. split_and!; try done; [right; auto using quiet_client|].
    by intros ? [= <-].
  - apply next_op_Ok in H as [-> (H1 & H2 & H3)%op_call_user]. split_and!; try done.
    intros p Hc. by destruct (H3 p).
  - apply send_Ok in H as (w & Hw & -> & -> & ->). split_and!; try done; [|right; auto using quiet_client].
    unfold Send in Hw. apply bind_Ok in Hw as (_ & _ & Hw). case_decide; [by injection Hw as <-|].
    invert_ok. done.
  - injection H as <- <- <-. split_and!; try done. right. split; [done|by apply Hq].
  - injection H as <- <- <-. split_and!; try done. right. split; [done|by apply Hq].
  - apply remove_Ok in H as [(_ & -> & -> & ->)|(m & rest & Hb & -> & -> & ->)].
    + split_and!; try done. right. split; [done|by apply Hq].
    + split_and!; try done; [by apply remove_change|right; split; [done|by apply Hq]].
  - apply receive_Ok in H as (r & _ & -> & (H1 & H2 & H3)%op_call_user). split_and!; try done.
    intros p Hc. by destruct (H3 p).
Qed.

Lemma office_user me nb (a a' : machine) t pc g pc' c :
  office me nb a → clients a !! t = Some ([FClient], pc) → postal pc = false →
  resume_at pc (aglobals a) = Ok (g, pc', c) →
  call_effect c (with_client t (call_frames c) pc' (with_globals g a)) a' → office me nb a'.
Proof.
  intros HJ Ht Hp Hc He. destruct (user_code _ _ _ _ _ Hp Hc) as (Hg & Hq & Hns & Hf).
  assert (office me nb (with_client t (call_frames c) pc' (with_globals g a))) as HJ'.
  { eapply office_other; [exact HJ|exact Ht|done|reflexivity| |done|exact Hg].
    destruct Hq as [->|Hq]; [by left|by right]. }
  inversion He as [s v ? Hs|n start ? Hn|d n ty|c' ? Hpl]; subst; try done.
  - by destruct (Hns s v).
  - apply office_fork; [done|done|by apply Hf|]. intros w ws wpc Hw Hwp.
    destruct HJ' as (w' & ws' & wpc' & Hw' & Hp' & _ & Ho & Hearly & _).
    destruct (decide (w = w')) as [->|Hne]; [|by apply Ho in Hw as [? _]; [congruence|]].
    rewrite Hw in Hw'. injection Hw' as -> ->. destruct (early wpc') eqn:E; [|done].
    assert (t ≠ w') as Hne.
    { intros ->. cbn in Hw. destruct Hq as [?|[Hq _]]; [done|].
      rewrite lookup_insert_eq in Hw. injection Hw as _ <-. congruence. }
    specialize (Hearly eq_refl t Hne). cbn in Hearly. by rewrite lookup_insert_eq in Hearly.
  - destruct HJ' as (w & wws & wpc & Hw & Hwp & Hs & Ho & Hearly & Hm).
    exists w, wws, wpc. split_and!; try done.
    eapply mailstate_user; [exact Hm| |apply user_change_refl].
    destruct (early wpc) eqn:E; [|done]. destruct (decide (t = w)) as [->|Hne].
    + cbn in Hw. rewrite lookup_insert_eq in Hw. injection Hw as _ <-. destruct Hq as [?|[? _]]; congruence.
    + specialize (Hearly eq_refl t Hne). cbn in Hearly. by rewrite lookup_insert_eq in Hearly.
Qed.

(** *** The postal thread *)

Lemma taking_other ws pc : delivering pc = false → taking ws pc = 0.
Proof. intros E. unfold taking. rewrite decide_False; [done|]. rewrite E. naive_solver. Qed.

(** It moves and nothing else changes. *)
Lemma mailstate_move me nb ws pc ws' pc' v ds g :
  mailstate me nb ws pc v ds g → (early pc' = true → early pc = true) → taking ws' pc' = taking ws pc →
  worker_buffer pc' → carried pc' = carried pc → mailstate me nb ws' pc' v ds g.
Proof. intros [] He Et Hb Ec. constructor; rewrite ?Et, ?Ec; auto. Qed.

(** [new Network] *)
Lemma mailstate_net me nb ps v ds d g n :
  mailstate me nb [FClient] (NewNet ps) v ds g →
  new_Network (memory g) (netAddr g) (reliability g) = Ok n →
  mailstate me nb [FClient] (ForkWorker ps) v (d :: ds)
    (set_network n (set_boxes (replicate (Z.to_nat (numBoxes g)) []) g)).
Proof.
  intros [] Hn. destruct (m_early0 eq_refl) as (-> & Ef & Eb & Et & Ea).
  unfold new_Network in Hn. apply bind_Ok in Hn as (box & Hbox & [= <-]).
  destruct (new_chars_Ok (memory g) MaxPacketSize) as (box' & Hbox' & Hlen & _); [done|].
  rewrite Hbox' in Hbox. injection Hbox as ->. rewrite Ef in m_units0.
  constructor; try done.
  - cbn. rewrite Hlen. done.
  - cbn. by rewrite length_replicate, m_num0.
  - destruct m_flow0 as (past & now & Ha & Hb & Hf). exists past, now. split_and!; [done| |].
    + cbn. rewrite Ea in Ha. symmetry in Ha. apply app_eq_nil in Ha as [_ ->]. done.
    + intros b. rewrite Hf, Eb. cbn [boxes set_network set_boxes]. by rewrite m_num0.
Qed.

(** [PostalDelivery] receives the packet. *)
Lemma mailstate_deliver me nb buffer v ds g g' pc' c :
  mailstate me nb [FClient] (Deliver buffer) v ds g → deliver buffer g = Ok (g', pc', c) →
  postal pc' = true ∧ delivering pc' = false ∧ early pc' = false ∧
  (∃ b, c = CAcquire (boxLock b)) ∧ ∀ ws, mailstate me nb ws pc' v ds g'.
Proof.
  intros [] (mail & buffer' & n & Eu & -> & -> & ->)%deliver_Ok.
  assert (full (network g) = 1 ∧ v = 0) as [Ef ->].
  { destruct m_units0 as [? E]. unfold taking in E. rewrite decide_True in E by done.
    unfold full in *. case_decide; lia. }
  destruct m_flow0 as (past & now & Ha & Hb & Hf). unfold buffered, full in *. case_decide; [done|].
  destruct Hb as (p & h & mh & msg & -> & Hp & Hto & Hh). pose proof Hp as [_ _ Hph Hmh Hmsg Hlen Hfit].
  destruct (unpack_spec (memory g) (numBoxes g) buffer (network g) h mh msg) as
    (mail' & buf' & Eu' & Epkt & Email & Ecopy & Ebuf); [done..|by rewrite m_num0|done|done|].
  rewrite Eu in Eu'. injection Eu' as <- <- ->. split_and!; try done; [by eexists|].
  intros ws. constructor; try done; cbn [network set_network boxes wire taken netAddr numBoxes].
  - rewrite taking_other by done. done.
  - split; [cbn in m_buffer0; lia|done].
  - exists (past ++ [p]), []. split_and!; [by rewrite app_nil_r|done|]. intros b.
    unfold addressed in *. rewrite fmap_app, filter_app, Hf.
    cbn [carried fmap list_fmap]. rewrite filter_nil, app_nil_r, <- app_assoc. do 3 f_equal.
    apply copy_letter in Ecopy. by rewrite <- Ecopy, (carries_message _ _ _ _ Hp).
Qed.

(** [boxes[mailHdr.to].Put] *)
Lemma mailstate_append me nb ws b mail buffer v ds g box :
  mailstate me nb ws (Put b mail buffer) v ds g → boxes g !! b = Some box →
  ∀ ws', mailstate me nb ws' (Signalled b buffer) v ds (set_boxes (<[b := box ++ [mail]]> (boxes g)) g).
Proof.
  intros [] Hb ws'. destruct m_buffer0 as [Hbuf ->]. rewrite taking_other in m_units0 by done.
  constructor; try done.
  - cbn. by rewrite length_insert.
  - by rewrite taking_other.
  - destruct m_flow0 as (past & now & Ha & Hn & Hf). exists past, now. split_and!; [done..|].
    intros b'. rewrite Hf. cbn [taken boxes set_boxes carried fmap list_fmap].
    rewrite in_box_insert by (by eapply lookup_lt_Some).
    f_equal. unfold addressed. rewrite filter_nil, app_nil_r, filter_cons, filter_nil. cbn [letter_of fst snd].
    case_decide as Hd; [|by rewrite app_nil_r]. rewrite fmap_app. unfold in_box. by rewrite <- Hd, Hb.
Qed.

Lemma available_other (a : machine) s v : s ≠ SemId messageAvailable → units (with_value s v a) = units a.
Proof. intros H. unfold units. cbn. by rewrite lookup_insert_ne. Qed.

Lemma worker_client pc : worker_shape [FClient] pc.
Proof. right. split; [apply quiet_client|done]. Qed.

Lemma worker_quiet f pc :
  f ≠ FP (SemId messageAvailable) → f ≠ FV (SemId messageAvailable) → delivering pc = false →
  worker_shape [f; FClient] pc.
Proof. intros ?? E. right. rewrite quiet_cons. split; [auto using quiet_client|by rewrite E]. Qed.

(** The worker is forked. *)
Lemma office_fork_worker me nb (a : machine) t n ps :
  office me nb a → clients a !! t = Some ([FClient], ForkWorker ps) →
  clients (with_client t [FClient] (Start ps) (with_globals (aglobals a) a)) !! n = None →
  office me nb (with_client n [FClient] Worker (with_client t [FClient] (Start ps) (with_globals (aglobals a) a))).
Proof.
  intros (w & wws & wpc & Hw & Hp & Hs & Ho & He & Hm) Ht Hn. cbn in Hn.
  assert (t = w) as ->.
  { destruct (decide (t = w)) as [|Hne]; [done|]. by apply Ho in Ht as [? _]. }
  rewrite Hw in Ht. injection Ht as -> ->.
  assert (n ≠ w) as Hne by (intros ->; by rewrite lookup_insert_eq in Hn).
  rewrite lookup_insert_ne in Hn by done.
  exists n, [FClient], Worker. split_and!; try done.
  - cbn. by rewrite lookup_insert_eq.
  - intros t ws pc Htn Ht. cbn in Ht. rewrite lookup_insert_ne in Ht by done.
    rewrite lookup_insert in Ht. case_decide; [|by apply (Ho t)].
    injection Ht as <- <-. split; [done|apply quiet_client].
  - by eapply mailstate_move.
Qed.

Lemma office_postal me nb (a a' : machine) t pc g pc' c :
  office me nb a → clients a !! t = Some ([FClient], pc) → postal pc = true →
  resume_at pc (aglobals a) = Ok (g, pc', c) →
  call_effect c (with_client t (call_frames c) pc' (with_globals g a)) a' → office me nb a'.
Proof.
  intros HJ Ht Hp Hc He.
  destruct pc as [ps|ps|ps|ps| | |buffer|buffer|b mail buffer|b buffer| | | | | |]; try discriminate Hp;
    cbn [resume_at] in Hc.
  - injection Hc as <- <- <-. inversion He as [s v ? Hs| | |]; subst; [|done].
    eapply office_worker; [exact HJ|exact Ht|done|reflexivity|done|apply worker_client|done|].
    intros _ Hm. assert (∀ b, units (with_value (SemId messageAvailable) 0 b) = 0) as -> by
      (intros b; unfold units; cbn; by rewrite lookup_insert_eq).
    assert (units a = 0) as Eu by (unfold units; cbn in Hs; by rewrite Hs). rewrite Eu in Hm.
    by eapply mailstate_move.
  - injection Hc as <- <- <-. inversion He as [s v ? Hs| | |]; subst; [|done].
    eapply office_worker; [exact HJ|exact Ht|done|reflexivity|done|apply worker_client|done|].
    intros _ Hm. rewrite available_other by done. by eapply mailstate_move.
  - apply new_boxes_Ok in Hc as (n & Hn & -> & -> & ->). inversion He; subst; [|done].
    eapply office_worker; [exact HJ|exact Ht|done|reflexivity|done|apply worker_client|done|].
    intros _ Hm. by eapply mailstate_net.
  - injection Hc as <- <- <-. inversion He; subst; [|done]. by apply office_fork_worker.
  - apply bind_Ok in Hc as (buffer & Hb & [= <- <- <-]). inversion He; subst.
    eapply office_worker; [exact HJ|exact Ht|done|reflexivity|done|by left|done|].
    intros _ Hm. eapply mailstate_move; try done.
    destruct (new_chars_Ok (memory (aglobals a)) MaxPacketSize) as (b' & Hb' & Hl & _); [done|].
    rewrite Hb' in Hb. injection Hb as ->. cbn. rewrite Hl. done.
  - injection Hc as <- <- <-. inversion He; subst.
    eapply office_worker; [exact HJ|exact Ht|done|reflexivity|done|by left|done|].
    intros _ Hm. eapply mailstate_move; try done. apply (m_buffer _ _ _ _ _ _ _ Hm).
  - pose proof HJ as (w & wws & wpc & Hw & _ & _ & Ho & _ & Hm).
    assert (t = w) as -> by (destruct (decide (t = w)) as [|Hne]; [done|]; by apply Ho in Ht as [? _]).
    rewrite Hw in Ht. injection Ht as -> ->.
    destruct (mailstate_deliver _ _ _ _ _ _ _ _ _ Hm Hc) as (Hp' & Hd & Hearly & (b & ->) & Hm').
    inversion He; subst.
    eapply office_worker; [exact HJ|exact Hw|done|reflexivity|done|by apply worker_quiet|congruence|].
    intros _ _. apply Hm'.
  - apply append_Ok in Hc as (box & Hb & -> & -> & ->). inversion He; subst.
    eapply office_worker; [exact HJ|exact Ht|done|reflexivity|done|by apply worker_quiet|done|].
    intros _ Hm. by eapply mailstate_append.
  - injection Hc as <- <- <-. inversion He; subst.
    eapply office_worker; [exact HJ|exact Ht|done|reflexivity|done|by apply worker_quiet|done|].
    intros _ Hm. eapply mailstate_move; try done. apply (m_buffer _ _ _ _ _ _ _ Hm).
Qed.

(** *** Inside the kernel, and the interrupts *)

(** A call goes on that is not [P] of [messageAvailable]. *)
Lemma office_frame me nb (a a' : machine) t f ws pc f' ws' :
  office me nb a → clients a !! t = Some (f :: ws, pc) → f ≠ FClient →
  f ≠ FP (SemId messageAvailable) → clients a' = put t (f' :: ws') pc (clients a) →
  (quiet (f :: ws) → quiet (f' :: ws') ∧ units a' = units a) → irqs a' = irqs a →
  aglobals a' = aglobals a → office me nb a'.
Proof.
  intros HJ Ht Hf Hnp E Hq Ei Eg. destruct (postal pc) eqn:Hp.
  - assert (worker_shape (f :: ws) pc) as [[[= -> _] _]|[Hqu Hd]].
    { destruct HJ as (w & wws & wpc & Hw & _ & Hs & Ho & _).
      destruct (decide (t = w)) as [->|Hne]; [|apply Ho in Ht as [? _]; congruence].
      pose proof (eq_trans (eq_sym Hw) Ht) as [= -> ->]. done. }
    { done. }
    destruct (Hq Hqu) as [Hq' Eu].
    assert (delivering pc = false) as Ed by (destruct (delivering pc); [|done]; by pose proof (Hd eq_refl) as [= ? ?]).
    eapply office_worker; [exact HJ|exact Ht|done|exact E|done|right; split; [done|by rewrite Ed]|done|].
    intros _ Hm. rewrite Eu, Ei, Eg. eapply mailstate_move; [exact Hm|done| | |done].
    + by rewrite !taking_other.
    + apply (m_buffer _ _ _ _ _ _ _ Hm).
  - assert (quiet (f :: ws)) as Hqu.
    { destruct HJ as (w & wws & wpc & Hw & Hwp & _ & Ho & _).
      destruct (decide (t = w)) as [->|Hne]; [|by apply Ho in Ht as [_ ?]].
      pose proof (eq_trans (eq_sym Hw) Ht) as [= -> ->]. congruence. }
    destruct (Hq Hqu) as [Hq' Eu].
    eapply office_other; [exact HJ|exact Ht|done|exact E|by right|done|]. rewrite Eg. apply user_change_refl.
Qed.

(** The worker takes the unit of a packet. *)
Lemma office_take me nb (a : machine) t ws pc v :
  office me nb a → clients a !! t = Some (FP (SemId messageAvailable) :: ws, pc) →
  avalues a !! SemId messageAvailable = Some v → v ≠ 0 →
  office me nb (with_value (SemId messageAvailable) (v - 1) (with_client t ws pc a)).
Proof.
  intros HJ Ht Hv Hne. pose proof HJ as (w & wws & wpc & Hw & Hwp & Hs & Ho & _ & Hm).
  destruct (decide (t = w)) as [->|Hnw];
    [|apply Ho in Ht as [_ [Hq _]]; [by rewrite not_elem_of_cons in Hq; destruct Hq|done]].
  pose proof (eq_trans (eq_sym Hw) Ht) as [= -> ->].
  destruct Hs as [[[= ->] Hd]|[[Hq _] _]]; [|by rewrite not_elem_of_cons in Hq; destruct Hq].
  eapply office_worker; [exact HJ|exact Ht|done|reflexivity|done|apply worker_client|done|].
  intros _ _. assert (units a = v) as Eu by (unfold units; by rewrite Hv). rewrite Eu in Hm.
  assert (units (with_value (SemId messageAvailable) (v - 1) (with_client w [FClient] pc a)) = v - 1) as ->
    by (unfold units; cbn; by rewrite lookup_insert_eq).
  destruct Hm. constructor; try done. unfold taking in *. rewrite decide_False in m_units0 by naive_solver.
  rewrite decide_True by done. change (aglobals (with_value _ _ _)) with (aglobals a). lia.
Qed.

(** The state of the worker after an interrupt. *)
Lemma office_irq me nb (a a' : machine) :
  office me nb a → clients a' = clients a → irqs a ≠ [] →
  (∀ ws pc, early pc = false → mailstate me nb ws pc (units a) (irqs a) (aglobals a) →
     mailstate me nb ws pc (units a') (irqs a') (aglobals a')) → office me nb a'.
Proof.
  intros (w & wws & wpc & Hw & Hp & Hs & Ho & He & Hm) E Hi Hms.
  assert (early wpc = false) as Ee
    by (destruct (early wpc) eqn:Ee; [|done]; by destruct (m_early _ _ _ _ _ _ _ Hm Ee)).
  exists w, wws, wpc. unfold others. rewrite E. split_and!; try done. by apply Hms.
Qed.

Lemma mailstate_poll me nb ws pc v ds ds' g arr n w :
  early pc = false → mailstate me nb ws pc v ds g → CheckPktAvail (network g) (wire g) = Ok (arr, n, w) →
  mailstate me nb ws pc (v + if arr : bool then 1 else 0) ds' (set_wire w (set_network n g)).
Proof.
  intros Hearly [] Hc. destruct (decide (pkt_length (inHdr (network g)) ≠ 0)) as [Hn|Hn].
  { unfold CheckPktAvail in Hc. rewrite decide_True in Hc by done. injection Hc as <- <- <-.
    rewrite Z.add_0_r. constructor; try done; by rewrite ?Hearly. }
  destruct (wireIn (wire g)) as [|[p|] rest] eqn:Ew.
  - unfold CheckPktAvail in Hc. rewrite decide_False, Ew in Hc by done. injection Hc as <- <- <-.
    rewrite Z.add_0_r. constructor; try done; [by rewrite Hearly|cbn; by rewrite Ew].
  - apply Forall_cons in m_wire0 as [Hp Hrest].
    destruct (Hp p eq_refl) as (h & mh & msg & Hca & Hto & Hbox).
    apply dec_stable in Hn.
    destruct (CheckPktAvail_spec (network g) (wire g) p rest h mh msg) as (box & Ec & Hlen);
      [done|done|done|congruence|done|]. rewrite Ec in Hc. injection Hc as <- <- <-.
    assert (pkt_length h ≠ 0) as Hnz.
    { destruct Hca as [_ _ _ (_ & _ & ?) _ -> _]. unfold sizeof_Header. lia. }
    unfold full in m_units0. rewrite decide_True in m_units0 by done.
    constructor; try done; [by rewrite Hearly|..].
    + cbn. unfold full. cbn. rewrite decide_False by done. lia.
    + destruct m_flow0 as (past & now & Ha & Hb & Hf).
      unfold buffered in Hb. rewrite decide_True in Hb by done. subst now. rewrite app_nil_r in Ha.
      exists past, [p]. split_and!; [cbn; by rewrite Ha| |done].
      unfold buffered. cbn. rewrite decide_False by done. exists p, h, mh, msg.
      split_and!; [done|done|lia|lia|split; [done|by exists box]].
  - apply Forall_cons in m_wire0 as [_ Hrest].
    unfold CheckPktAvail in Hc. rewrite decide_False, Ew in Hc by done. injection Hc as <- <- <-.
    rewrite Z.add_0_r. constructor; try done; by rewrite Hearly.
Qed.

Lemma office_device me nb (a : machine) d ty ds g es ss vs :
  office me nb a → irqs a = (d, ty) :: ds → handle d (aglobals a) = Ok (g, es, ss) →
  bump ss (avalues a) = Some vs →
  office me nb (mkAMachine (clients a) vs (owners a) ((called <$> es) ++ ds) g).
Proof.
  intros HJ Ei Hh Hb. eapply office_irq; [exact HJ|done|by rewrite Ei|]. intros ws pc Hearly Hm.
  destruct d; cbn in Hh.
  - apply bind_Ok in Hh as ([[arr n] w] & Hc & [= <- <- <-]).
    assert (units (mkAMachine (clients a) vs (owners a)
      ((called <$> [(NetworkReadPoll, NetworkTime, NetworkRecvInt)]) ++ ds) (set_wire w (set_network n (aglobals a))))
      = units a + if arr then 1 else 0) as ->.
    { unfold units. cbn. destruct arr; cbn in Hb.
      - apply bind_Some in Hb as (v & Hv & [= <-]). by rewrite lookup_insert_eq, Hv.
      - injection Hb as <-. lia. }
    by eapply mailstate_poll.
  - injection Hh as <- <- <-. cbn in Hb. apply bind_Some in Hb as (v & Hv & [= <-]).
    assert (units (mkAMachine (clients a) (<[SemId messageSent := v + 1]> (avalues a)) (owners a) ds
      (set_network (SendDone (network (aglobals a))) (aglobals a))) = units a) as E
      by (unfold units; cbn; by rewrite lookup_insert_ne).
    cbn [fmap list_fmap app]. rewrite E. destruct Hm. constructor; try done. by rewrite Hearly.
Qed.

Lemma office_step me nb (a a' : machine) : J me nb a → astep a a' → office me nb a'.
Proof.
  intros [Hd HJ] H.
  assert (∀ t f ws (pc : place), clients a !! t = Some (f :: ws, pc) → f ≠ FClient → ws ≠ []) as Hbot.
  { intros t f ws pc Ht Hf ->. apply (proj1 Hd) in Ht. destruct f; cbn in Ht; naive_solver. }
  destruct H as [a a' (E1 & E2 & _ & E4 & E5)|t ? pc g pc' c a a' Ht Hc He|t s ws pc v a Ht Hv Hne|
    t s ws pc v a Ht Hv|t l ws pc o a Ht|t l ws pc a Ht|t l ws pc a Ht|t c l ws pc a Ht|
    t f c l ws pc a Ht Hf|d ty ds g es ss vs a Ei Hdev Hb].
  - destruct HJ as (w & wws & wpc & Hw & Hp & Hs & Ho & He & Hm).
    exists w, wws, wpc. unfold others, units. rewrite <- E1, <- E2, <- E5. split_and!; try done.
    destruct Hm. constructor; try done. intros Ee. destruct (m_early0 Ee) as (Ei & ?).
    split; [|done]. rewrite Ei in E4. by apply Permutation_nil_l in E4.
  - destruct (postal pc) eqn:Hp; [by eapply office_postal|by eapply office_user].
  - destruct (decide (s = SemId messageAvailable)) as [->|Hs]; [by apply office_take|].
    destruct ws as [|f' ws']; [by destruct (Hbot _ _ _ _ Ht)|].
    eapply office_frame; [exact HJ|exact Ht|done|congruence|reflexivity| |done|done].
    rewrite !quiet_cons, available_other by done. naive_solver.
  - destruct ws as [|f' ws']; [by destruct (Hbot _ _ _ _ Ht)|].
    eapply office_frame; [exact HJ|exact Ht|done|done|reflexivity| |done|done].
    rewrite !quiet_cons. intros [[_ Hs] Hq]. split; [done|]. rewrite available_other; [done|]. congruence.
  - eapply office_frame; [exact HJ|exact Ht|done|done|reflexivity| |done|done].
    rewrite !quiet_cons. naive_solver.
  - destruct ws as [|f' ws']; [by destruct (Hbot _ _ _ _ Ht)|].
    eapply office_frame; [exact HJ|exact Ht|done|done|reflexivity| |done|done]. rewrite !quiet_cons. naive_solver.
  - eapply office_frame; [exact HJ|exact Ht|done|done|reflexivity| |done|done]. rewrite !quiet_cons. naive_solver.
  - eapply office_frame; [exact HJ|exact Ht|done|done|reflexivity| |done|done]. rewrite !quiet_cons. naive_solver.
  - destruct ws as [|f' ws']; [destruct (Hbot _ _ _ _ Ht); [by destruct Hf as [-> | ->]|done]|].
    eapply office_frame; [exact HJ|exact Ht|by destruct Hf as [-> | ->]|by destruct Hf as [-> | ->]|reflexivity| |done|done].
    rewrite !quiet_cons. naive_solver.
  - by eapply office_device.
Qed.

(** ** Theorems *)

(** The machine [me] with [nb] mailboxes; the socket gives [packets], and
    [Random()] gives [rs].  Before its constructor the post office is empty. *)
Definition start (rnd : nat → Z) (useTimer : bool) (me rel nb : Z) (mem : nat → Z)
    (packets : list (option (list Z))) (rs : list Z) (programs : list prog) : Result kernel :=
  initial rnd useTimer useTimer (S (Z.to_nat nb)) (Z.to_nat nb)
    (mkVars me rel nb (mkNetwork me 0 false (mkPacketHeader 0 0 0) (replicate 52 0))
       (mkWire packets [] [] rs) (replicate (Z.to_nat nb) []) [] [] mem)
    (NewAvailable programs).

Lemma PostOffice_J_init me rel nb mem packets rs programs :
  Forall (λ o, ∀ p, o = Some p → valid_packet me nb p) packets →
  J me nb (ainit (S (Z.to_nat nb))
    (mkVars me rel nb (mkNetwork me 0 false (mkPacketHeader 0 0 0) (replicate 52 0))
       (mkWire packets [] [] rs) (replicate (Z.to_nat nb) []) [] [] mem) (NewAvailable programs)).
Proof.
  intros Hv. split; [by apply (disciplined_init (λ _, 0))|].
  exists 0%nat, [FClient], (NewAvailable programs). split_and!; try done.
  - apply worker_client.
  - intros t ws pc Hne Ht. destruct (ainit_client (C := client) _ _ _ _ _ _ Ht) as (-> & _). done.
  - intros _ t Hne. cbn [ainit clients]. by rewrite lookup_singleton_ne.
  - constructor; try done; [cbn; by rewrite length_replicate|unfold units; by rewrite ainit_sem, taking_other|].
    exists [], []. split_and!; [done..|]. intros b. cbn. unfold in_box.
    destruct (replicate (Z.to_nat nb) [] !! b) as [box|] eqn:E; [|done].
    by apply lookup_replicate in E as [-> _].
Qed.

Lemma PostOffice_J rnd useTimer me rel nb mem packets rs programs k0 k :
  Forall (λ o, ∀ p, o = Some p → valid_packet me nb p) packets →
  start rnd useTimer me rel nb mem packets rs programs = Ok k0 → steps (kstep rnd useTimer) k0 k →
  J me nb (absf k).
Proof.
  intros Hv Hi Hs. eapply (machine_invariant rnd useTimer (J me nb)); [exact Hi|exact Hs| |].
  - by apply PostOffice_J_init.
  - intros a a' HJ H. split; [by eapply disciplined_step; [apply HJ|]|by eapply office_step].
Qed.

(** C12: the post office delivers: whatever the schedule and whatever the other
    threads send and receive, when the packets that reach the machine are those
    a post office made for it, the letters that arrived for a mailbox are, in
    the order of their arrival, those taken out of it, those in it, and at most
    two still on the way (with the worker and in the network's buffer): mail is
    neither lost nor duplicated, misdelivered or reordered. *)
Theorem PostOffice_delivers rnd useTimer me rel nb mem packets rs programs k0 k b :
  Forall (λ o, ∀ p, o = Some p → valid_packet me nb p) packets →
  start rnd useTimer me rel nb mem packets rs programs = Ok k0 → steps (kstep rnd useTimer) k0 k →
  ∃ on_the_way, (length on_the_way ≤ 2)%nat ∧
    addressed b (message <$> arrived (wire (shared k))) =
    taken_from b (taken (shared k)) ++ in_box b (boxes (shared k)) ++ on_the_way.
Proof.
  intros Hv Hi Hs. destruct (PostOffice_J _ _ _ _ _ _ _ _ _ _ _ Hv Hi Hs) as (_ & w & ws & pc & _ & _ & _ & _ & _ & Hm).
  destruct (m_flow _ _ _ _ _ _ _ Hm) as (past & now & Ea & Hb & Hf). cbn [absf aglobals] in *.
  exists (addressed b (letter_of <$> carried pc) ++ addressed b (message <$> now)). split.
  - rewrite length_app.
    assert (length (addressed b (letter_of <$> carried pc)) ≤ 1)%nat.
    { etrans; [apply addressed_length|]. rewrite length_fmap. destruct pc; cbn; lia. }
    assert (length (addressed b (message <$> now)) ≤ 1)%nat; [|lia].
    etrans; [apply addressed_length|]. rewrite length_fmap. unfold buffered in Hb.
    case_decide; [subst now; cbn; lia|]. destruct Hb as (p & ? & ? & ? & -> & _). done.
  - by rewrite Ea, fmap_app, addressed_app, Hf, <- !app_assoc.
Qed.

(** ** The assertions *)

Section assertions.
(** What the programs rely on about the letters they get. *)
Context (Q : letter → Prop).

(** Programs that respect the interface of the post office. *)
Fixpoint prog_ok (nb : Z) (p : prog) : Prop :=
  match p with
  | Done | DoHalt => True
  | DoSend to mh msg next => mail_valid nb to mh msg ∧ prog_ok nb next
  | DoReceive box next => 0 ≤ box < nb ∧ ∀ l, Q l → prog_ok nb (next l)
  end.

Definition packets_ok (me nb : Z) (packets : list (option (list Z))) : Prop :=
  Forall (λ o, ∀ p, o = Some p → valid_packet me nb p ∧ Q (message p)) packets.

(** A [Mail] whose message is in its data. *)
Definition mail_ok (m : Mail) : Prop :=
  MailBox_copy m = Ok (letter_of m) ∧ mail_length (mailHdr m) ≤ MaxMailSize.

Definition place_ok (me nb : Z) (pc : place) : Prop :=
  match pc with
  | NewAvailable ps | NewSent ps | NewNet ps | ForkWorker ps | Start ps => Forall (prog_ok nb) ps
  | Worker | Wait _ | Deliver _ | Signalled _ _ => True
  | Put b m _ => (b < Z.to_nat nb)%nat ∧ mail_ok m
  | At p | Sent p | Acknowledged p => prog_ok nb p
  | Sending h buf next =>
      (pkt_from h = me ∧ 0 < pkt_length h ≤ MaxPacketSize ∧ Z.of_nat (length buf) = MaxPacketSize) ∧
      prog_ok nb next
  | Removing b next => (b < Z.to_nat nb)%nat ∧ ∀ l, Q l → prog_ok nb (next l)
  | Got m next => mail_ok m ∧ prog_ok nb (next (letter_of m))
  end.

Definition globals_ok (g : vars) : Prop :=
  sendBusy (network g) = false ∧ Forall (Forall mail_ok) (boxes g) ∧
  Forall (λ p, Q (message p)) (arrived (wire g)) ∧
  Forall (λ o, ∀ p, o = Some p → Q (message p)) (wireIn (wire g)).

(** Before [messageSent] is made. *)
Definition unmade (pc : place) : bool := match pc with NewAvailable _ | NewSent _ => true | _ => false end.

(** Every thread is at a good place, and [messageSent] is not made twice. *)
Definition sound (me nb : Z) (a : machine) : Prop :=
  (∀ t ws (pc : place), clients a !! t = Some (ws, pc) → place_ok me nb pc) ∧
  (∀ t ws (pc : place), clients a !! t = Some (ws, pc) → unmade pc = true →
    avalues a !! SemId messageSent = None) ∧
  globals_ok (aglobals a).

(** A user's next operation begins, or the program ends. *)
Lemma next_op_ok me nb p g :
  netAddr g = me → numBoxes g = nb → prog_ok nb p →
  next_op p g = Err Exit ∨ ∃ g' pc' c, next_op p g = Ok (g', pc', c) ∧ place_ok me nb pc'.
Proof.
  intros Ea En Ho. destruct p as [| |to mh msg p|box k]; cbn [next_op]; [right|by left|right..].
  - by eexists _, _, _.
  - destruct Ho as [Hv Ho]. rewrite Ea, En.
    destruct (pack_spec (memory g) me nb to mh msg Hv) as (pad & -> & Hpad). rcbn.
    eexists _, _, _. split; [reflexivity|]. cbn [place_ok pkt_from pkt_length].
    pose proof Hv as [_ _ _ _ Hl Hd]. unfold MaxMailSize, sizeof_Header in *. split_and!; [done|lia|lia| |done].
    rewrite !length_app, length_take, length_mail_bytes. unfold MaxPacketSize, MaxWireSize, sizeof_Header in *. lia.
  - destruct Ho as [Hv Ho]. rewrite En, !bool_decide_true by lia. cbn.
    eexists _, _, _. split; [reflexivity|]. cbn. split; [lia|done].
Qed.

(** The worker gets its packet. *)
Lemma deliver_total me nb buffer v ds g :
  mailstate me nb [FClient] (Deliver buffer) v ds g →
  ∃ mail buffer', deliver buffer g =
    Ok (set_network (mkNetwork (ident (network g)) (chanceToWork (network g)) (sendBusy (network g))
          (mkPacketHeader (pkt_to (pktHdr mail)) (pkt_from (pktHdr mail)) 0) (inbox (network g))) g,
        Put (Z.to_nat (mail_to (mailHdr mail))) mail buffer',
        CAcquire (boxLock (Z.to_nat (mail_to (mailHdr mail))))) ∧
    mail_ok mail ∧ (Z.to_nat (mail_to (mailHdr mail)) < Z.to_nat nb)%nat.
Proof.
  intros [].
  assert (full (network g) = 1) as Ef.
  { destruct m_units0 as [? E]. unfold taking in E. rewrite decide_True in E by done.
    unfold full in *. case_decide; lia. }
  destruct m_flow0 as (past & now & _ & Hb & _). unfold buffered, full in *. case_decide; [done|].
  destruct Hb as (p & h & mh & msg & -> & Hp & Hto & Hh). pose proof Hp as [_ _ Hph Hmh Hmsg Hlen Hfit].
  destruct (unpack_spec (memory g) (numBoxes g) buffer (network g) h mh msg) as
    (mail & buf' & Eu & Epkt & Email & Ecopy & Ebuf); [done..|by rewrite m_num0|done|done|].
  exists mail, buf'. unfold deliver. rewrite Eu. rcbn. split; [by rewrite Epkt|].
  split; [split|rewrite Email; lia]; [|by rewrite Email]. rewrite Ecopy. f_equal. by apply copy_letter.
Qed.

(** [Network::Send] of a packet the post office packed. *)
Lemma send_total hdr buffer next g :
  sendBusy (network g) = false → pkt_from hdr = ident (network g) → 0 < pkt_length hdr ≤ MaxPacketSize →
  Z.of_nat (length buffer) = MaxPacketSize →
  ∃ g', send hdr buffer next g = Ok (g', Sent next, CSchedule NetworkSendDone NetworkTime NetworkSendInt) ∧
    network g' = network g ∧ boxes g' = boxes g ∧ arrived (wire g') = arrived (wire g) ∧
    wireIn (wire g') = wireIn (wire g).
Proof.
  intros Hbusy Hfrom Hl Hb. unfold send, Send.
  rewrite Hbusy, !bool_decide_true by (first [lia|done]). rcbn. cbn [negb andb rolls chanceToWork].
  case_decide; [by eexists|].
  destruct (new_chars_Ok (memory g) MaxWireSize) as (buf & -> & Hbuf & _); [done|]. rcbn.
  change (Z.to_nat MaxWireSize) with 64%nat in Hbuf.
  rewrite bytes_put_app by (rewrite length_packet_bytes; lia). rcbn.
  unfold MaxPacketSize, MaxWireSize, sizeof_Header in Hl, Hb.
  destruct (bytes_at_Ok 0 (Z.to_nat (pkt_length hdr)) buffer) as [-> Hlen]; [lia|lia|]. rcbn.
  rewrite bytes_put_after by (rewrite ?length_drop, ?length_packet_bytes, ?Hlen; lia). rcbn.
  by eexists.
Qed.

(** A piece of code halts the machine, or returns in a good state and with a good call. *)
Definition good (me nb : Z) (r : Result outcome) : Prop :=
  r = Err Exit ∨
  ∃ g pc' c, r = Ok (g, pc', c) ∧ globals_ok g ∧ place_ok me nb pc' ∧
    (∀ p, c = CFork p → place_ok me nb p) ∧ (∀ d n ty, c = CSchedule d n ty → 0 < n).

Lemma good_next me nb p g :
  netAddr g = me → numBoxes g = nb → globals_ok g → prog_ok nb p → good me nb (next_op p g).
Proof.
  intros Ea En Hg Ho. destruct (next_op_ok me nb p g Ea En Ho) as [E|(g1 & pc1 & c & E & Hpc1)]; [by left|right].
  exists g1, pc1, c. apply next_op_Ok in E as E'. destruct E' as [-> Hcall].
  split_and!; try done; destruct Hcall as [[-> _]|[(? & ? & ? & _ & ->)|(? & ? & _ & ->)]]; done.
Qed.

Lemma good_append me nb b mail buffer g :
  globals_ok g → mail_ok mail → (b < length (boxes g))%nat → good me nb (append b mail buffer g).
Proof.
  intros (Hbusy & Hboxes & Hq) Hmail Hb. destruct (lookup_lt_is_Some_2 _ _ Hb) as [box Hbox].
  unfold append. rewrite Hbox. rcbn. right. eexists _, _, _. split; [reflexivity|]. split_and!; try done.
  split_and!; [done| |apply Hq..]. cbn. apply Forall_insert; [done|]. apply Forall_app.
  split; [by eapply Forall_lookup_1 in Hboxes|by constructor].
Qed.

(** Mail in a box came with a packet. *)
Lemma box_letters me nb ws pc v ds g b m rest :
  mailstate me nb ws pc v ds g → globals_ok g → boxes g !! b = Some (m :: rest) → Q (letter_of m).
Proof.
  intros Hm (_ & _ & Hq & _) Hb. destruct (m_flow _ _ _ _ _ _ _ Hm) as (past & now & Ea & _ & Hf).
  assert (letter_of m ∈ addressed b (message <$> past)) as Hin
    by (rewrite Hf; unfold in_box; rewrite Hb; set_solver).
  apply list_elem_of_filter in Hin as [_ (p & -> & Hp)%list_elem_of_fmap].
  rewrite Forall_forall in Hq. apply Hq. rewrite Ea. set_solver.
Qed.

Lemma good_remove me nb ws pc v ds b next g :
  mailstate me nb ws pc v ds g → globals_ok g → (∀ l, Q l → prog_ok nb (next l)) → (b < Z.to_nat nb)%nat →
  good me nb (remove b next g).
Proof.
  intros Hm Hg Hnext Hb. pose proof Hg as (Hbusy & Hboxes & Hq1 & Hq2).
  assert (b < length (boxes g))%nat as Hb' by (by rewrite (m_boxes _ _ _ _ _ _ _ Hm)).
  destruct (lookup_lt_is_Some_2 _ _ Hb') as [box Hbox]. unfold remove. rewrite Hbox. rcbn.
  pose proof (Forall_lookup_1 _ _ _ _ Hboxes Hbox) as Hbm. destruct box as [|m rest]; right.
  - eexists _, _, _. split; [reflexivity|]. by split_and!.
  - apply Forall_cons in Hbm as [Hm1 Hrest]. eexists _, _, _. split; [reflexivity|]. split_and!; try done.
    + split_and!; [done| |done|done]. cbn. by apply Forall_insert.
    + split; [done|]. by eapply Hnext, box_letters.
Qed.

(** Every piece of code returns from a good state, in a good state. *)
Lemma resume_ok me nb (a : machine) t (pc : place) :
  J me nb a → sound me nb a → clients a !! t = Some ([FClient], pc) →
  good me nb (resume_at pc (aglobals a)).
Proof.
  intros [_ (w & wws & wpc & Hw & Hwp & _ & Hoth & _ & Hm)] (Hp & _ & Hg) Ht.
  pose proof (Hp _ _ _ Ht) as Hpc. pose proof (m_boxes _ _ _ _ _ _ _ Hm) as Hlen.
  pose proof (m_addr _ _ _ _ _ _ _ Hm) as Ea. pose proof (m_num _ _ _ _ _ _ _ Hm) as En.
  destruct pc as [ps|ps|ps|ps|[|p ps]| |buffer|buffer|b mail buffer|b buffer|p|hdr buffer p|p|p|b next|m next];
    cbn [resume_at]; try (right; by eexists _, _, _).
  - right. eexists _, _, _. split; [reflexivity|]. destruct Hg as (? & ? & ? & ?). split; [|split; [done|split; [done|]]].
    + split_and!; [done| |done|done]. cbn. by apply Forall_replicate.
    + by intros ? ? ? [= <- <- <-].
  - right. eexists _, _, _. split; [reflexivity|]. split_and!; try done. by intros ? [= <-].
  - apply Forall_cons in Hpc as [Hps Hpc]. right. eexists _, _, _. split; [reflexivity|]. split_and!; try done.
    by intros ? [= <-].
  - assert (t = w) as -> by (destruct (decide (t = w)) as [|Hne]; [done|]; by apply Hoth in Ht as [? _]).
    pose proof (eq_trans (eq_sym Hw) Ht) as [= -> ->].
    destruct (deliver_total _ _ _ _ _ _ Hm) as (mail & buffer' & E & Hmail & Hb). rewrite E.
    right. eexists _, _, _. split; [reflexivity|]. destruct Hg as (? & ? & ? & ?). by split_and!.
  - destruct Hpc as [Hb Hmail]. apply good_append; [done|done|by rewrite Hlen].
  - by apply good_next.
  - destruct Hpc as [(Hf & Hl & Hb) Hops]. pose proof Hg as (Hbusy & Hboxes & Hq1 & Hq2).
    destruct (send_total hdr buffer p (aglobals a)) as (g' & E & Hn & Hbx & Ha & Hi);
      [done|by rewrite (m_ident _ _ _ _ _ _ _ Hm)|done|done|]. rewrite E.
    right. eexists _, _, _. split; [reflexivity|]. split_and!; try done; [|by intros ? ? ? [= <- <- <-]].
    split_and!; [by rewrite Hn|by rewrite Hbx|by rewrite Ha|by rewrite Hi].
  - destruct Hpc as [Hb Hops]. by eapply good_remove.
  - destruct Hpc as [[Ecopy Hmax] Hops]. unfold receive. rewrite Ecopy. rcbn. cbn [letter_of].
    rewrite bool_decide_true by done. rcbn. by apply good_next.
Qed.

(** The semaphores are made, and threads forked, where the code says. *)
Lemma resume_calls pc g g' pc' c :
  resume_at pc g = Ok (g', pc', c) →
  (unmade pc' = true → unmade pc = true) ∧
  match c with
  | CNewSem s _ => unmade pc = true ∧ (s = messageSent → unmade pc' = false)
  | CFork p => unmade p = false
  | _ => True
  end.
Proof.
  intros H. assert (∀ pc c, op_call pc c → unmade pc = false ∧ match c with CNewSem _ _ | CFork _ => False | _ => True end)
    as Hop by (by intros ? ? [[-> ->]|[(? & ? & ? & -> & ->)|(? & ? & -> & ->)]]).
  destruct pc as [ps|ps|ps|ps|[|p ps]| |buffer|buffer|b mail buffer|b buffer|p|hdr buffer p|p|p|b next|m next];
    cbn [resume_at] in H; try (injection H as <- <- <-; done).
  - by apply deliver_Ok in H as (? & ? & ? & _ & _ & -> & ->).
  - by apply append_Ok in H as (? & _ & _ & -> & ->).
  - apply next_op_Ok in H as [_ [E Hc]%Hop]. rewrite E. split; [done|]. by destruct c.
  - by apply send_Ok in H as (? & _ & _ & -> & ->).
  - by apply remove_Ok in H as [(_ & _ & -> & ->)|(? & ? & _ & _ & -> & ->)].
  - apply receive_Ok in H as (? & _ & _ & [E Hc]%Hop). rewrite E. split; [done|]. by destruct c.
Qed.

(** The places and the globals stay good. *)
Lemma sound_put me nb (a a' : machine) t ws pc ws' pc' :
  sound me nb a → clients a !! t = Some (ws, pc) → clients a' = put t ws' pc' (clients a) →
  place_ok me nb pc' → globals_ok (aglobals a') → avalues a' !! SemId messageSent = avalues a !! SemId messageSent →
  (unmade pc' = true → unmade pc = true) → sound me nb a'.
Proof.
  intros (Hp & Hn & _) Ht E Hpc Hg Hv He.
  assert (∀ t' ws'' (pc'' : place), clients a' !! t' = Some (ws'', pc'') → pc'' = pc' ∨ clients a !! t' = Some (ws'', pc''))
    as Hl.
  { intros t' ws'' pc'' Ht'. destruct (decide (t' = t)) as [->|Hne].
    - left. rewrite E in Ht'. unfold put in Ht'. destruct ws'; [by rewrite lookup_delete_eq in Ht'|].
      rewrite lookup_insert_eq in Ht'. by injection Ht' as _ <-.
    - right. exact (eq_trans (eq_sym (lookup_put_ne _ _ _ _ _ _ E Hne)) Ht'). }
  split_and!; [|intros t' ws'' pc'' Ht' Hu; rewrite Hv|done].
  - intros t' ws'' pc'' [->|Ht']%Hl; [done|by eapply Hp].
  - apply Hl in Ht' as [->|Ht']; [eapply Hn; [exact Ht|by apply He]|by eapply Hn].
Qed.

(** The next packet moves from the socket to what arrived. *)
Lemma poll_globals g arr n w :
  globals_ok g → CheckPktAvail (network g) (wire g) = Ok (arr, n, w) → globals_ok (set_wire w (set_network n g)).
Proof.
  intros (Hb & Hm & Hq1 & Hq2) Hc. unfold globals_ok. cbn. unfold CheckPktAvail in Hc.
  case_decide; [by injection Hc as _ <- <-|].
  destruct (wireIn (wire g)) as [|[p|] rest] eqn:Ew.
  - injection Hc as _ <- <-. by rewrite Ew.
  - apply Forall_cons in Hq2 as [Hp Hq2]. invert_ok. cbn. split_and!; [done|done| |done].
    apply Forall_app. split; [done|]. repeat constructor. by apply Hp.
  - apply Forall_cons in Hq2 as [_ Hq2]. by injection Hc as _ <- <-.
Qed.

Lemma handle_ok d g g' es ss :
  globals_ok g → handle d g = Ok (g', es, ss) → globals_ok g' ∧ Forall (λ x : irq * Z * IntType, 0 < x.1.2) es ∧
    Forall (λ n, n < 2)%nat ss.
Proof.
  intros Hg H. destruct d; cbn in H.
  - apply bind_Ok in H as ([[arr n] w] & Hc & [= <- <- <-]).
    split; [by eapply poll_globals|]. split; [by repeat constructor|by destruct arr; repeat constructor].
  - injection H as <- <- <-. split; [by destruct Hg as (? & ? & ?)|]. split; [constructor|by repeat constructor].
Qed.

Lemma bump_new ss vs vs' s :
  bump ss vs = Some vs' → is_Some (vs' !! SemId s) → is_Some (vs !! SemId s).
Proof.
  revert vs. induction ss as [|s' ss IH]; intros vs H Hs; cbn in H; [by injection H as ->|].
  apply bind_Some in H as (v & Hv & H). specialize (IH _ H Hs). rewrite lookup_insert in IH.
  case_decide as Hd; [|done]. injection Hd as ->. by rewrite Hv.
Qed.

(** Semaphores that exist are changed, not made, inside the kernel. *)
Definition made (a b : machine) : Prop :=
  avalues a !! SemId messageSent = None → avalues b !! SemId messageSent = None.

Lemma made_update (a : machine) s v x (b : machine) :
  avalues a !! s = Some v → avalues b = <[s := x]> (avalues a) → made a b.
Proof.
  intros Hs E Hn. rewrite E, lookup_insert. case_decide; [|done]. subst. congruence.
Qed.

Lemma made_same (a b : machine) : avalues b = avalues a → made a b.
Proof. intros E. unfold made. by rewrite E. Qed.

Lemma sound_frame me nb (a b : machine) t ws (pc : place) ws' :
  sound me nb a → clients a !! t = Some (ws, pc) → clients b = put t ws' pc (clients a) →
  aglobals b = aglobals a → made a b → sound me nb b.
Proof.
  intros (Hp & Hn & Hg) Ht E Eg Hm.
  assert (sound me nb (mkAMachine (clients b) (avalues a) (owners b) (irqs b) (aglobals b))) as (Hp' & Hn' & Hg')
    by (eapply sound_put; [by split_and!|exact Ht|exact E|by eapply Hp|by cbn; rewrite Eg|done..]).
  split_and!; [exact Hp'| |exact Hg']. intros t' ws'' pc'' Ht' Hu. by apply Hm, (Hn' t' ws'' pc'').
Qed.

Lemma sound_client me nb (a a' : machine) t pc g pc' c :
  J me nb a → sound me nb a → clients a !! t = Some ([FClient], pc) →
  resume_at pc (aglobals a) = Ok (g, pc', c) →
  call_effect c (with_client t (call_frames c) pc' (with_globals g a)) a' → sound me nb a'.
Proof.
  intros HJ HS Ht Hc He.
  destruct (resume_ok me nb a t pc HJ HS Ht) as [E|(g1 & pc1 & c1 & E & Hg1 & Hpc1 & Hfork & _)];
    [by rewrite Hc in E|].
  rewrite Hc in E. injection E as <- <- <-. apply resume_calls in Hc as [Hu Hcall].
  assert (sound me nb (with_client t (call_frames c) pc' (with_globals g a))) as HS'
    by (eapply sound_put; [exact HS|exact Ht|reflexivity|done..]).
  inversion He as [s v ? Hs|n start ? Hn0|d n ty|c' ? Hpl]; subst; try done.
  - destruct HS' as (Hp & Hn & Hg). split_and!; [done| |done]. intros t' ws'' pc'' Ht' Hu'.
    cbn. rewrite lookup_insert. case_decide as Hd; [|by eapply Hn]. injection Hd as ->. exfalso.
    destruct Hcall as [Hu0 Hpc']. specialize (Hpc' eq_refl).
    destruct HJ as [_ (w & wws & wpc & Hw & Hwp & _ & Hoth & _)].
    assert (postal pc = true ∧ postal pc'' = true) as [Hp1 Hp2] by (destruct pc, pc''; done).
    cbn in Ht'. rewrite lookup_insert in Ht'. case_decide as Hd; [injection Ht' as _ <-; congruence|].
    destruct (decide (t = w)) as [->|Hne]; [|by apply Hoth in Ht as [? _]; [congruence|]].
    apply (Hoth t') in Ht' as [? _]; [congruence|done].
  - destruct HS' as (Hp & Hn & Hg). split_and!; [|intros t' ws'' pc'' Ht' Hu'|done].
    + intros t' ws'' pc'' Ht'. cbn in Ht'. rewrite lookup_insert in Ht'. case_decide; [|by eapply Hp].
      injection Ht' as _ <-. by apply Hfork.
    + cbn in Ht'. rewrite lookup_insert in Ht'. case_decide; [|by eapply Hn].
      injection Ht' as _ <-. congruence.
Qed.

Lemma sound_step me nb (a a' : machine) : J me nb a → sound me nb a → astep a a' → sound me nb a'.
Proof.
  intros HJ HS H.
  destruct H as [a a' (E1 & E2 & _ & E4 & E5)|t ? pc g pc' c a a' Ht Hc He|t s ws pc v a Ht Hv Hne|
    t s ws pc v a Ht Hv|t l ws pc o a Ht|t l ws pc a Ht|t l ws pc a Ht|t c l ws pc a Ht|
    t f c l ws pc a Ht Hf|d ty ds g es ss vs a Ei Hdev Hb];
    try (eapply sound_frame; [exact HS|exact Ht|reflexivity|done|first [by apply made_same|by eapply made_update]]).
  - unfold sound. by rewrite <- E1, <- E2, <- E5.
  - by eapply sound_client.
  - destruct HS as (Hp & Hn & Hg). destruct (handle_ok _ _ _ _ _ Hg Hdev) as (Hg' & _). split_and!; [done| |done].
    intros t ws pc Ht Hu. specialize (Hn t ws pc Ht Hu). cbn.
    destruct (vs !! SemId messageSent) eqn:E; [|done].
    pose proof (bump_new _ _ _ messageSent Hb ltac:(by rewrite E)) as Hi. rewrite Hn in Hi. by destruct Hi.
Qed.

(** Interrupts find a network that can take the next packet. *)
Definition net_ok (me nb : Z) (g : vars) : Prop :=
  ident (network g) = me ∧ Z.of_nat (length (inbox (network g))) = MaxPacketSize ∧
  Forall (λ o, ∀ p, o = Some p → valid_packet me nb p) (wireIn (wire g)).

Lemma handle_total me nb d g :
  net_ok me nb g → ∃ g' es ss, handle d g = Ok (g', es, ss) ∧ net_ok me nb g'.
Proof.
  intros (Hi & Hl & Hw). destruct d; cbn; [|by eexists _, _, _].
  destruct (decide (pkt_length (inHdr (network g)) = 0)) as [Hz|Hz].
  2: { unfold CheckPktAvail. rewrite decide_True by done. by eexists _, _, _. }
  destruct (wireIn (wire g)) as [|[p|] rest] eqn:Ew.
  - unfold CheckPktAvail. rewrite decide_False, Ew by lia. eexists _, _, _. split; [reflexivity|].
    split_and!; try done. cbn. by rewrite Ew.
  - apply Forall_cons in Hw as [Hp Hw]. destruct (Hp p eq_refl) as (h & mh & msg & Hca & Hto & _).
    destruct (CheckPktAvail_spec (network g) (wire g) p rest h mh msg) as (box & -> & Hbox);
      [done|done|done|congruence|done|]. rcbn. eexists _, _, _. split; [reflexivity|]. by split_and!.
  - apply Forall_cons in Hw as [_ Hw]. unfold CheckPktAvail. rewrite decide_False, Ew by lia.
    eexists _, _, _. split; [reflexivity|]. by split_and!.
Qed.

Lemma Post_devices_safe me nb k :
  net_ok me nb (shared k) → globals_ok (shared k) → (∀ n : nat, (n < 2)%nat → is_Some (sems k !! SemId n)) →
  devices_safe k.
Proof.
  intros Hn Hg Hsem d g Hr.
  assert (net_ok me nb g ∧ globals_ok g) as [Hn' Hg'].
  { induction Hr as [g|g1 g2 g3 (d' & ds & ss & E) _ IH]; [done|]. apply IH.
    - destruct (handle_total me nb d' g1 Hn) as (g' & es' & ss' & E' & Hn').
      pose proof (eq_trans (eq_sym E') E) as [= <- _ _]. done.
    - by apply handle_ok in E as (? & _). }
  destruct (handle_total me nb d g Hn') as (g' & es & ss & E & _). exists g', es, ss.
  destruct (handle_ok _ _ _ _ _ Hg' E) as (_ & He & Hs). split_and!; [exact E|exact He|].
  eapply Forall_impl; [exact Hs|]. intros n. apply Hsem.
Qed.

Lemma sound_init me rel nb mem packets rs programs :
  packets_ok me nb packets → Forall (prog_ok nb) programs →
  sound me nb (ainit (S (Z.to_nat nb))
    (mkVars me rel nb (mkNetwork me 0 false (mkPacketHeader 0 0 0) (replicate 52 0))
       (mkWire packets [] [] rs) (replicate (Z.to_nat nb) []) [] [] mem) (NewAvailable programs)).
Proof.
  intros Hv Hprog. split_and!.
  - intros t ws pc Ht. by destruct (ainit_client (C := client) _ _ _ _ _ _ Ht) as (_ & _ & ->).
  - intros t ws pc Ht Hu. apply ainit_sem.
  - split_and!; [done| |constructor|eapply Forall_impl; [exact Hv|]; naive_solver].
    cbn. by apply Forall_replicate.
Qed.

(** The invariants of the threads and of the post office hold in every state,
    and with them any that is kept under both. *)
Lemma PostOffice_invariant (I : machine → Prop) rnd useTimer me rel nb mem packets rs programs k0 k :
  packets_ok me nb packets → Forall (prog_ok nb) programs →
  start rnd useTimer me rel nb mem packets rs programs = Ok k0 → steps (kstep rnd useTimer) k0 k →
  I (ainit (S (Z.to_nat nb))
    (mkVars me rel nb (mkNetwork me 0 false (mkPacketHeader 0 0 0) (replicate 52 0))
       (mkWire packets [] [] rs) (replicate (Z.to_nat nb) []) [] [] mem) (NewAvailable programs)) →
  (∀ a a', J me nb a → sound me nb a → I a → astep a a' → I a') →
  J me nb (absf k) ∧ sound me nb (absf k) ∧ I (absf k).
Proof.
  intros Hv Hprog Hi Hs HI Hstep.
  eapply (machine_invariant rnd useTimer (λ a, J me nb a ∧ sound me nb a ∧ I a)); [exact Hi|exact Hs| |].
  - split; [apply PostOffice_J_init; eapply Forall_impl; [exact Hv|]; naive_solver|]. split; [by apply sound_init|exact HI].
  - intros a a' (HJ & HS & HIa) Ha. split; [|split; [by eapply sound_step|by eapply Hstep]].
    split; [by eapply disciplined_step; [apply HJ|]|by eapply office_step].
Qed.
End assertions.

(** C13: the assertions of the post office and the network hold: when packets are
    those of a post office and the threads send messages that fit to mailboxes
    that exist, whatever letters with the property [Q] of all packets they get,
    no [ASSERT] fails under any schedule, in PostOffice, Mail, Network,
    SynchList, Lock, Semaphore or the kernel, except the one of [Thread::Sleep]
    through [Condition::Wait], when [Receive] finds its mailbox empty. *)
Theorem PostOffice_assertions Q rnd useTimer me rel nb mem packets rs programs k0 k :
  (∀ n, 0 ≤ rnd n) → packets_ok Q me nb packets → Forall (prog_ok Q nb) programs →
  start rnd useTimer me rel nb mem packets rs programs = Ok k0 → steps (kstep rnd useTimer) k0 k →
  (∀ n : nat, (n < 2)%nat → is_Some (sems k !! SemId n)) → kstep rnd useTimer k = Err AssertFailed →
  ∃ th c fs, threads k !! currentThread k = Some th ∧ stack th = FWaitSleep c :: fs.
Proof.
  intros Hr Hv Hprog Hi Hs Hsem H.
  destruct (PostOffice_invariant Q (λ _, True) _ _ _ _ _ _ _ _ _ _ _ Hv Hprog Hi Hs) as (HJ & HS & _); [done..|].
  assert (net_ok me nb (shared k)) as Hnet
    by (destruct HJ as [_ (w & wws & wpc & _ & _ & _ & _ & _ & [])]; by split_and!).
  pose proof (Post_devices_safe Q me nb k Hnet (proj2 (proj2 HS)) Hsem) as Hd.
  assert (wf k) as Hwf by (apply (reachable_wf rnd useTimer); by eexists _, _, _, _, _, _).
  destruct (kstep_fault rnd useTimer Hr k AssertFailed Hwf Hd H) as (th & f & fs & Hth & Est & Hf).
  destruct (disciplined_fault f fs k th (proj1 HJ) Hth Est Hf) as [->|[c ->]]; [|by exists th, c, fs].
  exfalso.
  assert (clients (absf k) !! currentThread k = Some (FClient :: omap watch fs, resume th)) as Hcl
    by (apply (absf_lookup _ th); [done|]; by rewrite Est).
  pose proof (proj1 (proj1 HJ) _ _ _ Hcl) as Hok. cbn in Hok.
  assert (clients (absf k) !! currentThread k = Some ([FClient], resume th)) as Hcl'
    by (by rewrite <- Hok at 1).
  destruct (resume_ok Q me nb (absf k) _ _ HJ HS Hcl') as [E|(g & pc' & c & E & _ & _ & _ & Hsc)].
  { destruct Hf as (th' & Hth' & Hf). pose proof (eq_trans (eq_sym Hth) Hth') as [= <-].
    destruct Hf as [Hf|(? & ? & ? & Hf & _)]; by pose proof (eq_trans (eq_sym E) Hf). }
  eapply (client_no_fault k th g pc' c); [exact Hth|exact E| |exact Hsc|exact Hf].
  intros n v ->. pose proof (resume_calls _ _ _ _ _ E) as [_ [Hu _]].
  pose proof (proj1 (proj2 HS) _ _ _ Hcl' Hu) as Hnone. cbn in Hnone. rewrite lookup_fmap in Hnone.
  destruct (Hsem messageSent) as [sem Es]; [unfold messageSent; lia|]. by rewrite Es in Hnone.
Qed.

(** ** An execution: machine 0 sends to machine 1, which answers and then reads its mail *)

Definition hello_packet : list Z :=
  packet_bytes (mkPacketHeader 1 0 18) ++ mail_bytes (mkMailHeader 0 1 6) ++ hello ++ replicate 34 0.

Lemma hello_carries : carries hello_packet (mkPacketHeader 1 0 18) (mkMailHeader 0 1 6) hello.
Proof.
  constructor; try done; [by exists (replicate 34 0)|..]; unfold header_ok, is_int; cbn; lia.
Qed.

Definition hello_programs : list prog :=
  [DoSend 0 (mkMailHeader 1 0 6) hello (DoSend 0 (mkMailHeader 1 0 6) hello (DoReceive 0 (λ _, Done)))].

Lemma PostOffice_delivers_witness :
  ∃ k : kernel, got (shared k) = [(mkPacketHeader 1 0 18, mkMailHeader 0 1 6, hello)] ∧
    length (wireOut (wire (shared k))) = 2%nat ∧
    ∃ on_the_way, (length on_the_way ≤ 2)%nat ∧
    addressed 0 (message <$> arrived (wire (shared k))) =
    taken_from 0 (taken (shared k)) ++ in_box 0 (boxes (shared k)) ++ on_the_way.
Proof.
  assert (∃ k0, start (λ _, 150) true 1 100 10 (λ _, 7) [None; Some hello_packet] [] hello_programs = Ok k0)
    as [k0 E] by (eexists; reflexivity).
  pose (k := (run (kstep (λ _, 150) true) 600 k0).1). exists k.
  assert (got (shared k) = [(mkPacketHeader 1 0 18, mkMailHeader 0 1 6, hello)]) as H1
    by (unfold k; injection E as <-; vm_compute; reflexivity).
  assert (length (wireOut (wire (shared k))) = 2%nat) as H2 by (unfold k; injection E as <-; vm_compute; reflexivity).
  split; [exact H1|]. split; [exact H2|].
  apply (PostOffice_delivers (λ _, 150) true 1 100 10 (λ _, 7) [None; Some hello_packet] [] hello_programs k0 k 0);
    [|exact E|apply run_steps].
  repeat constructor; [done|]. intros p [= <-]. eexists _, _, _. split; [exact hello_carries|]. cbn. lia.
Defined.

(** [Receive] from a mailbox that is empty. *)
Lemma PostOffice_assertions_witness :
  ∃ k : kernel, kstep (λ _, 150) true k = Err AssertFailed ∧
    ∃ th c fs, threads k !! currentThread k = Some th ∧ stack th = FWaitSleep c :: fs.
Proof.
  assert (∃ k0, start (λ _, 150) true 1 100 10 (λ _, 7) [Some hello_packet] [] [DoReceive 3 (λ _, Done)] = Ok k0)
    as [k0 E] by (eexists; reflexivity).
  pose (k := (run (kstep (λ _, 150) true) 600 k0).1). exists k.
  assert (match kstep (λ _, 150) true k with Err e => Some e | Ok _ => None end = Some AssertFailed) as Hk'
    by (unfold k; injection E as <-; vm_compute; reflexivity).
  assert (kstep (λ _, 150) true k = Err AssertFailed) as Hk
    by (destruct (kstep (λ _, 150) true k) as [|e]; [discriminate Hk'|by injection Hk' as ->]).
  assert (value <$> sems k !! SemId messageAvailable = Some 0 ∧ value <$> sems k !! SemId messageSent = Some 0)
    as [H1 H2] by (unfold k; injection E as <-; vm_compute; split; reflexivity).
  split; [exact Hk|].
  apply (PostOffice_assertions (λ _, True) (λ _, 150) true 1 100 10 (λ _, 7) [Some hello_packet] [] [DoReceive 3 (λ _, Done)] k0 k);
    [intros; lia| | |exact E|apply run_steps| |exact Hk].
  - apply Forall_cons. split; [|apply Forall_nil_2]. intros p [= <-]. split; [|done].
    eexists _, _, _. split; [exact hello_carries|]. cbn. lia.
  - repeat constructor; cbn; lia.
  - intros [|[|n]] Hn; [| |lia].
    + change (is_Some (sems k !! SemId messageAvailable)). by destruct (sems k !! SemId messageAvailable).
    + change (is_Some (sems k !! SemId messageSent)). by destruct (sems k !! SemId messageSent).
Defined.
