(* ===== verification/NetTest.v ===== *)
(** * network/nettest.cc

    [MailTest] as the program of a thread of [Post], and what the post office
    makes of one program: the mail a program sends and receives, in the order in
    which its text says, whatever the schedule and the network do. *)

From S2P Require Import Prelude NachList Bytes Kernel KernelInv KernelSpec KernelMachine KernelLocks Network Post.

Local Open Scope Z_scope.

(** "Hello there!" and "Got it!" *)
Definition data : list Z := [72; 101; 108; 108; 111; 32; 116; 104; 101; 114; 101; 33; 0].
Definition ack : list Z := [71; 111; 116; 32; 105; 116; 33; 0].

(** The lengths are [strlen(...) + 1]; what the two [printf]s show is in [got]. *)
Definition MailTest (farAddr : Z) : prog :=
  DoSend farAddr (mkMailHeader 0 1 (Z.of_nat (length data))) data
    (DoReceive 0 (λ '(inPktHdr, inMailHdr, _),
       DoSend (pkt_from inPktHdr) (mkMailHeader (mail_from inMailHdr) 1 (Z.of_nat (length ack))) ack
         (DoReceive 1 (λ _, DoHalt)))).

(** ** What a program has done *)

Inductive event :=
| ESend (to : Z) (mh : MailHeader) (msg : list Z)
| EReceive (box : Z) (l : letter).

(** What is left of the program after the events, if they are its own. *)
Fixpoint after (p : prog) (ev : list event) {struct ev} : option prog :=
  match ev, p with
  | [], _ => Some p
  | ESend to mh msg :: ev, DoSend to' mh' msg' next =>
      if decide (to = to' ∧ mh = mh' ∧ msg = msg') then after next ev else None
  | EReceive box l :: ev, DoReceive box' next => if decide (box = box') then after (next l) ev else None
  | _, _ => None
  end.

Lemma after_app p ev ev' : after p (ev ++ ev') = (p' ← after p ev; after p' ev').
Proof.
  revert p. induction ev as [|[to mh msg|box l] ev IH]; intros p; [done|..]; destruct p; try done;
    cbn [app after]; case_decide; done || apply IH.
Qed.

Lemma after_send p ev to mh msg next :
  after p ev = Some (DoSend to mh msg next) → after p (ev ++ [ESend to mh msg]) = Some next.
Proof. intros E. rewrite after_app, E. cbn. by rewrite decide_True. Qed.

Lemma after_receive p ev box next l :
  after p ev = Some (DoReceive box next) → after p (ev ++ [EReceive box l]) = Some (next l).
Proof. intros E. rewrite after_app, E. cbn. by rewrite decide_True. Qed.

Definition received (ev : list event) : list letter :=
  omap (λ e, match e with EReceive _ l => Some l | ESend _ _ _ => None end) ev.

(** The letters received, with the box. *)
Definition receipts (ev : list event) : list (nat * letter) :=
  omap (λ e, match e with EReceive b l => Some (Z.to_nat b, l) | ESend _ _ _ => None end) ev.

(** The letter that a send on the machine [me] makes. *)
Definition letter_sent (me to : Z) (mh : MailHeader) (msg : list Z) : Z * letter :=
  (to, (mkPacketHeader to me (mail_length mh + sizeof_Header), mh, take (Z.to_nat (mail_length mh)) msg)).

Definition sends (me : Z) (ev : list event) : list (Z * letter) :=
  omap (λ e, match e with ESend to mh msg => Some (letter_sent me to mh msg) | EReceive _ _ => None end) ev.

(** The same, from the globals. *)
Definition out_letters (g : vars) : list (Z * letter) := (λ x, (x.1, message x.2)) <$> wireOut (wire g).
Definition taken_letters (g : vars) : list (nat * letter) := (λ x, (x.1, letter_of x.2)) <$> taken g.

(** What was sent is a part of [sent], all of it on a reliable network. *)
Definition went_out (sent : list (Z * letter)) (g : vars) : Prop :=
  out_letters g `sublist_of` sent ∧ (chanceToWork (network g) = 100 → out_letters g = sent).

Definition clamp (rel : Z) : Z := if decide (rel < 0) then 0 else if decide (rel > 100) then 100 else rel.

Section one_program.
Context (Q : letter → Prop) (me nb rel : Z) (p0 : prog).
Hypothesis Hme : is_int me.
Hypothesis Hp0 : prog_ok Q nb p0.

Record log (ev : list event) (g : vars) : Prop := {
  l_got : got g = received ev;
  l_taken : taken_letters g = receipts ev;
  l_sent : went_out (sends me ev) g;
  l_chance : chanceToWork (network g) = clamp rel;
}.

(** The place of the user's thread fits the log. *)
Definition user_at (pc : place) (g : vars) : Prop :=
  match pc with
  | At p | Sent p | Acknowledged p => ∃ ev, after p0 ev = Some p ∧ log ev g
  | Sending hdr buffer p =>
      ∃ ev to mh msg, after p0 ev = Some (DoSend to mh msg p) ∧ log ev g ∧ mail_valid nb to mh msg ∧
        PostOffice_pack (memory g) me nb to mh msg = Ok (hdr, buffer)
  | Removing b next => ∃ ev box, after p0 ev = Some (DoReceive box next) ∧ log ev g ∧ b = Z.to_nat box
  | Got m next =>
      ∃ ev box, after p0 ev = Some (DoReceive box next) ∧ got g = received ev ∧
        taken_letters g = receipts ev ++ [(Z.to_nat box, letter_of m)] ∧ went_out (sends me ev) g ∧
        chanceToWork (network g) = clamp rel
  | _ => False
  end.

Definition fresh (g : vars) : Prop := got g = [] ∧ taken g = [] ∧ wireOut (wire g) = [] ∧ reliability g = rel.

(** The thread that has the program. *)
Definition told (pc : place) (g : vars) : Prop :=
  match pc with
  | NewAvailable ps | NewSent ps | NewNet ps => ps = [p0] ∧ fresh g
  | ForkWorker ps | Start ps => ps = [p0] ∧ fresh g ∧ chanceToWork (network g) = clamp rel
  | _ => user_at pc g
  end.

(** Threads that touch neither the log nor the program. *)
Definition bystander (pc : place) : bool :=
  match pc with
  | Start [] | At Done | Worker | Wait _ | Deliver _ | Put _ _ _ | Signalled _ _ => true
  | _ => false
  end.

Definition ended (g : vars) : Prop := ∃ ev, after p0 ev = Some Done ∧ log ev g.

(** The program's thread, or none when it has returned. *)
Definition entry (g : vars) (o : option (list frame * place)) : Prop :=
  match o with Some (_, pc) => told pc g | None => ended g end.

Definition logged (u : nat) (a : machine) : Prop :=
  (∀ t ws (pc : place), t ≠ u → clients a !! t = Some (ws, pc) → bystander pc = true) ∧
    entry (aglobals a) (clients a !! u).

(** What the log is about stays the same. *)
Definition same_log (g g' : vars) : Prop :=
  got g' = got g ∧ taken g' = taken g ∧ wireOut (wire g') = wireOut (wire g) ∧ memory g' = memory g ∧
  reliability g' = reliability g ∧ chanceToWork (network g') = chanceToWork (network g).

Lemma same_log_refl g : same_log g g.
Proof. by split_and!. Qed.

Lemma log_same ev g g' : same_log g g' → log ev g → log ev g'.
Proof.
  intros (E1 & E2 & E3 & _ & E5 & E6) [H1 H2 [H3 H4] H5]. constructor; [congruence| | |congruence].
  - unfold taken_letters. by rewrite E2.
  - split; unfold out_letters; rewrite E3; [done|]. rewrite E6. done.
Qed.

Lemma told_same pc g g' : same_log g g' → told pc g → told pc g'.
Proof.
  intros Hs. pose proof Hs as (E1 & E2 & E3 & E4 & E5 & E6).
  assert (fresh g → fresh g') as Hf by (unfold fresh; by rewrite E1, E2, E3, E5).
  destruct pc; cbn; rewrite ?E4, ?E6; try naive_solver eauto using log_same.
  intros (ev & box & Hfo & Hg & Ht & [Hw1 Hw2] & Hc). exists ev, box.
  unfold taken_letters, went_out, out_letters in *. rewrite E1, E2, E3, E6. by split_and!.
Qed.

Lemma ended_same g g' : same_log g g' → ended g → ended g'.
Proof. intros Hs (ev & Hf & Hl). exists ev. eauto using log_same. Qed.

Lemma entry_same g g' o : same_log g g' → entry g o → entry g' o.
Proof. destruct o as [[? ?]|]; [apply told_same|apply ended_same]. Qed.

Lemma entry_eq (o o' : option (list frame * place)) : o = o' → ∀ P : option (list frame * place) → Prop, P o' → P o.
Proof. by intros ->. Qed.

(** *** The steps *)

(** A thread goes on at its place. *)
Lemma logged_frame u (a a' : machine) t ws (pc : place) f ws' :
  logged u a → clients a !! t = Some (ws, pc) → clients a' = put t (f :: ws') pc (clients a) →
  same_log (aglobals a) (aglobals a') → logged u a'.
Proof using.
  intros (Ho & Hu) Ht E Hs. split.
  - intros t' ws'' pc'' Hne Ht'. destruct (decide (t' = t)) as [->|Hne'].
    + pose proof (eq_trans (eq_sym (lookup_put_eq _ _ _ _ _ _ E)) Ht') as [= _ <-]. by eapply Ho.
    + eapply Ho; [exact Hne|]. exact (eq_trans (eq_sym (lookup_put_ne _ _ _ _ _ _ E Hne')) Ht').
  - destruct (decide (u = t)) as [->|Hne].
    + refine (entry_eq _ _ (lookup_put_eq _ _ _ _ _ _ E) (entry (aglobals a')) _). cbn.
      apply (told_same _ _ _ Hs). exact (entry_eq _ _ (eq_sym Ht) (entry (aglobals a)) Hu).
    + refine (entry_eq _ _ (lookup_put_ne _ _ _ _ _ _ E Hne) (entry (aglobals a')) _).
      by apply (entry_same _ _ _ Hs).
Qed.

Lemma unpack_chance garbage numBoxes buffer n mail buffer' n' :
  PostOffice_unpack garbage numBoxes buffer n = Ok (mail, buffer', n') → chanceToWork n' = chanceToWork n.
Proof.
  unfold PostOffice_unpack, Receive. intros H. apply bind_Ok in H as ([[h bf] n1] & Hr & H).
  assert (chanceToWork n1 = chanceToWork n) as <- by (case_decide; invert_ok; done).
  apply bind_Ok in H as (mh & _ & H). apply bind_Ok in H as (_ & _ & H). apply bind_Ok in H as (_ & _ & H).
  by apply bind_Ok in H as (m & _ & [= _ _ <-]).
Qed.

(** What a bystander does. *)
Lemma bystander_code pc g g' pc' c :
  bystander pc = true → resume_at pc g = Ok (g', pc', c) →
  same_log g g' ∧ (c = CReturn ∨ bystander pc' = true) ∧ (∀ p, c ≠ CFork p).
Proof using.
  intros Hb H. destruct pc as [| | | |[|p ps]| | | | | |[| | |]| | | | |]; try discriminate Hb; cbn [resume_at] in H.
  - injection H as <- <- <-. split_and!; auto using same_log_refl.
  - apply bind_Ok in H as (b & _ & [= <- <- <-]). split_and!; auto using same_log_refl.
  - injection H as <- <- <-. split_and!; auto using same_log_refl.
  - apply deliver_Ok in H as (mail & buffer' & n & Hu%unpack_chance & -> & -> & ->).
    split; [by split_and!|]. split; [by right|done].
  - apply append_Ok in H as (? & _ & -> & -> & ->). split_and!; try done. by right.
  - injection H as <- <- <-. split_and!; auto using same_log_refl.
  - injection H as <- <- <-. split_and!; auto using same_log_refl.
Qed.
(** What the program's own thread does. *)
Definition goes_on (g : vars) (pc : place) (c : call place irq) : Prop :=
  (c = CReturn ∧ ended g) ∨ (c ≠ CReturn ∧ told pc g ∧ ∀ p, c = CFork p → p = Worker) ∨
  (c = CFork (At p0) ∧ pc = Start [] ∧ told (At p0) g).

Lemma next_op_told ev p g g' pc' c :
  netAddr g = me → numBoxes g = nb → prog_ok Q nb p → after p0 ev = Some p → log ev g →
  next_op p g = Ok (g', pc', c) → goes_on g' pc' c.
Proof using.
  intros Ea En Hp Hf Hl H. destruct p as [| |to mh msg p|box next]; cbn [next_op] in H; [|done|..].
  - injection H as <- <- <-. left. split; [done|by exists ev].
  - destruct Hp as [Hv _]. apply bind_Ok in H as ([hdr buffer] & E & [= <- <- <-]).
    right. left. split; [done|]. split; [|done]. exists ev, to, mh, msg. rewrite Ea, En in E. by split_and!.
  - apply bind_Ok in H as (_ & _ & [= <- <- <-]). right. left. split; [done|]. split; [|done]. by exists ev, box.
Qed.

Lemma log_receive ev box g m :
  got g = received ev → taken_letters g = receipts ev ++ [(Z.to_nat box, letter_of m)] →
  went_out (sends me ev) g → chanceToWork (network g) = clamp rel →
  log (ev ++ [EReceive box (letter_of m)]) (set_got (got g ++ [letter_of m]) g).
Proof using.
  intros Hg Ht [Hw1 Hw2] Hc. constructor; try done.
  - cbn. unfold received. by rewrite omap_app, Hg.
  - unfold receipts. by rewrite omap_app.
  - unfold sends. rewrite omap_app. cbn. by rewrite app_nil_r.
Qed.

(** [Network::Send] loses the packet or puts the letter on the wire. *)
Lemma log_send ev to mh msg hdr buffer g w :
  ident (network g) = me → log ev g → mail_valid nb to mh msg →
  PostOffice_pack (memory g) me nb to mh msg = Ok (hdr, buffer) → sendBusy (network g) = false →
  Send (memory g) hdr buffer (network g) (wire g) = Ok w →
  log (ev ++ [ESend to mh msg]) (set_wire w g).
Proof using Hme.
  intros Ei [Hg Ht [Hw1 Hw2] Hc] Hv Hpack Hbusy Hw. pose proof Hv as [Hto Hfrom Hbox Hnb Hlen Hd].
  destruct (pack_spec (memory g) me nb to mh msg Hv) as (pad & E & Hpad).
  assert (∀ A B (x x' : A) (y y' : B), Ok (x, y) = Ok (x', y') → x = x' ∧ y = y') as Hinj by (intros; by simplify_eq).
  destruct (Hinj _ _ _ _ _ _ (eq_trans (eq_sym Hpack) E)) as [-> ->].
  pose proof (Send_spec (memory g) (mkPacketHeader to me (mail_length mh + sizeof_Header)) mh
    (take (Z.to_nat (mail_length mh)) msg) pad (network g) (wire g) Hbusy) as HS.
  cbn [pkt_from pkt_to pkt_length] in HS. unfold MaxMailSize, MaxPacketSize, MaxWireSize, sizeof_Header in *.
  specialize (HS (eq_sym Ei) eq_refl). unfold header_ok, is_int in *.
  specialize (HS ltac:(lia) ltac:(lia) ltac:(lia) ltac:(rewrite length_take; lia)).
  constructor; try done; [cbn; unfold received; rewrite omap_app, app_nil_r; exact Hg
    |cbn; unfold receipts; rewrite omap_app, app_nil_r; exact Ht|].
  unfold sends. rewrite omap_app. cbn [omap list_omap]. unfold went_out, out_letters in *. cbn [wire set_wire network].
  case_decide as Hlost.
  - rewrite Hw in HS. injection HS as ->. cbn [wireOut]. split; [by apply sublist_inserts_r|]. intros H100.
    exfalso. rewrite H100 in Hlost. pose proof (Z.rem_bound_abs (default 0 (head (rolls (wire g)))) 100). lia.
  - destruct HS as (p & Hp & HS). rewrite Hw in HS. injection HS as ->. cbn [wireOut]. rewrite fmap_app.
    cbn [fmap list_fmap fst snd]. rewrite (carries_message _ _ _ _ Hp).
    split; [by apply sublist_app|]. intros H100. f_equal. by apply Hw2.
Qed.

Lemma told_code pc g g' pc' c :
  netAddr g = me → numBoxes g = nb → ident (network g) = me → sendBusy (network g) = false →
  place_ok Q me nb pc → told pc g → resume_at pc g = Ok (g', pc', c) → goes_on g' pc' c.
Proof using Hme.
  intros Ea En Ei Hbusy Hok Ht H.
  destruct pc as [ps|ps|ps|ps|ps| | | | | |p|hdr buffer p|p|p|b next|m next]; try (by destruct Ht); cbn [resume_at] in H.
  - injection H as <- <- <-. right. left. done.
  - injection H as <- <- <-. right. left. done.
  - apply new_boxes_Ok in H as (n & Hn & -> & -> & ->). right. left. split; [done|]. split; [|done].
    destruct Ht as [-> Hf]. split; [done|]. split; [exact Hf|]. destruct Hf as (_ & _ & _ & <-). cbn.
    unfold new_Network in Hn. by apply bind_Ok in Hn as (bx & _ & [= <-]).
  - injection H as <- <- <-. right. left. split; [done|]. split; [exact Ht|]. by intros p [= <-].
  - destruct Ht as (-> & (H1 & H2 & H3 & _) & Hc). injection H as <- <- <-. right. right. split_and!; [done..|].
    exists []. split; [done|]. constructor; try done; [unfold taken_letters; by rewrite H2|].
    split; unfold out_letters; by rewrite H3.
  - destruct Ht as (ev & Hf & Hl). by eapply next_op_told.
  - destruct Ht as (ev & to & mh & msg & Hf & Hl & Hv & Hpack). apply send_Ok in H as (w & Hw & -> & -> & ->).
    right. left. split; [done|]. split; [|done]. exists (ev ++ [ESend to mh msg]).
    split; [by apply after_send|by eapply log_send].
  - injection H as <- <- <-. right. left. done.
  - injection H as <- <- <-. right. left. done.
  - destruct Ht as (ev & box & Hf & Hl & ->).
    apply remove_Ok in H as [(_ & -> & -> & ->)|(m & rest & _ & -> & -> & ->)];
      right; left; (split; [done|]); (split; [|done]); exists ev, box; [by split_and!|].
    destruct Hl as [H1 H2 H3 H4]. split_and!; try done. unfold taken_letters in *. cbn.
    by rewrite fmap_app, H2.
  - destruct Ht as (ev & box & Hf & Hg & Htk & Hw & Hc). destruct Hok as [[Ecopy Hmax] Hp].
    unfold receive in H. apply bind_Ok in H as (r & Er & H). rewrite Ecopy in Er. injection Er as <-. cbn [letter_of] in H.
    apply bind_Ok in H as (_ & _ & H). fold (letter_of m) in H.
    eapply next_op_told; [| |exact Hp| | |exact H]; [done|done|by apply after_receive|by apply log_receive].
Qed.
(** Replace the thread [t] by [n], with other globals. *)
Lemma logged_moved u (a a' : machine) t ws pc c (pc' : place) :
  logged u a → clients a !! t = Some (ws, pc) → clients a' = put t (call_frames c) pc' (clients a) →
  (bystander pc = true → same_log (aglobals a) (aglobals a') ∧ (c = CReturn ∨ bystander pc' = true)) →
  (told pc (aglobals a) → (c = CReturn ∧ ended (aglobals a')) ∨ (c ≠ CReturn ∧ told pc' (aglobals a'))) →
  logged u a'.
Proof using.
  intros (Ho & Hu) Ht E Hb Hto.
  assert (∀ t' ws'' (pc'' : place), clients a' !! t' = Some (ws'', pc'') → t' ≠ t → clients a !! t' = Some (ws'', pc'')) as Hne
    by (intros t' ws'' pc'' Ht' Hne; exact (eq_trans (eq_sym (lookup_put_ne _ _ _ _ _ _ E Hne)) Ht')).
  assert (c = CReturn → clients a' !! t = None) as Hgone
    by (intros ->; exact (eq_trans (f_equal (lookup t) E) (lookup_delete_eq _ _))).
  assert (c ≠ CReturn → ∃ f fs, clients a' !! t = Some (f :: fs, pc')) as Hhere
    by (intros Hc; destruct c; try done; (eexists _, _; eapply lookup_put_eq; exact E)).
  split.
  - intros t' ws'' pc'' Hu' Ht'. destruct (decide (t' = t)) as [->|Hd]; [|by eapply Ho, Hne].
    destruct (Hb (Ho _ _ _ Hu' Ht)) as [_ [Hc|Hc]].
    + by pose proof (eq_trans (eq_sym (Hgone Hc)) Ht').
    + destruct (decide (clients a' !! t = None)) as [Hn|Hn]; [by pose proof (eq_trans (eq_sym Hn) Ht')|].
      destruct Hhere as (f & fs & Hf); [by intros ->; apply Hn, Hgone|]. pose proof (eq_trans (eq_sym Hf) Ht') as [= _ <-]. done.
  - destruct (decide (u = t)) as [->|Hd].
    + pose proof (entry_eq _ _ (eq_sym Ht) (entry (aglobals a)) Hu) as Hu'. cbn in Hu'.
      destruct (Hto Hu') as [[Hc He]|[Hc He]].
      * exact (entry_eq _ _ (Hgone Hc) (entry (aglobals a')) He).
      * destruct (Hhere Hc) as (f & fs & Hf). exact (entry_eq _ _ Hf (entry (aglobals a')) He).
    + refine (entry_eq _ _ (lookup_put_ne _ _ _ _ _ _ E Hd) (entry (aglobals a')) _).
      eapply entry_same; [|exact Hu]. apply Hb. by eapply Ho.
Qed.

(** Another thread is forked that is a bystander. *)
Lemma logged_fork u (a : machine) n (pc : place) :
  logged u a → clients a !! n = None → bystander pc = true → is_Some (clients a !! u) →
  logged u (with_client n [FClient] pc a).
Proof using.
  intros (Ho & Hu) Hn Hpc [x Hx]. split.
  - intros t ws pc' Hne Ht. cbn in Ht. rewrite lookup_insert in Ht. case_decide; [by injection Ht as _ <-|by eapply Ho].
  - cbn. rewrite lookup_insert_ne; [done|]. intros ->. by pose proof (eq_trans (eq_sym Hn) Hx).
Qed.

(** The thread that gets the program. *)
Lemma logged_start u (a a' : machine) n ws ws' :
  (∀ t ws (pc : place), t ≠ u → clients a !! t = Some (ws, pc) → bystander pc = true) →
  clients a' = put u (FClient :: ws) (Start []) (clients a) → clients a' !! n = None → told (At p0) (aglobals a') →
  logged n (with_client n (FClient :: ws') (At p0) a').
Proof using.
  intros Ho E Hn Hto. split; [|cbn; by rewrite lookup_insert_eq].
  intros t ws'' pc Hne Ht. cbn in Ht. rewrite lookup_insert_ne in Ht by done.
  destruct (decide (t = u)) as [->|Hd].
  - by pose proof (eq_trans (eq_sym (lookup_put_eq _ _ _ _ _ _ E)) Ht) as [= _ <-].
  - eapply Ho; [exact Hd|]. exact (eq_trans (eq_sym (lookup_put_ne _ _ _ _ _ _ E Hd)) Ht).
Qed.

Lemma logged_client u (a a' : machine) t pc g pc' c :
  J me nb a → sound Q me nb a → logged u a → clients a !! t = Some ([FClient], pc) →
  resume_at pc (aglobals a) = Ok (g, pc', c) →
  call_effect c (with_client t (call_frames c) pc' (with_globals g a)) a' → ∃ u', logged u' a'.
Proof using Hme.
  intros [_ (w & wws & wpc & _ & _ & _ & _ & _ & Hm)] (Hp & _ & Hg & _) HL Ht Hc He.
  match type of He with call_effect _ ?B _ => set (b := B) in * end.
  assert (told pc (aglobals a) → goes_on g pc' c) as Hto.
  { intros Hto. eapply told_code; [apply Hm|apply Hm|apply Hm|exact Hg|by eapply Hp|exact Hto|exact Hc]. }
  assert (bystander pc = true → same_log (aglobals a) g ∧ (c = CReturn ∨ bystander pc' = true) ∧ ∀ p, c ≠ CFork p) as Hby
    by (intros Hb; by eapply bystander_code).
  assert ((∃ p, c = CFork p ∧ told pc (aglobals a) ∧ t = u) ∨ ∀ p, c ≠ CFork p) as Hfk.
  { destruct (decide (t = u)) as [->|Hne]; [|right; apply Hby; by eapply (proj1 HL)].
    destruct c; try by right. left. eexists. split; [done|]. split; [|done].
    exact (entry_eq _ _ (eq_sym Ht) (entry (aglobals a)) (proj2 HL)). }
  destruct Hfk as [(p & -> & Hpc & ->)|Hnf].
  - inversion He as [|n start ? Hn| |]; subst; [|done]. destruct (Hto Hpc) as [[? _]|[(_ & Hpc' & Hw)|([= ->] & -> & Hpc')]]; [done|..].
    + exists u. rewrite (Hw _ eq_refl). apply logged_fork; [|done|done|eexists; apply lookup_insert_eq].
      eapply logged_moved; [exact HL|exact Ht|reflexivity|intros Hb; by split; apply (Hby Hb)|].
      intros _. right. by split.
    + exists n. eapply logged_start; [apply HL|reflexivity|exact Hn|exact Hpc'].
  - exists u. assert (logged u b) as HLb.
    { eapply logged_moved; [exact HL|exact Ht|reflexivity|intros Hb; by split; apply (Hby Hb)|].
      intros Hpc. destruct (Hto Hpc) as [?|[(? & ? & _)|(Hc' & _)]]; [by left|by right|by destruct (Hnf _ Hc')]. }
    inversion He as [|n start' ? Hn| |]; subst; try exact HLb. by destruct (Hnf start').
Qed.

Lemma handle_same d g g' es ss : handle d g = Ok (g', es, ss) → same_log g g'.
Proof using.
  intros H. destruct d; cbn in H; [|by injection H as <- <- <-].
  apply bind_Ok in H as ([[arr n] w] & Hc & [= <- <- <-]). unfold CheckPktAvail in Hc.
  case_decide; [by injection Hc as _ <- <-|].
  destruct (wireIn (wire g)) as [|[p|] rest]; [by injection Hc as _ <- <-| |by injection Hc as _ <- <-].
  invert_ok. done.
Qed.

Lemma logged_step (a a' : machine) u :
  J me nb a → sound Q me nb a → logged u a → astep a a' → ∃ u', logged u' a'.
Proof using Hme.
  intros HJ HS HL H.
  assert (∀ t f ws (pc : place), clients a !! t = Some (f :: ws, pc) → f ≠ FClient → ws ≠ []) as Hbot.
  { intros t f ws pc Ht Hf ->. apply (proj1 (proj1 HJ)) in Ht. destruct f; cbn in Ht; naive_solver. }
  assert (∀ t f ws (pc : place) ws' b, clients a !! t = Some (f :: ws, pc) → ws' ≠ [] →
    clients b = put t ws' pc (clients a) → aglobals b = aglobals a → ∃ u', logged u' b) as Hframe.
  { intros t f ws pc ws' b Ht Hne E Eg. exists u. destruct ws' as [|f' ws']; [done|].
    eapply logged_frame; [exact HL|exact Ht|exact E|]. rewrite Eg. apply same_log_refl. }
  destruct H as [a a' (E1 & E2 & _ & E4 & E5)|t ? pc g pc' c a a' Ht Hc He|t s ws pc v a Ht Hv Hne|
    t s ws pc v a Ht Hv|t l ws pc o a Ht|t l ws pc a Ht|t l ws pc a Ht|t c l ws pc a Ht|
    t f c l ws pc a Ht Hf|d ty ds g es ss vs a Ei Hdev Hb].
  - exists u. unfold logged. by rewrite <- E1, <- E5.
  - by eapply logged_client.
  - eapply Hframe; [exact Ht|by eapply Hbot|reflexivity|reflexivity].
  - eapply Hframe; [exact Ht|by eapply Hbot|reflexivity|reflexivity].
  - eapply Hframe; [exact Ht| |reflexivity|reflexivity]; done.
  - eapply Hframe; [exact Ht|by eapply Hbot|reflexivity|reflexivity].
  - eapply Hframe; [exact Ht| |reflexivity|reflexivity]; done.
  - eapply Hframe; [exact Ht| |reflexivity|reflexivity]; done.
  - eapply Hframe; [exact Ht|eapply Hbot; [exact Ht|by destruct Hf as [-> | ->]]|reflexivity|reflexivity].
  - exists u. destruct HL as [Ho Hu]. split; [done|]. eapply entry_same; [by eapply handle_same|exact Hu].
Qed.

End one_program.

(** ** What the globals say about a logged state *)

(** The letters received from a box. *)
Definition received_from (b : nat) (ev : list event) : list letter := (filter (λ x, x.1 = b) (receipts ev)).*2.

(** The events happened: exactly these letters were received, in this order and
    from each box in the order of arrival, and nothing but these letters was
    sent, all of them when the network is reliable. *)
Definition executed (me rel : Z) (ev : list event) (g : vars) : Prop :=
  got g = received ev ∧ out_letters g `sublist_of` sends me ev ∧
  (100 ≤ rel → out_letters g = sends me ev) ∧
  ∀ b, received_from b ev `prefix_of` addressed b (message <$> arrived (wire g)).

Lemma taken_from_letters b g : taken_from b (taken g) = (filter (λ x, x.1 = b) (taken_letters g)).*2.
Proof.
  unfold taken_from, taken_letters. induction (taken g) as [|[b' m] l IH]; [done|].
  cbn [fmap list_fmap fst snd]. rewrite !filter_cons. cbn [fst]. case_decide; cbn [fmap list_fmap]; [f_equal|]; exact IH.
Qed.

Section results.
Context (Q : letter → Prop) (rnd : nat → Z) (useTimer : bool) (me rel nb : Z) (mem : nat → Z).
Context (packets : list (option (list Z))) (rs : list Z) (p0 : prog) (k0 k : kernel).
Hypothesis Hme : is_int me.
Hypothesis Hpackets : packets_ok Q me nb packets.
Hypothesis Hp0 : prog_ok Q nb p0.
Hypothesis Hinit : start rnd useTimer me rel nb mem packets rs [p0] = Ok k0.
Hypothesis Hsteps : steps (kstep rnd useTimer) k0 k.

Lemma program_logged : J me nb (absf k) ∧ sound Q me nb (absf k) ∧ ∃ u, logged me nb rel p0 u (absf k).
Proof using All.
  eapply (PostOffice_invariant Q (λ a, ∃ u, logged me nb rel p0 u a));
    [exact Hpackets|by repeat constructor|exact Hinit|exact Hsteps| |].
  - exists 0%nat. split; [|done].
    intros t ws pc Hne Ht. by destruct (ainit_client (C := client) _ _ _ _ _ _ Ht) as (-> & _).
  - intros a a' HJ HS (u & HL) Ha. by eapply logged_step.
Qed.
(** What was taken out of a box came first to it. *)
Lemma taken_prefix b :
  (filter (λ x, x.1 = b) (taken_letters (shared k))).*2
    `prefix_of` addressed b (message <$> arrived (wire (shared k))).
Proof using All.
  destruct program_logged as ((_ & w & ws & pc & _ & _ & _ & _ & _ & Hm) & _).
  destruct (m_flow _ _ _ _ _ _ _ Hm) as (past & now & Ea & _ & Hf). cbn [absf aglobals] in *.
  rewrite <- taken_from_letters, Ea, fmap_app, addressed_app, Hf, <- app_assoc. by apply prefix_app_r.
Qed.

Lemma receipts_prefix ev l b :
  taken_letters (shared k) = receipts ev ++ l →
  received_from b ev `prefix_of` addressed b (message <$> arrived (wire (shared k))).
Proof using All.
  intros E. etrans; [|apply taken_prefix]. rewrite E, filter_app, fmap_app. by apply prefix_app_r.
Qed.

Lemma reliable_chance : chanceToWork (network (shared k)) = clamp rel → 100 ≤ rel → chanceToWork (network (shared k)) = 100.
Proof using. intros ->. unfold clamp. repeat case_decide; lia. Qed.

(** The events are those of a prefix of the program. *)
Lemma program_events : ∃ ev p, after p0 ev = Some p ∧ executed me rel ev (shared k).
Proof using All.
  destruct program_logged as (_ & _ & u & _ & Hu). cbn [absf aglobals] in Hu.
  assert (∀ ev p, after p0 ev = Some p → log me rel ev (shared k) →
    ∃ ev p, after p0 ev = Some p ∧ executed me rel ev (shared k)) as Hlog.
  { intros ev p Hp [H1 H2 [H3 H4] H5]. exists ev, p. unfold executed. split_and!; try done; [intros; by apply H4, reliable_chance|].
    intros b. apply (receipts_prefix ev []). by rewrite app_nil_r. }
  assert (fresh rel (shared k) → ∃ ev p, after p0 ev = Some p ∧ executed me rel ev (shared k)) as Hfresh.
  { intros (H1 & _ & H3 & _). exists [], p0. unfold executed, out_letters. rewrite H1, H3. split_and!; try done.
    intros b. apply prefix_nil. }
  destruct (clients (absf k) !! u) as [[ws pc]|]; cbn [entry] in Hu.
  2: { destruct Hu as (ev & Hp & Hl). by eapply Hlog. }
  destruct pc; cbn [told user_at] in Hu; try done;
    try (by destruct Hu as (_ & Hf & _); apply Hfresh); try (by destruct Hu as (_ & Hf); apply Hfresh);
    try (by destruct Hu as (ev & Hp & Hl); eapply Hlog).
  - destruct Hu as (ev & to & mh & msg & Hp & Hl & _). by eapply Hlog.
  - destruct Hu as (ev & bx & Hp & Hl & _). by eapply Hlog.
  - destruct Hu as (ev & bx & Hp & H1 & H2 & [H3 H4] & H5). eexists ev, _. unfold executed. split_and!; try done.
    + intros. by apply H4, reliable_chance.
    + intros b. by eapply receipts_prefix.
Qed.

(** A thread that has the mail [m] is the program's. *)
Lemma program_got th fs m next :
  threads k !! currentThread k = Some th → stack th = FClient :: fs → resume th = Got m next →
  ∃ ev box, after p0 ev = Some (DoReceive box next) ∧ executed me rel ev (shared k) ∧
    ∀ b, received_from b (ev ++ [EReceive box (letter_of m)])
      `prefix_of` addressed b (message <$> arrived (wire (shared k))).
Proof using All.
  intros Hth Est Er. destruct program_logged as (_ & _ & u & Ho & Hu).
  assert (clients (absf k) !! currentThread k = Some (FClient :: omap watch fs, Got m next)) as Hcl
    by (rewrite <- Er; apply (absf_lookup _ th); [done|by rewrite Est]).
  destruct (decide (currentThread k = u)) as [<-|Hne]; [|by apply (Ho _ _ _ Hne) in Hcl].
  pose proof (entry_eq _ _ (eq_sym Hcl) (entry me nb rel p0 (aglobals (absf k))) Hu) as Hg. cbn in Hg.
  destruct Hg as (ev & bx & Hp & H1 & H2 & [H3 H4] & H5). exists ev, bx. split; [done|]. split.
  - unfold executed. split_and!; try done; [intros; by apply H4, reliable_chance|]. intros b. by eapply receipts_prefix.
  - intros b. eapply (receipts_prefix _ []). rewrite app_nil_r, H2. unfold receipts. by rewrite omap_app.
Qed.
End results.

(** ** Properties *)

(** C15: a thread of the post office does what its program says: under any
    schedule, with any packets of post offices arriving and any losses, the mail
    it has received and the packets that left the machine are those of a prefix
    of the program.  The letters received from a mailbox are the first ones that
    arrived for it; packets leave in the order of the sends with the right
    headers and bytes, and when the reliability is 1 or more each of them does. *)
Theorem program_followed Q rnd useTimer me rel nb mem packets rs p0 k0 k :
  is_int me → packets_ok Q me nb packets → prog_ok Q nb p0 →
  start rnd useTimer me rel nb mem packets rs [p0] = Ok k0 → steps (kstep rnd useTimer) k0 k →
  ∃ ev p, after p0 ev = Some p ∧ executed me rel ev (shared k).
Proof. intros. by eapply program_events. Qed.

(** *** [MailTest] *)

(** The two messages of the test. *)
Definition first_message (me farAddr : Z) : Z * letter :=
  letter_sent me farAddr (mkMailHeader 0 1 (Z.of_nat (length data))) data.
Definition acknowledgment (me : Z) (l : letter) : Z * letter :=
  letter_sent me (pkt_from l.1.1) (mkMailHeader (mail_from l.1.2) 1 (Z.of_nat (length ack))) ack.

(** Letters that can be answered: the sender and the box of the reply exist. *)
Definition answerable (nb : Z) (l : letter) : Prop := is_int (pkt_from l.1.1) ∧ 0 ≤ mail_from l.1.2 < nb.

Lemma MailTest_ok nb farAddr : is_int farAddr → 2 ≤ nb → is_int nb → prog_ok (answerable nb) nb (MailTest farAddr).
Proof.
  intros Hf Hn Hi. split; [|split; [lia|]].
  - constructor; unfold is_int in *; cbn in *; unfold MaxMailSize, MaxPacketSize, MaxWireSize, sizeof_Header; lia.
  - intros [[h mh] msg] [Hh Hmh]. split; [|split; [lia|done]].
    constructor; unfold is_int in *; cbn in *; unfold MaxMailSize, MaxPacketSize, MaxWireSize, sizeof_Header; lia.
Qed.

(** The events of the test; the letters are the two that it gets. *)
Definition script (farAddr : Z) (l0 l1 : letter) : list event :=
  [ESend farAddr (mkMailHeader 0 1 (Z.of_nat (length data))) data; EReceive 0 l0;
   ESend (pkt_from l0.1.1) (mkMailHeader (mail_from l0.1.2) 1 (Z.of_nat (length ack))) ack; EReceive 1 l1].

Lemma MailTest_events farAddr ev p :
  after (MailTest farAddr) ev = Some p → ∃ l0 l1 n, (n ≤ 4)%nat ∧ ev = take n (script farAddr l0 l1).
Proof.
  set (l := (mkPacketHeader 0 0 0, mkMailHeader 0 0 0, []) : letter).
  intros H. destruct ev as [|[to mh msg|] ev]; [exists l, l, 0%nat; split; [lia|done]|cbn in H; case_decide as E; [|done]|done].
  destruct E as (-> & -> & ->). destruct ev as [|[|box [[h0 mh0] msg0]] ev];
    [exists l, l, 1%nat; split; [lia|done]|done|cbn in H; case_decide as E; [subst box|done]].
  destruct ev as [|[to mh msg|] ev];
    [exists (h0, mh0, msg0), l, 2%nat; split; [lia|done]|cbn in H; case_decide as E; [|done]|done].
  destruct E as (-> & -> & ->). destruct ev as [|[|box l1] ev];
    [exists (h0, mh0, msg0), l, 3%nat; split; [lia|done]|done|cbn in H; case_decide as E; [subst box|done]].
  destruct ev as [|[|] ev]; [exists (h0, mh0, msg0), l1, 4%nat; split; [lia|done]|done..].
Qed.

(** Only the last receive is followed by [Halt]. *)
Lemma MailTest_last farAddr ev box next l :
  after (MailTest farAddr) ev = Some (DoReceive box next) → next l = DoHalt →
  box = 1 ∧ ∃ l0, ev = take 3 (script farAddr l0 l).
Proof.
  intros H Hn. destruct (MailTest_events _ _ _ H) as (l0 & l1 & n & Hle & ->).
  destruct l0 as [[h0 mh0] msg0]. destruct n as [|[|[|[|[|n]]]]]; [| | | | |lia]; cbn in H;
    rewrite ?decide_True in H by done; cbn in H; rewrite ?decide_True in H by done.
  - done.
  - injection H as <- <-. by destruct l as [[? ?] ?].
  - done.
  - injection H as <- <-. split; [done|]. by exists (h0, mh0, msg0).
  - done.
Qed.

(** The letter that arrived first for a box. *)
Definition first_for (b : nat) (g : vars) : option letter := head (addressed b (message <$> arrived (wire g))).

Lemma prefix_first b ev l ls g :
  received_from b ev `prefix_of` addressed b (message <$> arrived (wire g)) → received_from b ev = l :: ls →
  first_for b g = Some l.
Proof. unfold first_for. intros [rest ->] ->. done. Qed.

(** C14: [MailTest] on a machine with at least two mailboxes, under any schedule
    and any network, when the letters that arrive can be answered: what it has
    got and sent at any time is a prefix of "send Hello there! to the far
    machine; get the first letter that arrived for box 0; acknowledge it to its
    sender at the box it names; get the first letter that arrived for box 1".
    In particular no acknowledgment is sent before a letter was received.  When
    it calls [Halt] it has done all of it. *)
Theorem MailTest_exchange rnd useTimer me rel nb mem packets rs farAddr k0 k :
  is_int me → is_int farAddr → 2 ≤ nb → is_int nb → packets_ok (answerable nb) me nb packets →
  start rnd useTimer me rel nb mem packets rs [MailTest farAddr] = Ok k0 → steps (kstep rnd useTimer) k0 k →
  (∃ l0 l1 sent received, (received ≤ sent ≤ S received)%nat ∧ (sent ≤ 2)%nat ∧
    got (shared k) = take received [l0; l1] ∧
    out_letters (shared k) `sublist_of` take sent [first_message me farAddr; acknowledgment me l0] ∧
    (100 ≤ rel → out_letters (shared k) = take sent [first_message me farAddr; acknowledgment me l0]) ∧
    ((1 ≤ received)%nat → first_for 0 (shared k) = Some l0) ∧
    ((2 ≤ received)%nat → first_for 1 (shared k) = Some l1)) ∧
  (∀ th fs m next, threads k !! currentThread k = Some th → stack th = FClient :: fs → resume th = Got m next →
    next (letter_of m) = DoHalt →
    ∃ l0, got (shared k) = [l0] ∧ first_for 0 (shared k) = Some l0 ∧ first_for 1 (shared k) = Some (letter_of m) ∧
      (100 ≤ rel → out_letters (shared k) = [first_message me farAddr; acknowledgment me l0])).
Proof.
  intros Hme Hf Hnb Hi Hp Hinit Hs. pose proof (MailTest_ok nb farAddr Hf Hnb Hi) as Hok. split.
  - edestruct program_events as (ev & p & Ha & Hex); [exact Hme|exact Hp|exact Hok|exact Hinit|exact Hs|].
    destruct (MailTest_events _ _ _ Ha) as (l0 & l1 & n & Hle & ->). destruct Hex as (Hg & Hsub & Hall & Hpre).
    assert (∀ b l ls, received_from b (take n (script farAddr l0 l1)) = l :: ls → first_for b (shared k) = Some l)
      as Hfirst by (intros b l ls; apply prefix_first, Hpre).
    exists l0, l1. destruct n as [|[|[|[|[|n]]]]]; [exists 0%nat, 0%nat|exists 1%nat, 0%nat|exists 1%nat, 1%nat
      |exists 2%nat, 1%nat|exists 2%nat, 2%nat|lia];
      (split; [lia|]; split; [lia|]; split; [exact Hg|]; split; [exact Hsub|]; split; [exact Hall|];
       split; intros; [try lia; eapply (Hfirst 0%nat); reflexivity|try lia; eapply (Hfirst 1%nat); reflexivity]).
  - intros th fs m next Hth Est Er Hn.
    edestruct program_got as (ev & box & Ha & (Hg & Hsub & Hall & _) & Hpre);
      [exact Hme|exact Hp|exact Hok|exact Hinit|exact Hs|exact Hth|exact Est|exact Er|].
    destruct (MailTest_last _ _ _ _ _ Ha Hn) as (-> & l0 & ->). exists l0.
    split; [exact Hg|]. split; [eapply prefix_first; [apply (Hpre 0%nat)|reflexivity]|].
    split; [eapply prefix_first; [apply (Hpre 1%nat)|reflexivity]|exact Hall].
Qed.

(** ** Executions *)

(** The mail of machine 0, which runs the same test with machine 1. *)
Definition hello_from_0 : list Z :=
  packet_bytes (mkPacketHeader 1 0 25) ++ mail_bytes (mkMailHeader 0 1 13) ++ data ++ replicate 27 0.
Definition ack_from_0 : list Z :=
  packet_bytes (mkPacketHeader 1 0 20) ++ mail_bytes (mkMailHeader 1 1 8) ++ ack ++ replicate 32 0.

Lemma mail_from_0_ok : packets_ok (answerable 10) 1 10 [Some hello_from_0; Some ack_from_0].
Proof.
  assert (carries hello_from_0 (mkPacketHeader 1 0 25) (mkMailHeader 0 1 13) data) as H1
    by (constructor; try done; [by exists (replicate 27 0)|..]; unfold header_ok, is_int; cbn; lia).
  assert (carries ack_from_0 (mkPacketHeader 1 0 20) (mkMailHeader 1 1 8) ack) as H2
    by (constructor; try done; [by exists (replicate 32 0)|..]; unfold header_ok, is_int; cbn; lia).
  repeat (apply Forall_cons_2 || apply Forall_nil_2); intros p [= <-];
    (split; [eexists _, _, _; split; [first [exact H1|exact H2]|cbn; lia]|]);
    [rewrite (carries_message _ _ _ _ H1)|rewrite (carries_message _ _ _ _ H2)]; unfold answerable, is_int; cbn; lia.
Qed.

Definition test_start : Result kernel :=
  start (λ _, 150) true 1 100 10 (λ _, 7) [Some hello_from_0; Some ack_from_0] [] [MailTest 0].

(** How a state ends, and the letter with which its thread halts. *)
Definition ending (k : kernel) : option stop :=
  match kstep (λ _, 150) true k with Err e => Some e | Ok _ => None end.
Definition last_letter (k : kernel) : option (letter * bool * list frame) :=
  match threads k !! currentThread k with
  | Some th =>
      match resume th with
      | Got m next => Some (letter_of m, match next (letter_of m) with DoHalt => true | _ => false end, stack th)
      | _ => None
      end
  | None => None
  end.

Lemma last_letter_Some k l st :
  last_letter k = Some (l, true, st) →
  ∃ th m next, threads k !! currentThread k = Some th ∧ stack th = st ∧ resume th = Got m next ∧
    next (letter_of m) = DoHalt ∧ l = letter_of m.
Proof.
  unfold last_letter. destruct (threads k !! currentThread k) as [th|]; [|done].
  destruct (resume th) as [| | | | | | | | | | | | | | |m next] eqn:E; try done.
  intros [= <- Hn <-]. exists th, m, next. split_and!; try done. by destruct (next (letter_of m)).
Qed.

(** Machine 1 exchanges its messages with machine 0 and halts. *)
Lemma MailTest_exchange_witness :
  ∃ k : kernel, ending k = Some Exit ∧
    got (shared k) = [(mkPacketHeader 1 0 25, mkMailHeader 0 1 13, data)] ∧
    first_for 1 (shared k) = Some (mkPacketHeader 1 0 20, mkMailHeader 1 1 8, ack) ∧
    out_letters (shared k) =
      [(0, (mkPacketHeader 0 1 25, mkMailHeader 0 1 13, data)); (0, (mkPacketHeader 0 1 20, mkMailHeader 1 1 8, ack))].
Proof.
  assert (∃ k0, test_start = Ok k0) as [k0 E] by (eexists; reflexivity).
  pose (k := (run (kstep (λ _, 150) true) 600 k0).1). exists k.
  assert (ending k = Some Exit) as H1 by (unfold k; injection E as <-; vm_compute; reflexivity).
  assert (got (shared k) = [(mkPacketHeader 1 0 25, mkMailHeader 0 1 13, data)]) as H2
    by (unfold k; injection E as <-; vm_compute; reflexivity).
  assert (last_letter k = Some ((mkPacketHeader 1 0 20, mkMailHeader 1 1 8, ack), true, [FClient; FFinish])) as H3
    by (unfold k; injection E as <-; vm_compute; reflexivity).
  destruct (last_letter_Some _ _ _ H3) as (th & m & next & Hth & Est & Er & Hn & Hl).
  destruct (MailTest_exchange (λ _, 150) true 1 100 10 (λ _, 7) [Some hello_from_0; Some ack_from_0] [] 0 k0 k)
    as [_ Hhalt]; [unfold is_int; lia|unfold is_int; lia|lia|unfold is_int; lia|exact mail_from_0_ok|exact E|apply run_steps|].
  destruct (Hhalt th [FFinish] m next Hth Est Er Hn) as (l0 & Hg & _ & Hf & Ho).
  pose proof (eq_trans (eq_sym H2) Hg) as El. injection El as <-.
  split; [exact H1|]. split; [exact H2|]. split; [rewrite Hl; exact Hf|]. apply Ho. lia.
Defined.

Lemma program_followed_witness :
  ∃ k : kernel, got (shared k) = [(mkPacketHeader 1 0 25, mkMailHeader 0 1 13, data)] ∧
    ∃ ev p, after (MailTest 0) ev = Some p ∧ executed 1 100 ev (shared k).
Proof.
  assert (∃ k0, test_start = Ok k0) as [k0 E] by (eexists; reflexivity).
  pose (k := (run (kstep (λ _, 150) true) 600 k0).1). exists k.
  assert (got (shared k) = [(mkPacketHeader 1 0 25, mkMailHeader 0 1 13, data)]) as H
    by (unfold k; injection E as <-; vm_compute; reflexivity).
  split; [exact H|].
  apply (program_followed (answerable 10) (λ _, 150) true 1 100 10 (λ _, 7) [Some hello_from_0; Some ack_from_0] []
    (MailTest 0) k0 k); [unfold is_int; lia|exact mail_from_0_ok| |exact E|apply run_steps].
  apply MailTest_ok; unfold is_int; lia.
Defined.

(** When the other machine's message is not there yet, the test ends in the
    failed assertion of [Condition::Wait] instead of waiting for it. *)
Example MailTest_too_early :
  match start (λ _, 150) true 1 100 10 (λ _, 7) [None; None; None; Some hello_from_0] [] [MailTest 0] with
  | Ok k0 => let k := (run (kstep (λ _, 150) true) 600 k0).1 in
      (ending k, got (shared k), stack <$> threads k !! currentThread k) =
      (Some AssertFailed, [], Some [FWaitSleep 0; FAcquire 1; FClient; FFinish])
  | Err _ => False
  end.
Proof. vm_compute. reflexivity. Qed.
