(* ===== verification/FileHdr.v ===== *)
(** * filesys/filehdr.cc: file headers

    A file header lists the sectors of a file's data; on disk it is one sector,
    the bytes of the C++ object.  [used] is the set of allocated sectors of a
    free map, and the lemmas on [Find], [Mark] and [Clear] say what they do to
    it. *)

From S2P Require Import Prelude Bytes Bitmap Disk.

Local Open Scope Z_scope.

Definition NumDirect : Z := (SectorSize - 2 * 4) `quot` 4.
Definition MaxFileSize : Z := NumDirect * SectorSize.

Record FileHeader := mkFileHeader {
  numBytes : Z;
  numSectors : Z;
  dataSectors : list Z;
}.

(** [new FileHeader]: there is no constructor, the fields are what memory
    held. *)
Definition new_FileHeader (garbage : nat → Z) : FileHeader :=
  mkFileHeader (s32 (garbage 0%nat)) (s32 (garbage 1%nat))
    ((λ i, s32 (garbage (2 + i)%nat)) <$> seq 0 (Z.to_nat NumDirect)).

(** [for (int i = 0; i < numSectors; i++) dataSectors[i] = freeMap->Find();] *)
Fixpoint allocLoop (n i : nat) (freeMap : BitMap) (data : list Z) : Result (BitMap * list Z) :=
  match n with
  | O => mret (freeMap, data)
  | S n =>
      '(freeMap, s) ← Find freeMap;
      _ ← deref (data !! i);
      allocLoop n (S i) freeMap (<[i := s]> data)
  end.

Definition Allocate (freeMap : BitMap) (fileSize : Z) (h : FileHeader)
  : Result (bool * BitMap * FileHeader) :=
  let sectors := divRoundUp fileSize SectorSize in
  clear ← NumClear freeMap;
  if decide (clear < sectors) then
    mret (false, freeMap, mkFileHeader fileSize sectors (dataSectors h))
  else
    '(freeMap, data) ← allocLoop (Z.to_nat sectors) 0 freeMap (dataSectors h);
    mret (true, freeMap, mkFileHeader fileSize sectors data).

Fixpoint deallocLoop (n i : nat) (freeMap : BitMap) (data : list Z) : Result BitMap :=
  match n with
  | O => mret freeMap
  | S n =>
      s ← deref (data !! i);
      t ← Test freeMap s;
      ASSERT t;;
      freeMap ← Clear freeMap s;
      deallocLoop n (S i) freeMap data
  end.

Definition Deallocate (freeMap : BitMap) (h : FileHeader) : Result BitMap :=
  deallocLoop (Z.to_nat (numSectors h)) 0 freeMap (dataSectors h).

(** The bytes of the object, and the object in given bytes. *)
Definition header_bytes (h : FileHeader) : list Z :=
  ints_bytes (numBytes h :: numSectors h :: dataSectors h).
Definition bytes_header (bs : list Z) : Result FileHeader :=
  match s32 <$> bytes_ints bs with
  | nb :: ns :: data => Ok (mkFileHeader nb ns data)
  | _ => Err MemFault
  end.

Definition FileHeader_FetchFrom (sector : Z) (ds : list (list Z)) : Result FileHeader :=
  bs ← ReadSector sector ds; bytes_header bs.

Definition FileHeader_WriteBack (sector : Z) (h : FileHeader) (ds : list (list Z))
  : Result (list (list Z)) :=
  WriteSector sector (header_bytes h) ds.

Definition ByteToSector (offset : Z) (h : FileHeader) : Result Z :=
  let i := offset `quot` SectorSize in
  if decide (0 ≤ i) then deref (dataSectors h !! Z.to_nat i) else Err MemFault.

Definition FileLength (h : FileHeader) : Z := numBytes h.

(** ** The allocated sectors of a free map *)

Definition used (b : BitMap) : gset nat :=
  list_to_set (filter (λ i, getbit b i = true) (seq 0 (Z.to_nat (numBits b)))).

Lemma elem_of_used b i : i ∈ used b ↔ (i < Z.to_nat (numBits b))%nat ∧ getbit b i = true.
Proof.
  unfold used. rewrite elem_of_list_to_set, list_elem_of_filter, elem_of_seq. naive_solver lia.
Qed.

Lemma used_abs b i : i ∈ used b ↔ abs b !! i = Some true.
Proof.
  rewrite elem_of_used. split.
  - intros [Hi Hb]. rewrite abs_lookup by done. by rewrite Hb.
  - intros Ha. assert (i < Z.to_nat (numBits b))%nat as Hi
      by (rewrite <- length_abs; by eapply lookup_lt_Some).
    split; [done|]. rewrite abs_lookup in Ha by done. congruence.
Qed.

Lemma used_update b b' i v :
  (i < Z.to_nat (numBits b))%nat → numBits b' = numBits b →
  (∀ j, getbit b' j = if decide (i = j) then v else getbit b j) →
  used b' = if v : bool then {[i]} ∪ used b else used b ∖ {[i]}.
Proof.
  intros Hi Hn Hg. apply set_eq. intros j. rewrite elem_of_used, Hn, Hg.
  destruct v; [rewrite elem_of_union|rewrite elem_of_difference];
    rewrite elem_of_singleton, elem_of_used; case_decide; naive_solver.
Qed.

Lemma Find_used b :
  wf b →
  (∃ i b', Find b = Ok (b', Z.of_nat i) ∧ wf b' ∧ numBits b' = numBits b ∧
     (i < Z.to_nat (numBits b))%nat ∧ i ∉ used b ∧ used b' = {[i]} ∪ used b) ∨
  (Find b = Ok (b, -1) ∧ NumClear b = Ok 0).
Proof.
  intros Hwf. pose proof (Find_abs b Hwf) as HF.
  destruct (list_find _ _) as [[i x]|] eqn:E.
  - left. apply list_find_Some in E as (Hi & -> & _).
    destruct HF as (b' & HF & Hwf' & Hn & Habs). pose proof (lookup_lt_Some _ _ _ Hi) as Hl.
    exists i, b'. split_and!; auto; [by rewrite <- length_abs| |].
    + rewrite used_abs. congruence.
    + apply set_eq. intros j. rewrite elem_of_union, elem_of_singleton, !used_abs, Habs.
      destruct (decide (i = j)) as [->|]; [rewrite list_lookup_insert_eq by done; naive_solver|].
      rewrite list_lookup_insert_ne by done. naive_solver.
  - right. split; [done|]. apply list_find_None in E. by rewrite NumClear_abs, filter_none.
Qed.

Lemma count_clear (f : nat → bool) l :
  (length (filter (λ x, x = false) (f <$> l)) + length (filter (λ i, f i = true) l) = length l)%nat.
Proof.
  induction l as [|i l IH]; [done|]. rewrite fmap_cons, !filter_cons.
  destruct (f i); repeat case_decide; try congruence; cbn [length]; lia.
Qed.

Lemma NumClear_used b :
  wf b → NumClear b = Ok (numBits b - Z.of_nat (size (used b))) ∧
         Z.of_nat (size (used b)) ≤ numBits b.
Proof.
  intros Hwf. pose proof Hwf as [Hn _]. rewrite NumClear_abs by done.
  pose proof (count_clear (getbit b) (seq 0 (Z.to_nat (numBits b)))) as Hc.
  rewrite length_seq in Hc. unfold used, abs. rewrite size_list_to_set.
  - split; [f_equal|]; lia.
  - apply NoDup_filter, NoDup_seq.
Qed.

Lemma Clear_used b (i : nat) :
  wf b → (i < Z.to_nat (numBits b))%nat →
  ∃ b', Clear b (Z.of_nat i) = Ok b' ∧ wf b' ∧ numBits b' = numBits b ∧ used b' = used b ∖ {[i]}.
Proof.
  intros Hwf Hi. destruct (Clear_spec b i Hwf Hi) as (b' & ? & ? & ? & ?).
  exists b'. split_and!; auto. by apply used_update with (v := false).
Qed.

Lemma Mark_used b (i : nat) :
  wf b → (i < Z.to_nat (numBits b))%nat →
  ∃ b', Mark b (Z.of_nat i) = Ok b' ∧ wf b' ∧ numBits b' = numBits b ∧ used b' = {[i]} ∪ used b.
Proof.
  intros Hwf Hi. destruct (Mark_spec b i Hwf Hi) as (b' & ? & ? & ? & ?).
  exists b'. split_and!; auto. by apply used_update with (v := true).
Qed.

Lemma Test_used b (i : nat) : wf b → i ∈ used b → Test b (Z.of_nat i) = Ok true.
Proof. intros Hwf [Hi Hb]%elem_of_used. by rewrite Test_spec, Hb. Qed.

Lemma new_BitMap_used garbage nitems :
  0 ≤ nitems →
  ∃ b, new_BitMap garbage nitems = Ok b ∧ wf b ∧ numBits b = nitems ∧ used b = ∅.
Proof.
  intros Hn. destruct (new_BitMap_abs garbage nitems Hn) as (b & ? & ? & ? & Habs).
  exists b. split_and!; auto. apply set_eq. intros i. rewrite used_abs, Habs.
  split; [|set_solver]. intros [? _]%lookup_replicate. done.
Qed.

(** ** Allocation *)

(** The sectors of a header's data. *)
Definition hdr_sectors (h : FileHeader) : list nat :=
  Z.to_nat <$> take (Z.to_nat (numSectors h)) (dataSectors h).

(** A header of the file system: as many distinct data sectors as the length
    needs. *)
Record hdr_ok (h : FileHeader) : Prop := mk_hdr_ok {
  hdr_bytes : 0 ≤ numBytes h ≤ MaxFileSize;
  hdr_num : numSectors h = divRoundUp (numBytes h) SectorSize;
  hdr_length : length (dataSectors h) = Z.to_nat NumDirect;
  hdr_ints : Forall is_int (dataSectors h);
  hdr_range : Forall (λ s, 0 ≤ s < NumSectors) (take (Z.to_nat (numSectors h)) (dataSectors h));
  hdr_nodup : NoDup (hdr_sectors h);
}.

Definition free (b : BitMap) : Z := numBits b - Z.of_nat (size (used b)).

Lemma allocLoop_spec n i b data :
  wf b → Z.of_nat n ≤ free b → (i + n ≤ length data)%nat →
  ∃ b' ss, allocLoop n i b data = Ok (b', take i data ++ (Z.of_nat <$> ss) ++ drop (i + n) data) ∧
    length ss = n ∧ NoDup ss ∧ wf b' ∧ numBits b' = numBits b ∧
    Forall (λ s, s < Z.to_nat (numBits b))%nat ss ∧
    list_to_set ss ## used b ∧ used b' = list_to_set ss ∪ used b.
Proof.
  unfold free. revert i b data. induction n as [|n IH]; intros i b data Hwf Hf Hi.
  - exists b, []. cbn. rewrite Nat.add_0_r, take_drop.
    split_and!; [done|done|apply NoDup_nil_2|done|done|by apply Forall_nil|set_solver|set_solver].
  - cbn [allocLoop].
    destruct (Find_used b Hwf) as [(s & b1 & -> & Hwf1 & Hn1 & Hs & Hnew & Hu)|[_ H0]].
    2:{ destruct (NumClear_used b Hwf) as [H1 _]. rewrite H1 in H0. injection H0. lia. }
    rcbn. destruct (lookup_lt_is_Some_2 data i) as [old Hold]; [lia|]. rewrite Hold. rcbn.
    destruct (IH (S i) b1 (<[i := Z.of_nat s]> data) Hwf1) as (b' & ss & -> & Hl & Hnd & ? & Hn & Hr & Hdj & Hu').
    { rewrite Hn1, Hu, size_union, size_singleton by set_solver. lia. }
    { rewrite length_insert. lia. }
    exists b', (s :: ss). rewrite fmap_cons. split_and!; cbn [length].
    + rewrite (take_S_r _ _ (Z.of_nat s)) by (apply list_lookup_insert_eq; lia).
      rewrite take_insert_ge, drop_insert_lt, <- app_assoc by lia.
      cbn [app]. by replace (S i + n)%nat with (i + S n)%nat by lia.
    + lia.
    + constructor; [|done]. intros Hin. set_solver.
    + done.
    + congruence.
    + constructor; [done|]. by rewrite Hn1 in Hr.
    + set_solver.
    + rewrite Hu', Hu. set_solver.
Qed.

Lemma allocLoop_overflow n i b data :
  wf b → Z.of_nat n ≤ free b → (i ≤ length data < i + n)%nat →
  allocLoop n i b data = Err MemFault.
Proof.
  unfold free. revert i b data. induction n as [|n IH]; intros i b data Hwf Hf Hi; [lia|].
  cbn [allocLoop].
  destruct (Find_used b Hwf) as [(s & b1 & -> & Hwf1 & Hn1 & Hs & Hnew & Hu)|[_ H0]].
  2:{ destruct (NumClear_used b Hwf) as [H1 _]. rewrite H1 in H0. injection H0. lia. }
  rcbn. destruct (data !! i) as [old|] eqn:Hold; rcbn; [|done].
  apply lookup_lt_Some in Hold. apply IH; [done| |rewrite length_insert; lia].
  rewrite Hn1, Hu, size_union, size_singleton by set_solver. lia.
Qed.

Lemma blocks_bound size : 0 ≤ size ≤ MaxFileSize → 0 ≤ divRoundUp size SectorSize ≤ NumDirect.
Proof.
  intros H. pose proof (divRoundUp_spec size SectorSize ltac:(lia) ltac:(done)).
  unfold MaxFileSize, NumDirect, SectorSize in *. change ((128 - 2 * 4) `quot` 4) with 30 in *. lia.
Qed.

(** The header after [Allocate]. *)
Definition allocated (size : Z) (ss : list nat) (h : FileHeader) : FileHeader :=
  mkFileHeader size (divRoundUp size SectorSize)
    ((Z.of_nat <$> ss) ++ drop (length ss) (dataSectors h)).

Lemma hdr_sectors_allocated size ss h :
  Z.of_nat (length ss) = divRoundUp size SectorSize → hdr_sectors (allocated size ss h) = ss.
Proof.
  intros Hl. unfold hdr_sectors, allocated; cbn. rewrite take_app_length' by (rewrite length_fmap; lia).
  rewrite <- list_fmap_compose. rewrite <- (list_fmap_id ss) at 2.
  apply list_fmap_ext. intros. cbn. lia.
Qed.

Lemma Allocate_spec b size h :
  wf b → numBits b = NumSectors → 0 ≤ size ≤ MaxFileSize →
  length (dataSectors h) = Z.to_nat NumDirect → Forall is_int (dataSectors h) →
  if decide (divRoundUp size SectorSize ≤ free b) then
    ∃ b' ss, Allocate b size h = Ok (true, b', allocated size ss h) ∧
      hdr_sectors (allocated size ss h) = ss ∧
      hdr_ok (allocated size ss h) ∧ wf b' ∧ numBits b' = numBits b ∧
      list_to_set ss ## used b ∧ used b' = list_to_set ss ∪ used b
  else ∃ h', Allocate b size h = Ok (false, b, h').
Proof.
  intros Hwf Hn Hsz Hl Hint. unfold Allocate. destruct (NumClear_used b Hwf) as [-> Hle]. rcbn.
  fold (free b). pose proof (blocks_bound size Hsz) as Hb.
  case_decide as Hd; [rewrite decide_False by lia|rewrite decide_True by lia; eauto].
  destruct (allocLoop_spec (Z.to_nat (divRoundUp size SectorSize)) 0 b (dataSectors h) Hwf)
    as (b' & ss & -> & Hls & Hnd & ? & ? & Hr & ? & ?); [lia|lia|].
  exists b', ss. rcbn. cbn [take app Nat.add].
  assert (Z.of_nat (length ss) = divRoundUp size SectorSize) as Hlss by lia.
  assert (hdr_sectors (allocated size ss h) = ss) as Hss by by apply hdr_sectors_allocated.
  rewrite <- Hls. split_and!; auto. split; auto; cbn [allocated numBytes numSectors dataSectors].
  - rewrite length_app, length_fmap, length_drop. lia.
  - apply Forall_app. split; [|by apply Forall_drop].
    apply Forall_fmap. eapply Forall_impl; [exact Hr|]. cbn. unfold is_int, NumSectors in *.
    unfold SectorsPerTrack, NumTracks in *. lia.
  - rewrite take_app_length' by (rewrite length_fmap; lia).
    apply Forall_fmap. eapply Forall_impl; [exact Hr|]. cbn. lia.
  - by rewrite Hss.
Qed.

Lemma deallocLoop_spec n i b data (ss : list nat) :
  wf b → take n (drop i data) = Z.of_nat <$> ss → length ss = n →
  NoDup ss → list_to_set ss ⊆ used b →
  ∃ b', deallocLoop n i b data = Ok b' ∧ wf b' ∧ numBits b' = numBits b ∧
    used b' = used b ∖ list_to_set ss.
Proof.
  revert i b ss. induction n as [|n IH]; intros i b ss Hwf Htk Hl Hnd Hsub.
  - destruct ss; [|done]. exists b. cbn. split_and!; try done. set_solver.
  - destruct ss as [|s ss]; [done|]. apply NoDup_cons in Hnd as [Hs Hnd].
    assert (data !! i = Some (Z.of_nat s)) as Hi.
    { assert (take (S n) (drop i data) !! 0%nat = Some (Z.of_nat s)) as H0 by by rewrite Htk.
      rewrite lookup_take_lt, lookup_drop, Nat.add_0_r in H0 by lia. done. }
    cbn [deallocLoop]. rewrite Hi. rcbn. rewrite Test_used by (done || set_solver). rcbn.
    assert (s ∈ used b) as [Hr _]%elem_of_used by set_solver.
    destruct (Clear_used b s Hwf Hr) as (b1 & -> & Hwf1 & Hn1 & Hu1). rcbn.
    destruct (IH (S i) b1 ss Hwf1) as (b' & -> & ? & ? & Hu); auto.
    + rewrite (drop_S _ _ _ Hi) in Htk. cbn in Htk. congruence.
    + rewrite Hu1. set_solver.
    + exists b'. split_and!; auto; [congruence|]. rewrite Hu, Hu1. set_solver.
Qed.

Lemma Deallocate_spec b h :
  wf b → hdr_ok h → list_to_set (hdr_sectors h) ⊆ used b →
  ∃ b', Deallocate b h = Ok b' ∧ wf b' ∧ numBits b' = numBits b ∧
    used b' = used b ∖ list_to_set (hdr_sectors h).
Proof.
  intros Hwf Hh Hsub. pose proof (blocks_bound _ (hdr_bytes h Hh)) as Hb.
  pose proof (hdr_num h Hh) as Hn. pose proof (hdr_length h Hh) as Hl.
  apply deallocLoop_spec; auto.
  - rewrite drop_0. unfold hdr_sectors. rewrite <- list_fmap_compose.
    rewrite <- (list_fmap_id (take _ _)) at 1. apply list_fmap_ext. intros j s Hs.
    pose proof (hdr_range h Hh) as Hr. eapply Forall_lookup_1 in Hr; [|done]. cbn. lia.
  - unfold hdr_sectors. rewrite length_fmap, length_take. lia.
  - apply (hdr_nodup h Hh).
Qed.

(** ** The header on disk *)

Lemma header_roundtrip h :
  hdr_ok h → is_sector (header_bytes h) ∧ bytes_header (header_bytes h) = Ok h.
Proof.
  intros Hh. pose proof (hdr_bytes h Hh) as Hb. pose proof (blocks_bound _ Hb) as Hn.
  rewrite <- (hdr_num h Hh) in Hn. unfold is_sector, header_bytes. split_and!.
  - rewrite length_ints_bytes. cbn [length]. by rewrite (hdr_length h Hh).
  - apply ints_bytes_bytes.
  - unfold bytes_header. rewrite ints_roundtrip; [by destruct h|].
    unfold MaxFileSize, NumDirect, SectorSize in *. change ((128 - 2 * 4) `quot` 4) with 30 in *.
    repeat constructor; try lia. apply (hdr_ints h Hh).
Qed.

(** Reading back a header that was written. *)
Lemma WriteBack_FetchFrom s h ds :
  disk_wf ds → 0 ≤ s < NumSectors → hdr_ok h →
  FileHeader_WriteBack s h ds = Ok (<[Z.to_nat s := header_bytes h]> ds) ∧
  disk_wf (<[Z.to_nat s := header_bytes h]> ds) ∧
  FileHeader_FetchFrom s (<[Z.to_nat s := header_bytes h]> ds) = Ok h.
Proof.
  intros Hds Hs Hh. destruct (header_roundtrip h Hh) as [Hsec Hrt]. split_and!.
  - apply WriteSector_Ok; [done|apply Hsec].
  - by apply disk_wf_insert.
  - unfold FileHeader_FetchFrom, ReadSector. rewrite (proj2 (sector_ok_true s)) by done. rcbn.
    rewrite list_lookup_insert_eq; [done|]. destruct Hds as [-> _]. lia.
Qed.

(** ** Properties *)

(** For a file of at most [MaxFileSize] bytes, [FileHeader::Allocate]
    fails, and changes nothing, exactly when there are fewer free sectors than
    the file needs; otherwise the header is well formed, its sectors were all
    free and are distinct, exactly they become allocated, writing the header
    to any sector and fetching it gives it back, and [Deallocate] then returns
    the free map to what it was. *)
Theorem Allocate_Deallocate b size h ds s :
  wf b → numBits b = NumSectors → 0 ≤ size ≤ MaxFileSize →
  length (dataSectors h) = Z.to_nat NumDirect → Forall is_int (dataSectors h) →
  disk_wf ds → 0 ≤ s < NumSectors →
  (free b < divRoundUp size SectorSize ∧ ∃ h', Allocate b size h = Ok (false, b, h')) ∨
  (divRoundUp size SectorSize ≤ free b ∧
   ∃ b' h' ds' b'', Allocate b size h = Ok (true, b', h') ∧ hdr_ok h' ∧ FileLength h' = size ∧
    list_to_set (hdr_sectors h') ## used b ∧ used b' = list_to_set (hdr_sectors h') ∪ used b ∧
    FileHeader_WriteBack s h' ds = Ok ds' ∧ FileHeader_FetchFrom s ds' = Ok h' ∧
    Deallocate b' h' = Ok b'' ∧ abs b'' = abs b).
Proof.
  intros Hwf Hn Hsz Hl Hi Hds Hs. pose proof (Allocate_spec b size h Hwf Hn Hsz Hl Hi) as HA.
  case_decide; [right|left; split; [lia|done]].
  destruct HA as (b' & ss & HA & Hss & Hok & Hwf' & Hn' & Hdj & Hu).
  destruct (WriteBack_FetchFrom s _ ds Hds Hs Hok) as (Hw & _ & Hf).
  destruct (Deallocate_spec b' _ Hwf' Hok) as (b'' & HD & Hwf'' & Hn'' & Hu'').
  { rewrite Hss, Hu. set_solver. }
  split; [done|]. rewrite Hss in *. do 4 eexists. rewrite Hss. split_and!; eauto.
  assert (used b'' = used b) as Heq by (rewrite Hu'', Hu; set_solver).
  apply list_eq. intros i. destruct (decide (i < Z.to_nat (numBits b))%nat) as [Hlt|].
  - rewrite !abs_lookup by congruence. f_equal. apply eq_bool_prop_intro.
    assert (i ∈ used b'' ↔ i ∈ used b) as Hiff by by rewrite Heq.
    rewrite !elem_of_used, Hn'', Hn' in Hiff. rewrite !Is_true_true. naive_solver.
  - rewrite !lookup_ge_None_2; [done| |]; rewrite length_abs; [lia|].
    rewrite Hn'', Hn'. lia.
Qed.

(** [FileHeader::Allocate] does not compare the size with
    [MaxFileSize]: for a larger file, when the disk has the space, it writes
    past the end of [dataSectors]. *)
Theorem Allocate_too_large_overflows b size h :
  wf b → MaxFileSize < size → divRoundUp size SectorSize ≤ free b →
  length (dataSectors h) = Z.to_nat NumDirect →
  Allocate b size h = Err MemFault.
Proof.
  intros Hwf Hsz Hf Hl. unfold Allocate. destruct (NumClear_used b Hwf) as [-> _]. rcbn.
  fold (free b). rewrite decide_False by lia.
  assert (MaxFileSize < divRoundUp size SectorSize * SectorSize) as Hb.
  { unfold MaxFileSize, NumDirect in *. change ((SectorSize - 2 * 4) `quot` 4) with 30 in *.
    pose proof (divRoundUp_spec size SectorSize ltac:(unfold SectorSize in *; lia) ltac:(done)). lia. }
  rewrite allocLoop_overflow; [done|done| |].
  - unfold MaxFileSize, NumDirect, SectorSize in *. change ((128 - 2 * 4) `quot` 4) with 30 in *. lia.
  - rewrite Hl. unfold MaxFileSize, NumDirect, SectorSize in *.
    change ((128 - 2 * 4) `quot` 4) with 30 in *. lia.
Qed.

(** ** Witnesses *)

Definition empty_map : BitMap := mkBitMap NumSectors 32 (replicate 32 0).
Definition empty_disk : list (list Z) := replicate (Z.to_nat NumSectors) (replicate (Z.to_nat SectorSize) 0).
Definition blank_header : FileHeader := new_FileHeader (λ _, 7).

Lemma empty_map_wf : wf empty_map.
Proof. split_and!; [done|reflexivity|reflexivity|]. apply Forall_replicate. lia. Qed.

Lemma empty_disk_wf : disk_wf empty_disk.
Proof.
  split; [apply length_replicate|]. apply Forall_replicate. split; [apply length_replicate|].
  apply Forall_replicate. unfold is_byte. lia.
Qed.

Lemma empty_map_free : free empty_map = NumSectors.
Proof. vm_compute. reflexivity. Qed.

Lemma Allocate_Deallocate_witness :
  ∃ b' h' b'', Allocate empty_map 300 blank_header = Ok (true, b', h') ∧
    Deallocate b' h' = Ok b'' ∧ abs b'' = abs empty_map.
Proof.
  destruct (Allocate_Deallocate empty_map 300 blank_header empty_disk 9)
    as [[H _]|(_ & b' & h' & ds' & b'' & ? & ? & ? & ? & ? & ? & ? & ? & ?)].
  - exact empty_map_wf.
  - reflexivity.
  - vm_compute. split; congruence.
  - reflexivity.
  - apply Forall_fmap, Forall_true. intros. vm_compute. split; congruence.
  - exact empty_disk_wf.
  - vm_compute. split; congruence.
  - exfalso. rewrite empty_map_free in H. vm_compute in H. discriminate.
  - exists b', h', b''. auto.
Defined.

Lemma Allocate_too_large_overflows_witness :
  MaxFileSize = 3840 ∧ Allocate empty_map 3841 blank_header = Err MemFault.
Proof.
  split; [reflexivity|]. apply Allocate_too_large_overflows.
  - exact empty_map_wf.
  - reflexivity.
  - rewrite empty_map_free. vm_compute. congruence.
  - reflexivity.
Defined.
