(* ===== verification/OpenFile.v ===== *)
(** * filesys/openfile.cc: reading and writing files

    An open file is its header, brought into memory, and the seek position.
    [ReadAt] and [WriteAt] are written as the source has them, over whole
    sectors and a temporary buffer whose initial bytes are unknown
    ([garbage]); [contents] is the file as a flat sequence of bytes, and the
    theorems show that they read and write that sequence. *)

From S2P Require Import Prelude Bytes Bitmap Disk FileHdr.

Local Open Scope Z_scope.

Record OpenFile := mkOpenFile {
  hdr : FileHeader;
  seekPosition : Z;
}.

Definition new_OpenFile (sector : Z) (ds : list (list Z)) : Result OpenFile :=
  h ← FileHeader_FetchFrom sector ds; mret (mkOpenFile h 0).

Definition Seek (position : Z) (f : OpenFile) : OpenFile := mkOpenFile (hdr f) position.

Definition Length (f : OpenFile) : Z := FileLength (hdr f).

Section transfer.
(** What [new char[...]] finds in memory. *)
Context (garbage : nat → Z).

(** [for (i = firstSector; i <= lastSector; i++) synchDisk->ReadSector(...)] *)
Fixpoint readLoop (n : nat) (i firstSector : Z) (h : FileHeader) (ds : list (list Z)) (buf : list Z)
  : Result (list Z) :=
  match n with
  | O => mret buf
  | S n =>
      s ← ByteToSector (i * SectorSize) h;
      data ← ReadSector s ds;
      buf ← bytes_put ((i - firstSector) * SectorSize) data buf;
      readLoop n (i + 1) firstSector h ds buf
  end.

(** The bytes copied to the caller's buffer; their number is the result of the
    call.  The sum of the check is the machine's. *)
Definition ReadAt (numBytes position : Z) (f : OpenFile) (ds : list (list Z)) : Result (list Z) :=
  let fileLength := FileLength (hdr f) in
  if bool_decide (numBytes ≤ 0) || bool_decide (fileLength ≤ position) then mret []
  else
    let numBytes := if decide (s32 (position + numBytes) > fileLength)
                    then fileLength - position else numBytes in
    let firstSector := divRoundDown position SectorSize in
    let lastSector := divRoundDown (position + numBytes - 1) SectorSize in
    let numSectors := 1 + lastSector - firstSector in
    buf ← new_chars garbage (numSectors * SectorSize);
    buf ← readLoop (Z.to_nat numSectors) firstSector firstSector (hdr f) ds buf;
    bytes_at (position - firstSector * SectorSize) (Z.to_nat numBytes) buf.

Fixpoint writeLoop (n : nat) (i firstSector : Z) (h : FileHeader) (buf : list Z) (ds : list (list Z))
  : Result (list (list Z)) :=
  match n with
  | O => mret ds
  | S n =>
      s ← ByteToSector (i * SectorSize) h;
      data ← bytes_at ((i - firstSector) * SectorSize) (Z.to_nat SectorSize) buf;
      ds ← WriteSector s data ds;
      writeLoop n (i + 1) firstSector h buf ds
  end.

Definition WriteAt (from : list Z) (numBytes position : Z) (f : OpenFile) (ds : list (list Z))
  : Result (Z * list (list Z)) :=
  let fileLength := FileLength (hdr f) in
  if bool_decide (numBytes ≤ 0) || bool_decide (fileLength ≤ position) then mret (0, ds)
  else
    let numBytes := if decide (s32 (position + numBytes) > fileLength)
                    then fileLength - position else numBytes in
    let firstSector := divRoundDown position SectorSize in
    let lastSector := divRoundDown (position + numBytes - 1) SectorSize in
    let numSectors := 1 + lastSector - firstSector in
    buf ← new_chars garbage (numSectors * SectorSize);
    let firstAligned := bool_decide (position = firstSector * SectorSize) in
    let lastAligned := bool_decide (position + numBytes = (lastSector + 1) * SectorSize) in
    buf ← (if negb firstAligned then
             bs ← ReadAt SectorSize (firstSector * SectorSize) f ds; bytes_put 0 bs buf
           else mret buf);
    buf ← (if negb lastAligned && (negb (bool_decide (firstSector = lastSector)) || firstAligned) then
             bs ← ReadAt SectorSize (lastSector * SectorSize) f ds;
             bytes_put ((lastSector - firstSector) * SectorSize) bs buf
           else mret buf);
    data ← bytes_at 0 (Z.to_nat numBytes) from;
    buf ← bytes_put (position - firstSector * SectorSize) data buf;
    ds ← writeLoop (Z.to_nat numSectors) firstSector firstSector (hdr f) buf ds;
    mret (numBytes, ds).

Definition OpenFile_Read (numBytes : Z) (f : OpenFile) (ds : list (list Z)) : Result (list Z * OpenFile) :=
  bs ← ReadAt numBytes (seekPosition f) f ds;
  mret (bs, mkOpenFile (hdr f) (seekPosition f + Z.of_nat (length bs))).

Definition OpenFile_Write (from : list Z) (numBytes : Z) (f : OpenFile) (ds : list (list Z))
  : Result (Z * OpenFile * list (list Z)) :=
  '(result, ds) ← WriteAt from numBytes (seekPosition f) f ds;
  mret (result, mkOpenFile (hdr f) (seekPosition f + result), ds).
End transfer.

(** ** The file as a flat sequence of bytes *)

(** The bytes of the data sectors, slack included. *)
Definition file_bytes (h : FileHeader) (ds : list (list Z)) : list Z :=
  concat ((λ s, ds !!! s) <$> hdr_sectors h).

Definition contents (h : FileHeader) (ds : list (list Z)) : list Z :=
  take (Z.to_nat (numBytes h)) (file_bytes h ds).

Section chunks.
Context {A : Type} (n : nat).
Implicit Types ls : list (list A).

Lemma length_chunks ls : Forall (λ l, length l = n) ls → length (concat ls) = (n * length ls)%nat.
Proof. induction 1 as [|l ls Hl Hls IH]; cbn [concat length]; [lia|]. rewrite length_app. lia. Qed.

(** Replacing one chunk. *)
Lemma concat_insert ls i l old :
  Forall (λ l, length l = n) ls → length l = n → ls !! i = Some old →
  concat (<[i := l]> ls) = list_inserts (i * n) l (concat ls).
Proof.
  intros Hls Hl. revert i. induction Hls as [|l0 ls Hl0 Hls IH]; intros i Hi; [done|].
  destruct i as [|i]; cbn [insert list_insert concat] in Hi |- *.
  - by rewrite list_inserts_0_r by congruence.
  - rewrite IH by done. replace (S i * n)%nat with (length l0 + i * n)%nat by lia.
    by rewrite list_inserts_app_r.
Qed.
End chunks.

Section flat.
Context (h : FileHeader) (Hh : hdr_ok h).

Lemma length_hdr_sectors : length (hdr_sectors h) = Z.to_nat (numSectors h).
Proof.
  pose proof (blocks_bound _ (hdr_bytes h Hh)) as Hb. pose proof (hdr_length h Hh).
  rewrite <- (hdr_num h Hh) in Hb. unfold hdr_sectors. rewrite length_fmap, length_take. lia.
Qed.

Lemma hdr_sector_lt i s : hdr_sectors h !! i = Some s → (s < Z.to_nat NumSectors)%nat.
Proof.
  unfold hdr_sectors. rewrite list_lookup_fmap. intros (z & Hz & ->)%fmap_Some.
  pose proof (hdr_range h Hh) as Hr. eapply Forall_lookup_1 in Hr; [|done]. cbn in Hr. lia.
Qed.

Lemma ByteToSector_spec (i s : nat) :
  hdr_sectors h !! i = Some s → ByteToSector (Z.of_nat i * SectorSize) h = Ok (Z.of_nat s).
Proof.
  intros Hi. unfold ByteToSector. rewrite Z.quot_mul by done. rewrite decide_True by lia.
  unfold hdr_sectors in Hi. rewrite list_lookup_fmap in Hi. apply fmap_Some in Hi as (z & Hz & ->).
  pose proof (hdr_range h Hh) as Hr. eapply Forall_lookup_1 in Hr; [|done].
  pose proof (lookup_lt_Some _ _ _ Hz) as Hlt. rewrite length_take in Hlt.
  rewrite lookup_take_lt in Hz by lia. rewrite Nat2Z.id, Hz. cbn in *. f_equal. lia.
Qed.

Lemma data_chunks ds :
  disk_wf ds → Forall (λ l : list Z, length l = 128%nat) ((λ s, ds !!! s) <$> hdr_sectors h).
Proof.
  intros [Hl Hs]. apply Forall_fmap, Forall_lookup_2. intros i s Hi. apply hdr_sector_lt in Hi.
  destruct (lookup_lt_is_Some_2 ds s) as [x Hx]; [lia|]. cbn.
  rewrite (list_lookup_total_correct _ _ _ Hx). eapply Forall_lookup_1 in Hs; [|done]. apply Hs.
Qed.

Lemma length_file_bytes ds :
  disk_wf ds → length (file_bytes h ds) = (128 * length (hdr_sectors h))%nat.
Proof.
  intros Hd. unfold file_bytes. rewrite (length_chunks 128) by by apply data_chunks.
  by rewrite length_fmap.
Qed.

(** The sectors hold the file: [numBytes] is within them, and within the last. *)
Lemma numBytes_sectors : numBytes h ≤ 128 * Z.of_nat (length (hdr_sectors h)).
Proof.
  rewrite length_hdr_sectors. pose proof (hdr_bytes h Hh) as Hb.
  pose proof (divRoundUp_spec (numBytes h) SectorSize ltac:(lia) ltac:(done)) as Hd.
  rewrite <- (hdr_num h Hh) in Hd. unfold SectorSize in *. lia.
Qed.

Lemma length_contents ds : disk_wf ds → length (contents h ds) = Z.to_nat (numBytes h).
Proof.
  intros Hd. unfold contents. rewrite length_take, length_file_bytes by done.
  pose proof numBytes_sectors. lia.
Qed.

(** Sector [i] of the file. *)
Lemma file_chunk ds i s data :
  disk_wf ds → hdr_sectors h !! i = Some s → ds !! s = Some data →
  take 128 (drop (i * 128) (file_bytes h ds)) = data.
Proof.
  intros Hd Hi Hs. pose proof (data_chunks ds Hd) as Hc. unfold file_bytes.
  assert (((λ s, ds !!! s) <$> hdr_sectors h) !! i = Some data) as Hl.
  { rewrite list_lookup_fmap, Hi. cbn. by rewrite (list_lookup_total_correct _ _ _ Hs). }
  assert (length data = 128%nat) as Hlen by (by eapply Forall_lookup_1 in Hc).
  rewrite <- (list_insert_id _ _ _ Hl), (concat_insert 128 _ _ _ data) by done.
  rewrite <- Hlen at 1. apply take_drop_inserts. rewrite (length_chunks 128) by done.
  apply lookup_lt_Some in Hl. rewrite Hlen. lia.
Qed.

Lemma readLoop_spec n a f ds buf :
  disk_wf ds → (f ≤ a)%nat → (a + n ≤ length (hdr_sectors h))%nat →
  ((a - f + n) * 128 ≤ length buf)%nat →
  readLoop n (Z.of_nat a) (Z.of_nat f) h ds buf =
  Ok (list_inserts ((a - f) * 128) (take (n * 128) (drop (a * 128) (file_bytes h ds))) buf).
Proof.
  intros Hd. revert a buf. induction n as [|n IH]; intros a buf Hf Ha Hb; [done|].
  cbn [readLoop]. destruct (lookup_lt_is_Some_2 (hdr_sectors h) a) as [s Hs]; [lia|].
  rewrite (ByteToSector_spec a s) by done. rcbn. pose proof (hdr_sector_lt a s Hs) as Hlt.
  destruct (ReadSector_Ok (Z.of_nat s) ds) as (data & -> & Hdata & Hsec & _); [done|lia|]. rcbn.
  rewrite Nat2Z.id in Hdata. rewrite bytes_put_Ok.
  2, 3: rewrite ?Hsec; unfold SectorSize; lia. rcbn.
  replace (Z.of_nat a + 1) with (Z.of_nat (S a)) by lia.
  rewrite IH by (rewrite ?length_inserts; lia). f_equal.
  replace (Z.to_nat _) with ((a - f) * 128)%nat by (unfold SectorSize; lia).
  change (S n * 128)%nat with (128 + n * 128)%nat.
  rewrite <- (take_take_drop _ 128), list_inserts_app_l, drop_drop, (file_chunk ds a s data) by done.
  rewrite Hsec. f_equal; [unfold SectorSize; lia|]. do 2 f_equal. lia.
Qed.

(** The file after one sector of it is written. *)
Lemma file_bytes_insert ds i s data :
  disk_wf ds → is_sector data → hdr_sectors h !! i = Some s →
  file_bytes h (<[s := data]> ds) = list_inserts (i * 128) data (file_bytes h ds).
Proof.
  intros Hd [Hsec _] Hi. unfold file_bytes.
  rewrite <- (concat_insert 128 _ _ _ (ds !!! s)).
  - f_equal. apply list_eq. intros j. rewrite list_lookup_fmap.
    destruct (decide (i = j)) as [<-|Hne].
    + rewrite Hi, list_lookup_insert_eq by (rewrite length_fmap; by eapply lookup_lt_Some).
      cbn. f_equal. apply list_lookup_total_insert_eq.
      destruct Hd as [-> _]. by eapply hdr_sector_lt.
    + rewrite list_lookup_insert_ne, list_lookup_fmap by done.
      destruct (hdr_sectors h !! j) as [s'|] eqn:Hj; [|done]. cbn. f_equal.
      apply list_lookup_total_insert_ne. intros ->. apply Hne.
      by eapply NoDup_lookup; [apply (hdr_nodup h Hh)|..].
  - by apply data_chunks.
  - done.
  - by rewrite list_lookup_fmap, Hi.
Qed.

Lemma writeLoop_spec n a f buf ds :
  disk_wf ds → Forall is_byte buf → (f ≤ a)%nat → (a + n ≤ length (hdr_sectors h))%nat →
  ((a - f + n) * 128 ≤ length buf)%nat →
  ∃ ds', writeLoop n (Z.of_nat a) (Z.of_nat f) h buf ds = Ok ds' ∧ disk_wf ds' ∧
    file_bytes h ds' =
      list_inserts (a * 128) (take (n * 128) (drop ((a - f) * 128) buf)) (file_bytes h ds) ∧
    ∀ s, s ∉ hdr_sectors h → ds' !! s = ds !! s.
Proof.
  intros Hd Hbuf. revert a ds Hd. induction n as [|n IH]; intros a ds Hd Hf Ha Hb; [by exists ds|].
  cbn [writeLoop]. destruct (lookup_lt_is_Some_2 (hdr_sectors h) a) as [s Hs]; [lia|].
  rewrite (ByteToSector_spec a s) by done. rcbn. pose proof (hdr_sector_lt a s Hs) as Hlt.
  replace ((Z.of_nat a - Z.of_nat f) * SectorSize) with (Z.of_nat ((a - f) * 128)) by (unfold SectorSize; lia).
  destruct (bytes_at_Ok (Z.of_nat ((a - f) * 128)) 128 buf) as [E Hl]; [lia|lia|].
  change (Z.to_nat SectorSize) with 128%nat. rewrite E. rcbn. rewrite Nat2Z.id in *.
  set (data := take 128 (drop ((a - f) * 128) buf)) in *.
  assert (is_sector data) as Hsec by (split; [done|by apply Forall_take, Forall_drop]).
  rewrite WriteSector_Ok by (done || lia). rcbn. rewrite Nat2Z.id.
  replace (Z.of_nat a + 1) with (Z.of_nat (S a)) by lia.
  destruct (IH (S a) (<[s := data]> ds)) as (ds' & -> & Hd' & Hfb & Hfr);
    [by apply disk_wf_insert|lia..|].
  exists ds'. split_and!; [done..| |].
  - rewrite Hfb, (file_bytes_insert ds a s data) by done.
    change (S n * 128)%nat with (128 + n * 128)%nat.
    rewrite <- (take_take_drop _ 128), list_inserts_app_l, drop_drop. fold data. rewrite Hl.
    f_equal. do 2 f_equal. lia.
  - intros s' Hs'. rewrite Hfr by done. apply list_lookup_insert_ne. intros <-.
    apply Hs'. by eapply list_elem_of_lookup_2.
Qed.
End flat.

(** The buffer [WriteAt] writes back, [old] the bytes of the file and [p], [k]
    the place and number of the bytes to change: reading in the first and the
    last sector when they are partially modified is enough to keep the rest of
    the file. *)
Definition writeBuffer (old buf : list Z) (p k f l : nat) : list Z :=
  let firstAligned := bool_decide (p = f * 128)%nat in
  let lastAligned := bool_decide (p + k = (l + 1) * 128)%nat in
  let buf := if negb firstAligned then list_inserts 0 (take 128 (drop (f * 128) old)) buf else buf in
  if negb lastAligned && (negb (bool_decide (f = l)) || firstAligned)
  then list_inserts ((l - f) * 128) (take 128 (drop (l * 128) old)) buf else buf.

Lemma length_writeBuffer old buf p k f l : length (writeBuffer old buf p k f l) = length buf.
Proof. unfold writeBuffer. repeat case_match; rewrite ?length_inserts; done. Qed.

Lemma writeBuffer_keeps old buf p k f l j :
  (f * 128 ≤ p < f * 128 + 128)%nat → (l * 128 < p + k ≤ l * 128 + 128)%nat → (0 < k)%nat →
  length buf = ((l + 1 - f) * 128)%nat →
  (f * 128 ≤ j < (l + 1) * 128)%nat → (j < p ∨ p + k ≤ j)%nat → (j < length old)%nat →
  writeBuffer old buf p k f l !! (j - f * 128)%nat = old !! j.
Proof.
  intros Hp Hl Hk Hbuf Hj Hout Hlen. unfold writeBuffer.
  assert (∀ s (b : list Z), length b = length buf → (f ≤ s)%nat → (s * 128 ≤ j < s * 128 + 128)%nat →
    list_inserts ((s - f) * 128) (take 128 (drop (s * 128) old)) b !! (j - f * 128)%nat = old !! j) as Hread.
  { intros s b Hb Hs Hjs. rewrite lookup_inserts, length_take, length_drop, decide_True by lia.
    rewrite lookup_take_lt, lookup_drop by lia. f_equal. lia. }
  pose proof (Hread f) as Hfirst. rewrite Nat.sub_diag in Hfirst.
  destruct (decide (l * 128 ≤ j)%nat).
  - (* the last sector *)
    destruct (decide (p = f * 128)%nat) as [Ha|Ha];
      [rewrite (bool_decide_true _ Ha)|rewrite (bool_decide_false _ Ha)];
    (destruct (decide (p + k = (l + 1) * 128)%nat) as [Hb|Hb];
      [rewrite (bool_decide_true _ Hb)|rewrite (bool_decide_false _ Hb)]);
    (destruct (decide (f = l)%nat) as [Hc|Hc];
      [rewrite (bool_decide_true _ Hc)|rewrite (bool_decide_false _ Hc)]); cbn [negb andb orb].
    all: try (exfalso; lia).
    all: try (apply Hread; [by rewrite ?length_inserts|lia..]).
    all: try (apply Hfirst; [done|lia..]).
  - (* before it: only the first sector has bytes to keep *)
    rewrite (bool_decide_false (p = f * 128)%nat) by lia. cbn [negb].
    assert (list_inserts 0 (take 128 (drop (f * 128) old)) buf !! (j - f * 128)%nat = old !! j) as H1
      by (apply Hfirst; [done|lia..]).
    case_match; [|done]. rewrite list_lookup_inserts_lt by lia. done.
Qed.

Lemma write_back_contents old F buf data p k f l :
  old = take (length old) F → (length old ≤ length F)%nat → ((l + 1) * 128 ≤ length F)%nat →
  (f * 128 ≤ p < f * 128 + 128)%nat → (l * 128 < p + k ≤ l * 128 + 128)%nat → (0 < k)%nat →
  (p + k ≤ length old)%nat → length buf = ((l + 1 - f) * 128)%nat → length data = k →
  take (length old) (list_inserts (f * 128) (list_inserts (p - f * 128) data (writeBuffer old buf p k f l)) F) =
  list_inserts p data old.
Proof.
  intros Hold HF HlF Hp Hl Hk Hpk Hbuf Hd. apply list_eq. intros j.
  destruct (decide (j < length old)%nat) as [Hj|Hj].
  2:{ rewrite !lookup_ge_None_2; [done|rewrite length_inserts; lia|rewrite length_take; lia]. }
  assert (F !! j = old !! j) as HFj by (rewrite Hold, lookup_take_lt by lia; done).
  rewrite lookup_take_lt, !lookup_inserts, length_inserts, length_writeBuffer by done.
  destruct (decide (p ≤ j < p + k)%nat).
  - rewrite !decide_True by lia. f_equal. lia.
  - rewrite (decide_False (P := (p ≤ j < p + length data ∧ j < length old)%nat)) by lia.
    case_decide; [|done]. rewrite decide_False by lia. apply writeBuffer_keeps; try done; lia.
Qed.

Lemma contents_bytes h ds : disk_wf ds → Forall is_byte (contents h ds).
Proof.
  intros [_ Hd]. apply Forall_take, Forall_concat, Forall_fmap, Forall_true. intros s. cbn.
  rewrite list_lookup_total_alt. destruct (ds !! s) as [x|] eqn:Hx; [|constructor].
  eapply Forall_lookup_1 in Hd; [|done]. apply Hd.
Qed.

(** What does not fit in the file is not written. *)
Lemma inserts_clip (p n k : nat) (from old : list Z) :
  take n (drop p old) = take k (drop p old) → (k ≤ n)%nat → (n ≤ length from)%nat →
  list_inserts p (take k from) old = list_inserts p (take n from) old.
Proof.
  intros Htk Hkn Hn. apply (f_equal length) in Htk. rewrite !length_take, !length_drop in Htk.
  apply list_eq. intros j. rewrite !lookup_inserts, !length_take.
  destruct (decide (p ≤ j < p + n ∧ j < length old)%nat).
  - rewrite !decide_True by lia. by rewrite !lookup_take_lt by lia.
  - by rewrite !decide_False by lia.
Qed.

(** The sectors [firstSector] to [lastSector] of a request. *)
Lemma request_sectors (p k : nat) :
  (0 < k)%nat →
  ∃ f l : nat, divRoundDown (Z.of_nat p) SectorSize = Z.of_nat f ∧
    divRoundDown (Z.of_nat p + Z.of_nat k - 1) SectorSize = Z.of_nat l ∧
    (f * 128 ≤ p < f * 128 + 128)%nat ∧ (l * 128 < p + k ≤ l * 128 + 128)%nat ∧ (f ≤ l)%nat.
Proof.
  intros Hk. rewrite !divRoundDown_nonneg by (unfold SectorSize; lia).
  exists (p / 128)%nat, ((p + k - 1) / 128)%nat. unfold SectorSize. split_and!; dlia.
Qed.

Section file.
Context (garbage : nat → Z) (f : OpenFile) (Hh : hdr_ok (hdr f)).
Abbreviation old := (contents (hdr f)).

(** The check of the request, and the number of bytes left after it. *)
Lemma request_check n (p : nat) ds :
  disk_wf ds → Z.of_nat p + n < 2 ^ 31 →
  if bool_decide (n ≤ 0) || bool_decide (FileLength (hdr f) ≤ Z.of_nat p)
  then take (Z.to_nat n) (drop p (old ds)) = []
  else ∃ k, (0 < k)%nat ∧ (p + k ≤ length (old ds))%nat ∧
    (if decide (s32 (Z.of_nat p + n) > FileLength (hdr f))
     then FileLength (hdr f) - Z.of_nat p else n) = Z.of_nat k ∧
    take (Z.to_nat n) (drop p (old ds)) = take k (drop p (old ds)) ∧
    Z.of_nat k ≤ n.
Proof.
  intros Hd Hov. pose proof (length_contents (hdr f) Hh ds Hd) as Hl.
  pose proof (hdr_bytes _ Hh) as Hb. unfold FileLength.
  case_bool_decide as Hn; cbn [orb]; [by replace (Z.to_nat n) with 0%nat by lia|].
  case_bool_decide as Hp; [by rewrite drop_ge, take_nil by lia|].
  rewrite s32_small by lia. case_decide.
  - exists (Z.to_nat (numBytes (hdr f) - Z.of_nat p)). split_and!; try lia.
    rewrite !take_ge; [done| |]; rewrite length_drop; lia.
  - exists (Z.to_nat n). split_and!; try lia. done.
Qed.

Lemma ReadAt_spec n (p : nat) ds :
  disk_wf ds → Z.of_nat p + n < 2 ^ 31 →
  ReadAt garbage n (Z.of_nat p) f ds = Ok (take (Z.to_nat n) (drop p (old ds))).
Proof.
  intros Hd Hov. pose proof (request_check n p ds Hd Hov) as Hc. unfold ReadAt.
  destruct (bool_decide (n ≤ 0) || _); [by rewrite Hc|].
  destruct Hc as (k & Hk & Hpk & -> & -> & _).
  destruct (request_sectors p k Hk) as (a & l & -> & -> & Ha & Hl & Hal).
  rewrite length_contents in Hpk by done. pose proof (numBytes_sectors _ Hh) as Hns.
  pose proof (length_file_bytes _ Hh ds Hd) as HlF.
  replace (1 + Z.of_nat l - Z.of_nat a) with (Z.of_nat (l + 1 - a)) by lia.
  destruct (new_chars_Ok garbage (Z.of_nat (l + 1 - a) * SectorSize)) as (buf & -> & Hlb & _);
    [unfold SectorSize; lia|]. rcbn. rewrite Nat2Z.id.
  assert (length buf = (l + 1 - a) * 128)%nat as Hbuf by (unfold SectorSize in *; lia).
  rewrite (readLoop_spec _ Hh) by (done || lia). rcbn. rewrite Nat.sub_diag.
  rewrite inserts_whole by (rewrite length_take, length_drop; lia).
  rewrite <- (Nat2Z.id p) at 2.
  destruct (bytes_at_Ok (Z.of_nat p - Z.of_nat a * SectorSize) k
    (take ((l + 1 - a) * 128) (drop (a * 128) (file_bytes (hdr f) ds)))) as [E _].
  { unfold SectorSize. lia. }
  { rewrite length_take, length_drop. unfold SectorSize. lia. }
  rewrite Nat2Z.id, E, take_drop_window by (unfold SectorSize; lia). f_equal. unfold contents.
  rewrite <- (drop_0 (file_bytes _ ds)) at 2. rewrite (take_drop_window _ 0) by lia.
  do 2 f_equal. unfold SectorSize. lia.
Qed.

(** Reading a sector into the buffer of [WriteAt]. *)
Lemma read_into (c : bool) (s off : nat) (z zoff : Z) buf ds :
  disk_wf ds → Z.of_nat s ≤ 1000 → (c = true → (off + 128 ≤ length buf)%nat) →
  z = Z.of_nat s * SectorSize → zoff = Z.of_nat off →
  (if c then (bs ← ReadAt garbage SectorSize z f ds; bytes_put zoff bs buf) else mret buf) =
  Ok (if c then list_inserts off (take 128 (drop (s * 128) (old ds))) buf else buf).
Proof.
  intros Hd Hs Hoff -> ->. destruct c; [|done]. specialize (Hoff eq_refl).
  replace (Z.of_nat s * SectorSize) with (Z.of_nat (s * 128)) by (unfold SectorSize; lia).
  rewrite ReadAt_spec by (done || (unfold SectorSize; lia)). rcbn.
  rewrite bytes_put_Ok; [by rewrite Nat2Z.id|lia|].
  rewrite length_take. change (Z.to_nat SectorSize) with 128%nat. lia.
Qed.

Lemma WriteAt_spec from n (p : nat) ds :
  disk_wf ds → Forall is_byte from → Z.of_nat p + n < 2 ^ 31 → n ≤ Z.of_nat (length from) →
  ∃ ds', WriteAt garbage from n (Z.of_nat p) f ds =
      Ok (Z.of_nat (length (take (Z.to_nat n) (drop p (old ds)))), ds') ∧
    disk_wf ds' ∧ old ds' = list_inserts p (take (Z.to_nat n) from) (old ds) ∧
    ∀ s, s ∉ hdr_sectors (hdr f) → ds' !! s = ds !! s.
Proof.
  intros Hd Hfrom Hov Hlen. pose proof (request_check n p ds Hd Hov) as Hc. unfold WriteAt.
  pose proof (length_contents _ Hh ds Hd) as Hlo.
  pose proof (hdr_bytes _ Hh) as Hb. unfold MaxFileSize, NumDirect in Hb.
  change ((SectorSize - 2 * 4) `quot` 4) with 30 in Hb. unfold SectorSize in Hb.
  destruct (bool_decide (n ≤ 0) || bool_decide (FileLength _ ≤ _)) eqn:Echeck.
  { exists ds. rewrite Hc. split_and!; try done.
    destruct (decide (n ≤ 0)); [by replace (Z.to_nat n) with 0%nat by lia|].
    apply (inserts_clip p (Z.to_nat n) 0 from); [done|lia|lia]. }
  destruct Hc as (k & Hk & Hpk & -> & Htk & Hkn). rewrite Htk.
  destruct (request_sectors p k Hk) as (a & l & -> & -> & Ha & Hl & Hal).
  pose proof (numBytes_sectors _ Hh) as Hns. pose proof (length_file_bytes _ Hh ds Hd) as HlF.
  replace (1 + Z.of_nat l - Z.of_nat a) with (Z.of_nat (l + 1 - a)) by lia.
  destruct (new_chars_Ok garbage (Z.of_nat (l + 1 - a) * SectorSize)) as (buf & -> & Hlb & Hbb);
    [unfold SectorSize; lia|]. rcbn. rewrite !Nat2Z.id.
  assert (length buf = (l + 1 - a) * 128)%nat as Hbuf by (unfold SectorSize in *; lia).
  replace (bool_decide (Z.of_nat p = Z.of_nat a * SectorSize)) with (bool_decide (p = a * 128)%nat)
    by (apply bool_decide_ext; unfold SectorSize; lia).
  replace (bool_decide (Z.of_nat p + Z.of_nat k = (Z.of_nat l + 1) * SectorSize))
    with (bool_decide (p + k = (l + 1) * 128)%nat) by (apply bool_decide_ext; unfold SectorSize; lia).
  replace (bool_decide (Z.of_nat a = Z.of_nat l)) with (bool_decide (a = l))
    by (apply bool_decide_ext; lia).
  rewrite (read_into _ a 0) by (done || lia). rcbn.
  rewrite (read_into _ l ((l - a) * 128)) by
    (done || (unfold SectorSize; lia) || (intros _; case_match; rewrite ?length_inserts; lia)). rcbn.
  fold (writeBuffer (old ds) buf p k a l). set (wb := writeBuffer _ _ _ _ _ _).
  assert (length wb = ((l + 1 - a) * 128)%nat) as Hwb by (unfold wb; by rewrite length_writeBuffer).
  destruct (bytes_at_Ok 0 k from) as [-> Hdl]; [lia|lia|]. rcbn. rewrite drop_0 in *.
  rewrite bytes_put_Ok by (rewrite ?Hdl, ?Hwb; unfold SectorSize; lia). rcbn.
  replace (Z.to_nat (Z.of_nat p - Z.of_nat a * SectorSize)) with (p - a * 128)%nat by (unfold SectorSize; lia).
  set (buf' := list_inserts _ _ wb).
  assert (length buf' = ((l + 1 - a) * 128)%nat) as Hbuf' by (unfold buf'; by rewrite length_inserts).
  destruct (writeLoop_spec _ Hh (l + 1 - a) a a buf' ds) as (ds' & -> & Hd' & HF' & Hfr); try done; try lia.
  { apply Forall_inserts; [|by apply Forall_take]. unfold wb, writeBuffer.
    pose proof (contents_bytes (hdr f) ds Hd).
    repeat case_match; repeat apply Forall_inserts; auto using Forall_take, Forall_drop. }
  rcbn. exists ds'. split_and!; auto.
  - f_equal. f_equal. rewrite length_take, length_drop. lia.
  - unfold contents at 1. rewrite HF', Nat.sub_diag, drop_0, (take_ge buf'), <- Hlo by lia.
    unfold buf', wb. rewrite write_back_contents with (k := k); try done; try lia.
    + apply inserts_clip; [done|lia|lia].
    + unfold contents. rewrite length_take. f_equal. lia.
Qed.
End file.

(** ** Properties *)

(** [ReadAt] at a position given as a number. *)
Lemma ReadAt_contents garbage f n position ds :
  hdr_ok (hdr f) → disk_wf ds → 0 ≤ position → position + n < 2 ^ 31 →
  ReadAt garbage n position f ds =
  Ok (take (Z.to_nat n) (drop (Z.to_nat position) (contents (hdr f) ds))).
Proof.
  intros Hh Hd Hp Hov. rewrite <- (Z2Nat.id position) at 1 by done.
  apply ReadAt_spec; [done|done|lia].
Qed.

(** [OpenFile::ReadAt] copies exactly the bytes of the file from
    [position] on, as many as asked for and present, and none for a request
    past the end or of no bytes; nothing it does depends on what memory held. *)
Theorem ReadAt_flat garbage f n position ds :
  hdr_ok (hdr f) → disk_wf ds → 0 ≤ position → position + n < 2 ^ 31 →
  ReadAt garbage n position f ds =
  Ok (take (Z.to_nat n) (drop (Z.to_nat position) (contents (hdr f) ds))).
Proof. intros. by apply ReadAt_contents. Qed.

(** C17: [OpenFile::WriteAt] overwrites exactly the bytes of the file from
    [position] on, as many as given and fitting in the file (their number is
    the result), keeps every other byte of the file, and touches no sector
    that is not the file's, whatever the alignment of the request. *)
Theorem WriteAt_flat garbage f from n position ds :
  hdr_ok (hdr f) → disk_wf ds → Forall is_byte from → n ≤ Z.of_nat (length from) →
  0 ≤ position → position + n < 2 ^ 31 →
  ∃ count ds', WriteAt garbage from n position f ds = Ok (count, ds') ∧ disk_wf ds' ∧
    count = Z.max 0 (Z.min n (FileLength (hdr f) - position)) ∧
    contents (hdr f) ds' =
      list_inserts (Z.to_nat position) (take (Z.to_nat n) from) (contents (hdr f) ds) ∧
    ∀ s, s ∉ hdr_sectors (hdr f) → ds' !! s = ds !! s.
Proof.
  intros Hh Hd Hfrom Hn Hp Hov.
  destruct (WriteAt_spec garbage f Hh from n (Z.to_nat position) ds) as (ds' & E & ? & ? & ?);
    [done|done|lia|done|]. rewrite Z2Nat.id in E by done. rewrite E.
  do 2 eexists. split_and!; [done..| |done|done].
  rewrite length_take, length_drop, length_contents by done. pose proof (hdr_bytes _ Hh).
  unfold FileLength. lia.
Qed.

(** Writing through the seek position and reading back: after
    [Write], seeking to where it started and [Read]ing as many bytes gives the
    bytes written (those that fit in the file), and both leave the position
    after the last byte transferred. *)
Theorem Write_Seek_Read garbage garbage' f from n ds :
  hdr_ok (hdr f) → disk_wf ds → Forall is_byte from → n = Z.of_nat (length from) →
  0 ≤ seekPosition f → seekPosition f + n < 2 ^ 31 →
  ∃ count f' ds' f'', OpenFile_Write garbage from n f ds = Ok (count, f', ds') ∧
    OpenFile_Read garbage' n (Seek (seekPosition f) f') ds' = Ok (take (Z.to_nat count) from, f'') ∧
    count = Z.max 0 (Z.min n (Length f - seekPosition f)) ∧
    seekPosition f' = seekPosition f + count ∧ f'' = f'.
Proof.
  intros Hh Hd Hfrom Hn Hp Hov. unfold OpenFile_Write, OpenFile_Read.
  destruct f as [h q]; cbn [hdr seekPosition] in *.
  destruct (Z_of_nat_complete q Hp) as [p ->].
  set (f := mkOpenFile h (Z.of_nat p)).
  destruct (WriteAt_spec garbage f Hh from n p ds) as (ds' & E & Hd' & Hc & _);
    [done|done|lia|lia|]. cbn [hdr f] in *. rewrite E. rcbn.
  set (count := Z.of_nat (length (take _ _))) in *. exists count. do 3 eexists. split; [reflexivity|].
  cbn [Seek hdr seekPosition].
  rewrite (ReadAt_spec garbage' (mkOpenFile h (Z.of_nat p)) Hh) by (done || lia). rcbn. cbn [hdr].
  assert (count = Z.max 0 (Z.min n (numBytes h - Z.of_nat p))) as Hcount.
  { unfold count. rewrite length_take, length_drop, length_contents by done.
    pose proof (hdr_bytes _ Hh). lia. }
  assert (take (Z.to_nat n) (drop p (contents h ds')) = take (Z.to_nat count) from) as Hread.
  { rewrite Hc, (take_ge from) by lia.
    apply list_eq. intros j. destruct (decide (j < Z.to_nat count)%nat).
    - rewrite !lookup_take_lt, lookup_drop, lookup_inserts, length_contents by (done || lia).
      rewrite decide_True by lia. f_equal. lia.
    - rewrite (lookup_take_ge from) by lia. apply lookup_ge_None_2.
      rewrite length_take, length_drop, length_inserts, length_contents by done. lia. }
  rewrite Hread. split_and!; [done|done|done|].
  f_equal. rewrite length_take. lia.
Qed.

(** ** Witnesses *)

Definition example_header : FileHeader :=
  mkFileHeader 300 3 ([7; 3; 900] ++ replicate 27 0).
Definition example_file : OpenFile := mkOpenFile example_header 100.

Lemma example_header_ok : hdr_ok example_header.
Proof.
  split; cbn.
  - vm_compute. split; congruence.
  - reflexivity.
  - reflexivity.
  - repeat constructor; vm_compute; congruence.
  - repeat constructor; vm_compute; congruence.
  - repeat constructor; set_solver.
Qed.

Lemma ReadAt_flat_witness :
  ∃ bs, ReadAt (λ _, 9) 250 100 example_file empty_disk = Ok bs ∧ bs = replicate 200 0.
Proof.
  eexists. split.
  - apply ReadAt_flat; [exact example_header_ok|exact empty_disk_wf|lia|lia].
  - vm_compute. reflexivity.
Defined.

Lemma WriteAt_flat_witness :
  ∃ ds', WriteAt (λ _, 9) (replicate 250 5) 250 100 example_file empty_disk = Ok (200, ds') ∧
    contents example_header ds' = replicate 100 0 ++ replicate 200 5.
Proof.
  destruct (WriteAt_flat (λ _, 9) example_file (replicate 250 5) 250 100 empty_disk)
    as (count & ds' & E & _ & Hcount & Hc & _).
  - exact example_header_ok.
  - exact empty_disk_wf.
  - apply Forall_replicate. unfold is_byte. lia.
  - reflexivity.
  - lia.
  - lia.
  - exists ds'. split; [rewrite E, Hcount; reflexivity|].
    cbn [hdr example_file] in Hc. rewrite Hc. vm_compute. reflexivity.
Defined.

Lemma Write_Seek_Read_witness :
  ∃ f' ds' f'', OpenFile_Write (λ _, 9) (replicate 250 5) 250 example_file empty_disk = Ok (200, f', ds') ∧
    OpenFile_Read (λ _, 4) 250 (Seek 100 f') ds' = Ok (replicate 200 5, f'').
Proof.
  destruct (Write_Seek_Read (λ _, 9) (λ _, 4) example_file (replicate 250 5) 250 empty_disk)
    as (count & f' & ds' & f'' & E & E' & Hcount & _).
  - exact example_header_ok.
  - exact empty_disk_wf.
  - apply Forall_replicate. unfold is_byte. lia.
  - reflexivity.
  - vm_compute. congruence.
  - vm_compute. reflexivity.
  - change (count = 200) in Hcount. subst count. exists f', ds', f''. split; [done|].
    cbn [seekPosition example_file] in E'. rewrite E'. reflexivity.
Defined.
