(* ===== verification/Directory.v ===== *)
(** * filesys/directory.cc: the directory

    The table of entries with the layout of the C++ object (20 bytes: [inUse],
    3 bytes of padding, [sector], [name] and 2 bytes of padding), so that
    [FetchFrom] and [WriteBack] move its bytes.  A file name is a C string: the
    list of its characters, without the final NUL.  [dir_map] is the abstract
    directory, a finite map from names cut to [FileNameMaxLen] characters to
    header sectors. *)

From S2P Require Import Prelude Bytes Bitmap Disk FileHdr OpenFile.

Local Open Scope Z_scope.

Definition FileNameMaxLen : nat := 9.
Definition entry_size : nat := 20.

Record DirectoryEntry := mkDirectoryEntry {
  inUse : bool;
  pad : list Z;
  sector : Z;
  name : list Z;
  endpad : list Z;
}.

Record Directory := mkDirectory {
  tableSize : Z;
  table : list DirectoryEntry;
}.

(** ** The bytes of entries *)

Definition entry_bytes (e : DirectoryEntry) : list Z :=
  [if inUse e then 1 else 0] ++ pad e ++ int_bytes (sector e) ++ name e ++ endpad e.

Definition bytes_entry (bs : list Z) : DirectoryEntry :=
  mkDirectoryEntry (bool_decide (hd 0 bs ≠ 0)) (take 3 (drop 1 bs))
    (s32 (little_endian_to_Z 8 (take 4 (drop 4 bs)))) (take 10 (drop 8 bs)) (take 2 (drop 18 bs)).

Fixpoint table_bytes (t : list DirectoryEntry) : list Z :=
  match t with
  | [] => []
  | e :: t => entry_bytes e ++ table_bytes t
  end.

Fixpoint bytes_table (n : nat) (bs : list Z) : list DirectoryEntry :=
  match n with
  | O => []
  | S n => bytes_entry (take entry_size bs) :: bytes_table n (drop entry_size bs)
  end.

(** ** [strncmp] and [strncpy] *)

(** [!strncmp(s, t, n)] *)
Fixpoint strncmp_eq (n : nat) (s t : list Z) : bool :=
  match n with
  | O => true
  | S n =>
      if decide (hd 0 s = hd 0 t) then
        if decide (hd 0 s = 0) then true else strncmp_eq n (tail s) (tail t)
      else false
  end.

(** [strncpy(dst, src, n)]: the characters, then NULs up to [n]. *)
Definition strncpy (dst src : list Z) (n : nat) : list Z :=
  take n (src ++ replicate n 0) ++ drop n dst.

(** [printf("%s", s)] prints up to the first NUL, wherever it is. *)
Fixpoint print_string (s : list Z) : Result (list Z) :=
  match s with
  | [] => Err MemFault
  | c :: s => if decide (c = 0) then mret [] else rest ← print_string s; mret (c :: rest)
  end.

(** ** The operations *)

Section operations.
Context (garbage : nat → Z).

(** [Directory::Directory(size)] *)
Definition new_Directory (size : Z) : Directory :=
  mkDirectory size
    ((λ i, let e := bytes_entry ((λ j, garbage (i * entry_size + j)%nat `mod` 256) <$> seq 0 entry_size) in
           mkDirectoryEntry false (pad e) (sector e) (name e) (endpad e))
       <$> seq 0 (Z.to_nat size)).

Definition Directory_FetchFrom (file : OpenFile) (ds : list (list Z)) (d : Directory) : Result Directory :=
  bs ← ReadAt garbage (tableSize d * Z.of_nat entry_size) 0 file ds;
  bs ← bytes_put 0 bs (table_bytes (table d));
  mret (mkDirectory (tableSize d) (bytes_table (length (table d)) bs)).

Definition Directory_WriteBack (file : OpenFile) (d : Directory) (ds : list (list Z))
  : Result (list (list Z)) :=
  '(_, ds) ← WriteAt garbage (table_bytes (table d)) (tableSize d * Z.of_nat entry_size) 0 file ds;
  mret ds.
End operations.

Fixpoint findIndexLoop (n i : nat) (nm : list Z) (t : list DirectoryEntry) : Result Z :=
  match n with
  | O => mret (-1)
  | S n =>
      e ← deref (t !! i);
      if inUse e && strncmp_eq FileNameMaxLen (name e) nm then mret (Z.of_nat i)
      else findIndexLoop n (S i) nm t
  end.

Definition FindIndex (nm : list Z) (d : Directory) : Result Z :=
  findIndexLoop (Z.to_nat (tableSize d)) 0 nm (table d).

Definition Directory_Find (nm : list Z) (d : Directory) : Result Z :=
  i ← FindIndex nm d;
  if decide (i = -1) then mret (-1)
  else e ← deref (table d !! Z.to_nat i); mret (sector e).

Fixpoint addLoop (n i : nat) (nm : list Z) (newSector : Z) (t : list DirectoryEntry)
  : Result (bool * list DirectoryEntry) :=
  match n with
  | O => mret (false, t)
  | S n =>
      e ← deref (t !! i);
      if inUse e then addLoop n (S i) nm newSector t
      else mret (true, <[i := mkDirectoryEntry true (pad e) newSector
                                (strncpy (name e) nm FileNameMaxLen) (endpad e)]> t)
  end.

Definition Directory_Add (nm : list Z) (newSector : Z) (d : Directory) : Result (bool * Directory) :=
  i ← FindIndex nm d;
  if decide (i = -1) then
    '(ok, t) ← addLoop (Z.to_nat (tableSize d)) 0 nm newSector (table d);
    mret (ok, mkDirectory (tableSize d) t)
  else mret (false, d).

Definition Directory_Remove (nm : list Z) (d : Directory) : Result (bool * Directory) :=
  i ← FindIndex nm d;
  if decide (i = -1) then mret (false, d)
  else
    e ← deref (table d !! Z.to_nat i);
    mret (true, mkDirectory (tableSize d)
      (<[Z.to_nat i := mkDirectoryEntry false (pad e) (sector e) (name e) (endpad e)]> (table d))).

(** [Directory::List]: the lines printed. *)
Fixpoint listLoop (n i : nat) (t : list DirectoryEntry) : Result (list (list Z)) :=
  match n with
  | O => mret []
  | S n =>
      e ← deref (t !! i);
      if inUse e then
        line ← print_string (name e); rest ← listLoop n (S i) t; mret (line :: rest)
      else listLoop n (S i) t
  end.

Definition Directory_List (d : Directory) : Result (list (list Z)) :=
  listLoop (Z.to_nat (tableSize d)) 0 (table d).

(** ** Well-formedness, and the abstract directory *)

(** The name an entry stands for, and the part of a name that counts. *)
Fixpoint cname (n : nat) (s : list Z) : list Z :=
  match n, s with
  | S n, c :: s => if decide (c = 0) then [] else c :: cname n s
  | _, _ => []
  end.

Definition entry_key (e : DirectoryEntry) : list Z := cname FileNameMaxLen (name e).
Definition key (nm : list Z) : list Z := take FileNameMaxLen nm.

(** A C string of characters. *)
Definition is_name (nm : list Z) : Prop := Forall (λ c, 0 < c < 256) nm.

Record entry_ok (e : DirectoryEntry) : Prop := mk_entry_ok {
  entry_pad : length (pad e) = 3%nat ∧ Forall is_byte (pad e);
  entry_sector : is_int (sector e);
  entry_name : length (name e) = 10%nat ∧ Forall is_byte (name e);
  entry_endpad : length (endpad e) = 2%nat ∧ Forall is_byte (endpad e);
}.

Definition listed (t : list DirectoryEntry) : list (list Z * Z) :=
  omap (λ e, if inUse e then Some (entry_key e, sector e) else None) t.

Record dir_ok (d : Directory) : Prop := mk_dir_ok {
  dir_size : tableSize d = Z.of_nat (length (table d));
  dir_entries : Forall entry_ok (table d);
  dir_nodup : NoDup (listed (table d)).*1;
}.

Definition dir_map (d : Directory) : gmap (list Z) Z := list_to_map (listed (table d)).

(** ** Strings *)

Lemma strncmp_eq_spec n s t :
  is_name t → strncmp_eq n s t = bool_decide (cname n s = take n t).
Proof.
  intros Ht. revert s t Ht. induction n as [|n IH]; intros s t Ht; [by destruct s|].
  cbn [strncmp_eq]. destruct Ht as [|c t Hc Ht]; cbn [hd tail take].
  - destruct s as [|c s]; cbn; [done|]. by repeat case_decide.
  - destruct s as [|c' s]; cbn; [by rewrite decide_False by lia|].
    destruct (decide (c' = c)) as [->|].
    + rewrite !(decide_False (P := c = 0)) by lia. rewrite IH by done.
      apply bool_decide_ext. split; congruence.
    + symmetry. apply bool_decide_false. case_decide; congruence.
Qed.

Lemma cname_app n s t :
  is_name t → (length t ≤ n)%nat →
  cname n (t ++ s) = t ++ cname (n - length t) s.
Proof.
  intros Ht. revert n. induction Ht as [|c t Hc Ht IH]; intros n Hn; cbn [app length] in *.
  - by rewrite Nat.sub_0_r.
  - destruct n as [|n]; [lia|]. cbn [cname]. rewrite decide_False, IH by lia. done.
Qed.

Lemma cname_zeros n m s : (n ≤ m)%nat → cname n (replicate m 0 ++ s) = [].
Proof. intros. destruct n, m; cbn; try done. lia. Qed.

Lemma cname_strncpy dst nm : is_name nm → cname FileNameMaxLen (strncpy dst nm FileNameMaxLen) = key nm.
Proof.
  intros Hn. unfold strncpy, key. generalize FileNameMaxLen. intros n.
  rewrite take_app, take_replicate. rewrite <- app_assoc, cname_app; [|by apply Forall_take|rewrite length_take; lia].
  rewrite length_take, cname_zeros by lia. apply app_nil_r.
Qed.

Lemma length_strncpy dst nm n : (n ≤ length dst)%nat → length (strncpy dst nm n) = length dst.
Proof.
  intros Hl. unfold strncpy. rewrite length_app, length_take, length_app, length_replicate, length_drop. lia.
Qed.

Lemma is_name_bytes nm : is_name nm → Forall is_byte nm.
Proof. intros Hn. eapply Forall_impl; [exact Hn|]. unfold is_byte. lia. Qed.

(** ** Entries and bytes *)

Lemma length_entry_bytes e : entry_ok e → length (entry_bytes e) = entry_size.
Proof.
  intros [[Hp _] _ [Hn _] [Hq _]]. unfold entry_bytes. rewrite !length_app, length_int_bytes, Hp, Hn, Hq. done.
Qed.

Lemma entry_bytes_bytes e : entry_ok e → Forall is_byte (entry_bytes e).
Proof.
  intros [[_ Hp] _ [_ Hn] [_ Hq]]. unfold entry_bytes. rewrite !Forall_app.
  split_and!; auto using int_bytes_bytes. repeat constructor; destruct (inUse e); unfold is_byte; lia.
Qed.

Lemma entry_roundtrip e : entry_ok e → bytes_entry (entry_bytes e) = e.
Proof.
  intros [[Hp _] Hs [Hn _] [Hq _]]. destruct e as [u p s n q]; cbn in *.
  pose proof (length_int_bytes s) as Hi. unfold bytes_entry, entry_bytes; cbn [inUse pad sector name endpad].
  f_equal.
  - by destruct u.
  - change (drop 1 ((if u then 1 else 0) :: p ++ int_bytes s ++ n ++ q)) with (p ++ int_bytes s ++ n ++ q).
    by rewrite take_app_length'.
  - change (drop 4 ((if u then 1 else 0) :: p ++ int_bytes s ++ n ++ q)) with (drop 3 (p ++ int_bytes s ++ n ++ q)).
    rewrite drop_app_length', take_app_length' by done. unfold int_bytes.
    rewrite little_endian_to_Z_to_little_endian by lia. change (s32 (u32 s) = s). rewrite s32_u32. by apply s32_small.
  - change (drop 8 ((if u then 1 else 0) :: p ++ int_bytes s ++ n ++ q)) with (drop 7 (p ++ int_bytes s ++ n ++ q)).
    rewrite (app_assoc p), drop_app_length', take_app_length' by (rewrite ?length_app; lia). done.
  - change (drop 18 ((if u then 1 else 0) :: p ++ int_bytes s ++ n ++ q)) with (drop 17 (p ++ int_bytes s ++ n ++ q)).
    rewrite (app_assoc _ n), (app_assoc p), drop_app_length', take_ge by (rewrite ?length_app; lia). done.
Qed.

Lemma length_table_bytes t : Forall entry_ok t → length (table_bytes t) = (length t * entry_size)%nat.
Proof. induction 1; cbn [table_bytes length]; [done|]. rewrite length_app, length_entry_bytes by done. lia. Qed.

Lemma table_bytes_bytes t : Forall entry_ok t → Forall is_byte (table_bytes t).
Proof. induction 1; cbn [table_bytes]; [constructor|]. apply Forall_app. auto using entry_bytes_bytes. Qed.

Lemma table_roundtrip t : Forall entry_ok t → bytes_table (length t) (table_bytes t) = t.
Proof.
  induction 1 as [|e t He Ht IH]; [done|]. cbn [bytes_table table_bytes length].
  rewrite take_app_length', drop_app_length' by (symmetry; by apply length_entry_bytes).
  by rewrite entry_roundtrip, IH.
Qed.

(** ** The operations on the abstract directory *)

Lemma listed_middle t1 e t2 :
  listed (t1 ++ e :: t2) =
  listed t1 ++ (if inUse e then [(entry_key e, sector e)] else []) ++ listed t2.
Proof. unfold listed. rewrite omap_app. cbn. by destruct (inUse e). Qed.

Lemma elem_of_listed t k s :
  (k, s) ∈ listed t ↔ ∃ e, e ∈ t ∧ inUse e = true ∧ entry_key e = k ∧ sector e = s.
Proof.
  unfold listed. rewrite list_elem_of_omap. split.
  - intros (e & He & Hs). destruct (inUse e) eqn:Hu; [|done]. injection Hs as <- <-. eauto.
  - intros (e & He & Hu & <- & <-). exists e. by rewrite Hu.
Qed.

Lemma findIndexLoop_spec n i nm t :
  is_name nm → (i + n = length t)%nat →
  findIndexLoop n i nm t =
  Ok (match list_find (λ e, inUse e = true ∧ entry_key e = key nm) (drop i t) with
      | Some (j, _) => Z.of_nat (i + j)
      | None => -1
      end).
Proof.
  intros Hnm. revert i. induction n as [|n IH]; intros i Hi; cbn [findIndexLoop].
  - by rewrite drop_ge by lia.
  - destruct (lookup_lt_is_Some_2 t i) as [e He]; [lia|]. rewrite He, (drop_S _ _ _ He). rcbn.
    cbn [list_find]. rewrite strncmp_eq_spec by done. fold (entry_key e). unfold key at 1.
    destruct (inUse e); cbn [andb].
    + case_bool_decide as Hk; [rewrite decide_True by done; f_equal; f_equal; lia|].
      rewrite decide_False by (intros [_ ?]; done). rewrite IH by lia.
      destruct (list_find _ _) as [[j x]|]; cbn; [|done]. f_equal. lia.
    + rewrite decide_False by (intros [? _]; done). rewrite IH by lia.
      destruct (list_find _ _) as [[j x]|]; cbn; [|done]. f_equal. lia.
Qed.

Lemma FindIndex_spec nm d :
  dir_ok d → is_name nm →
  (∃ i e, FindIndex nm d = Ok (Z.of_nat i) ∧ table d !! i = Some e ∧ inUse e = true ∧
     entry_key e = key nm ∧ dir_map d !! key nm = Some (sector e)) ∨
  (FindIndex nm d = Ok (-1) ∧ dir_map d !! key nm = None).
Proof.
  intros [Hs Hok Hnd] Hnm. unfold FindIndex. rewrite Hs, Nat2Z.id, findIndexLoop_spec, drop_0 by done.
  destruct (list_find _ _) as [[i e]|] eqn:E.
  - apply list_find_Some in E as (Hi & [Hu Hk] & _). left. exists i, e. split_and!; auto.
    apply elem_of_list_to_map; [done|]. apply elem_of_listed. exists e. split_and!; auto.
    by eapply list_elem_of_lookup_2.
  - right. split; [done|]. apply list_find_None in E. apply not_elem_of_list_to_map.
    intros ([k s] & Hk & Hin)%list_elem_of_fmap. cbn in Hk. subst k.
    apply elem_of_listed in Hin as (e & He & Hu & Hk & _).
    rewrite Forall_forall in E. by apply (E e He).
Qed.

Lemma Directory_Find_spec nm d :
  dir_ok d → is_name nm →
  Directory_Find nm d = Ok (default (-1) (dir_map d !! key nm)).
Proof.
  intros Hd Hnm. unfold Directory_Find.
  destruct (FindIndex_spec nm d Hd Hnm) as [(i & e & -> & Hi & _ & _ & ->)|[-> ->]]; rcbn; [|done].
  rewrite decide_False by lia. by rewrite Nat2Z.id, Hi.
Qed.

Lemma addLoop_spec n i nm s t :
  (i + n = length t)%nat → Forall (λ e, inUse e = true) (take i t) →
  (∃ t1 e t2, t = t1 ++ e :: t2 ∧ inUse e = false ∧
    addLoop n i nm s t = Ok (true, t1 ++
      mkDirectoryEntry true (pad e) s (strncpy (name e) nm FileNameMaxLen) (endpad e) :: t2)) ∨
  (addLoop n i nm s t = Ok (false, t) ∧ Forall (λ e, inUse e = true) t).
Proof.
  revert i. induction n as [|n IH]; intros i Hi Hall; cbn [addLoop].
  - right. by rewrite take_ge in Hall by lia.
  - destruct (lookup_lt_is_Some_2 t i) as [e He]; [lia|]. rewrite He. rcbn.
    destruct (inUse e) eqn:Hu.
    + apply IH; [lia|]. rewrite (take_S_r _ _ _ He). apply Forall_app. by repeat constructor.
    + left. exists (take i t), e, (drop (S i) t). split_and!; [by rewrite take_drop_middle|done|].
      rewrite insert_take_drop by lia. done.
Qed.

Lemma listed_full t : Forall (λ e, inUse e = true) t → length (listed t) = length t.
Proof.
  induction 1 as [|e t He Ht IH]; [done|].
  change (e :: t) with ([] ++ e :: t) at 1; rewrite listed_middle, He. cbn. by rewrite IH.
Qed.

Lemma length_listed t : (length (listed t) ≤ length t)%nat.
Proof.
  induction t as [|e t IH]; [done|]. change (e :: t) with ([] ++ e :: t) at 1; rewrite listed_middle. cbn.
  rewrite length_app. case_match; cbn; lia.
Qed.

Lemma size_dir_map d : dir_ok d → size (dir_map d) = length (listed (table d)).
Proof. intros Hd. unfold dir_map. rewrite map_size_list_to_map; [done|apply (dir_nodup d Hd)]. Qed.

Lemma entry_ok_add e nm s :
  entry_ok e → is_name nm → is_int s →
  entry_ok (mkDirectoryEntry true (pad e) s (strncpy (name e) nm FileNameMaxLen) (endpad e)).
Proof.
  intros [? ? [Hn Hb] ?] Hnm ?. split; auto. split; cbn [name].
  - rewrite length_strncpy; [done|]. rewrite Hn. unfold FileNameMaxLen. lia.
  - apply Forall_app. split; [|by apply Forall_drop].
    apply Forall_take, Forall_app. split; [by apply is_name_bytes|].
    apply Forall_replicate. unfold is_byte. lia.
Qed.

Lemma Directory_Add_spec nm s d :
  dir_ok d → is_name nm → is_int s →
  if decide (dir_map d !! key nm = None ∧ Z.of_nat (size (dir_map d)) < tableSize d) then
    ∃ d', Directory_Add nm s d = Ok (true, d') ∧ dir_ok d' ∧ tableSize d' = tableSize d ∧
      dir_map d' = <[key nm := s]> (dir_map d)
  else Directory_Add nm s d = Ok (false, d).
Proof.
  intros Hd Hnm Hs. rewrite size_dir_map by done. pose proof Hd as [Hsz Hok Hnd]. unfold Directory_Add.
  destruct (FindIndex_spec nm d Hd Hnm) as [(i & e & -> & Hi & _ & _ & Hm)|[-> Hm]]; rcbn.
  { rewrite decide_False by (intros [? _]; congruence). by rewrite decide_False by lia. }
  rewrite Hsz, Nat2Z.id. cbn [decide]. rewrite (decide_True (P := -1 = -1)) by done.
  destruct (addLoop_spec (length (table d)) 0 nm s (table d)) as [(t1 & e & t2 & Ht & Hu & ->)|[-> Hall]];
    [done|by rewrite take_0| |].
  - pose proof (length_listed t1). pose proof (length_listed t2).
    rewrite decide_True.
    2:{ split; [done|]. rewrite Ht, listed_middle, Hu, !length_app. cbn [length]. lia. }
    rcbn. eexists. split; [done|].
    assert ((listed (t1 ++ mkDirectoryEntry true (pad e) s (strncpy (name e) nm FileNameMaxLen) (endpad e) :: t2))
      ≡ₚ (key nm, s) :: listed (table d)) as Hp.
    { rewrite Ht, !listed_middle, Hu. cbn [inUse sector app]. unfold entry_key; cbn [name].
      rewrite cname_strncpy by done. by rewrite Permutation_middle. }
    assert (NoDup (((key nm, s) :: listed (table d)).*1)) as Hnd'.
    { rewrite fmap_cons. constructor; [|done]. by apply not_elem_of_list_to_map. }
    split_and!; cbn.
    + split; cbn.
      * rewrite Ht, !length_app. done.
      * rewrite Ht, !Forall_app, !Forall_cons in *. destruct Hok as (? & ? & ?).
        split_and!; [done|by apply entry_ok_add|done].
      * by rewrite Hp.
    + congruence.
    + unfold dir_map; cbn [table]. rewrite <- list_to_map_cons.
      apply list_to_map_proper; [rewrite Hp; exact Hnd'|exact Hp].
  - rewrite decide_False; [rcbn; rewrite <- Hsz; by destruct d|]. intros [_ Hlt]. rewrite listed_full in Hlt by done. lia.
Qed.

Lemma Directory_Remove_spec nm d :
  dir_ok d → is_name nm →
  if decide (dir_map d !! key nm = None) then Directory_Remove nm d = Ok (false, d)
  else ∃ d', Directory_Remove nm d = Ok (true, d') ∧ dir_ok d' ∧ tableSize d' = tableSize d ∧
    dir_map d' = delete (key nm) (dir_map d).
Proof.
  intros Hd Hnm. unfold Directory_Remove.
  destruct (FindIndex_spec nm d Hd Hnm) as [(i & e & -> & Hi & Hu & Hk & Hm)|[-> Hm]]; rcbn.
  2:{ by rewrite !decide_True. }
  rewrite Hm, decide_False by done. rewrite decide_False by lia. rewrite Nat2Z.id, Hi. rcbn.
  eexists. split; [done|]. pose proof Hd as [Hsz Hok Hnd].
  pose proof (lookup_lt_Some _ _ _ Hi) as Hlt.
  assert (table d = take i (table d) ++ e :: drop (S i) (table d)) as Ht by by rewrite take_drop_middle.
  assert (listed (table d) ≡ₚ (key nm, sector e) :: listed (take i (table d)) ++ listed (drop (S i) (table d))) as Hp.
  { rewrite Ht at 1. rewrite listed_middle, Hu, Hk. cbn. by rewrite Permutation_middle. }
  rewrite insert_take_drop by done.
  assert (entry_ok e) as [????] by by eapply Forall_lookup_1 in Hok.
  rewrite Hp, fmap_cons in Hnd. apply NoDup_cons in Hnd as [Hnk Hnd].
  split_and!; [|done|].
  - split; cbn [tableSize table].
    + rewrite Hsz, Ht at 1. by rewrite !length_app.
    + rewrite Ht, Forall_app, Forall_cons in Hok. rewrite Forall_app, Forall_cons.
      destruct Hok as (? & _ & ?). split_and!; [done|by split|done].
    + by rewrite listed_middle.
  - unfold dir_map; cbn [table]. rewrite listed_middle. cbn [inUse app].
    rewrite (list_to_map_proper (listed (table d)) _ ltac:(rewrite Hp, fmap_cons; by apply NoDup_cons) Hp).
    cbn. rewrite delete_insert_id; [done|]. by apply not_elem_of_list_to_map.
Qed.

(** ** The directory on disk *)

Lemma bytes_entry_ok bs : length bs = entry_size → Forall is_byte bs → entry_ok (bytes_entry bs).
Proof.
  intros Hl Hb. unfold entry_size in Hl. unfold bytes_entry. split; cbn [pad sector name endpad].
  - rewrite length_take, length_drop, Hl. split; [done|by apply Forall_take, Forall_drop].
  - unfold is_int. pose proof (s32_range (little_endian_to_Z 8 (take 4 (drop 4 bs)))). lia.
  - rewrite length_take, length_drop, Hl. split; [done|by apply Forall_take, Forall_drop].
  - rewrite length_take, length_drop, Hl. split; [done|by apply Forall_take, Forall_drop].
Qed.

Lemma new_Directory_ok garbage size :
  0 ≤ size →
  dir_ok (new_Directory garbage size) ∧ tableSize (new_Directory garbage size) = size ∧
  dir_map (new_Directory garbage size) = ∅.
Proof.
  intros Hs. unfold new_Directory, dir_map; cbn [tableSize table].
  set (entry := λ i : nat, _).
  assert (listed (entry <$> seq 0 (Z.to_nat size)) = []) as Hl.
  { generalize (seq 0 (Z.to_nat size)). intros l. induction l as [|i l IH]; [done|].
    rewrite fmap_cons. etrans; [apply (listed_middle [] (entry i))|done]. }
  rewrite Hl. split_and!; [|done|done]. split; cbn [tableSize table].
  - rewrite length_fmap, length_seq. lia.
  - apply Forall_fmap, Forall_true. intros i. unfold compose, entry.
    set (bs := _ <$> seq 0 entry_size).
    assert (entry_ok (bytes_entry bs)) as [????].
    { apply bytes_entry_ok; [unfold bs; by rewrite length_fmap, length_seq|].
      apply Forall_fmap, Forall_true. intros j. unfold compose, is_byte.
      pose proof (Z.mod_pos_bound (garbage (i * entry_size + j)%nat) 256). lia. }
    by split.
  - rewrite Hl. apply NoDup_nil_2.
Qed.

(** The file [file] holds the directory [d]. *)
Definition holds_dir (file : OpenFile) (d : Directory) (ds : list (list Z)) : Prop :=
  contents (hdr file) ds = table_bytes (table d).

Lemma Directory_FetchFrom_spec garbage file ds d d0 :
  hdr_ok (hdr file) → disk_wf ds → dir_ok d → dir_ok d0 → tableSize d = tableSize d0 →
  holds_dir file d ds → Directory_FetchFrom garbage file ds d0 = Ok d.
Proof.
  intros Hh Hds [Hs Hok _] [Hs0 Hok0 _] Heq Hc. unfold holds_dir in Hc. unfold Directory_FetchFrom.
  assert (length (table d0) = length (table d)) as Hl by lia.
  pose proof (length_contents _ Hh ds Hds) as Hlen.
  rewrite Hc, length_table_bytes in Hlen by done. pose proof (hdr_bytes _ Hh) as Hb.
  unfold MaxFileSize, NumDirect, SectorSize in Hb. change ((128 - 2 * 4) `quot` 4) with 30 in Hb.
  rewrite (ReadAt_spec garbage file Hh _ 0) by (done || (rewrite Hs0, Hl; unfold entry_size in *; lia)).
  rcbn. rewrite drop_0, Hc, take_ge by (rewrite length_table_bytes by done; unfold entry_size; lia).
  rewrite bytes_put_Ok by (rewrite ?length_table_bytes by done; lia). rcbn.
  rewrite inserts_whole by (rewrite !length_table_bytes by done; congruence).
  rewrite Hl, table_roundtrip, <- Heq by done. by destruct d.
Qed.

Lemma Directory_WriteBack_spec garbage file ds d :
  hdr_ok (hdr file) → disk_wf ds → dir_ok d →
  numBytes (hdr file) = tableSize d * Z.of_nat entry_size →
  ∃ ds', Directory_WriteBack garbage file d ds = Ok ds' ∧ disk_wf ds' ∧ holds_dir file d ds' ∧
    ∀ s, s ∉ hdr_sectors (hdr file) → ds' !! s = ds !! s.
Proof.
  intros Hh Hds [Hs Hok _] Hn. unfold Directory_WriteBack.
  pose proof (length_table_bytes _ Hok) as Hl. pose proof (hdr_bytes _ Hh) as Hb.
  unfold MaxFileSize, NumDirect, SectorSize in Hb. change ((128 - 2 * 4) `quot` 4) with 30 in Hb.
  destruct (WriteAt_spec garbage file Hh (table_bytes (table d)) (tableSize d * Z.of_nat entry_size) 0 ds)
    as (ds' & E & Hd' & Hc & Hfr); [done|by apply table_bytes_bytes|lia|rewrite Hs, Hl; lia|].
  change (Z.of_nat 0) with 0 in E. rewrite E. rcbn. exists ds'. split_and!; auto.
  unfold holds_dir. rewrite Hc, take_ge by (rewrite Hs, Hl; lia).
  apply inserts_whole. rewrite length_contents, Hl, Hn, Hs by done. lia.
Qed.

(** ** Properties *)

(** C39: The directory implements a finite map from names, cut to
    [FileNameMaxLen] characters, to header sectors: [Find] looks a name up
    (-1 if absent), [Add] adds a name exactly when it is absent and the table
    has a free entry, [Remove] deletes a name exactly when it is present, a
    failed call changes nothing, and writing the directory to a file of its
    size and fetching it gives it back, whatever memory held. *)
Theorem Directory_refines_map d nm s garbage garbage' file ds :
  dir_ok d → is_name nm → is_int s →
  hdr_ok (hdr file) → disk_wf ds → numBytes (hdr file) = tableSize d * Z.of_nat entry_size →
  Directory_Find nm d = Ok (default (-1) (dir_map d !! key nm)) ∧
  (∃ ok d', Directory_Add nm s d = Ok (ok, d') ∧ dir_ok d' ∧
    (ok = true ↔ dir_map d !! key nm = None ∧ Z.of_nat (size (dir_map d)) < tableSize d) ∧
    dir_map d' = if ok then <[key nm := s]> (dir_map d) else dir_map d) ∧
  (∃ ok d', Directory_Remove nm d = Ok (ok, d') ∧ dir_ok d' ∧
    (ok = true ↔ is_Some (dir_map d !! key nm)) ∧ dir_map d' = delete (key nm) (dir_map d)) ∧
  (∃ ds', Directory_WriteBack garbage file d ds = Ok ds' ∧
    Directory_FetchFrom garbage file ds' (new_Directory garbage' (tableSize d)) = Ok d).
Proof.
  intros Hd Hnm Hs Hh Hds Hn. split_and!.
  - by apply Directory_Find_spec.
  - pose proof (Directory_Add_spec nm s d Hd Hnm Hs) as H. case_decide.
    + destruct H as (d' & ? & ? & _ & ?). exists true, d'. by split_and!.
    + exists false, d. split_and!; [done|done|split; done|done].
  - pose proof (Directory_Remove_spec nm d Hd Hnm) as H. case_decide as Hm.
    + exists false, d. rewrite Hm, delete_id by done. split_and!; [done|done| |done].
      split; [done|]. by intros [].
    + destruct H as (d' & ? & ? & _ & ?). exists true, d'. split_and!; [done|done| |done].
      split; [|done]. intros _. by apply not_eq_None_Some.
  - destruct (Directory_WriteBack_spec garbage file ds d Hh Hds Hd Hn) as (ds' & ? & ? & ? & _).
    exists ds'. split; [done|]. pose proof (dir_size d Hd).
    destruct (new_Directory_ok garbage' (tableSize d)) as (? & ? & _); [lia|].
    by apply Directory_FetchFrom_spec.
Qed.

(** Two names that agree on the first nine characters are one name. *)
Example long_names_clash :
  let d := new_Directory (λ _, 0) 10 in
  (fst <$> ('(_, d) ← Directory_Add [97; 98; 99; 100; 101; 102; 103; 104; 105; 106] 5 d;
            Directory_Add [97; 98; 99; 100; 101; 102; 103; 104; 105; 107] 6 d)) = Ok false.
Proof. vm_compute. reflexivity. Qed.

(** [strncpy] does not terminate a name of nine characters: what [List] then
    prints runs past the entry's [name] unless memory happened to hold a NUL
    there. *)
Example nine_character_name_unterminated :
  let nm := [97; 98; 99; 100; 101; 102; 103; 104; 105] in
  ('(_, d) ← Directory_Add nm 5 (new_Directory (λ _, 88) 10); Directory_List d) = Err MemFault ∧
  ('(_, d) ← Directory_Add nm 5 (new_Directory (λ _, 0) 10); Directory_List d) = Ok [nm].
Proof. split; vm_compute; reflexivity. Qed.

(** ** Witness *)

Definition example_dir_file : OpenFile :=
  mkOpenFile (mkFileHeader 200 2 ([3; 4] ++ replicate 28 0)) 0.

Lemma example_dir_file_ok : hdr_ok (hdr example_dir_file).
Proof.
  split; cbn.
  - vm_compute. split; congruence.
  - reflexivity.
  - reflexivity.
  - repeat constructor; vm_compute; congruence.
  - repeat constructor; vm_compute; congruence.
  - repeat constructor; set_solver.
Qed.

Lemma Directory_refines_map_witness :
  ∃ d', Directory_Add [97; 98] 7 (new_Directory (λ _, 88) 10) = Ok (true, d') ∧
    dir_map d' = <[ [97; 98] := 7 ]> ∅.
Proof.
  destruct (new_Directory_ok (λ _, 88) 10) as (Hd & Hs & Hm); [lia|].
  destruct (Directory_refines_map (new_Directory (λ _, 88) 10) [97; 98] 7 (λ _, 1) (λ _, 2)
    example_dir_file empty_disk Hd) as (_ & (ok & d' & E & _ & Hok & Hd') & _).
  - repeat constructor; lia.
  - unfold is_int. lia.
  - exact example_dir_file_ok.
  - exact empty_disk_wf.
  - reflexivity.
  - assert (ok = true) as ->.
    { apply Hok. rewrite Hm. split; [done|]. vm_compute. reflexivity. }
    exists d'. split; [done|]. rewrite Hd', Hm. reflexivity.
Defined.
