(* ===== verification/FileSys.v ===== *)
(** * filesys/filesys.cc: the file system

    The file system keeps two files open: the free map and the directory.
    Every call fetches them from disk, works on the copies in memory and writes
    them back.  [fs_state] is the invariant that ties the bytes on disk to a map
    of files, and [view] is the abstract file system: names (cut to nine
    characters) to contents.  [g] gives, for each allocation of a call, what
    memory held. *)

From S2P Require Import Prelude Bytes Bitmap Disk FileHdr OpenFile Directory.

Local Open Scope Z_scope.

Definition FreeMapSector : Z := 0.
Definition DirectorySector : Z := 1.
Definition FreeMapFileSize : Z := NumSectors `quot` BitsInByte.
Definition NumDirEntries : Z := 10.
Definition DirectoryFileSize : Z := Z.of_nat entry_size * NumDirEntries.

Record FileSystem := mkFileSystem {
  disk : list (list Z);
  freeMapFile : OpenFile;
  directoryFile : OpenFile;
}.

Section calls.
Context (g : nat → nat → Z).

(** [BitMap::FetchFrom] and [WriteBack]: the bytes of [map]. *)
Definition BitMap_FetchFrom (file : OpenFile) (ds : list (list Z)) (b : BitMap) : Result BitMap :=
  bs ← ReadAt (g 0%nat) (numWords b * 4) 0 file ds;
  bs ← bytes_put 0 bs (ints_bytes (map b));
  mret (mkBitMap (numBits b) (numWords b) (bytes_ints bs)).

Definition BitMap_WriteBack (file : OpenFile) (b : BitMap) (ds : list (list Z)) : Result (list (list Z)) :=
  '(_, ds) ← WriteAt (g 0%nat) (ints_bytes (map b)) (numWords b * 4) 0 file ds;
  mret ds.

(** [FileSystem::FileSystem(format)] *)
Definition new_FileSystem (format : bool) (ds : list (list Z)) : Result FileSystem :=
  if format then
    freeMap ← new_BitMap (g 1%nat) NumSectors;
    let directory := new_Directory (g 2%nat) NumDirEntries in
    freeMap ← Mark freeMap FreeMapSector;
    freeMap ← Mark freeMap DirectorySector;
    '(ok, freeMap, mapHdr) ← Allocate freeMap FreeMapFileSize (new_FileHeader (g 3%nat));
    ASSERT ok;;
    '(ok, freeMap, dirHdr) ← Allocate freeMap DirectoryFileSize (new_FileHeader (g 4%nat));
    ASSERT ok;;
    ds ← FileHeader_WriteBack FreeMapSector mapHdr ds;
    ds ← FileHeader_WriteBack DirectorySector dirHdr ds;
    freeMapFile ← new_OpenFile FreeMapSector ds;
    directoryFile ← new_OpenFile DirectorySector ds;
    ds ← BitMap_WriteBack freeMapFile freeMap ds;
    ds ← Directory_WriteBack (g 5%nat) directoryFile directory ds;
    mret (mkFileSystem ds freeMapFile directoryFile)
  else
    freeMapFile ← new_OpenFile FreeMapSector ds;
    directoryFile ← new_OpenFile DirectorySector ds;
    mret (mkFileSystem ds freeMapFile directoryFile).

Definition FileSystem_Create (nm : list Z) (initialSize : Z) (fs : FileSystem)
  : Result (bool * FileSystem) :=
  let ds := disk fs in
  directory ← Directory_FetchFrom (g 1%nat) (directoryFile fs) ds (new_Directory (g 2%nat) NumDirEntries);
  found ← Directory_Find nm directory;
  if decide (found = -1) then
    freeMap ← new_BitMap (g 3%nat) NumSectors;
    freeMap ← BitMap_FetchFrom (freeMapFile fs) ds freeMap;
    '(freeMap, sector) ← Find freeMap;
    if decide (sector = -1) then mret (false, fs)
    else
      '(ok, directory) ← Directory_Add nm sector directory;
      if negb ok then mret (false, fs)
      else
        '(ok, freeMap, hdr) ← Allocate freeMap initialSize (new_FileHeader (g 4%nat));
        if negb ok then mret (false, fs)
        else
          ds ← FileHeader_WriteBack sector hdr ds;
          ds ← Directory_WriteBack (g 5%nat) (directoryFile fs) directory ds;
          ds ← BitMap_WriteBack (freeMapFile fs) freeMap ds;
          mret (true, mkFileSystem ds (freeMapFile fs) (directoryFile fs))
  else mret (false, fs).

Definition FileSystem_Open (nm : list Z) (fs : FileSystem) : Result (option OpenFile) :=
  directory ← Directory_FetchFrom (g 1%nat) (directoryFile fs) (disk fs)
                (new_Directory (g 2%nat) NumDirEntries);
  sector ← Directory_Find nm directory;
  if decide (sector >= 0) then f ← new_OpenFile sector (disk fs); mret (Some f)
  else mret None.

Definition FileSystem_Remove (nm : list Z) (fs : FileSystem) : Result (bool * FileSystem) :=
  let ds := disk fs in
  directory ← Directory_FetchFrom (g 1%nat) (directoryFile fs) ds (new_Directory (g 2%nat) NumDirEntries);
  sector ← Directory_Find nm directory;
  if decide (sector = -1) then mret (false, fs)
  else
    fileHdr ← FileHeader_FetchFrom sector ds;
    freeMap ← new_BitMap (g 3%nat) NumSectors;
    freeMap ← BitMap_FetchFrom (freeMapFile fs) ds freeMap;
    freeMap ← Deallocate freeMap fileHdr;
    freeMap ← Clear freeMap sector;
    '(_, directory) ← Directory_Remove nm directory;
    ds ← BitMap_WriteBack (freeMapFile fs) freeMap ds;
    ds ← Directory_WriteBack (g 5%nat) (directoryFile fs) directory ds;
    mret (true, mkFileSystem ds (freeMapFile fs) (directoryFile fs)).

Definition FileSystem_List (fs : FileSystem) : Result (list (list Z)) :=
  directory ← Directory_FetchFrom (g 1%nat) (directoryFile fs) (disk fs)
                (new_Directory (g 2%nat) NumDirEntries);
  Directory_List directory.
End calls.

(** ** The free map on disk *)

Definition holds_map (file : OpenFile) (b : BitMap) (ds : list (list Z)) : Prop :=
  contents (hdr file) ds = ints_bytes (map b).

Lemma numWords_disk b : wf b → numBits b = NumSectors → numWords b = 32 ∧ length (map b) = 32%nat.
Proof.
  intros (_ & Hw & Hl & _) Hn. rewrite Hn in Hw. change (divRoundUp NumSectors BitsInWord) with 32 in Hw. lia.
Qed.

Lemma BitMap_FetchFrom_spec g file ds b b0 :
  hdr_ok (hdr file) → disk_wf ds → wf b → wf b0 → numBits b = NumSectors → numBits b0 = NumSectors →
  holds_map file b ds → BitMap_FetchFrom g file ds b0 = Ok b.
Proof.
  intros Hh Hds Hb Hb0 Hn Hn0 Hc. unfold holds_map in Hc. unfold BitMap_FetchFrom.
  destruct (numWords_disk b Hb Hn) as [Hw Hl]. destruct (numWords_disk b0 Hb0 Hn0) as [Hw0 Hl0].
  rewrite (ReadAt_spec (g 0%nat) file Hh _ 0) by (done || (rewrite Hw0; lia)). rcbn.
  rewrite drop_0, Hc, Hw0, take_ge by (rewrite length_ints_bytes; lia).
  rewrite bytes_put_Ok by (rewrite ?length_ints_bytes; lia). rcbn.
  rewrite inserts_whole by (rewrite !length_ints_bytes; lia).
  rewrite words_roundtrip by apply Hb. rewrite Hn0, <- Hn, <- Hw. by destruct b.
Qed.

Lemma BitMap_WriteBack_spec g file ds b :
  hdr_ok (hdr file) → disk_wf ds → wf b → numBits b = NumSectors →
  numBytes (hdr file) = FreeMapFileSize →
  ∃ ds', BitMap_WriteBack g file b ds = Ok ds' ∧ disk_wf ds' ∧ holds_map file b ds' ∧
    ∀ s, s ∉ hdr_sectors (hdr file) → ds' !! s = ds !! s.
Proof.
  intros Hh Hds Hb Hn Hlen. unfold BitMap_WriteBack. destruct (numWords_disk b Hb Hn) as [Hw Hl].
  pose proof (length_ints_bytes (map b)) as Hbl.
  destruct (WriteAt_spec (g 0%nat) file Hh (ints_bytes (map b)) (numWords b * 4) 0 ds)
    as (ds' & E & Hd' & Hc & Hfr); [done|apply ints_bytes_bytes|lia|lia|].
  change (Z.of_nat 0) with 0 in E. rewrite E. rcbn. exists ds'. split_and!; auto.
  unfold holds_map. rewrite Hc, take_ge by lia.
  apply inserts_whole. rewrite length_contents, Hbl, Hlen, Hl by done. reflexivity.
Qed.

(** A file's contents depend on its own sectors only. *)
Lemma contents_frame h ds ds' :
  (∀ s, s ∈ hdr_sectors h → ds' !! s = ds !! s) → contents h ds' = contents h ds.
Proof.
  intros Hs. unfold contents, file_bytes. do 2 f_equal. apply list_fmap_ext. intros i s Hi.
  rewrite !list_lookup_total_alt, Hs; [done|]. by eapply list_elem_of_lookup_2.
Qed.

(** ** The invariant *)

(** A file is known by the sector of its header and the header. *)
Definition file_sectors (x : nat * FileHeader) : list nat := x.1 :: hdr_sectors x.2.

Definition system_sectors (fs : FileSystem) : list nat :=
  [0%nat; 1%nat] ++ hdr_sectors (hdr (freeMapFile fs)) ++ hdr_sectors (hdr (directoryFile fs)).

Record fs_state (fs : FileSystem) (files : gmap (list Z) (nat * FileHeader)) (b : BitMap) (d : Directory) : Prop :=
  mk_fs_state {
  fs_disk : disk_wf (disk fs);
  fs_mapfile : hdr_ok (hdr (freeMapFile fs)) ∧ numBytes (hdr (freeMapFile fs)) = FreeMapFileSize;
  fs_dirfile : hdr_ok (hdr (directoryFile fs)) ∧ numBytes (hdr (directoryFile fs)) = DirectoryFileSize;
  fs_map : wf b ∧ numBits b = NumSectors ∧ holds_map (freeMapFile fs) b (disk fs);
  fs_dir : dir_ok d ∧ tableSize d = NumDirEntries ∧ holds_dir (directoryFile fs) d (disk fs);
  fs_names : dir_map d = (λ x : nat * FileHeader, Z.of_nat x.1) <$> files;
  fs_files : ∀ k x, files !! k = Some x →
    hdr_ok x.2 ∧ disk fs !! x.1 = Some (header_bytes x.2) ∧ NoDup (file_sectors x);
  fs_system : NoDup (system_sectors fs);
  fs_apart : ∀ k x i, files !! k = Some x → i ∈ file_sectors x → i ∉ system_sectors fs;
  fs_disjoint : ∀ k k' x x' i, files !! k = Some x → files !! k' = Some x' →
    i ∈ file_sectors x → i ∈ file_sectors x' → k = k';
  fs_used : ∀ i, i ∈ used b ↔
    i ∈ system_sectors fs ∨ ∃ k x, files !! k = Some x ∧ i ∈ file_sectors x;
  fs_boot : disk fs !! 0%nat = Some (header_bytes (hdr (freeMapFile fs))) ∧
    disk fs !! 1%nat = Some (header_bytes (hdr (directoryFile fs))) ∧
    seekPosition (freeMapFile fs) = 0 ∧ seekPosition (directoryFile fs) = 0;
}.

(** The abstract file system. *)
Definition view (fs : FileSystem) (files : gmap (list Z) (nat * FileHeader)) : gmap (list Z) (list Z) :=
  (λ x : nat * FileHeader, contents x.2 (disk fs)) <$> files.

Section state.
Context {fs : FileSystem} {files : gmap (list Z) (nat * FileHeader)} {b : BitMap} {d : Directory}.
Hypothesis Hfs : fs_state fs files b d.

Lemma fetch_directory g g' :
  Directory_FetchFrom g (directoryFile fs) (disk fs) (new_Directory g' NumDirEntries) = Ok d.
Proof.
  destruct (fs_dir _ _ _ _ Hfs) as (Hd & Hs & Hh). destruct (fs_dirfile _ _ _ _ Hfs) as [Hok _].
  destruct (new_Directory_ok g' NumDirEntries) as (Hd0 & Hs0 & _); [done|].
  apply Directory_FetchFrom_spec; first [assumption|apply Hfs|congruence].
Qed.

Lemma fetch_map g g' b0 :
  new_BitMap g' NumSectors = Ok b0 → BitMap_FetchFrom g (freeMapFile fs) (disk fs) b0 = Ok b.
Proof.
  intros E. destruct (new_BitMap_used g' NumSectors) as (b1 & E1 & Hwf & Hn & _); [done|].
  rewrite E in E1. injection E1 as <-.
  destruct (fs_map _ _ _ _ Hfs) as (? & ? & ?). destruct (fs_mapfile _ _ _ _ Hfs) as [? _].
  apply BitMap_FetchFrom_spec; first [assumption|apply Hfs].
Qed.

Lemma find_name nm :
  is_name nm →
  Directory_Find nm d = Ok (match files !! key nm with Some x => Z.of_nat x.1 | None => -1 end).
Proof.
  intros Hnm. destruct (fs_dir _ _ _ _ Hfs) as (Hd & _). rewrite Directory_Find_spec by done.
  rewrite (fs_names _ _ _ _ Hfs), lookup_fmap. by destruct (files !! key nm).
Qed.

Lemma used_range i : i ∈ used b → (i < Z.to_nat NumSectors)%nat.
Proof. intros [Hi _]%elem_of_used. destruct (fs_map _ _ _ _ Hfs) as (_ & Hn & _). by rewrite Hn in Hi. Qed.

Lemma file_used k x i : files !! k = Some x → i ∈ file_sectors x → i ∈ used b.
Proof. intros. apply (fs_used _ _ _ _ Hfs). eauto. Qed.

Lemma fetch_header k x :
  files !! k = Some x → FileHeader_FetchFrom (Z.of_nat x.1) (disk fs) = Ok x.2.
Proof.
  intros Hk. destruct (fs_files _ _ _ _ Hfs k x Hk) as (Hok & Hd & _).
  assert (x.1 < Z.to_nat NumSectors)%nat as Hr
    by (eapply used_range, file_used; [done|apply list_elem_of_here]).
  unfold FileHeader_FetchFrom, ReadSector. rewrite (proj2 (sector_ok_true _)) by lia. rcbn.
  rewrite Nat2Z.id, Hd. rcbn. by apply header_roundtrip.
Qed.

(** The files have room: the directory is full before the disk is. *)
Lemma room : Z.of_nat (size (used b)) ≤ 5 + 31 * Z.of_nat (size files).
Proof.
  set (l := system_sectors fs ++ concat (file_sectors <$> (map_to_list files).*2)).
  assert (used b ⊆ list_to_set l) as Hsub.
  { intros i Hi. apply (fs_used _ _ _ _ Hfs) in Hi. rewrite elem_of_list_to_set. apply elem_of_app.
    destruct Hi as [?|(k & x & Hk & Hi)]; [by left|right].
    apply (elem_of_concat _ (file_sectors x)); [|done].
    apply list_elem_of_fmap_2. change x with (k, x).2. apply list_elem_of_fmap_2.
    by apply elem_of_map_to_list. }
  apply subseteq_size in Hsub. pose proof (size_list_to_set_le l).
  assert (length l ≤ 5 + 31 * size files)%nat; [|lia].
  unfold l, system_sectors. rewrite !length_app.
  destruct (fs_mapfile _ _ _ _ Hfs) as [Hm Hml]. destruct (fs_dirfile _ _ _ _ Hfs) as [Hd Hdl].
  rewrite !length_hdr_sectors, (hdr_num _ Hm), (hdr_num _ Hd), Hml, Hdl by done.
  change (Z.to_nat (divRoundUp FreeMapFileSize SectorSize)) with 1%nat.
  change (Z.to_nat (divRoundUp DirectoryFileSize SectorSize)) with 2%nat. cbn [length].
  enough (length (concat (file_sectors <$> (map_to_list files).*2)) ≤ 31 * size files)%nat by lia.
  rewrite <- length_map_to_list, <- (length_fmap snd), <- (length_fmap file_sectors).
  apply length_concat_le, Forall_fmap, Forall_fmap, Forall_forall.
  intros [k x] Hk%elem_of_map_to_list. unfold file_sectors; cbn.
  destruct (fs_files _ _ _ _ Hfs k x Hk) as (Hok & _). rewrite length_hdr_sectors by done.
  pose proof (blocks_bound _ (hdr_bytes _ Hok)) as Hb. rewrite <- (hdr_num _ Hok) in Hb.
  change NumDirect with 30 in Hb. lia.
Qed.
End state.

(** ** Changing the files *)

Section change.
Context {fs : FileSystem} {files : gmap (list Z) (nat * FileHeader)} {b : BitMap} {d : Directory}.
Hypothesis Hfs : fs_state fs files b d.

Lemma size_files : Z.of_nat (size files) ≤ NumDirEntries ∧ size (dir_map d) = size files.
Proof.
  destruct (fs_dir _ _ _ _ Hfs) as (Hd & Hs & _). pose proof (size_dir_map d Hd) as Hm.
  pose proof (length_listed (table d)). pose proof (dir_size d Hd).
  rewrite (fs_names _ _ _ _ Hfs) in *. rewrite map_size_fmap in *. split; [lia|done].
Qed.

Lemma map_dir_apart s :
  s ∈ hdr_sectors (hdr (freeMapFile fs)) → s ∉ hdr_sectors (hdr (directoryFile fs)).
Proof.
  pose proof (fs_system _ _ _ _ Hfs) as Hnd. unfold system_sectors in Hnd.
  apply NoDup_app in Hnd as (_ & _ & Hnd). apply NoDup_app in Hnd as (_ & Hnd & _). auto.
Qed.

(** A change outside sectors 0 and 1 keeps the headers of the system's files. *)
Lemma boot_frame (ds' : list (list Z)) :
  (∀ s, (s = 0 ∨ s = 1)%nat → s ∈ used b → s ∉ hdr_sectors (hdr (freeMapFile fs)) →
     s ∉ hdr_sectors (hdr (directoryFile fs)) → (∀ k x, files !! k = Some x → s ∉ file_sectors x) →
     ds' !! s = disk fs !! s) →
  ds' !! 0%nat = Some (header_bytes (hdr (freeMapFile fs))) ∧
  ds' !! 1%nat = Some (header_bytes (hdr (directoryFile fs))) ∧
  seekPosition (freeMapFile fs) = 0 ∧ seekPosition (directoryFile fs) = 0.
Proof.
  intros Hkeep. destruct (fs_boot _ _ _ _ Hfs) as (H0 & H1 & ? & ?).
  pose proof (fs_system _ _ _ _ Hfs) as Hnd. unfold system_sectors in Hnd.
  apply NoDup_app in Hnd as (_ & Hout & _).
  assert (∀ s, (s = 0 ∨ s = 1)%nat → ds' !! s = disk fs !! s) as Hs.
  { intros s Hs. assert (s ∈ [0%nat; 1%nat]) as Hin by (destruct Hs as [-> | ->]; set_solver).
    pose proof (Hout s Hin) as Ho. rewrite elem_of_app in Ho.
    assert (s ∈ system_sectors fs) as Hsys by (unfold system_sectors; rewrite elem_of_app; auto).
    apply Hkeep; auto.
    - apply (fs_used _ _ _ _ Hfs). auto.
    - intros k x Hx Hsx. by apply (fs_apart _ _ _ _ Hfs k x s). }
  rewrite !Hs by auto. auto.
Qed.

(** Flushing a directory and a free map, in either order. *)
Definition flushed (ds ds' : list (list Z)) (b' : BitMap) (d' : Directory) : Prop :=
  disk_wf ds' ∧ holds_map (freeMapFile fs) b' ds' ∧ holds_dir (directoryFile fs) d' ds' ∧
  ∀ s, s ∉ hdr_sectors (hdr (freeMapFile fs)) → s ∉ hdr_sectors (hdr (directoryFile fs)) →
    ds' !! s = ds !! s.

Lemma flush_dir_map g g' ds b' d' :
  disk_wf ds → wf b' → numBits b' = NumSectors → dir_ok d' → tableSize d' = NumDirEntries →
  ∃ ds1 ds2, Directory_WriteBack g (directoryFile fs) d' ds = Ok ds1 ∧
    BitMap_WriteBack g' (freeMapFile fs) b' ds1 = Ok ds2 ∧ flushed ds ds2 b' d'.
Proof.
  intros Hds Hb Hn Hd Hs. destruct (fs_mapfile _ _ _ _ Hfs) as [Hm Hml].
  destruct (fs_dirfile _ _ _ _ Hfs) as [Hdf Hdl].
  destruct (Directory_WriteBack_spec g (directoryFile fs) ds d') as (ds1 & E1 & Hw1 & Hh1 & Hf1);
    [done..|by rewrite Hs|].
  destruct (BitMap_WriteBack_spec g' (freeMapFile fs) ds1 b') as (ds2 & E2 & Hw2 & Hh2 & Hf2); [done..|].
  exists ds1, ds2. split_and!; auto. split_and!; auto.
  - unfold holds_dir. rewrite (contents_frame _ ds1); [done|]. intros s Hs'. apply Hf2.
    intros Hs''. by apply (map_dir_apart s).
  - intros s H1 H2. by rewrite Hf2, Hf1.
Qed.

Lemma flush_map_dir g g' ds b' d' :
  disk_wf ds → wf b' → numBits b' = NumSectors → dir_ok d' → tableSize d' = NumDirEntries →
  ∃ ds1 ds2, BitMap_WriteBack g' (freeMapFile fs) b' ds = Ok ds1 ∧
    Directory_WriteBack g (directoryFile fs) d' ds1 = Ok ds2 ∧ flushed ds ds2 b' d'.
Proof.
  intros Hds Hb Hn Hd Hs. destruct (fs_mapfile _ _ _ _ Hfs) as [Hm Hml].
  destruct (fs_dirfile _ _ _ _ Hfs) as [Hdf Hdl].
  destruct (BitMap_WriteBack_spec g' (freeMapFile fs) ds b') as (ds1 & E1 & Hw1 & Hh1 & Hf1); [done..|].
  destruct (Directory_WriteBack_spec g (directoryFile fs) ds1 d') as (ds2 & E2 & Hw2 & Hh2 & Hf2);
    [done..|by rewrite Hs|].
  exists ds1, ds2. split_and!; auto. split_and!; auto.
  - unfold holds_map. rewrite (contents_frame _ ds1); [done|]. intros s Hs'. apply Hf2.
    by apply map_dir_apart.
  - intros s H1 H2. by rewrite Hf2, Hf1.
Qed.

Lemma file_not_system k x s :
  files !! k = Some x → s ∈ file_sectors x →
  s ∉ hdr_sectors (hdr (freeMapFile fs)) ∧ s ∉ hdr_sectors (hdr (directoryFile fs)).
Proof.
  intros Hk Hs. pose proof (fs_apart _ _ _ _ Hfs k x s Hk Hs) as Hn.
  unfold system_sectors in Hn. rewrite !elem_of_app in Hn. naive_solver.
Qed.

Notation with_disk ds := (mkFileSystem ds (freeMapFile fs) (directoryFile fs)).

Lemma state_insert k i h b' d' ds ds' :
  files !! k = None → hdr_ok h → i ∉ used b → i ∉ hdr_sectors h →
  (∀ s, s ∈ hdr_sectors h → s ∉ used b) →
  wf b' → numBits b' = NumSectors → used b' = list_to_set (hdr_sectors h) ∪ ({[i]} ∪ used b) →
  dir_ok d' → tableSize d' = NumDirEntries → dir_map d' = <[k := Z.of_nat i]> (dir_map d) →
  ds = <[i := header_bytes h]> (disk fs) → (i < Z.to_nat NumSectors)%nat → flushed ds ds' b' d' →
  fs_state (with_disk ds') (<[k := (i, h)]> files) b' d' ∧
  ∀ k x, files !! k = Some x → contents x.2 ds' = contents x.2 (disk fs).
Proof.
  intros Hk Hok Hi Hih Hh Hb' Hn' Hu' Hd' Hs' Hdm -> Hir (Hw & Hm & Hd & Hfr).
  assert (∀ s, s ∈ system_sectors fs → s ∈ used b) as Hsys by (intros; apply (fs_used _ _ _ _ Hfs); auto).
  assert (∀ s, s ∉ used b → s ∉ hdr_sectors (hdr (freeMapFile fs)) ∧ s ∉ hdr_sectors (hdr (directoryFile fs)))
    as Hns.
  { intros s Hs. split; intros Hin; apply Hs, Hsys; unfold system_sectors; rewrite !elem_of_app; auto. }
  assert (∀ s, s ∈ file_sectors (i, h) → s ∉ used b) as Hfresh.
  { intros s [->|Hs]%elem_of_cons; auto. }
  assert (∀ k x s, files !! k = Some x → s ∈ file_sectors x → ds' !! s = disk fs !! s) as Hkeep.
  { intros k' x s Hx Hs. destruct (file_not_system k' x s Hx Hs). rewrite Hfr by done.
    apply list_lookup_insert_ne. intros <-. by apply Hi, (file_used Hfs k' x). }
  assert (ds' !! i = Some (header_bytes h)) as Hnew.
  { destruct (Hns i Hi). rewrite Hfr by done. apply list_lookup_insert_eq.
    destruct (fs_disk _ _ _ _ Hfs) as [-> _]. done. }
  split.
  2:{ intros k' x Hx. apply contents_frame. intros s Hs. apply (Hkeep k' x); [done|].
      by apply list_elem_of_further. }
  split; cbn [disk freeMapFile directoryFile]; try apply Hfs; auto.
  - by rewrite Hdm, (fs_names _ _ _ _ Hfs), fmap_insert.
  - intros k' x [[<- <-]|[Hne Hx]]%lookup_insert_Some; cbn.
    + split_and!; auto. constructor; [done|]. by apply hdr_nodup.
    + destruct (fs_files _ _ _ _ Hfs k' x Hx) as (? & Hx1 & ?). split_and!; auto.
      rewrite (Hkeep k' x); auto. apply list_elem_of_here.
  - intros k' x s [[<- <-]|[Hne Hx]]%lookup_insert_Some Hs Hin.
    + by apply (Hfresh s Hs), Hsys.
    + by apply (fs_apart _ _ _ _ Hfs k' x s Hx Hs).
  - intros k1 k2 x1 x2 s [[<- <-]|[Hne1 Hx1]]%lookup_insert_Some
      [[<- <-]|[Hne2 Hx2]]%lookup_insert_Some Hs1 Hs2; [done| | |].
    + destruct (Hfresh s Hs1). by apply (file_used Hfs k2 x2).
    + destruct (Hfresh s Hs2). by apply (file_used Hfs k1 x1).
    + by apply (fs_disjoint _ _ _ _ Hfs k1 k2 x1 x2 s).
  - intros s. rewrite Hu', !elem_of_union, elem_of_list_to_set, elem_of_singleton, (fs_used _ _ _ _ Hfs).
    split.
    + intros [Hs|[->|[Hs|(k' & x & Hx & Hs)]]]; [right|right|by left|right].
      * exists k, (i, h). rewrite lookup_insert_eq. split; [done|]. by apply list_elem_of_further.
      * exists k, (i, h). rewrite lookup_insert_eq. split; [done|]. by apply list_elem_of_here.
      * exists k', x. rewrite lookup_insert_ne by congruence. done.
    + intros [Hs|(k' & x & [[<- <-]|[Hne Hx]]%lookup_insert_Some & Hs)]; [by auto| |].
      * apply elem_of_cons in Hs as [->|Hs]; auto.
      * right. right. right. eauto.
  - apply boot_frame. intros s _ Hs Hm' Hd'' _. rewrite Hfr by done.
    apply list_lookup_insert_ne. by intros <-.
Qed.

Lemma state_delete k x b' d' ds' :
  files !! k = Some x →
  wf b' → numBits b' = NumSectors → used b' = used b ∖ list_to_set (file_sectors x) →
  dir_ok d' → tableSize d' = NumDirEntries → dir_map d' = delete k (dir_map d) →
  flushed (disk fs) ds' b' d' →
  fs_state (with_disk ds') (delete k files) b' d' ∧
  ∀ k x, files !! k = Some x → contents x.2 ds' = contents x.2 (disk fs).
Proof.
  intros Hk Hb' Hn' Hu' Hd' Hs' Hdm (Hw & Hm & Hd & Hfr).
  assert (∀ k x s, files !! k = Some x → s ∈ file_sectors x → ds' !! s = disk fs !! s) as Hkeep.
  { intros k' y s Hy Hs. destruct (file_not_system k' y s Hy Hs). by rewrite Hfr. }
  split.
  2:{ intros k' y Hy. apply contents_frame. intros s Hs. apply (Hkeep k' y); [done|].
      by apply list_elem_of_further. }
  split; cbn [disk freeMapFile directoryFile]; try apply Hfs; auto.
  - by rewrite Hdm, (fs_names _ _ _ _ Hfs), fmap_delete.
  - intros k' y [_ Hy]%lookup_delete_Some.
    destruct (fs_files _ _ _ _ Hfs k' y Hy) as (? & Hy1 & ?). split_and!; auto.
    rewrite (Hkeep k' y); auto. apply list_elem_of_here.
  - intros k' y s [_ Hy]%lookup_delete_Some. by apply (fs_apart _ _ _ _ Hfs k' y s).
  - intros k1 k2 x1 x2 s [_ Hx1]%lookup_delete_Some [_ Hx2]%lookup_delete_Some.
    by apply (fs_disjoint _ _ _ _ Hfs k1 k2 x1 x2 s).
  - intros s. rewrite Hu', elem_of_difference, elem_of_list_to_set, (fs_used _ _ _ _ Hfs). split.
    + intros [[Hs|(k' & y & Hy & Hs)] Hns]; [by left|right]. exists k', y. split; [|done].
      rewrite lookup_delete_ne; [done|]. intros <-. congruence.
    + intros [Hs|(k' & y & [Hne Hy]%lookup_delete_Some & Hs)].
      * split; [by left|]. intros Hin. by apply (fs_apart _ _ _ _ Hfs k x s).
      * split; [by eauto|]. intros Hin. by destruct Hne; apply (fs_disjoint _ _ _ _ Hfs k k' x y s).
  - apply boot_frame. intros s _ _ Hm' Hd'' _. by apply Hfr.
Qed.
End change.

(** ** The calls *)

Section calls_spec.
Context (g : nat → nat → Z).
Context {fs : FileSystem} {files : gmap (list Z) (nat * FileHeader)} {b : BitMap} {d : Directory}.
Hypothesis Hfs : fs_state fs files b d.
Context (nm : list Z) (Hnm : is_name nm).

Lemma Open_spec :
  FileSystem_Open g nm fs = Ok ((λ x : nat * FileHeader, mkOpenFile x.2 0) <$> files !! key nm).
Proof.
  unfold FileSystem_Open. rewrite (fetch_directory Hfs). rcbn. rewrite (find_name Hfs) by done. rcbn.
  destruct (files !! key nm) as [x|] eqn:Hk; [|by rewrite decide_False by lia].
  rewrite decide_True by lia. unfold new_OpenFile. by rewrite (fetch_header Hfs (key nm)) by done.
Qed.

Lemma new_FileHeader_ok gh :
  length (dataSectors (new_FileHeader gh)) = Z.to_nat NumDirect ∧
  Forall is_int (dataSectors (new_FileHeader gh)).
Proof.
  split; [cbn [new_FileHeader dataSectors]; by rewrite length_fmap, length_seq|].
  apply Forall_fmap, Forall_true. intros i. apply s32_range.
Qed.

Lemma Create_spec sz :
  0 ≤ sz ≤ MaxFileSize →
  if decide (files !! key nm = None ∧ Z.of_nat (size files) < NumDirEntries) then
    ∃ fs' x b' d', FileSystem_Create g nm sz fs = Ok (true, fs') ∧
      fs_state fs' (<[key nm := x]> files) b' d' ∧ numBytes x.2 = sz ∧
      ∀ k y, files !! k = Some y → contents y.2 (disk fs') = contents y.2 (disk fs)
  else FileSystem_Create g nm sz fs = Ok (false, fs).
Proof.
  intros Hsz. unfold FileSystem_Create. rewrite (fetch_directory Hfs). rcbn.
  rewrite (find_name Hfs) by done. rcbn. destruct (files !! key nm) as [x|] eqn:Hk.
  { rewrite decide_False by (intros [? _]; done). by rewrite decide_False by lia. }
  rewrite (decide_True (P := -1 = -1)) by done.
  destruct (new_BitMap_used (g 3%nat) NumSectors) as (b0 & E0 & _); [done|]. rewrite E0. rcbn.
  rewrite (fetch_map Hfs g _ b0 E0). rcbn.
  destruct (fs_map _ _ _ _ Hfs) as (Hwf & Hn & _). destruct (fs_dir _ _ _ _ Hfs) as (Hd & Hs & _).
  pose proof (room Hfs) as Hroom. destruct (size_files Hfs) as [Hsf Hsd]. unfold NumDirEntries in Hsf.
  destruct (Find_used b Hwf) as [(i & b1 & -> & Hwf1 & Hn1 & Hi & Hnew & Hu1)|[_ H0]].
  2:{ destruct (NumClear_used b Hwf) as [H1 _]. rewrite H1, Hn in H0. injection H0 as H0.
      unfold NumSectors, SectorsPerTrack, NumTracks in H0. lia. }
  rcbn. rewrite (decide_False (P := Z.of_nat i = -1)) by lia.
  assert (is_int (Z.of_nat i)) as Hint.
  { unfold is_int. rewrite Hn in Hi. unfold NumSectors, SectorsPerTrack, NumTracks in Hi. lia. }
  pose proof (Directory_Add_spec nm (Z.of_nat i) d Hd Hnm Hint) as HA.
  assert (dir_map d !! key nm = None) as Hdk by by rewrite (fs_names _ _ _ _ Hfs), lookup_fmap, Hk.
  rewrite Hdk, Hsd, Hs in HA.
  destruct (decide (Z.of_nat (size files) < NumDirEntries)) as [Hlt|Hge].
  2:{ rewrite decide_False in HA by (intros [_ ?]; contradiction). rewrite HA. rcbn. cbn [negb].
      rewrite decide_False by (intros [_ ?]; contradiction). reflexivity. }
  rewrite decide_True in HA by (split; [reflexivity|assumption]). destruct HA as (d' & -> & Hd' & Hs' & Hdm). rcbn. cbn [negb].
  rewrite decide_True by (split; [reflexivity|assumption]).
  destruct (new_FileHeader_ok (g 4%nat)) as [Hhl Hhi].
  pose proof (Allocate_spec b1 sz _ Hwf1 ltac:(congruence) Hsz Hhl Hhi) as HL.
  rewrite decide_True in HL.
  2:{ unfold free. rewrite Hu1, size_union, size_singleton, Hn1, Hn by (clear -Hnew; set_solver).
      pose proof (blocks_bound sz Hsz). change NumDirect with 30 in *.
      unfold NumSectors, SectorsPerTrack, NumTracks. lia. }
  destruct HL as (b2 & ss & -> & Hss & Hok & Hwf2 & Hn2 & Hdj & Hu2). rcbn. cbn [negb].
  set (h := allocated sz ss _) in *. rewrite Hn in Hi.
  destruct (WriteBack_FetchFrom (Z.of_nat i) h (disk fs) (fs_disk _ _ _ _ Hfs)) as (-> & Hwd & _);
    [lia|assumption|]. rcbn. rewrite Nat2Z.id in *.
  destruct (flush_dir_map Hfs (g 5%nat) g (<[i := header_bytes h]> (disk fs)) b2 d')
    as (ds1 & ds2 & -> & E2 & Hfl); [assumption|assumption|congruence|assumption|congruence|]. rcbn. rewrite E2. rcbn.
  destruct (state_insert Hfs (key nm) i h b2 d' (<[i := header_bytes h]> (disk fs)) ds2)
    as [Hst Hkeep];
    try assumption; try congruence.
  { rewrite Hss. clear -Hdj Hu1. set_solver. }
  { rewrite Hss. clear -Hdj Hu1. set_solver. }
  exists (mkFileSystem ds2 (freeMapFile fs) (directoryFile fs)), (i, h), b2, d'. split_and!; [reflexivity|assumption|reflexivity|assumption].
Qed.

Lemma Remove_spec :
  match files !! key nm with
  | Some x => ∃ fs' b' d', FileSystem_Remove g nm fs = Ok (true, fs') ∧
      fs_state fs' (delete (key nm) files) b' d' ∧
      ∀ k y, files !! k = Some y → contents y.2 (disk fs') = contents y.2 (disk fs)
  | None => FileSystem_Remove g nm fs = Ok (false, fs)
  end.
Proof.
  unfold FileSystem_Remove. rewrite (fetch_directory Hfs). rcbn.
  rewrite (find_name Hfs) by assumption. rcbn.
  destruct (files !! key nm) as [x|] eqn:Hk; [|by rewrite decide_True].
  rewrite decide_False by lia. rewrite (fetch_header Hfs (key nm)) by assumption. rcbn.
  destruct (new_BitMap_used (g 3%nat) NumSectors) as (b0 & E0 & _); [done|]. rewrite E0. rcbn.
  rewrite (fetch_map Hfs g _ b0 E0). rcbn.
  destruct (fs_map _ _ _ _ Hfs) as (Hwf & Hn & _). destruct (fs_dir _ _ _ _ Hfs) as (Hd & Hs & _).
  destruct (fs_files _ _ _ _ Hfs _ _ Hk) as (Hok & _ & Hnd). apply NoDup_cons in Hnd as [Hx1 _].
  assert (∀ s, s ∈ file_sectors x → s ∈ used b) as Hus by (intros; by eapply file_used).
  destruct (Deallocate_spec b x.2 Hwf Hok) as (b1 & -> & Hwf1 & Hn1 & Hu1).
  { intros s Hs'. apply Hus. apply list_elem_of_further. by apply elem_of_list_to_set in Hs'. }
  rcbn. pose proof (used_range Hfs x.1 (Hus _ (list_elem_of_here _ _))) as Hr.
  destruct (Clear_used b1 x.1 Hwf1) as (b2 & -> & Hwf2 & Hn2 & Hu2); [by rewrite Hn1, Hn|]. rcbn.
  pose proof (Directory_Remove_spec nm d Hd Hnm) as HR.
  rewrite decide_False in HR by (rewrite (fs_names _ _ _ _ Hfs), lookup_fmap, Hk; discriminate).
  destruct HR as (d' & -> & Hd' & Hs' & Hdm). rcbn.
  destruct (flush_map_dir Hfs (g 5%nat) g (disk fs) b2 d') as (ds1 & ds2 & -> & E2 & Hfl);
    [apply Hfs|assumption|congruence|assumption|congruence|]. rcbn. rewrite E2. rcbn.
  destruct (state_delete Hfs (key nm) x b2 d' ds2) as [Hst Hkeep]; try assumption; try congruence.
  { rewrite Hu2, Hu1. unfold file_sectors. cbn [list_to_set]. clear; set_solver. }
  exists (mkFileSystem ds2 (freeMapFile fs) (directoryFile fs)), b2, d'. split_and!; [reflexivity|assumption..].
Qed.

(** Writing to an open file: the other files and the file system's own
    sectors are untouched. *)
Lemma Write_spec k x from n (p : nat) q :
  files !! k = Some x → Forall is_byte from → Z.of_nat p + n < 2 ^ 31 → n ≤ Z.of_nat (length from) →
  ∃ count ds', WriteAt (g 0%nat) from n (Z.of_nat p) (mkOpenFile x.2 q) (disk fs) = Ok (count, ds') ∧
    count = Z.of_nat (length (take (Z.to_nat n) (drop p (contents x.2 (disk fs))))) ∧
    fs_state (mkFileSystem ds' (freeMapFile fs) (directoryFile fs)) files b d ∧
    contents x.2 ds' = list_inserts p (take (Z.to_nat n) from) (contents x.2 (disk fs)) ∧
    ∀ k' y, files !! k' = Some y → k' ≠ k → contents y.2 ds' = contents y.2 (disk fs).
Proof.
  intros Hk Hfrom Hov Hlen. destruct (fs_files _ _ _ _ Hfs k x Hk) as (Hok & Hhd & Hnd).
  destruct (WriteAt_spec (g 0%nat) (mkOpenFile x.2 q) Hok from n p (disk fs)) as (ds' & E & Hwf & Hc & Hfr);
    [apply Hfs|assumption..|]. cbn [hdr] in *.
  assert (∀ s, s ∈ hdr_sectors (hdr (freeMapFile fs)) ∨ s ∈ hdr_sectors (hdr (directoryFile fs)) →
    ds' !! s = disk fs !! s) as Hsys.
  { intros s Hs. apply Hfr. intros Hin.
    destruct (file_not_system Hfs k x s Hk) as [? ?]; [by apply list_elem_of_further|]. tauto. }
  assert (∀ k' y s, files !! k' = Some y → s ∈ file_sectors y → k' ≠ k → ds' !! s = disk fs !! s) as Hoth.
  { intros k' y s Hy Hs Hne. apply Hfr. intros Hin. apply Hne.
    apply (fs_disjoint _ _ _ _ Hfs k' k y x s); [assumption..|by apply list_elem_of_further]. }
  exists (Z.of_nat (length (take (Z.to_nat n) (drop p (contents x.2 (disk fs)))))), ds'.
  split_and!; [assumption|reflexivity| |assumption|].
  - split; cbn [disk freeMapFile directoryFile]; try apply Hfs; try assumption.
    + destruct (fs_map _ _ _ _ Hfs) as (? & ? & Hm). split_and!; [assumption..|].
      unfold holds_map in *. rewrite <- Hm. apply contents_frame. auto.
    + destruct (fs_dir _ _ _ _ Hfs) as (? & ? & Hm). split_and!; [assumption..|].
      unfold holds_dir in *. rewrite <- Hm. apply contents_frame. auto.
    + intros k' y Hy. destruct (fs_files _ _ _ _ Hfs k' y Hy) as (? & Hy1 & ?). split_and!; [assumption| |assumption].
      destruct (decide (k' = k)) as [->|Hne].
      * assert (y = x) as -> by congruence. rewrite Hfr; [assumption|].
        by apply NoDup_cons in Hnd as [? _].
      * rewrite (Hoth k' y); [assumption..|apply list_elem_of_here|assumption].
    + apply (boot_frame Hfs). intros s _ _ _ _ Hnot. apply Hfr. intros Hin.
      apply (Hnot k x Hk). by apply list_elem_of_further.
  - intros k' y Hy Hne. apply contents_frame. intros s Hs.
    apply (Hoth k' y); [assumption|by apply list_elem_of_further|assumption].
Qed.
End calls_spec.

(** ** Formatting *)

Lemma free_used b (l : list nat) :
  numBits b = NumSectors → used b = list_to_set l → (length l ≤ 100)%nat → 900 ≤ free b.
Proof.
  intros Hn Hu Hl. unfold free. rewrite Hn, Hu. pose proof (size_list_to_set_le l).
  unfold NumSectors, SectorsPerTrack, NumTracks. lia.
Qed.

(** The two headers of the system's files, allocated on a fresh free map. *)
Lemma format_allocates (g : nat → nat → Z) :
  ∃ b0 b1 b2 b3 b4 mh dh, new_BitMap (g 1%nat) NumSectors = Ok b0 ∧
    Mark b0 FreeMapSector = Ok b1 ∧ Mark b1 DirectorySector = Ok b2 ∧
    Allocate b2 FreeMapFileSize (new_FileHeader (g 3%nat)) = Ok (true, b3, mh) ∧
    Allocate b3 DirectoryFileSize (new_FileHeader (g 4%nat)) = Ok (true, b4, dh) ∧
    hdr_ok mh ∧ numBytes mh = FreeMapFileSize ∧ hdr_ok dh ∧ numBytes dh = DirectoryFileSize ∧
    NoDup ([0%nat; 1%nat] ++ hdr_sectors mh ++ hdr_sectors dh) ∧
    wf b4 ∧ numBits b4 = NumSectors ∧
    used b4 = list_to_set ([0%nat; 1%nat] ++ hdr_sectors mh ++ hdr_sectors dh).
Proof.
  destruct (new_BitMap_used (g 1%nat) NumSectors) as (b0 & E0 & Hw0 & Hn0 & Hu0); [done|].
  destruct (Mark_used b0 0 Hw0) as (b1 & E1 & Hw1 & Hn1 & Hu1); [rewrite Hn0; unfold NumSectors, SectorsPerTrack, NumTracks; lia|].
  destruct (Mark_used b1 1 Hw1) as (b2 & E2 & Hw2 & Hn2 & Hu2); [rewrite Hn1, Hn0; unfold NumSectors, SectorsPerTrack, NumTracks; lia|].
  destruct (new_FileHeader_ok (g 3%nat)) as [Hl3 Hi3]. destruct (new_FileHeader_ok (g 4%nat)) as [Hl4 Hi4].
  assert (used b2 = list_to_set [0%nat; 1%nat]) as Hs2 by (rewrite Hu2, Hu1, Hu0; clear; set_solver).
  assert (0 ≤ FreeMapFileSize ≤ MaxFileSize ∧ 0 ≤ DirectoryFileSize ≤ MaxFileSize) as [HR1 HR2]
    by (vm_compute; repeat split; congruence).
  assert (numBits b2 = NumSectors) as HN2 by (by rewrite Hn2, Hn1).
  pose proof (Allocate_spec b2 FreeMapFileSize _ Hw2 HN2 HR1 Hl3 Hi3) as HA.
  rewrite decide_True in HA.
  2:{ transitivity 900; [vm_compute; congruence|]. eapply free_used; [exact HN2|exact Hs2|cbn; lia]. }
  destruct HA as (b3 & ss3 & E3 & Hss3 & Hok3 & Hw3 & Hn3 & Hdj3 & Hu3).
  assert (length ss3 = 1%nat) as Hl1.
  { pose proof (length_hdr_sectors _ Hok3) as Hl. rewrite Hss3 in Hl. rewrite Hl. reflexivity. }
  assert (used b3 = list_to_set ([0%nat; 1%nat] ++ ss3)) as Hs3 by (rewrite Hu3, Hs2; clear; set_solver).
  assert (numBits b3 = NumSectors) as HN3 by (by rewrite Hn3).
  pose proof (Allocate_spec b3 DirectoryFileSize _ Hw3 HN3 HR2 Hl4 Hi4) as HB.
  rewrite decide_True in HB.
  2:{ transitivity 900; [vm_compute; congruence|].
      eapply free_used; [exact HN3|exact Hs3|rewrite length_app; cbn; lia]. }
  destruct HB as (b4 & ss4 & E4 & Hss4 & Hok4 & Hw4 & Hn4 & Hdj4 & Hu4).
  do 7 eexists. split_and!; [exact E0|exact E1|exact E2|exact E3|exact E4|assumption|reflexivity|assumption|
    reflexivity| |assumption|congruence|].
  - rewrite Hss3, Hss4.
    assert (NoDup ss3 ∧ NoDup ss4) as [? ?]
      by (split; [rewrite <- Hss3|rewrite <- Hss4]; by apply hdr_nodup).
    rewrite Hs2 in Hdj3. rewrite Hs3 in Hdj4. apply NoDup_app. split_and!.
    + apply NoDup_cons. split; [|apply NoDup_singleton]. rewrite list_elem_of_singleton. done.
    + clear -Hdj3 Hdj4. set_solver.
    + apply NoDup_app. split_and!; [assumption| |assumption]. clear -Hdj4. set_solver.
  - rewrite Hss3, Hss4, Hu4, Hs3. clear. set_solver.
Qed.

Lemma format_spec g ds :
  disk_wf ds → ∃ fs b d, new_FileSystem g true ds = Ok fs ∧ fs_state fs ∅ b d.
Proof.
  intros Hds. unfold new_FileSystem.
  destruct (format_allocates g) as (b0 & b1 & b2 & b3 & b & mh & dh & -> & E1 & E2 & E3 & E4 & Hm & Hml & Hd & Hdl & Hnd & Hwf & Hn & Hu).
  rcbn. rewrite E1. rcbn. rewrite E2. rcbn. rewrite E3. rcbn. rewrite E4. rcbn.
  destruct (WriteBack_FetchFrom FreeMapSector mh ds Hds) as (-> & Hw1 & HF1); [done|assumption|]. rcbn.
  set (ds1 := <[_ := header_bytes mh]> ds) in *.
  destruct (WriteBack_FetchFrom DirectorySector dh ds1 Hw1) as (-> & Hw2 & HF2); [done|assumption|]. rcbn.
  set (ds2 := <[_ := header_bytes dh]> ds1) in *.
  assert (FileHeader_FetchFrom FreeMapSector ds2 = Ok mh) as HF3.
  { rewrite <- HF1. unfold FileHeader_FetchFrom, ReadSector, ds2.
    by rewrite list_lookup_insert_ne by (vm_compute; congruence). }
  unfold new_OpenFile. rewrite HF3, HF2. rcbn.
  set (mf := mkOpenFile mh 0). set (df := mkOpenFile dh 0).
  destruct (BitMap_WriteBack_spec g mf ds2 b Hm Hw2 Hwf Hn Hml) as (ds3 & -> & Hw3 & Hh3 & Hfr3). rcbn.
  destruct (new_Directory_ok (g 2%nat) NumDirEntries) as (Hdo & Hds0 & Hdm); [done|].
  destruct (Directory_WriteBack_spec (g 5%nat) df ds3 _ Hd Hw3 Hdo) as (ds4 & -> & Hw4 & Hh4 & Hfr4);
    [rewrite Hds0; assumption|]. rcbn.
  exists (mkFileSystem ds4 mf df), b, (new_Directory (g 2%nat) NumDirEntries).
  split; [reflexivity|]. split; cbn [disk freeMapFile directoryFile mf df hdr];
    try assumption; try (split_and!; assumption).
  - split_and!; [assumption..|]. unfold holds_map. rewrite <- Hh3. apply contents_frame.
    intros s Hs. apply Hfr4. unfold mf in Hs. cbn [hdr] in Hs.
    apply NoDup_app in Hnd as (_ & _ & (_ & Hnd & _)%NoDup_app). auto.
  - intros k x Hx. by rewrite lookup_empty in Hx.
  - intros k x i Hx. by rewrite lookup_empty in Hx.
  - intros k k' x x' i Hx. by rewrite lookup_empty in Hx.
  - intros i. rewrite Hu, elem_of_list_to_set. split; [by left|].
    intros [?|(k & x & Hx & _)]; [assumption|]. by rewrite lookup_empty in Hx.
  - apply NoDup_app in Hnd as (_ & Hout & _).
    assert (∀ s, s ∈ [0%nat; 1%nat] → ds4 !! s = ds2 !! s) as Hkeep.
    { intros s Hs. specialize (Hout s Hs). rewrite elem_of_app in Hout.
      rewrite Hfr4, Hfr3 by tauto. reflexivity. }
    rewrite !Hkeep by set_solver. destruct Hds as [Hl _]. split_and!; [| |reflexivity..].
    + unfold ds2, ds1. rewrite list_lookup_insert_ne by (vm_compute; congruence).
      apply list_lookup_insert_eq. rewrite Hl. vm_compute. lia.
    + apply list_lookup_insert_eq. unfold ds1. rewrite length_insert, Hl. vm_compute. lia.
Qed.

(** Mounting the disk again finds the same file system. *)
Lemma mount_spec g fs files b d :
  fs_state fs files b d → new_FileSystem g false (disk fs) = Ok fs.
Proof.
  intros Hfs. destruct (fs_boot _ _ _ _ Hfs) as (H0 & H1 & Hs0 & Hs1).
  destruct (fs_mapfile _ _ _ _ Hfs) as [Hm _]. destruct (fs_dirfile _ _ _ _ Hfs) as [Hd _].
  unfold new_FileSystem, new_OpenFile, FileHeader_FetchFrom, ReadSector.
  rewrite (proj2 (sector_ok_true FreeMapSector)) by (vm_compute; split; congruence).
  rewrite (proj2 (sector_ok_true DirectorySector)) by (vm_compute; split; congruence). rcbn.
  change (Z.to_nat FreeMapSector) with 0%nat. change (Z.to_nat DirectorySector) with 1%nat.
  rewrite H0, H1. rcbn. rewrite (proj2 (header_roundtrip _ Hm)), (proj2 (header_roundtrip _ Hd)). rcbn.
  destruct fs as [? [? ?] [? ?]]. cbn in *. by subst.
Qed.
