(* ===== verification/FileSysSpec.v ===== *)
(** * What the file system promises

    [exec] runs one request of a user of the file system: create, remove, or
    open a file and read or write it.  [astep] is the abstract file system, a
    finite map from names to contents.  The theorems show that any sequence of
    requests on a freshly formatted disk behaves as on the map. *)

From S2P Require Import Prelude Bytes Bitmap Disk FileHdr OpenFile Directory FileSys.

Local Open Scope Z_scope.

Inductive fs_op :=
| OCreate (nm : list Z) (initialSize : Z)
| ORemove (nm : list Z)
| ORead (nm : list Z) (numBytes position : Z)
| OWrite (nm : list Z) (data : list Z) (position : Z).

Inductive reply := RBool (ok : bool) | RBytes (bs : option (list Z)) | RCount (n : option Z).

(** A request is carried out as by a program that opens the file first. *)
Definition exec (g : nat → nat → Z) (op : fs_op) (fs : FileSystem) : Result (reply * FileSystem) :=
  match op with
  | OCreate nm sz => '(ok, fs) ← FileSystem_Create g nm sz fs; mret (RBool ok, fs)
  | ORemove nm => '(ok, fs) ← FileSystem_Remove g nm fs; mret (RBool ok, fs)
  | ORead nm n p =>
      f ← FileSystem_Open g nm fs;
      match f with
      | None => mret (RBytes None, fs)
      | Some f => bs ← ReadAt (g 0%nat) n p f (disk fs); mret (RBytes (Some bs), fs)
      end
  | OWrite nm data p =>
      f ← FileSystem_Open g nm fs;
      match f with
      | None => mret (RCount None, fs)
      | Some f =>
          '(n, ds) ← WriteAt (g 0%nat) data (Z.of_nat (length data)) p f (disk fs);
          mret (RCount (Some n), mkFileSystem ds (freeMapFile fs) (directoryFile fs))
      end
  end.

Definition op_ok (op : fs_op) : Prop :=
  match op with
  | OCreate nm sz => is_name nm ∧ 0 ≤ sz ≤ MaxFileSize
  | ORemove nm => is_name nm
  | ORead nm n p => is_name nm ∧ 0 ≤ p ∧ p + n < 2 ^ 31
  | OWrite nm data p =>
      is_name nm ∧ Forall is_byte data ∧ 0 ≤ p ∧ p + Z.of_nat (length data) < 2 ^ 31
  end.

(** The abstract file system: creation succeeds exactly when the name is new
    and fewer than [NumDirEntries] files exist; the bytes of a new file are
    arbitrary. *)
Inductive astep (v : gmap (list Z) (list Z)) : fs_op → reply → gmap (list Z) (list Z) → Prop :=
| A_create nm sz c :
    v !! key nm = None → Z.of_nat (size v) < NumDirEntries → Z.of_nat (length c) = sz →
    astep v (OCreate nm sz) (RBool true) (<[key nm := c]> v)
| A_create_fails nm sz :
    is_Some (v !! key nm) ∨ NumDirEntries ≤ Z.of_nat (size v) →
    astep v (OCreate nm sz) (RBool false) v
| A_remove nm :
    astep v (ORemove nm) (RBool (bool_decide (is_Some (v !! key nm)))) (delete (key nm) v)
| A_read nm n p :
    astep v (ORead nm n p)
      (RBytes ((λ c, take (Z.to_nat n) (drop (Z.to_nat p) c)) <$> v !! key nm)) v
| A_write nm data p :
    astep v (OWrite nm data p)
      (RCount ((λ c, Z.of_nat (length (take (length data) (drop (Z.to_nat p) c)))) <$> v !! key nm))
      (alter (list_inserts (Z.to_nat p) data) (key nm) v).

(** ** One request *)

Section step.
Context (g : nat → nat → Z).
Context {fs : FileSystem} {files : gmap (list Z) (nat * FileHeader)} {b : BitMap} {d : Directory}.
Hypothesis Hfs : fs_state fs files b d.

Definition refined (op : fs_op) : Prop :=
  ∃ r fs' files' b' d', exec g op fs = Ok (r, fs') ∧ fs_state fs' files' b' d' ∧
    astep (view fs files) op r (view fs' files').

Lemma view_lookup k : view fs files !! k = (λ x : nat * FileHeader, contents x.2 (disk fs)) <$> files !! k.
Proof. apply lookup_fmap. Qed.

Lemma size_view : size (view fs files) = size files.
Proof. apply map_size_fmap. Qed.

(** Files whose contents did not change look the same. *)
Lemma view_same ds' fs' :
  disk fs' = ds' →
  (∀ k x, files !! k = Some x → contents x.2 ds' = contents x.2 (disk fs)) → view fs' files = view fs files.
Proof.
  intros <- Hk. unfold view. apply map_fmap_ext. intros k x Hx. by apply (Hk k).
Qed.

Lemma refine_create nm sz : op_ok (OCreate nm sz) → refined (OCreate nm sz).
Proof.
  intros [Hnm Hsz]. unfold refined; cbn [exec].
  pose proof (Create_spec g Hfs nm Hnm sz Hsz) as HC. case_decide as Hd.
  - destruct HC as (fs' & x & b' & d' & -> & Hst & Hx & Hk). destruct Hd as [Hn Hlt].
    exists (RBool true), fs', (<[key nm := x]> files), b', d'. split_and!; [reflexivity|assumption|].
    unfold view at 2. rewrite fmap_insert. fold (view fs' files). rewrite (view_same _ fs' eq_refl Hk).
    constructor; [by rewrite view_lookup, Hn|by rewrite size_view|].
    destruct (fs_files _ _ _ _ Hst (key nm) x) as (Hok & _ & _); [apply lookup_insert_eq|].
    rewrite length_contents, Hx by (done || apply Hst). lia.
  - rewrite HC. exists (RBool false), fs, files, b, d. split_and!; [reflexivity|assumption|].
    constructor. rewrite view_lookup, size_view.
    destruct (files !! key nm); [left; by eexists|right]. 
    destruct (decide (Z.of_nat (size files) < NumDirEntries)); [|lia]. destruct Hd. by split.
Qed.

Lemma refine_remove nm : op_ok (ORemove nm) → refined (ORemove nm).
Proof.
  intros Hnm. unfold refined; cbn [exec]. pose proof (Remove_spec g Hfs nm Hnm) as HR.
  pose proof (view_lookup (key nm)) as Hv.
  destruct (files !! key nm) as [x|] eqn:Hx; cbn [fmap option_fmap option_map] in Hv.
  - destruct HR as (fs' & b' & d' & -> & Hst & Hk).
    exists (RBool true), fs', (delete (key nm) files), b', d'. split_and!; [reflexivity|assumption|].
    unfold view at 2. rewrite fmap_delete. fold (view fs' files). rewrite (view_same _ fs' eq_refl Hk).
    replace true with (bool_decide (is_Some (view fs files !! key nm))) by (by rewrite Hv).
    constructor.
  - rewrite HR. exists (RBool false), fs, files, b, d. split_and!; [reflexivity|assumption|].
    rewrite <- (delete_id (view fs files) (key nm) Hv) at 2.
    replace false with (bool_decide (is_Some (view fs files !! key nm)))
      by (rewrite Hv; apply bool_decide_false; by intros []).
    constructor.
Qed.

Lemma refine_read nm n p : op_ok (ORead nm n p) → refined (ORead nm n p).
Proof.
  intros (Hnm & Hp & Hov). unfold refined; cbn [exec]. rewrite (Open_spec g Hfs nm Hnm). rcbn.
  pose proof (view_lookup (key nm)) as Hv.
  destruct (files !! key nm) as [x|] eqn:Hx; cbn [fmap option_fmap option_map] in Hv |- *.
  - destruct (fs_files _ _ _ _ Hfs _ _ Hx) as (Hok & _ & _).
    pose proof (ReadAt_spec (g 0%nat) (mkOpenFile x.2 0) Hok n (Z.to_nat p) (disk fs)) as HR.
    rewrite Z2Nat.id in HR by done. rewrite HR by (apply Hfs || done). rcbn.
    do 5 eexists. split_and!; [reflexivity|exact Hfs|].
    pose proof (A_read (view fs files) nm n p) as HA. rewrite Hv in HA. exact HA.
  - do 5 eexists. split_and!; [reflexivity|exact Hfs|].
    pose proof (A_read (view fs files) nm n p) as HA. rewrite Hv in HA. exact HA.
Qed.

Lemma refine_write nm data p : op_ok (OWrite nm data p) → refined (OWrite nm data p).
Proof.
  intros (Hnm & Hd & Hp & Hov). unfold refined; cbn [exec]. rewrite (Open_spec g Hfs nm Hnm). rcbn.
  pose proof (view_lookup (key nm)) as Hv.
  pose proof (A_write (view fs files) nm data p) as HA. rewrite Hv in HA.
  destruct (files !! key nm) as [x|] eqn:Hx; cbn [fmap option_fmap option_map] in Hv, HA |- *.
  - destruct (Write_spec g Hfs (key nm) x data (Z.of_nat (length data)) (Z.to_nat p) 0 Hx Hd)
      as (count & ds' & E & Hc & Hst & Hnew & Hold); [lia|lia|].
    rewrite Z2Nat.id in E by done. rewrite E. rcbn. do 5 eexists. split_and!; [reflexivity|exact Hst|].
    rewrite Nat2Z.id in Hc, Hnew. rewrite Hc.
    replace (view (mkFileSystem _ _ _) files) with (alter (list_inserts (Z.to_nat p) data) (key nm) (view fs files)); [exact HA|].
    apply map_eq. intros k. destruct (decide (k = key nm)) as [->|Hne].
    + rewrite lookup_alter_eq, Hv. unfold view. rewrite lookup_fmap, Hx. cbn.
      by rewrite Hnew, firstn_all.
    + rewrite lookup_alter_ne by done. unfold view. rewrite !lookup_fmap.
      destruct (files !! k) as [y|] eqn:Hy; [|done]. cbn. f_equal. symmetry. by apply (Hold k).
  - do 5 eexists. split_and!; [reflexivity|exact Hfs|].
    replace (view fs files) with (alter (list_inserts (Z.to_nat p) data) (key nm) (view fs files)) at 2; [exact HA|].
    apply map_eq. intros k. destruct (decide (k = key nm)) as [->|Hne].
    + by rewrite lookup_alter_eq, Hv.
    + by rewrite lookup_alter_ne.
Qed.

Lemma exec_refines op : op_ok op → refined op.
Proof.
  destruct op; eauto using refine_create, refine_remove, refine_read, refine_write.
Qed.
End step.

(** ** Sequences of requests *)

(** Request [i] finds [g i] in memory. *)
Fixpoint exec_all (g : nat → nat → nat → Z) (i : nat) (ops : list fs_op) (fs : FileSystem)
  : Result (list reply * FileSystem) :=
  match ops with
  | [] => mret ([], fs)
  | op :: ops =>
      '(r, fs) ← exec (g i) op fs;
      '(rs, fs) ← exec_all g (S i) ops fs;
      mret (r :: rs, fs)
  end.

Inductive asteps : gmap (list Z) (list Z) → list fs_op → list reply → gmap (list Z) (list Z) → Prop :=
| asteps_nil v : asteps v [] [] v
| asteps_cons v op r v' ops rs v'' :
    astep v op r v' → asteps v' ops rs v'' → asteps v (op :: ops) (r :: rs) v''.

Lemma exec_all_refines g i ops fs files b d :
  fs_state fs files b d → Forall op_ok ops →
  ∃ rs fs' files' b' d', exec_all g i ops fs = Ok (rs, fs') ∧ fs_state fs' files' b' d' ∧
    asteps (view fs files) ops rs (view fs' files').
Proof.
  intros Hfs Hops. revert i fs files b d Hfs.
  induction Hops as [|op ops Hop Hops IH]; intros i fs files b d Hfs.
  - exists [], fs, files, b, d. split_and!; [reflexivity|assumption|constructor].
  - destruct (exec_refines (g i) Hfs op Hop) as (r & fs1 & files1 & b1 & d1 & E1 & Hfs1 & HA).
    destruct (IH (S i) fs1 files1 b1 d1 Hfs1) as (rs & fs' & files' & b' & d' & E & Hfs' & HAs).
    exists (r :: rs), fs', files', b', d'. cbn [exec_all]. rewrite E1. rcbn. rewrite E. rcbn.
    split_and!; [reflexivity|assumption|]. by econstructor.
Qed.

(** ** Properties *)

(** C2: Formatting any disk succeeds, and then every sequence of requests
    (create, remove, open and read, open and write, for any names, positions
    and data, and files of at most [MaxFileSize] bytes) runs without a failed
    assertion or a memory fault and gives the replies of the abstract file
    system, a map from names cut to nine characters to contents, whatever the
    disk and the memory held before: a read returns what the last writes left,
    operations on one file leave the others alone, and creation fails exactly
    for an existing name or a full directory. *)
Theorem FileSystem_refines_map g ds ops :
  disk_wf ds → Forall op_ok ops →
  ∃ fs0 rs fs v, new_FileSystem (g 0%nat) true ds = Ok fs0 ∧
    exec_all g 1 ops fs0 = Ok (rs, fs) ∧ asteps ∅ ops rs v.
Proof.
  intros Hds Hops. destruct (format_spec (g 0%nat) ds Hds) as (fs0 & b & d & E & Hfs).
  destruct (exec_all_refines g 1 ops fs0 ∅ b d Hfs Hops) as (rs & fs & files & b' & d' & E' & _ & HA).
  exists fs0, rs, fs, (view fs files). split_and!; [assumption..|].
  unfold view at 1 in HA. by rewrite fmap_empty in HA.
Qed.

(** C16: After every sequence of requests on a formatted disk, the free map on
    disk has exactly the sectors of the two system files and of the listed
    files allocated, no sector belongs to two of them, and mounting the disk
    again ([FileSystem(FALSE)]) gives the same file system. *)
Theorem FileSystem_consistent g ds ops :
  disk_wf ds → Forall op_ok ops →
  ∃ fs0 rs fs files b d, new_FileSystem (g 0%nat) true ds = Ok fs0 ∧
    exec_all g 1 ops fs0 = Ok (rs, fs) ∧
    new_FileSystem (g 1%nat) false (disk fs) = Ok fs ∧
    holds_map (freeMapFile fs) b (disk fs) ∧ holds_dir (directoryFile fs) d (disk fs) ∧
    dir_map d = (λ x : nat * FileHeader, Z.of_nat x.1) <$> files ∧
    (∀ i, i ∈ used b ↔ i ∈ system_sectors fs ∨ ∃ k x, files !! k = Some x ∧ i ∈ file_sectors x) ∧
    NoDup (system_sectors fs) ∧
    (∀ k x, files !! k = Some x → NoDup (file_sectors x) ∧ hdr_ok x.2 ∧
       ∀ i, i ∈ file_sectors x → i ∉ system_sectors fs ∧
         ∀ k' x', files !! k' = Some x' → i ∈ file_sectors x' → k' = k).
Proof.
  intros Hds Hops. destruct (format_spec (g 0%nat) ds Hds) as (fs0 & b & d & E & Hfs).
  destruct (exec_all_refines g 1 ops fs0 ∅ b d Hfs Hops) as (rs & fs & files & b' & d' & E' & Hst & _).
  exists fs0, rs, fs, files, b', d'. pose proof Hst as [_ _ _ (_ & _ & ?) (_ & _ & ?) ? Hf ? Ha Hd ? _].
  split_and!; try assumption; [by eapply mount_spec|].
  intros k x Hx. destruct (Hf k x Hx) as (? & _ & ?). split_and!; [assumption..|].
  intros i Hi. split; [by eapply Ha|]. intros k' x' Hx' Hi'. symmetry. by eapply (Hd k k').
Qed.

(** ** Witnesses *)

Definition example_ops : list fs_op :=
  [OCreate [97] 300; OWrite [97] [1; 2; 3] 127; ORead [97] 5 126; ORemove [97]; ORead [97] 1 0].

Lemma example_ops_ok : Forall op_ok example_ops.
Proof.
  assert (is_name [97]) by (repeat constructor; lia).
  repeat constructor; auto; vm_compute; try congruence; repeat constructor; congruence.
Qed.

Lemma FileSystem_refines_map_witness :
  ∃ fs0 rs fs v, new_FileSystem (λ _ _, 77) true empty_disk = Ok fs0 ∧
    exec_all (λ _ _ _, 77) 1 example_ops fs0 = Ok (rs, fs) ∧ asteps ∅ example_ops rs v.
Proof.
  exact (FileSystem_refines_map (λ _ _ _, 77) empty_disk example_ops empty_disk_wf example_ops_ok).
Defined.

Lemma FileSystem_consistent_witness :
  ∃ fs0 rs fs, new_FileSystem (λ _ _, 77) true empty_disk = Ok fs0 ∧
    exec_all (λ _ _ _, 77) 1 example_ops fs0 = Ok (rs, fs) ∧
    new_FileSystem (λ _ _, 77) false (disk fs) = Ok fs.
Proof.
  destruct (FileSystem_consistent (λ _ _ _, 77) empty_disk example_ops empty_disk_wf example_ops_ok)
    as (fs0 & rs & fs & files & b & d & E0 & E1 & E2 & _).
  exists fs0, rs, fs. auto.
Defined.

(** The replies of that run, computed. *)
Example example_run :
  (fs ← new_FileSystem (λ _ _, 77) true empty_disk;
   fst <$> exec_all (λ _ _ _, 77) 1 example_ops fs) =
  Ok [RBool true; RCount (Some 3); RBytes (Some [0; 1; 2; 3; 0]); RBool true; RBytes None].
Proof. vm_compute. reflexivity. Qed.

(** A file larger than [MaxFileSize] makes [Create] write past the header. *)
Example create_too_large_faults :
  (fs ← new_FileSystem (λ _ _, 77) true empty_disk; fst <$> FileSystem_Create (λ _ _, 77) [97] 3841 fs) =
  Err MemFault.
Proof. vm_compute. reflexivity. Qed.
