(* ===== verification/FsTest.v ===== *)
(** * filesys/fstest.cc

    The three commands main.cc offers for trying the file system out: [Copy] a
    UNIX file to a Nachos file, [Print] a Nachos file, and [PerformanceTest].
    They are clients of the file system of [FileSys.v], and their theorems are
    about the abstract file system, the map [view] from names to contents. *)

From S2P Require Import Prelude Bytes Bitmap Disk FileHdr OpenFile Directory FileSys FileSysSpec.

Local Open Scope Z_scope.

Definition TransferSize : nat := 10.

(** The messages that are printed. *)
Inductive line :=
| CopyNoInput                 (**r Copy: couldn't open input file *)
| CopyNoOutput                (**r Copy: couldn't create output file *)
| PrintNoFile                 (**r Print: unable to open file *)
| Chars (bs : list Z)         (**r the bytes [Print] shows *)
| PerfStart | PerfStats
| PerfSequentialWrite | PerfCantCreate | PerfCantOpenWrite | PerfCantWrite
| PerfSequentialRead | PerfCantOpenRead | PerfCantRead
| PerfCantRemove.

(** The file system after a write to one of its files. *)
Definition with_disk (ds : list (list Z)) (fs : FileSystem) : FileSystem :=
  mkFileSystem ds (freeMapFile fs) (directoryFile fs).

Section commands.
(** What memory holds where the n-th call allocates. *)
Context (g : nat → nat → nat → Z).

(** [while ((amountRead = fread(buffer, sizeof(char), TransferSize, fp)) > 0)
    openFile->Write(buffer, amountRead);] where [input] is what [fread] has not
    read yet. *)
Fixpoint copy_loop (fuel : nat) (input buffer : list Z) (openFile : OpenFile) (fs : FileSystem)
  : Result FileSystem :=
  match fuel with
  | O => Err OutOfFuel
  | S fuel =>
      let chunk := take TransferSize input in
      let amountRead := Z.of_nat (length chunk) in
      buffer ← bytes_put 0 chunk buffer;
      if decide (amountRead > 0) then
        '(_, openFile, ds) ← OpenFile_Write (g fuel 0%nat) buffer amountRead openFile (disk fs);
        copy_loop fuel (drop TransferSize input) buffer openFile (with_disk ds fs)
      else mret fs
  end.

(** [from] is the UNIX file, [None] when it cannot be opened. *)
Definition Copy (from : option (list Z)) (to : list Z) (fs : FileSystem) : Result (list line * FileSystem) :=
  match from with
  | None => mret ([CopyNoInput], fs)
  | Some input =>
      let fileLength := s32 (Z.of_nat (length input)) in
      '(ok, fs) ← FileSystem_Create (g 0%nat) to fileLength fs;
      if negb ok then mret ([CopyNoOutput], fs)
      else
        f ← FileSystem_Open (g 1%nat) to fs;
        openFile ← match f with Some openFile => mret openFile | None => Err AssertFailed end;
        buffer ← new_chars (g 2%nat 0%nat) (Z.of_nat TransferSize);
        fs ← copy_loop (S (length input)) input buffer openFile fs;
        mret ([], fs)
  end.

(** [while ((amountRead = openFile->Read(buffer, TransferSize)) > 0)
    for (i = 0; i < amountRead; i++) printf("%c", buffer[i]);] *)
Fixpoint print_loop (fuel : nat) (buffer : list Z) (openFile : OpenFile) (ds : list (list Z))
  : Result (list Z) :=
  match fuel with
  | O => Err OutOfFuel
  | S fuel =>
      '(bs, openFile) ← OpenFile_Read (g fuel 0%nat) (Z.of_nat TransferSize) openFile ds;
      buffer ← bytes_put 0 bs buffer;
      if decide (Z.of_nat (length bs) > 0) then
        printed ← bytes_at 0 (length bs) buffer;
        rest ← print_loop fuel buffer openFile ds;
        mret (printed ++ rest)
      else mret []
  end.

(** A file has at most [MaxFileSize] bytes, and every read but the last gives
    [TransferSize] of them. *)
Definition print_fuel : nat := Z.to_nat 3841.

Definition Print (name : list Z) (fs : FileSystem) : Result (list line) :=
  f ← FileSystem_Open (g 0%nat) name fs;
  match f with
  | None => mret [PrintNoFile]
  | Some openFile =>
      buffer ← new_chars (g 1%nat 0%nat) (Z.of_nat TransferSize);
      bs ← print_loop print_fuel buffer openFile (disk fs);
      mret [Chars bs]
  end.

(** *** The performance test *)

(** "TestFile" and "1234567890" *)
Definition FileName : list Z := [84; 101; 115; 116; 70; 105; 108; 101].
Definition Contents : list Z := [49; 50; 51; 52; 53; 54; 55; 56; 57; 48].
Definition ContentSize : Z := Z.of_nat (length Contents).
Definition FileSize : Z := ContentSize * 5000.

(** [for (i = 0; i < FileSize; i += ContentSize)] of [FileWrite]. *)
Fixpoint write_loop (fuel : nat) (i : Z) (openFile : OpenFile) (fs : FileSystem)
  : Result (list line * FileSystem) :=
  match fuel with
  | O => Err OutOfFuel
  | S fuel =>
      if decide (i < FileSize) then
        '(numBytes, openFile, ds) ← OpenFile_Write (g fuel 0%nat) Contents ContentSize openFile (disk fs);
        let fs := with_disk ds fs in
        if decide (numBytes < 10) then mret ([PerfCantWrite], fs)
        else write_loop fuel (i + ContentSize) openFile fs
      else mret ([], fs)
  end.

(** 5000 rounds and the last test. *)
Definition perf_fuel : nat := Z.to_nat 5001.

Definition FileWrite (fs : FileSystem) : Result (list line * FileSystem) :=
  '(ok, fs) ← FileSystem_Create (g 0%nat) FileName 0 fs;
  if negb ok then mret ([PerfSequentialWrite; PerfCantCreate], fs)
  else
    f ← FileSystem_Open (g 1%nat) FileName fs;
    match f with
    | None => mret ([PerfSequentialWrite; PerfCantOpenWrite], fs)
    | Some openFile =>
        '(out, fs) ← write_loop perf_fuel 0 openFile fs;
        mret (PerfSequentialWrite :: out, fs)
    end.

(** The same loop of [FileRead]. *)
Fixpoint read_loop (fuel : nat) (i : Z) (buffer : list Z) (openFile : OpenFile) (ds : list (list Z))
  : Result (list line) :=
  match fuel with
  | O => Err OutOfFuel
  | S fuel =>
      if decide (i < FileSize) then
        '(bs, openFile) ← OpenFile_Read (g fuel 0%nat) ContentSize openFile ds;
        buffer ← bytes_put 0 bs buffer;
        if bool_decide (Z.of_nat (length bs) < 10) ||
           negb (strncmp_eq (Z.to_nat ContentSize) buffer Contents)
        then mret [PerfCantRead]
        else read_loop fuel (i + ContentSize) buffer openFile ds
      else mret []
  end.

Definition FileRead (fs : FileSystem) : Result (list line) :=
  buffer ← new_chars (g 2%nat 0%nat) ContentSize;
  f ← FileSystem_Open (g 3%nat) FileName fs;
  match f with
  | None => mret [PerfSequentialRead; PerfCantOpenRead]
  | Some openFile =>
      out ← read_loop perf_fuel 0 buffer openFile (disk fs);
      mret (PerfSequentialRead :: out)
  end.

Definition PerformanceTest (fs : FileSystem) : Result (list line * FileSystem) :=
  '(out1, fs) ← FileWrite fs;
  out2 ← FileRead fs;
  '(ok, fs) ← FileSystem_Remove (g 4%nat) FileName fs;
  mret ([PerfStart; PerfStats] ++ out1 ++ out2 ++ (if negb ok then [PerfCantRemove] else [PerfStats]), fs).
End commands.

(** ** Reading and writing in chunks *)

Lemma inserts_app_end (l bs rest : list Z) :
  (length bs ≤ length rest)%nat →
  list_inserts (length l) bs (l ++ rest) = l ++ bs ++ drop (length bs) rest.
Proof.
  intros Hl. apply list_eq. intros i. destruct (decide (i < length l)%nat).
  - rewrite list_lookup_inserts_lt, !lookup_app_l by lia. done.
  - rewrite (lookup_app_r l) by lia. destruct (decide (i < length l + length bs)%nat).
    + rewrite list_lookup_inserts, lookup_app_l by (rewrite ?length_app; lia). done.
    + rewrite list_lookup_inserts_ge, !lookup_app_r, lookup_drop by (rewrite ?length_app; lia). f_equal. lia.
Qed.

Section loops.
Context (g : nat → nat → nat → Z).
Context {files : gmap (list Z) (nat * FileHeader)} {b : BitMap} {d : Directory}.

(** The loop of [Copy] fills the file from the seek position on, where [rest]
    bytes are left, and leaves the other files alone. *)
Lemma copy_loop_spec k x fuel input buffer before rest fs :
  files !! k = Some x → fs_state fs files b d → (length input < fuel)%nat →
  Forall is_byte input → Forall is_byte buffer → length buffer = TransferSize →
  contents x.2 (disk fs) = before ++ rest → length rest = length input →
  ∃ fs', copy_loop g fuel input buffer (mkOpenFile x.2 (Z.of_nat (length before))) fs = Ok fs' ∧
    fs_state fs' files b d ∧ contents x.2 (disk fs') = before ++ input ∧
    ∀ k' y, files !! k' = Some y → k' ≠ k → contents y.2 (disk fs') = contents y.2 (disk fs).
Proof.
  intros Hk. revert input buffer before rest fs.
  induction fuel as [|fuel IH]; intros input buffer before rest fs Hfs Hfuel Hin Hbuf Hlen Hc Hrest; [lia|].
  pose proof (fs_files _ _ _ _ Hfs k x Hk) as (Hok & _).
  pose proof (length_contents _ Hok _ (fs_disk _ _ _ _ Hfs)) as Hl. rewrite Hc, length_app in Hl.
  pose proof (hdr_bytes _ Hok) as Hmax. change MaxFileSize with 3840 in Hmax.
  cbn [copy_loop]. set (chunk := take TransferSize input).
  assert (length chunk ≤ 10 ∧ length chunk ≤ length input)%nat as [Hch Hch']
    by (unfold chunk, TransferSize; rewrite length_take; lia).
  rewrite bytes_put_Ok by (unfold TransferSize in *; lia). rcbn.
  case_decide as Hpos.
  2: { assert (input = []) as ->.
       { destruct input as [|c input]; [done|]. exfalso. apply Hpos. unfold chunk. cbn. lia. }
       exists fs. destruct rest; [|done]. split_and!; done. }
  assert (take (length chunk) (list_inserts (Z.to_nat 0) chunk buffer) = chunk) as Htk
    by (apply (take_drop_inserts chunk buffer 0); unfold TransferSize in *; lia).
  destruct (Write_spec (g fuel) Hfs k x (list_inserts (Z.to_nat 0) chunk buffer) (Z.of_nat (length chunk))
    (length before) (Z.of_nat (length before)) Hk) as (count & ds' & E & Hcount & Hst & Hnew & Hold);
    [apply Forall_inserts; [done|by apply Forall_take]|lia|rewrite length_inserts; unfold TransferSize in *; lia|].
  unfold OpenFile_Write. cbn [seekPosition]. rewrite E. rcbn.
  rewrite Nat2Z.id, Hc, drop_app_length in Hcount. rewrite length_take in Hcount.
  replace (Z.of_nat (length before) + count) with (Z.of_nat (length (before ++ chunk)))
    by (rewrite length_app; lia).
  destruct (IH (drop TransferSize input) (list_inserts (Z.to_nat 0) chunk buffer) (before ++ chunk)
    (drop (length chunk) rest) (with_disk ds' fs)) as (fs' & E' & Hst' & Hnew' & Hold').
  - exact Hst.
  - rewrite length_drop. unfold TransferSize in *. lia.
  - by apply Forall_drop.
  - apply Forall_inserts; [done|by apply Forall_take].
  - by rewrite length_inserts.
  - cbn [disk with_disk]. rewrite Hnew, Nat2Z.id, Htk, Hc. rewrite <- app_assoc.
    apply inserts_app_end. lia.
  - rewrite !length_drop. unfold chunk. rewrite length_take. lia.
  - exists fs'. split_and!; [exact E'|exact Hst'| |].
    + rewrite Hnew'. rewrite <- app_assoc. unfold chunk. by rewrite take_drop.
    + intros k' y Hy Hne. rewrite (Hold' k' y Hy Hne). cbn [disk with_disk]. by apply (Hold k').
Qed.
End loops.

Section file.
Context (h : FileHeader) (ds : list (list Z)).
Hypothesis Hh : hdr_ok h.
Hypothesis Hds : disk_wf ds.

Lemma contents_small : Z.of_nat (length (contents h ds)) ≤ 3840.
Proof using Hh Hds.
  rewrite length_contents by done. pose proof (hdr_bytes _ Hh) as Hb. change MaxFileSize with 3840 in Hb. lia.
Qed.

(** The next ten bytes, or as many as there are. *)
Lemma Read_spec gb (p : nat) :
  Z.of_nat p ≤ 50000 →
  let bs := take 10 (drop p (contents h ds)) in
  OpenFile_Read gb 10 (mkOpenFile h (Z.of_nat p)) ds = Ok (bs, mkOpenFile h (Z.of_nat (p + length bs))).
Proof using Hh Hds.
  intros Hp bs. unfold OpenFile_Read. cbn [seekPosition hdr].
  rewrite (ReadAt_spec gb (mkOpenFile h (Z.of_nat p)) Hh 10 p ds Hds) by lia. rcbn.
  change (Z.to_nat 10) with 10%nat. fold bs. by rewrite Nat2Z.inj_add.
Qed.

Lemma print_loop_spec g fuel buffer (p : nat) :
  length buffer = TransferSize → (length (contents h ds) < p + fuel)%nat → (p ≤ length (contents h ds))%nat →
  print_loop g fuel buffer (mkOpenFile h (Z.of_nat p)) ds = Ok (drop p (contents h ds)).
Proof using Hh Hds.
  revert buffer p. induction fuel as [|fuel IH]; intros buffer p Hb Hf Hp; [lia|].
  pose proof contents_small as Hsm. cbn [print_loop]. change (Z.of_nat TransferSize) with 10.
  rewrite Read_spec by lia. rcbn. set (bs := take 10 (drop p (contents h ds))).
  assert (length bs ≤ 10)%nat as Hl by (unfold bs; rewrite length_take; lia).
  rewrite bytes_put_Ok by (rewrite ?Hb; unfold TransferSize; lia). rcbn.
  case_decide as Hpos.
  - destruct (bytes_at_Ok 0 (length bs) (list_inserts (Z.to_nat 0) bs buffer)) as [-> _];
      [lia|rewrite length_inserts, Hb; unfold TransferSize; lia|]. rcbn.
    change (Z.to_nat 0) with 0%nat. rewrite (take_drop_inserts bs buffer 0) by (rewrite Hb; unfold TransferSize; lia).
    assert (length bs = Nat.min 10 (length (contents h ds) - p)) as El
      by (unfold bs; rewrite length_take, length_drop; done).
    rewrite IH by (rewrite ?length_inserts; lia). rcbn. f_equal.
    rewrite <- drop_drop. unfold bs at 1. rewrite El.
    etrans; [|apply (take_drop 10)]. f_equal.
    destruct (decide (10 ≤ length (contents h ds) - p)%nat); [by rewrite Nat.min_l by lia|].
    rewrite !drop_ge; [done|rewrite length_drop; lia..].
  - assert (length (contents h ds) = p) as <- by (unfold bs in Hpos; rewrite length_take, length_drop in Hpos; lia).
    by rewrite drop_ge.
Qed.

(** No file has [FileSize] bytes: the loop of [FileRead] never gets through. *)
Lemma read_loop_fails g fuel buffer (p : nat) :
  length buffer = Z.to_nat ContentSize → FileSize < Z.of_nat (p + 10 * fuel) → (p ≤ length (contents h ds))%nat →
  read_loop g fuel (Z.of_nat p) buffer (mkOpenFile h (Z.of_nat p)) ds = Ok [PerfCantRead].
Proof using Hh Hds.
  revert buffer p. pose proof contents_small as Hsm. change FileSize with 50000. change (Z.to_nat ContentSize) with 10%nat.
  induction fuel as [|fuel IH]; intros buffer p Hb Hf Hp; [lia|].
  cbn [read_loop]. change FileSize with 50000. change ContentSize with 10. rewrite decide_True by lia.
  rewrite Read_spec by lia. rcbn. set (bs := take 10 (drop p (contents h ds))).
  assert (length bs ≤ 10 ∧ p + length bs ≤ length (contents h ds))%nat as [Hl Hl']
    by (unfold bs; rewrite length_take, length_drop; lia).
  rewrite bytes_put_Ok by lia. rcbn. destruct (_ || _) eqn:Etest; [done|].
  apply orb_false_iff in Etest as [E%bool_decide_eq_false _].
  assert (length bs = 10%nat) as El by lia. rewrite El in *.
  replace (Z.of_nat p + 10) with (Z.of_nat (p + 10)) by lia. apply IH; [by rewrite length_inserts|lia|lia].
Qed.
End file.

(** Writing to an empty file does nothing. *)
Lemma write_loop_empty g fuel h fs :
  numBytes h = 0 → write_loop g (S fuel) 0 (mkOpenFile h 0) fs = Ok ([PerfCantWrite], fs).
Proof.
  intros Hz. cbn [write_loop]. rewrite decide_True by done. unfold OpenFile_Write, WriteAt, FileLength.
  cbn [hdr seekPosition]. rewrite Hz, (bool_decide_true (0 ≤ 0)), orb_true_r by lia. rcbn.
  by destruct fs.
Qed.

(** ** The commands *)

Section commands_spec.
Context {fs : FileSystem} {files : gmap (list Z) (nat * FileHeader)} {b : BitMap} {d : Directory}.
Hypothesis Hfs : fs_state fs files b d.

(** A new file can be created under the name. *)
Definition creatable (nm : list Z) : Prop := files !! key nm = None ∧ Z.of_nat (size files) < NumDirEntries.

Lemma Copy_spec g nm input :
  is_name nm → Forall is_byte input → Z.of_nat (length input) ≤ MaxFileSize →
  if decide (creatable nm) then
    ∃ fs' files' b' d', Copy g (Some input) nm fs = Ok ([], fs') ∧ fs_state fs' files' b' d' ∧
      view fs' files' = <[key nm := input]> (view fs files)
  else Copy g (Some input) nm fs = Ok ([CopyNoOutput], fs).
Proof using Hfs.
  intros Hnm Hin Hsz. assert (s32 (Z.of_nat (length input)) = Z.of_nat (length input)) as Es
    by (apply s32_small; change MaxFileSize with 3840 in Hsz; lia).
  unfold Copy. rewrite Es. pose proof (Create_spec (g 0%nat) Hfs nm Hnm (Z.of_nat (length input)) ltac:(lia)) as HC.
  fold (creatable nm) in HC. case_decide; [|by rewrite HC].
  destruct HC as (fs1 & x & b' & d' & -> & Hst & Hlen & Hkeep). rcbn. cbn [negb].
  rewrite (Open_spec (g 1%nat) Hst nm Hnm), lookup_insert_eq. rcbn. cbn [fmap option_fmap option_map].
  destruct (new_chars_Ok (g 2%nat 0%nat) (Z.of_nat TransferSize)) as (buf & -> & Hlb & Hb); [lia|]. rcbn.
  destruct (fs_files _ _ _ _ Hst (key nm) x) as (Hok & _); [apply lookup_insert_eq|].
  destruct (copy_loop_spec g (key nm) x (S (length input)) input buf [] (contents x.2 (disk fs1)) fs1
    (lookup_insert_eq files (key nm) x) Hst) as (fs' & E & Hst' & Hc & Hold);
    [lia|done|done|by rewrite Nat2Z.id in Hlb|done|rewrite length_contents, Hlen by (done || apply Hst); lia|].
  cbn [length] in E. change (Z.of_nat 0) with 0 in E. rewrite E. rcbn.
  exists fs', (<[key nm := x]> files), b', d'. split_and!; [done|done|].
  unfold view. rewrite fmap_insert, Hc. cbn [app]. apply map_eq. intros k.
  destruct (decide (k = key nm)) as [->|Hne]; [by rewrite !lookup_insert_eq|].
  rewrite !lookup_insert_ne, !lookup_fmap by done. destruct (files !! k) as [y|] eqn:Hy; [|done].
  cbn. f_equal. rewrite (Hold k) by (done || by rewrite lookup_insert_ne). by apply (Hkeep k).
Qed.

Lemma Print_spec g nm :
  is_name nm →
  Print g nm fs = Ok [match view fs files !! key nm with Some bs => Chars bs | None => PrintNoFile end].
Proof using Hfs.
  intros Hnm. unfold Print. rewrite (Open_spec (g 0%nat) Hfs nm Hnm), view_lookup. rcbn.
  destruct (files !! key nm) as [x|] eqn:Hx; cbn [fmap option_fmap option_map]; [|done].
  destruct (new_chars_Ok (g 1%nat 0%nat) (Z.of_nat TransferSize)) as (buf & -> & Hlb & _); [lia|]. rcbn.
  destruct (fs_files _ _ _ _ Hfs _ _ Hx) as (Hok & _).
  pose proof (contents_small x.2 (disk fs) Hok (fs_disk _ _ _ _ Hfs)).
  pose proof (print_loop_spec x.2 (disk fs) Hok (fs_disk _ _ _ _ Hfs) g print_fuel buf 0) as HP.
  change (Z.of_nat 0) with 0 in HP. rewrite HP; [done|by rewrite Nat2Z.id in Hlb|unfold print_fuel; lia|lia].
Qed.

(** *** The parts of the performance test *)

Lemma FileWrite_spec g :
  if decide (creatable FileName) then
    ∃ fs' x b' d', FileWrite g fs = Ok ([PerfSequentialWrite; PerfCantWrite], fs') ∧
      fs_state fs' (<[key FileName := x]> files) b' d' ∧
      ∀ k y, files !! k = Some y → contents y.2 (disk fs') = contents y.2 (disk fs)
  else FileWrite g fs = Ok ([PerfSequentialWrite; PerfCantCreate], fs).
Proof using Hfs.
  assert (is_name FileName) as Hnm by (repeat constructor; lia).
  unfold FileWrite. pose proof (Create_spec (g 0%nat) Hfs FileName Hnm 0 ltac:(done)) as HC.
  fold (creatable FileName) in HC. case_decide; [|by rewrite HC].
  destruct HC as (fs1 & x & b' & d' & -> & Hst & Hlen & Hkeep). rcbn. cbn [negb].
  rewrite (Open_spec (g 1%nat) Hst FileName Hnm), lookup_insert_eq. rcbn. cbn [fmap option_fmap option_map].
  assert (perf_fuel = S (Z.to_nat 5000)) as -> by (unfold perf_fuel; lia).
  rewrite write_loop_empty by done. rcbn. by exists fs1, x, b', d'.
Qed.

Lemma FileRead_spec g :
  FileRead g fs = Ok [PerfSequentialRead; if files !! key FileName then PerfCantRead else PerfCantOpenRead].
Proof using Hfs.
  assert (is_name FileName) as Hnm by (repeat constructor; lia). unfold FileRead.
  destruct (new_chars_Ok (g 2%nat 0%nat) ContentSize) as (buf & -> & Hlb & _); [done|]. rcbn.
  rewrite (Open_spec (g 3%nat) Hfs FileName Hnm). rcbn.
  destruct (files !! key FileName) as [x|] eqn:Hx; cbn [fmap option_fmap option_map]; [|done].
  destruct (fs_files _ _ _ _ Hfs _ _ Hx) as (Hok & _).
  pose proof (read_loop_fails x.2 (disk fs) Hok (fs_disk _ _ _ _ Hfs) g perf_fuel buf 0 Hlb) as HR.
  change (Z.of_nat 0) with 0 in HR. rewrite HR; [done| |lia]. unfold perf_fuel. change FileSize with 50000. lia.
Qed.

(** [PerformanceTest] after [FileWrite]. *)
Definition perf_rest (g : nat → nat → nat → Z) (out1 : list line) (fs : FileSystem) :=
  out2 ← FileRead g fs;
  '(ok, fs) ← FileSystem_Remove (g 4%nat) FileName fs;
  mret ([PerfStart; PerfStats] ++ out1 ++ out2 ++ (if negb ok then [PerfCantRemove] else [PerfStats]), fs).

Lemma perf_rest_spec g out1 :
  ∃ fs' files' b' d',
    perf_rest g out1 fs = Ok ([PerfStart; PerfStats] ++ out1 ++
      (if files !! key FileName then [PerfSequentialRead; PerfCantRead; PerfStats]
       else [PerfSequentialRead; PerfCantOpenRead; PerfCantRemove]), fs') ∧
    fs_state fs' files' b' d' ∧ view fs' files' = delete (key FileName) (view fs files).
Proof using Hfs.
  assert (is_name FileName) as Hnm by (repeat constructor; lia). unfold perf_rest.
  rewrite FileRead_spec. rcbn. pose proof (Remove_spec (g 4%nat) Hfs FileName Hnm) as HR.
  destruct (files !! key FileName) as [x|] eqn:Hx.
  - destruct HR as (fs' & b' & d' & -> & Hst & Hk). rcbn.
    exists fs', (delete (key FileName) files), b', d'. split_and!; [done|done|].
    unfold view. rewrite fmap_delete. f_equal. apply map_fmap_ext. intros k y Hy. by apply (Hk k).
  - rewrite HR. rcbn. exists fs, files, b, d. split_and!; [done|done|].
    rewrite delete_id; [done|]. by rewrite view_lookup, Hx.
Qed.
End commands_spec.

(** ** Properties *)

(** C36: [Copy] of a UNIX file of at most [MaxFileSize] (3840) bytes to a new
    name adds exactly that file, with the same bytes, and changes no other; without an input file, for a name that
    exists or when the directory is full it says so and changes nothing.  After
    it, [Print] of any name shows exactly the bytes of the file of that name. *)
Theorem Copy_Print g g' fs files b d from nm :
  fs_state fs files b d → is_name nm →
  (∀ input, from = Some input → Forall is_byte input ∧ Z.of_nat (length input) ≤ MaxFileSize) →
  ∃ out fs' files' b' d', Copy g from nm fs = Ok (out, fs') ∧ fs_state fs' files' b' d' ∧
    (out, view fs' files') =
      match from with
      | None => ([CopyNoInput], view fs files)
      | Some input =>
          if decide (view fs files !! key nm = None ∧ Z.of_nat (size (view fs files)) < NumDirEntries)
          then ([], <[key nm := input]> (view fs files)) else ([CopyNoOutput], view fs files)
      end ∧
    ∀ nm', is_name nm' →
      Print g' nm' fs' = Ok [match view fs' files' !! key nm' with Some bs => Chars bs | None => PrintNoFile end].
Proof.
  intros Hfs Hnm Hfrom. destruct from as [input|].
  2: { exists [CopyNoInput], fs, files, b, d. split_and!; [done..|]. intros nm' Hnm'. by eapply Print_spec. }
  destruct (Hfrom input eq_refl) as [Hb Hl]. pose proof (Copy_spec Hfs g nm input Hnm Hb Hl) as HC.
  rewrite size_view, view_lookup.
  assert (((λ x : nat * FileHeader, contents x.2 (disk fs)) <$> files !! key nm = None ∧
    Z.of_nat (size files) < NumDirEntries) ↔ creatable (files := files) nm) as E
    by (unfold creatable; by rewrite fmap_None).
  rewrite (decide_ext _ _ _ _ E). case_decide.
  - destruct HC as (fs' & files' & b' & d' & E1 & Hst & Hv). exists [], fs', files', b', d'.
    split_and!; [done|done|by rewrite Hv|]. intros nm' Hnm'. by eapply Print_spec.
  - exists [CopyNoOutput], fs, files, b, d. split_and!; [done..|]. intros nm' Hnm'. by eapply Print_spec.
Qed.

(** What the test prints, by the files there are. *)
Definition perf_lines (v : gmap (list Z) (list Z)) : list line :=
  [PerfStart; PerfStats; PerfSequentialWrite] ++
  (if v !! key FileName then [PerfCantCreate; PerfSequentialRead; PerfCantRead; PerfStats]
   else if decide (Z.of_nat (size v) < NumDirEntries)
   then [PerfCantWrite; PerfSequentialRead; PerfCantRead; PerfStats]
   else [PerfCantCreate; PerfSequentialRead; PerfCantOpenRead; PerfCantRemove]).

Lemma PerformanceTest_spec g fs files b d :
  fs_state fs files b d →
  let v := view fs files in
  ∃ fs' files' b' d',
    PerformanceTest g fs = Ok (perf_lines v, fs') ∧
    fs_state fs' files' b' d' ∧ view fs' files' = delete (key FileName) v.
Proof.
  intros Hfs v. unfold v, perf_lines. rewrite view_lookup, size_view.
  change (PerformanceTest g fs) with ('(out1, fs) ← FileWrite g fs; perf_rest g out1 fs).
  pose proof (FileWrite_spec Hfs g) as HW. destruct (decide (creatable FileName)) as [[Hn Hlt]|Hc].
  - destruct HW as (fs1 & x & b1 & d1 & -> & Hst & Hkeep). rcbn.
    destruct (perf_rest_spec Hst g [PerfSequentialWrite; PerfCantWrite]) as (fs' & files' & b' & d' & -> & Hst' & Hv).
    exists fs', files', b', d'. rewrite lookup_insert_eq, Hn, decide_True by done. split_and!; [done|done|].
    rewrite Hv. unfold view. rewrite fmap_insert, delete_insert_eq. f_equal.
    apply map_fmap_ext. intros k y Hy. by apply (Hkeep k).
  - rewrite HW. rcbn.
    destruct (perf_rest_spec Hfs g [PerfSequentialWrite; PerfCantCreate]) as (fs' & files' & b' & d' & -> & Hst' & Hv).
    exists fs', files', b', d'. split_and!; [|done|done].
    destruct (files !! key FileName) eqn:Hn; [done|]. cbn [fmap option_fmap option_map].
    rewrite decide_False; [done|]. intros Hlt. by destruct Hc.
Qed.

(** C40: the performance test fails in the file system it comes with, for files
    have a fixed size: in every state of the file system it ends, it never
    reads the file it meant to write, and the only file it changes is
    "TestFile", which is gone afterwards, also when it was there before. *)
Theorem PerformanceTest_fails g fs files b d :
  fs_state fs files b d →
  let v := view fs files in
  ∃ fs' files' b' d',
    PerformanceTest g fs = Ok ([PerfStart; PerfStats; PerfSequentialWrite] ++
      (if v !! key FileName then [PerfCantCreate; PerfSequentialRead; PerfCantRead; PerfStats]
       else if decide (Z.of_nat (size v) < NumDirEntries)
       then [PerfCantWrite; PerfSequentialRead; PerfCantRead; PerfStats]
       else [PerfCantCreate; PerfSequentialRead; PerfCantOpenRead; PerfCantRemove]), fs') ∧
    fs_state fs' files' b' d' ∧ view fs' files' = delete (key FileName) v.
Proof. exact (PerformanceTest_spec g fs files b d). Qed.

(** ** Executions *)

Definition greeting : list Z := [72; 101; 108; 108; 111; 32; 116; 104; 101; 114; 101; 33; 10].

Lemma Copy_Print_witness :
  ∃ fs fs', new_FileSystem (λ _ _, 77) true empty_disk = Ok fs ∧
    Copy (λ _ _ _, 77) (Some greeting) [104; 105] fs = Ok ([], fs') ∧
    Print (λ _ _ _, 88) [104; 105] fs' = Ok [Chars greeting].
Proof.
  assert (is_name [104; 105]) as Hnm by (repeat constructor; lia).
  destruct (format_spec (λ _ _, 77) empty_disk empty_disk_wf) as (fs & b & d & E & Hfs).
  destruct (Copy_Print (λ _ _ _, 77) (λ _ _ _, 88) fs ∅ b d (Some greeting) [104; 105] Hfs Hnm)
    as (out & fs' & files' & b' & d' & E1 & _ & E2 & HP).
  { intros input [= <-]. split; [repeat constructor; lia|vm_compute; discriminate]. }
  assert (view fs ∅ = ∅) as Ev by apply fmap_empty.
  revert E2 HP. generalize (view fs' files'). intros v' E2 HP. rewrite Ev in E2.
  rewrite decide_True in E2 by (split; [apply lookup_empty|reflexivity]). injection E2 as E2 E3.
  exists fs, fs'. split; [exact E|]. split; [rewrite <- E2; exact E1|].
  rewrite (HP _ Hnm), E3, lookup_insert_eq. reflexivity.
Defined.

Lemma PerformanceTest_fails_witness :
  ∃ fs fs', new_FileSystem (λ _ _, 77) true empty_disk = Ok fs ∧
    PerformanceTest (λ _ _ _, 77) fs =
      Ok ([PerfStart; PerfStats; PerfSequentialWrite; PerfCantWrite; PerfSequentialRead; PerfCantRead; PerfStats], fs').
Proof.
  destruct (format_spec (λ _ _, 77) empty_disk empty_disk_wf) as (fs & b & d & E & Hfs).
  destruct (PerformanceTest_fails (λ _ _ _, 77) fs ∅ b d Hfs) as (fs' & files' & b' & d' & E1 & _).
  unfold view in E1. rewrite fmap_empty in E1. exists fs, fs'. split; [exact E|exact E1].
Defined.

(** The same commands, computed: copy, print, copy again, and the test. *)
Example commands_run :
  (fs ← new_FileSystem (λ _ _, 77) true empty_disk;
   '(out1, fs) ← Copy (λ _ _ _, 1) (Some greeting) [104; 105] fs;
   out2 ← Print (λ _ _ _, 2) [104; 105] fs;
   '(out3, fs) ← Copy (λ _ _ _, 3) (Some [1]) [104; 105] fs;
   '(out4, fs) ← PerformanceTest (λ _ _ _, 4) fs;
   out5 ← Print (λ _ _ _, 5) FileName fs;
   mret (out1 ++ out2 ++ out3 ++ out4 ++ out5)) =
  Ok [Chars greeting; CopyNoOutput; PerfStart; PerfStats; PerfSequentialWrite; PerfCantWrite;
      PerfSequentialRead; PerfCantRead; PerfStats; PrintNoFile].
Proof. vm_compute. reflexivity. Qed.
