(* ===== verification/FsPrint.v ===== *)
(** * The listings of the file system

    [FileHeader::Print], [Directory::Print] and [FileSystem::Print] (the option
    -D) with the data they print, and [FileSystem::List] (the option -l).  The
    fixed texts between the data are left out. *)

From S2P Require Import Prelude Bytes Bitmap Disk FileHdr OpenFile Directory FileSys FileSysSpec FsTest.

Local Open Scope Z_scope.

(** A byte of a file: itself when it can be printed, else in hexadecimal. *)
Inductive glyph := Char (c : Z) | Hex (c : Z).

(** ['\040' <= data[j] && data[j] <= '\176']; a [char] above 127 is negative. *)
Definition show_byte (c : Z) : glyph :=
  let char := if decide (c < 128) then c else c - 256 in
  if decide (32 ≤ char ∧ char ≤ 126) then Char c else Hex c.

(** What [FileHeader::Print] shows: the size, the sectors, a line per sector. *)
Record dump := mkDump { dump_size : Z; dump_blocks : list Z; dump_lines : list (list glyph) }.

(** [for (j = 0; (j < SectorSize) && (k < numBytes); j++, k++)] over a sector. *)
Fixpoint print_data (data : list Z) (k numBytes : Z) : list glyph * Z :=
  match data with
  | [] => ([], k)
  | c :: data =>
      if decide (k < numBytes) then
        let '(line, k) := print_data data (k + 1) numBytes in (show_byte c :: line, k)
      else ([], k)
  end.

Fixpoint print_blocks (n i : nat) (h : FileHeader) : Result (list Z) :=
  match n with
  | O => mret []
  | S n => s ← deref (dataSectors h !! i); rest ← print_blocks n (S i) h; mret (s :: rest)
  end.

Fixpoint print_sectors (n i : nat) (k : Z) (h : FileHeader) (ds : list (list Z)) : Result (list (list glyph)) :=
  match n with
  | O => mret []
  | S n =>
      s ← deref (dataSectors h !! i);
      data ← ReadSector s ds;
      let '(line, k) := print_data data k (numBytes h) in
      rest ← print_sectors n (S i) k h ds;
      mret (line :: rest)
  end.

Definition FileHeader_Print (h : FileHeader) (ds : list (list Z)) : Result dump :=
  blocks ← print_blocks (Z.to_nat (numSectors h)) 0 h;
  lines ← print_sectors (Z.to_nat (numSectors h)) 0 0 h ds;
  mret (mkDump (numBytes h) blocks lines).

(** [Directory::Print]: name, sector and file of each entry in use. *)
Fixpoint print_entries (n i : nat) (t : list DirectoryEntry) (ds : list (list Z))
  : Result (list (list Z * Z * dump)) :=
  match n with
  | O => mret []
  | S n =>
      e ← deref (t !! i);
      if inUse e then
        line ← print_string (name e);
        hdr ← FileHeader_FetchFrom (sector e) ds;
        file ← FileHeader_Print hdr ds;
        rest ← print_entries n (S i) t ds;
        mret ((line, sector e, file) :: rest)
      else print_entries n (S i) t ds
  end.

Definition Directory_Print (d : Directory) (ds : list (list Z)) : Result (list (list Z * Z * dump)) :=
  print_entries (Z.to_nat (tableSize d)) 0 (table d) ds.

(** [FileSystem::Print]: the header of the bit map, that of the directory, the
    bits and the files. *)
Definition FileSystem_Print (g : nat → nat → Z) (fs : FileSystem)
  : Result (dump * dump * list Z * list (list Z * Z * dump)) :=
  freeMap ← new_BitMap (g 3%nat) NumSectors;
  let directory := new_Directory (g 2%nat) NumDirEntries in
  bitHdr ← FileHeader_FetchFrom FreeMapSector (disk fs);
  bitDump ← FileHeader_Print bitHdr (disk fs);
  dirHdr ← FileHeader_FetchFrom DirectorySector (disk fs);
  dirDump ← FileHeader_Print dirHdr (disk fs);
  freeMap ← BitMap_FetchFrom g (freeMapFile fs) (disk fs) freeMap;
  bits ← Bitmap.Print freeMap;
  directory ← Directory_FetchFrom (g 1%nat) (directoryFile fs) (disk fs) directory;
  files ← Directory_Print directory (disk fs);
  mret (bitDump, dirDump, bits, files).

(** ** Specification *)

Definition glyph_byte (x : glyph) : Z := match x with Char c | Hex c => c end.

(** The bytes of a listing. *)
Definition dump_bytes (x : dump) : list Z := glyph_byte <$> concat (dump_lines x).

Lemma glyph_show c : glyph_byte (show_byte c) = c.
Proof. unfold show_byte. by destruct (decide (_ ∧ _)). Qed.

Lemma print_data_spec data k n :
  print_data data k n =
    (show_byte <$> take (Z.to_nat (n - k)) data, k + Z.of_nat (length (take (Z.to_nat (n - k)) data))).
Proof.
  revert k. induction data as [|c data IH]; intros k; cbn [print_data].
  { rewrite take_nil. cbn. f_equal. lia. }
  case_decide as Hk.
  - rewrite IH. replace (Z.to_nat (n - k)) with (S (Z.to_nat (n - (k + 1)))) by lia. cbn. f_equal. lia.
  - replace (Z.to_nat (n - k)) with 0%nat by lia. cbn. f_equal. lia.
Qed.

Section header.
Context (h : FileHeader) (ds : list (list Z)).
Hypothesis Hh : hdr_ok h.
Hypothesis Hds : disk_wf ds.

Lemma print_blocks_spec n i :
  (i + n ≤ length (dataSectors h))%nat → print_blocks n i h = Ok (take n (drop i (dataSectors h))).
Proof using.
  revert i. induction n as [|n IH]; intros i Hi; [done|]. cbn [print_blocks].
  destruct (lookup_lt_is_Some_2 (dataSectors h) i) as [s Hs]; [lia|]. rewrite Hs. rcbn. rewrite IH by lia. rcbn.
  by rewrite (drop_S _ _ _ Hs).
Qed.

Lemma numSectors_bound : (length (hdr_sectors h) ≤ length (dataSectors h))%nat ∧
  length (hdr_sectors h) = Z.to_nat (numSectors h).
Proof using Hh.
  unfold hdr_sectors. rewrite length_fmap, length_take, (hdr_length h Hh), (hdr_num h Hh).
  pose proof (blocks_bound _ (hdr_bytes _ Hh)) as Hb. lia.
Qed.

(** The lines from sector [i] on, of a file whose first [k] bytes are shown. *)
Lemma print_sectors_spec n i :
  (i + n = length (hdr_sectors h))%nat →
  ∃ lines, print_sectors n i (Z.min (Z.of_nat (i * 128)) (numBytes h)) h ds = Ok lines ∧
    glyph_byte <$> concat lines = drop (i * 128) (contents h ds).
Proof using Hh Hds.
  pose proof numSectors_bound as [Hle Hnum].
  revert i. induction n as [|n IH]; intros i Hi; cbn [print_sectors].
  { exists []. split; [done|]. rewrite drop_ge; [done|]. rewrite length_contents by done.
    pose proof (numBytes_sectors h Hh). lia. }
  destruct (lookup_lt_is_Some_2 (hdr_sectors h) i) as [s Hs]; [lia|].
  assert (dataSectors h !! i = Some (Z.of_nat s)) as Hd.
  { unfold hdr_sectors in Hs. rewrite list_lookup_fmap in Hs. apply fmap_Some in Hs as (z & Hz & ->).
    pose proof (hdr_range h Hh) as Hr. eapply Forall_lookup_1 in Hr; [|exact Hz]. cbn in Hr.
    rewrite lookup_take_lt in Hz by lia. rewrite Hz. f_equal. lia. }
  rewrite Hd. rcbn. pose proof (hdr_sector_lt h Hh i s Hs) as Hlt.
  destruct (ReadSector_Ok (Z.of_nat s) ds) as (data & -> & Hdata & [Hlen _]); [done|lia|]. rcbn.
  rewrite Nat2Z.id in Hdata. pose proof (file_chunk h Hh ds i s data Hds Hs Hdata) as Hchunk.
  rewrite print_data_spec. cbn zeta iota beta.
  pose proof (hdr_bytes h Hh) as Hb. pose proof (numBytes_sectors h Hh) as Hns.
  set (m := Z.to_nat (numBytes h - Z.min (Z.of_nat (i * 128)) (numBytes h))).
  assert (length data = 128%nat) as Hl128 by (change SectorSize with 128 in Hlen; lia).
  replace (Z.min (Z.of_nat (i * 128)) (numBytes h) + Z.of_nat (length (take m data)))
    with (Z.min (Z.of_nat (S i * 128)) (numBytes h)) by (rewrite length_take; lia).
  destruct (IH (S i)) as (lines & -> & Hrest); [lia|]. rcbn. eexists. split; [reflexivity|].
  cbn [concat]. rewrite fmap_app, Hrest, <- list_fmap_compose.
  rewrite (list_fmap_ext _ id) by (intros; apply glyph_show). rewrite list_fmap_id.
  assert (drop (i * 128) (contents h ds) = take m (drop (i * 128) (file_bytes h ds))) as Em
    by (unfold contents; rewrite skipn_firstn_comm; f_equal; lia).
  replace (S i * 128)%nat with (i * 128 + 128)%nat by lia. rewrite <- drop_drop, Em, <- Hchunk, take_take, Nat.min_comm.
  rewrite <- take_take. apply take_drop.
Qed.

(** The listing of a file has its bytes. *)
Lemma FileHeader_Print_spec :
  ∃ x, FileHeader_Print h ds = Ok x ∧ dump_size x = numBytes h ∧ dump_bytes x = contents h ds ∧
    dump_blocks x = Z.of_nat <$> hdr_sectors h.
Proof using Hh Hds.
  pose proof numSectors_bound as [Hle Hnum]. unfold FileHeader_Print. rewrite <- Hnum.
  rewrite print_blocks_spec by lia. rcbn.
  destruct (print_sectors_spec (length (hdr_sectors h)) 0 eq_refl) as (lines & E & Hb).
  pose proof (hdr_bytes h Hh). rewrite Z.min_l in E by lia. change (Z.of_nat (0 * 128)) with 0 in E. rewrite E. rcbn.
  eexists. split_and!; [reflexivity|done|exact Hb|]. cbn. rewrite drop_0, Hnum. unfold hdr_sectors.
  rewrite <- list_fmap_compose. rewrite <- list_fmap_id at 1. apply list_fmap_ext. intros i z Hz.
  pose proof (hdr_range h Hh) as Hr. eapply Forall_lookup_1 in Hr; [|exact Hz]. cbn in *. lia.
Qed.
End header.

(** ** The directory *)

(** A name that leaves room for its NUL is printed whole. *)
Lemma print_string_cname n s :
  (n ≤ length s)%nat → (length (cname n s) < n)%nat → print_string s = Ok (cname n s).
Proof.
  revert s. induction n as [|n IH]; intros [|c s] Hs Hn; cbn [cname print_string length] in *; try lia.
  case_decide; [done|]. cbn [length] in Hn. rewrite IH by lia. done.
Qed.

Definition short_name (k : list Z) : Prop := (length k < FileNameMaxLen)%nat.

Lemma print_name e : entry_ok e → short_name (entry_key e) → print_string (name e) = Ok (entry_key e).
Proof.
  intros He Hk. destruct (entry_name e He) as [Hl _]. apply print_string_cname; [|exact Hk].
  rewrite Hl. unfold FileNameMaxLen. lia.
Qed.

Lemma listLoop_spec t1 t2 :
  Forall (λ e, inUse e = true → entry_ok e ∧ short_name (entry_key e)) t2 →
  listLoop (length t2) (length t1) (t1 ++ t2) = Ok (listed t2).*1.
Proof.
  intros Ht. revert t1. induction Ht as [|e t2 He _ IH]; intros t1; [done|]. cbn [listLoop length].
  rewrite list_lookup_middle by done. rcbn. specialize (IH (t1 ++ [e])).
  rewrite <- app_assoc, length_app, Nat.add_1_r in IH. cbn [app] in IH.
  unfold listed. cbn [omap list_omap]. fold (listed t2). destruct (inUse e); [|exact IH].
  destruct (He eq_refl) as [Hok Hs]. rewrite print_name by done. rcbn. by rewrite IH.
Qed.

Section listing.
Context {fs : FileSystem} {files : gmap (list Z) (nat * FileHeader)} {b : BitMap} {d : Directory}.
Hypothesis Hfs : fs_state fs files b d.
Hypothesis Hshort : ∀ k, is_Some (files !! k) → short_name k.

(** An entry in use is a file. *)
Lemma entry_file e :
  e ∈ table d → inUse e = true → entry_ok e ∧ ∃ x, files !! entry_key e = Some x ∧ sector e = Z.of_nat x.1.
Proof using Hfs.
  intros He Hu. destruct (fs_dir _ _ _ _ Hfs) as (Hd & _).
  split; [by apply (proj1 (Forall_forall _ _) (dir_entries d Hd))|].
  assert (dir_map d !! entry_key e = Some (sector e)) as Hm.
  { unfold dir_map. apply elem_of_list_to_map_1; [apply (dir_nodup d Hd)|]. apply elem_of_listed. eauto. }
  rewrite (fs_names _ _ _ _ Hfs), lookup_fmap in Hm. apply fmap_Some in Hm as (x & Hx & Hs). eauto.
Qed.

Lemma table_short : Forall (λ e, inUse e = true → entry_ok e ∧ short_name (entry_key e)) (table d).
Proof using Hfs Hshort.
  apply Forall_forall. intros e He Hu. destruct (entry_file e He Hu) as (Hok & x & Hx & _).
  split; [done|]. apply Hshort. eauto.
Qed.

Lemma print_entries_spec t1 t2 :
  table d = t1 ++ t2 →
  ∃ out, print_entries (length t2) (length t1) (table d) (disk fs) = Ok out ∧
    (λ y : list Z * Z * dump, (y.1.1, dump_bytes y.2)) <$> out =
    (λ p : list Z * Z, (p.1, default [] (view fs files !! p.1))) <$> listed t2.
Proof using Hfs Hshort.
  revert t1. induction t2 as [|e t2 IH]; intros t1 E; [by exists []|]. cbn [print_entries length].
  assert (e ∈ table d) as He by (rewrite E; set_solver).
  assert (table d !! length t1 = Some e) as -> by (rewrite E; by apply list_lookup_middle). rcbn.
  destruct (IH (t1 ++ [e])) as (out & Eo & Hout); [by rewrite <- app_assoc|].
  rewrite length_app, Nat.add_1_r in Eo. unfold listed. cbn [omap list_omap]. fold (listed t2).
  destruct (inUse e) eqn:Hu; [|by exists out].
  destruct (entry_file e He Hu) as (Hok & x & Hx & Hsec).
  rewrite print_name by (done || apply Hshort; eauto). rcbn.
  rewrite Hsec, (fetch_header Hfs (entry_key e)) by done. rcbn.
  destruct (fs_files _ _ _ _ Hfs _ _ Hx) as (Hh & _).
  destruct (FileHeader_Print_spec x.2 (disk fs) Hh (fs_disk _ _ _ _ Hfs)) as (y & -> & _ & Hb & _). rcbn.
  rewrite Eo. rcbn. eexists. split; [reflexivity|]. cbn [fmap list_fmap fst snd]. rewrite Hout, Hb.
  by rewrite view_lookup, Hx.
Qed.

(** The entries in use are the files. *)
Lemma listed_files :
  (λ p : list Z * Z, (p.1, default [] (view fs files !! p.1))) <$> listed (table d) ≡ₚ map_to_list (view fs files).
Proof using Hfs.
  destruct (fs_dir _ _ _ _ Hfs) as (Hd & _). pose proof (dir_nodup d Hd) as Hnd.
  assert (∀ k, (∃ s, (k, s) ∈ listed (table d)) ↔ is_Some (view fs files !! k)) as Hdom.
  { intros k. rewrite view_lookup, fmap_is_Some.
    assert (is_Some (dir_map d !! k) ↔ is_Some (files !! k)) as <-
      by (rewrite (fs_names _ _ _ _ Hfs), lookup_fmap; apply fmap_is_Some).
    unfold dir_map. split; intros [s Hs]; exists s; [by apply elem_of_list_to_map_1|by apply elem_of_list_to_map_2]. }
  apply NoDup_Permutation.
  - apply (NoDup_fmap_1 fst). rewrite <- list_fmap_compose. exact Hnd.
  - apply NoDup_map_to_list.
  - intros [k v]. rewrite elem_of_map_to_list, list_elem_of_fmap. split.
    + intros ([k' s] & [= -> ->] & Hin). destruct (proj1 (Hdom k') ltac:(eauto)) as [v' Hv]. cbn. by rewrite Hv.
    + intros Hv. destruct (proj2 (Hdom k) ltac:(eauto)) as [s Hs]. exists (k, s). cbn. by rewrite Hv.
Qed.

Lemma FileSystem_List_spec g : ∃ names, FileSystem_List g fs = Ok names ∧ names ≡ₚ (map_to_list (view fs files)).*1.
Proof using Hfs Hshort.
  unfold FileSystem_List. rewrite (fetch_directory Hfs). rcbn. unfold Directory_List.
  destruct (fs_dir _ _ _ _ Hfs) as (Hd & _). rewrite (dir_size d Hd), Nat2Z.id.
  pose proof (listLoop_spec [] (table d) table_short) as E. cbn [length app] in E. rewrite E.
  eexists. split; [reflexivity|]. rewrite <- listed_files, <- list_fmap_compose. done.
Qed.
End listing.

(** [BitMap::Print] lists the bits that are set, in order. *)
Lemma Print_used b :
  wf b → ∃ bits, Bitmap.Print b = Ok bits ∧ NoDup bits ∧ ∀ z, z ∈ bits ↔ ∃ i, z = Z.of_nat i ∧ i ∈ used b.
Proof.
  intros Hwf. unfold Bitmap.Print. pose proof (Bitmap.printLoop_spec (Z.to_nat (numBits b)) 0 b Hwf ltac:(lia)) as E.
  change (Z.of_nat 0) with 0 in E. rewrite E. eexists. split_and!; [reflexivity| |].
  - apply NoDup_fmap_2; [apply _|]. apply NoDup_filter, NoDup_seq.
  - intros z. rewrite list_elem_of_fmap. split; intros (i & -> & Hi); exists i; (split; [done|]).
    + apply list_elem_of_filter in Hi as [Hb Hi%elem_of_seq]. apply elem_of_used. split; [lia|done].
    + apply elem_of_used in Hi as [Hi Hb]. apply list_elem_of_filter. split; [done|]. apply elem_of_seq. lia.
Qed.

(** A header on the disk is fetched. *)
Lemma fetch_at s h ds :
  0 ≤ s < NumSectors → hdr_ok h → ds !! Z.to_nat s = Some (header_bytes h) → FileHeader_FetchFrom s ds = Ok h.
Proof.
  intros Hs Hh E. unfold FileHeader_FetchFrom, ReadSector. rewrite (proj2 (sector_ok_true s)) by done. rcbn.
  rewrite E. rcbn. by apply header_roundtrip.
Qed.

(** ** Properties *)

(** C37: the listings are right: on a file system whose names have at most eight
    characters, -l prints each name once, and -D prints the sectors in use and,
    for each file once its name with exactly the bytes it contains; neither
    depends on what memory held. *)
Theorem FileSystem_listings g fs files b d :
  fs_state fs files b d → (∀ k, is_Some (files !! k) → short_name k) →
  ∃ names bitDump dirDump bits out,
    FileSystem_List g fs = Ok names ∧ names ≡ₚ (map_to_list (view fs files)).*1 ∧
    FileSystem_Print g fs = Ok (bitDump, dirDump, bits, out) ∧
    (λ y : list Z * Z * dump, (y.1.1, dump_bytes y.2)) <$> out ≡ₚ map_to_list (view fs files) ∧
    (∀ z, z ∈ bits ↔ ∃ i, z = Z.of_nat i ∧
       (i ∈ system_sectors fs ∨ ∃ k x, files !! k = Some x ∧ i ∈ file_sectors x)) ∧
    dump_bytes bitDump = contents (hdr (freeMapFile fs)) (disk fs) ∧
    dump_bytes dirDump = contents (hdr (directoryFile fs)) (disk fs).
Proof.
  intros Hfs Hshort. destruct (FileSystem_List_spec Hfs Hshort g) as (names & EL & HL).
  destruct (fs_boot _ _ _ _ Hfs) as (H0 & H1 & Hs0 & Hs1).
  destruct (fs_mapfile _ _ _ _ Hfs) as [Hm _]. destruct (fs_dirfile _ _ _ _ Hfs) as [Hdf _].
  pose proof (fs_disk _ _ _ _ Hfs) as Hds.
  pose proof (fetch_at FreeMapSector _ _ ltac:(vm_compute; split; congruence) Hm H0) as E0.
  pose proof (fetch_at DirectorySector _ _ ltac:(vm_compute; split; congruence) Hdf H1) as E1.
  destruct (FileHeader_Print_spec _ _ Hm Hds) as (bd & Ebd & _ & Hbd & _).
  destruct (FileHeader_Print_spec _ _ Hdf Hds) as (dd & Edd & _ & Hdd & _).
  destruct (new_BitMap_used (g 3%nat) NumSectors) as (b0 & Eb0 & _); [done|].
  destruct (fs_map _ _ _ _ Hfs) as (Hwf & _). destruct (Print_used b Hwf) as (bits & Ebits & _ & Hbits).
  destruct (fs_dir _ _ _ _ Hfs) as (Hd & _).
  destruct (print_entries_spec Hfs Hshort [] (table d) eq_refl) as (out & Eo & Hout).
  exists names, bd, dd, bits, out. split_and!; [exact EL|exact HL| |rewrite Hout; apply (listed_files Hfs)| |exact Hbd|exact Hdd].
  - unfold FileSystem_Print. rewrite Eb0. rcbn. rewrite E0. rcbn. rewrite Ebd. rcbn. rewrite E1. rcbn. rewrite Edd. rcbn.
    rewrite (fetch_map Hfs g _ b0 Eb0). rcbn. rewrite Ebits. rcbn. rewrite (fetch_directory Hfs). rcbn.
    unfold Directory_Print. rewrite (dir_size d Hd), Nat2Z.id. cbn [length] in Eo. by rewrite Eo.
  - intros z. rewrite Hbits. split; intros (i & -> & Hi); exists i; (split; [done|]); by apply (fs_used _ _ _ _ Hfs).
Qed.

(** ** Executions *)

(** A file "a" of three bytes on a fresh disk. *)
Lemma FileSystem_listings_witness :
  ∃ fs0 fs names bd dd bits out, new_FileSystem (λ _ _, 77) true empty_disk = Ok fs0 ∧
    Copy (λ _ _ _, 77) (Some [7; 65; 200]) [97] fs0 = Ok ([], fs) ∧
    FileSystem_List (λ _ _, 77) fs = Ok names ∧ names ≡ₚ [[97]] ∧
    FileSystem_Print (λ _ _, 77) fs = Ok (bd, dd, bits, out) ∧
    (λ y : list Z * Z * dump, (y.1.1, dump_bytes y.2)) <$> out ≡ₚ [([97], [7; 65; 200])].
Proof.
  assert (is_name [97]) as Hnm by (repeat constructor; lia).
  destruct (format_spec (λ _ _, 77) empty_disk empty_disk_wf) as (fs0 & b0 & d0 & E0 & Hfs0).
  pose proof (Copy_spec Hfs0 (λ _ _ _, 77) [97] [7; 65; 200] Hnm ltac:(repeat constructor; lia)
    ltac:(vm_compute; discriminate)) as HC.
  rewrite decide_True in HC by (split; [apply lookup_empty|reflexivity]).
  destruct HC as (fs & files & b & d & E1 & Hfs & Hv). unfold view at 2 in Hv. rewrite fmap_empty in Hv.
  change (key [97]) with [97] in Hv.
  destruct (FileSystem_listings (λ _ _, 77) fs files b d Hfs) as (names & bd & dd & bits & out & EL & HL & EP & HP & _).
  { intros k [x Hx]. assert (view fs files !! k = Some (contents x.2 (disk fs))) as Hk by (by rewrite view_lookup, Hx).
    rewrite Hv in Hk. apply lookup_insert_Some in Hk as [[<- _]|[_ Hk]]; [|by rewrite lookup_empty in Hk].
    unfold short_name, FileNameMaxLen. cbn. lia. }
  rewrite Hv in HL, HP. change (<[[97] := [7; 65; 200]]> (∅ : gmap (list Z) (list Z))) with ({[ [97] := [7; 65; 200] ]} : gmap (list Z) (list Z)) in HL, HP.
  rewrite map_to_list_singleton in HL, HP.
  exists fs0, fs, names, bd, dd, bits, out. exact (conj E0 (conj E1 (conj EL (conj HL (conj EP HP))))).
Defined.

(** The same, computed: the glyphs of the file. *)
Example listings_computed :
  (fs ← new_FileSystem (λ _ _, 77) true empty_disk;
   '(_, fs) ← Copy (λ _ _ _, 77) (Some [7; 65; 200]) [97] fs;
   names ← FileSystem_List (λ _ _, 77) fs;
   '(_, _, bits, out) ← FileSystem_Print (λ _ _, 77) fs;
   mret (names, bits, List.map (λ y : list Z * Z * dump, (y.1.1, dump_lines y.2)) out)) =
  Ok ([[97]], [0; 1; 2; 3; 4; 5; 6], [([97], [[Hex 7; Char 65; Hex 200]])]).
Proof. vm_compute. reflexivity. Qed.
