(* ===== verification/Session.v ===== *)
(** * A session at the shell: from the command line to the disk

    [nachos] runs threads/main.cc on the configuration of the file system
    project: it reads the options ([CommandLine]), mounts or formats the disk
    (the end of [Initialize], [FileSys]) and runs the commands of fstest.cc
    ([FsTest]).  The disk is the UNIX file DISK and lasts from one run to the
    next; a session is a sequence of runs.  The specification is about the map
    from names to contents alone. *)

From stdpp Require Import strings.
From S2P Require Import Prelude Bytes Bitmap Disk FileHdr OpenFile Directory FileSys FileSysSpec FsTest FsPrint CommandLine.

Local Open Scope Z_scope.

(** What is printed. *)
Inductive output :=
| Copyright
| Line (l : line)
| Listed (names : list (list Z))
| Dumped (bitmap directory : dump) (bits : list Z) (files : list (list Z * Z * dump)).

Section program.
(** The UNIX files, by name. *)
Context (unix : list Z → option (list Z)).
Context (b : build).

Section one_run.
(** What memory holds where the n-th call allocates. *)
Context (g : nat → nat → nat → nat → Z).

(** One call made by [main]; [None] for the calls that do not work on the file
    system alone. *)
Definition run_action (i : nat) (a : action) (fs : FileSystem) : option (Result (list output * FileSystem)) :=
  match a with
  | PrintCopyright => Some (mret ([Copyright], fs))
  | CallCopy from to => Some ('(out, fs) ← Copy (g i) (unix from) to fs; mret (List.map Line out, fs))
  | CallPrint nm => Some (out ← Print (g i) nm fs; mret (List.map Line out, fs))
  | CallRemove nm => Some ('(_, fs) ← FileSystem_Remove (g i 0%nat) nm fs; mret ([], fs))
  | CallList => Some (names ← FileSystem_List (g i 0%nat) fs; mret ([Listed names], fs))
  | CallPrintFileSystem =>
      Some ('(bitmap, directory, bits, files) ← FileSystem_Print (g i 0%nat) fs;
            mret ([Dumped bitmap directory bits files], fs))
  | CallPerformanceTest => Some ('(out, fs) ← PerformanceTest (g i) fs; mret (List.map Line out, fs))
  | _ => None
  end.

Fixpoint run_actions (i : nat) (acts : list action) (fs : FileSystem) : option (Result (list output * FileSystem)) :=
  match acts with
  | [] => Some (mret ([], fs))
  | a :: acts =>
      match run_action i a fs with
      | Some (Ok (out, fs)) =>
          match run_actions (S i) acts fs with
          | Some r => Some ('(outs, fs) ← r; mret (out ++ outs, fs))
          | None => None
          end
      | Some (Err e) => Some (Err e)
      | None => None
      end
  end.

(** The whole program: what is printed, the disk it leaves and how [main] ends.
    The disk does not change when the options of [Initialize] are wrong. *)
Definition nachos (args : list (list Z)) (ds : list (list Z))
  : option (Result (list output * list (list Z) * Result unit)) :=
  match main b args with
  | Err e => Some (mret ([], ds, Err e))
  | Ok (s, (acts, r)) =>
      match new_FileSystem (g 0%nat 0%nat) (format s) ds with
      | Err e => Some (Err e)
      | Ok fs =>
          match run_actions 1 acts fs with
          | Some res => Some ('(out, fs) ← res; mret (out, disk fs, r))
          | None => None
          end
      end
  end.
End one_run.

(** One command after the other, each in a memory of its own. *)
Fixpoint session (g : nat → nat → nat → nat → nat → Z) (i : nat) (runs : list (list (list Z)))
    (ds : list (list Z)) : option (Result (list (list output) * list (list Z))) :=
  match runs with
  | [] => Some (mret ([], ds))
  | args :: runs =>
      match nachos (g i) args ds with
      | Some (Ok (out, ds, Ok _)) =>
          match session g (S i) runs ds with
          | Some r => Some ('(outs, ds) ← r; mret (out :: outs, ds))
          | None => None
          end
      | Some (Ok (_, _, Err e)) | Some (Err e) => Some (Err e)
      | None => None
      end
  end.

(** ** Specification *)

Implicit Types v : gmap (list Z) (list Z).

Definition abstract_option (o : usage) v : list output * gmap (list Z) (list Z) :=
  match o with
  | U_z => ([Copyright], v)
  | U_cp from to =>
      match unix from with
      | None => ([Line CopyNoInput], v)
      | Some input =>
          if decide (v !! key to = None ∧ Z.of_nat (size v) < NumDirEntries)
          then ([], <[key to := input]> v) else ([Line CopyNoOutput], v)
      end
  | U_p nm => ([Line (match v !! key nm with Some bs => Chars bs | None => PrintNoFile end)], v)
  | U_r nm => ([], delete (key nm) v)
  | U_t => (List.map Line (perf_lines v), delete (key FileName) v)
  | _ => ([], v)
  end.

Fixpoint abstract_options (os : list usage) v : list output * gmap (list Z) (list Z) :=
  match os with
  | [] => ([], v)
  | o :: os =>
      let '(out, v) := abstract_option o v in
      let '(outs, v) := abstract_options os v in
      (out ++ outs, v)
  end.

Definition formats (os : list usage) : bool := existsb (λ o, match o with U_f => true | _ => false end) os.

(** A run: -f empties the disk first, wherever it stands. *)
Definition abstract_run (os : list usage) v := abstract_options os (if formats os then ∅ else v).

Fixpoint abstract_session (runs : list (list usage)) v : list (list output) * gmap (list Z) (list Z) :=
  match runs with
  | [] => ([], v)
  | os :: runs =>
      let '(out, v) := abstract_run os v in
      let '(outs, v) := abstract_session runs v in
      (out :: outs, v)
  end.

(** The options of a session of the file system: the names given are C strings
    that the loops do not take for options, and the UNIX files fit. *)
Definition session_option (o : usage) : Prop :=
  usable b o = true ∧
  match o with
  | U_cp from to => is_name to ∧
      ∀ input, unix from = Some input → Forall is_byte input ∧ Z.of_nat (length input) ≤ MaxFileSize
  | U_p nm | U_r nm => is_name nm
  | U_x _ | U_c _ _ | U_l | U_D => False
  | _ => True
  end.

(** The disk holds these files. *)
Definition stored v (ds : list (list Z)) : Prop :=
  ∃ fs files bm d, fs_state fs files bm d ∧ disk fs = ds ∧ view fs files = v.
End program.

(** ** Every command does what it says *)

Lemma copy_condition fs files nm :
  (view fs files !! key nm = None ∧ Z.of_nat (size (view fs files)) < NumDirEntries) ↔
  creatable (files := files) nm.
Proof. unfold creatable. rewrite size_view, view_lookup. by rewrite fmap_None. Qed.

Section refinement.
Context (unix : list Z → option (list Z)) (b : build).
Hypothesis Hthreads : THREADS b = NO_TEST.
Hypothesis Hneeded : FILESYS_NEEDED b = true.
Hypothesis Hfilesys : FILESYS b = true.
Hypothesis Hnetwork : NETWORK b = false.

(** A call that is made gives the output and the map of the specification. *)
Definition refines_option (g : nat → nat → nat → nat → Z) (i : nat) (fs : FileSystem)
    (files : gmap (list Z) (nat * FileHeader)) (a : action) (o : usage) : Prop :=
  ∃ out fs' files' bm' d', run_action unix g i a fs = Some (Ok (out, fs')) ∧
    fs_state fs' files' bm' d' ∧ (out, view fs' files') = abstract_option unix o (view fs files).

Lemma run_copy g i fs files bm d from to :
  fs_state fs files bm d → session_option unix b (U_cp from to) →
  refines_option g i fs files (CallCopy from to) (U_cp from to).
Proof.
  intros Hfs (_ & Hto & Hin). unfold refines_option. cbn [run_action abstract_option].
  destruct (unix from) as [input|] eqn:E.
  2: { exists [Line CopyNoInput], fs, files, bm, d. by split_and!. }
  destruct (Hin input eq_refl) as [Hb Hl]. pose proof (Copy_spec Hfs (g i) to input Hto Hb Hl) as HC.
  rewrite (decide_ext _ _ _ _ (copy_condition fs files to)). case_decide.
  - destruct HC as (fs' & files' & b' & d' & -> & Hst & Hv). exists [], fs', files', b', d'.
    rewrite Hv. by split_and!.
  - rewrite HC. exists [Line CopyNoOutput], fs, files, bm, d. by split_and!.
Qed.

Lemma run_remove g i fs files bm d nm :
  fs_state fs files bm d → is_name nm → refines_option g i fs files (CallRemove nm) (U_r nm).
Proof.
  intros Hfs Hnm. unfold refines_option. cbn [run_action abstract_option].
  pose proof (Remove_spec (g i 0%nat) Hfs nm Hnm) as HR. destruct (files !! key nm) as [x|] eqn:Hx.
  - destruct HR as (fs' & b' & d' & -> & Hst & Hk). exists [], fs', (delete (key nm) files), b', d'.
    split_and!; [done|done|]. f_equal. unfold view. rewrite fmap_delete. f_equal.
    apply map_fmap_ext. intros k y Hy. by apply (Hk k).
  - rewrite HR. exists [], fs, files, bm, d. split_and!; [done|done|]. f_equal.
    rewrite delete_id; [done|]. by rewrite view_lookup, Hx.
Qed.

Lemma run_print g i fs files bm d nm :
  fs_state fs files bm d → is_name nm → refines_option g i fs files (CallPrint nm) (U_p nm).
Proof.
  intros Hfs Hnm. unfold refines_option. cbn [run_action abstract_option].
  rewrite (Print_spec Hfs (g i) nm Hnm). eexists _, fs, files, bm, d. by split_and!.
Qed.

Lemma run_test g i fs files bm d :
  fs_state fs files bm d → refines_option g i fs files CallPerformanceTest U_t.
Proof.
  intros Hfs. unfold refines_option. cbn [run_action abstract_option].
  destruct (PerformanceTest_spec (g i) fs files bm d Hfs) as (fs' & files' & b' & d' & -> & Hst & Hv).
  exists (List.map Line (perf_lines (view fs files))), fs', files', b', d'. rewrite Hv. by split_and!.
Qed.

(** An option makes no call or one that refines it, and does not end [main]. *)
Lemma run_option g i fs files bm d o :
  fs_state fs files bm d → session_option unix b o →
  is_console b o = false ∧
  ((documented_action b o = [] ∧ abstract_option unix o (view fs files) = ([], view fs files)) ∨
   ∃ a, documented_action b o = [a] ∧ refines_option g i fs files a o).
Proof using Hfilesys Hnetwork.
  intros Hfs Ho. destruct o; cbn [documented_action is_console]; rewrite ?Hfilesys, ?Hnetwork;
    try (split; [reflexivity|left; split; reflexivity]); try (by destruct Ho as [_ []]); split; try reflexivity; right.
  - exists PrintCopyright. split; [reflexivity|]. exists [Copyright], fs, files, bm, d. by split_and!.
  - exists (CallCopy unixFile nachosFile). split; [reflexivity|]. by eapply run_copy.
  - exists (CallPrint file). split; [reflexivity|]. eapply run_print; [exact Hfs|apply Ho].
  - exists (CallRemove file). split; [reflexivity|]. eapply run_remove; [exact Hfs|apply Ho].
  - exists CallPerformanceTest. split; [reflexivity|]. by eapply run_test.
Qed.

Lemma run_options g i fs files bm d os :
  fs_state fs files bm d → Forall (session_option unix b) os →
  (documented_calls b os).2 = Ok () ∧
  ∃ out fs' files' bm' d', run_actions unix g i (documented_calls b os).1 fs = Some (Ok (out, fs')) ∧
    fs_state fs' files' bm' d' ∧ (out, view fs' files') = abstract_options unix os (view fs files).
Proof using Hfilesys Hnetwork.
  intros Hfs Hos. revert i fs files bm d Hfs. induction Hos as [|o os Ho _ IH]; intros i fs files bm d Hfs.
  { split; [reflexivity|]. exists [], fs, files, bm, d. by split_and!. }
  destruct (run_option g i fs files bm d o Hfs Ho) as (Hc & [[E Eo]|(a & E & Ha)]);
    cbn [documented_calls abstract_options]; rewrite Hc, E; cbn [call_then fst snd app].
  - rewrite Eo. destruct (IH i fs files bm d Hfs) as (HR & out & fs' & files' & bm' & d' & Er & Hst & Ev).
    split; [exact HR|]. exists out, fs', files', bm', d'. split_and!; [exact Er|exact Hst|].
    destruct (abstract_options unix os (view fs files)). exact Ev.
  - destruct Ha as (out1 & fs1 & files1 & bm1 & d1 & E1 & Hst1 & Ev1). rewrite <- Ev1.
    destruct (IH (S i) fs1 files1 bm1 d1 Hst1) as (HR & out & fs' & files' & bm' & d' & Er & Hst & Ev).
    split; [exact HR|]. exists (out1 ++ out), fs', files', bm', d'. cbn [run_actions]. rewrite E1, Er, <- Ev.
    split_and!; [reflexivity|exact Hst|reflexivity].
Qed.

Lemma format_documented os s :
  format (documented_settings b os s) = format s || formats os.
Proof using Hneeded Hnetwork.
  revert s. induction os as [|o os IH]; intros s; [by rewrite orb_false_r|].
  cbn [documented_settings formats existsb]. rewrite IH. unfold formats.
  destruct o; cbn [documented_setting]; rewrite ?Hneeded, ?Hnetwork; try destruct (USER_PROGRAM b); first [reflexivity|by destruct s as [? ? ? []]].
Qed.

Lemma session_usable os : Forall (session_option unix b) os → Forall (λ o, usable b o = true) os.
Proof using. intros Hos. eapply Forall_impl; [exact Hos|]. by intros o [Hp _]. Qed.

(** The disk before a run holds the map, or is about to be formatted. *)
Definition ready (os : list usage) (v : gmap (list Z) (list Z)) (ds : list (list Z)) : Prop :=
  stored v ds ∨ disk_wf ds ∧ formats os = true.

Lemma nachos_refines g os v ds :
  Forall (session_option unix b) os → ready os v ds →
  ∃ out ds', nachos unix b g (command_line os) ds = Some (Ok (out, ds', Ok ())) ∧
    stored (abstract_run unix os v).2 ds' ∧ out = (abstract_run unix os v).1.
Proof using Hfilesys Hnetwork Hneeded Hthreads.
  intros Hos Hds. unfold nachos, main, Initialize, abstract_run. pose proof (session_usable os Hos) as Hu.
  rewrite init_command_line by exact Hu. rcbn. rewrite main_command_line by exact Hu.
  unfold threads_calls. rewrite Hthreads, call_then_nil.
  rewrite format_documented. change (format no_settings) with false. cbn [orb].
  assert (∃ fs files bm d, new_FileSystem (g 0%nat 0%nat) (formats os) ds = Ok fs ∧ fs_state fs files bm d ∧
    view fs files = if formats os then ∅ else v) as (fs & files & bm & d & -> & Hfs & <-).
  { destruct Hds as [(fs & files & bm & d & Hfs & <- & <-)|[Hwf Hf]]; [destruct (formats os)|rewrite Hf].
    2: { exists fs, files, bm, d. split_and!; [by eapply mount_spec|exact Hfs|reflexivity]. }
    - destruct (format_spec (g 0%nat 0%nat) (disk fs) (fs_disk _ _ _ _ Hfs)) as (fs' & bm' & d' & E & Hfs').
      exists fs', ∅, bm', d'. split_and!; [exact E|exact Hfs'|apply fmap_empty].
    - destruct (format_spec (g 0%nat 0%nat) ds Hwf) as (fs' & bm' & d' & E & Hfs').
      exists fs', ∅, bm', d'. split_and!; [exact E|exact Hfs'|apply fmap_empty]. }
  destruct (run_options g 1 fs files bm d os Hfs Hos) as (HR & out & fs' & files' & bm' & d' & Er & Hst & Ev).
  destruct (documented_calls b os) as [acts r]. cbn [fst snd] in *. subst r. rewrite Er, <- Ev.
  exists out, (disk fs'). split_and!; [reflexivity| |reflexivity]. by exists fs', files', bm', d'.
Qed.

Lemma session_refines g i runs v ds :
  Forall (Forall (session_option unix b)) runs → stored v ds →
  ∃ ds', session unix b g i (command_line <$> runs) ds =
      Some (Ok ((abstract_session unix runs v).1, ds')) ∧
    stored (abstract_session unix runs v).2 ds'.
Proof using Hfilesys Hnetwork Hneeded Hthreads.
  intros Hruns. revert i v ds. induction Hruns as [|os runs Hos _ IH]; intros i v ds Hds.
  { exists ds. by split. }
  cbn [fmap list_fmap session abstract_session].
  destruct (nachos_refines (g i) os v ds Hos (or_introl Hds)) as (out & ds1 & -> & Hst1 & ->).
  destruct (abstract_run unix os v) as [out v1]. cbn [fst snd] in *.
  destruct (IH (S i) v1 ds1 Hst1) as (ds' & E & Hst). fold (fmap (M := list) command_line) in E. rewrite E.
  destruct (abstract_session unix runs v1) as [outs v2]. cbn [fst snd] in *. exists ds'. by split.
Qed.
End refinement.

(** ** Properties *)

(** C3: on the configuration with a file system and no network or thread test,
    any sequence of runs of [nachos] with the options -cp, -p, -r, -t, -f, -z and
    the settings of the usage message, in any order and number, goes through
    without a failed assertion or a memory fault, provided that every UNIX file
    copied has at most [MaxFileSize] (3840) bytes and that no argument is the
    name of an option of a loop that does not skip it ([usable]).  Each run prints
    exactly what the specification on the map from names to contents says, and
    the disk after it holds that map, so that the next run finds the files the
    last one left.  The disk before the first run holds a map, or is any disk
    when that run has -f; what memory holds does not matter. *)
Theorem session_documented unix b g os runs v ds :
  THREADS b = NO_TEST → FILESYS_NEEDED b = true → FILESYS b = true → NETWORK b = false →
  Forall (Forall (session_option unix b)) (os :: runs) →
  stored v ds ∨ disk_wf ds ∧ formats os = true →
  ∃ ds', session unix b g 0 (command_line <$> os :: runs) ds =
      Some (Ok ((abstract_session unix (os :: runs) v).1, ds')) ∧
    stored (abstract_session unix (os :: runs) v).2 ds'.
Proof.
  intros H1 H2 H3 H4 [Hos Hruns]%Forall_cons Hds. cbn [fmap list_fmap session abstract_session].
  destruct (nachos_refines unix b H1 H2 H3 H4 (g 0%nat) os v ds Hos Hds) as (out & ds1 & -> & Hst1 & ->).
  destruct (abstract_run unix os v) as [out v1]. cbn [fst snd] in *.
  destruct (session_refines unix b H1 H2 H3 H4 g 1 runs v1 ds1 Hruns Hst1) as (ds' & E & Hst).
  fold (fmap (M := list) command_line) in E. rewrite E.
  destruct (abstract_session unix runs v1) as [outs v2]. cbn [fst snd] in *. exists ds'. by split.
Qed.

(** ** Executions *)

Definition example_unix (nm : list Z) : option (list Z) :=
  if decide (nm = chars "a") then Some (chars "hello") else None.

Definition example_runs : list (list usage) :=
  [[U_f; U_cp (chars "a") (chars "b"); U_cp (chars "c") (chars "d")];
   [U_p (chars "b"); U_t; U_r (chars "b"); U_cp (chars "a") (chars "TestFile")];
   [U_p (chars "b"); U_p (chars "TestFile"); U_t]].

Lemma example_runs_ok : Forall (Forall (session_option example_unix filesys_build)) example_runs.
Proof.
  assert (∀ nm input, example_unix nm = Some input → Forall is_byte input ∧ Z.of_nat (length input) ≤ MaxFileSize) as Hin.
  { intros nm input. unfold example_unix. case_decide; [|done]. intros [= <-].
    split; [repeat constructor; lia|vm_compute; discriminate]. }
  repeat (apply Hin || apply Forall_cons_2 || apply Forall_nil_2 || split || done || lia).
Qed.

Lemma session_documented_witness :
  ∃ ds', session example_unix filesys_build (λ _ _ _ _ _, 77) 0 (command_line <$> example_runs) empty_disk =
      Some (Ok (
        [[Line CopyNoInput];
         [Line (Chars (chars "hello")); Line PerfStart; Line PerfStats; Line PerfSequentialWrite; Line PerfCantWrite;
          Line PerfSequentialRead; Line PerfCantRead; Line PerfStats];
         [Line PrintNoFile; Line (Chars (chars "hello"));
          Line PerfStart; Line PerfStats; Line PerfSequentialWrite; Line PerfCantCreate;
          Line PerfSequentialRead; Line PerfCantRead; Line PerfStats]], ds')).
Proof.
  destruct (session_documented example_unix filesys_build (λ _ _ _ _ _, 77)
    [U_f; U_cp (chars "a") (chars "b"); U_cp (chars "c") (chars "d")] (tail example_runs) ∅ empty_disk
    eq_refl eq_refl eq_refl eq_refl example_runs_ok (or_intror (conj empty_disk_wf eq_refl))) as (ds' & E & _).
  exists ds'. exact E.
Defined.
