(* ===== verification/AddrSpace.v ===== *)
(** * userprog/addrspace.cc and [StartProcess] of userprog/progtest.cc

    Loading a user program: the header of the NOFF file (bin/noff.h), the page
    table that maps every page to itself, and the code and data segments copied
    into the memory of the machine.  The host is little endian, so
    [WordToHost] is the identity. *)

From S2P Require Import Prelude Bytes NachList Kernel Bitmap Disk FileHdr OpenFile Directory FileSys FileSysSpec Machine Mips.

Local Open Scope Z_scope.

(** ** The object file *)

Definition NOFFMAGIC : Z := 0xbadfad.

Record Segment := mkSegment {
  virtualAddr : Z;
  inFileAddr : Z;
  segsize : Z;
}.

Record NoffHeader := mkNoff {
  noffMagic : Z;
  code : Segment;
  initData : Segment;
  uninitData : Segment;
}.

Definition WordToHost (w : Z) : Z := w.

Definition SwapSegment (s : Segment) : Segment :=
  mkSegment (WordToHost (virtualAddr s)) (WordToHost (inFileAddr s)) (WordToHost (segsize s)).
Definition SwapHeader (h : NoffHeader) : NoffHeader :=
  mkNoff (WordToHost (noffMagic h)) (SwapSegment (code h)) (SwapSegment (initData h))
    (SwapSegment (uninitData h)).

(** The header as the ten [int]s it is in memory. *)
Definition noff_ints (h : NoffHeader) : list Z :=
  [noffMagic h; virtualAddr (code h); inFileAddr (code h); segsize (code h);
   virtualAddr (initData h); inFileAddr (initData h); segsize (initData h);
   virtualAddr (uninitData h); inFileAddr (uninitData h); segsize (uninitData h)].
Definition sizeof_NoffHeader : nat := 40.

Definition ints_noff (l : list Z) : Result NoffHeader :=
  match l with
  | [m; cv; ci; cs; dv; di; dsz; uv; ui; us] =>
      mret (mkNoff m (mkSegment cv ci cs) (mkSegment dv di dsz) (mkSegment uv ui us))
  | _ => Err MemFault
  end.

(** ** AddrSpace *)

Definition UserStackSize : Z := 1024.

Record AddrSpace := mkAddrSpace {
  as_pageTable : list TranslationEntry;
  numPages : Z;
}.

(** [for (i = 0; i < numPages; i++)]: virtual page i is physical page i. *)
Definition page_entry (i : nat) : TranslationEntry :=
  mkEntry (Z.of_nat i) (Z.of_nat i) true false false false.

Section load.
(** What memory holds when it is allocated. *)
Context (garbage : nat → Z).

(** [executable->ReadAt((char * )&noffH, sizeof(noffH), 0)] into the
    uninitialized header on the stack. *)
Definition read_header (executable : OpenFile) (ds : list (list Z)) : Result NoffHeader :=
  bs ← ReadAt garbage (Z.of_nat sizeof_NoffHeader) 0 executable ds;
  buf ← new_chars garbage (Z.of_nat sizeof_NoffHeader);
  buf ← bytes_put 0 bs buf;
  ints_noff (s32 <$> bytes_ints buf).

(** [if (seg.size > 0) executable->ReadAt(&mainMemory[seg.virtualAddr], ...)];
    nothing is stored when nothing is read. *)
Definition load_segment (seg : Segment) (executable : OpenFile) (ds : list (list Z)) (mem : list Z)
  : Result (list Z) :=
  if decide (segsize seg > 0) then
    bs ← ReadAt garbage (segsize seg) (inFileAddr seg) executable ds;
    match bs with
    | [] => mret mem
    | _ => bytes_put (virtualAddr seg) bs mem
    end
  else mret mem.

(** [bzero(machine->mainMemory, size)] *)
Definition bzero (size : Z) (mem : list Z) : Result (list Z) :=
  bytes_put 0 (replicate (Z.to_nat size) 0) mem.

Definition new_AddrSpace (executable : OpenFile) (ds : list (list Z)) (m : Machine)
  : Result (AddrSpace * Machine) :=
  noffH ← read_header executable ds;
  let noffH := if bool_decide (noffMagic noffH ≠ NOFFMAGIC) &&
                  bool_decide (WordToHost (noffMagic noffH) = NOFFMAGIC)
               then SwapHeader noffH else noffH in
  ASSERT (bool_decide (noffMagic noffH = NOFFMAGIC));;
  let size := u32 (segsize (code noffH) + segsize (initData noffH) + segsize (uninitData noffH)
                   + UserStackSize) in
  let numPages := divRoundUp size PageSize in
  let size := u32 (numPages * PageSize) in
  ASSERT (bool_decide (numPages ≤ NumPhysPages));;
  let pageTable := page_entry <$> seq 0 (Z.to_nat numPages) in
  mem ← bzero size (mainMemory m);
  mem ← load_segment (code noffH) executable ds mem;
  mem ← load_segment (initData noffH) executable ds mem;
  mret (mkAddrSpace pageTable numPages, set_mainMemory mem m).
End load.

(** [for (i = 0; i < NumTotalRegs; i++) machine->WriteRegister(i, 0)] *)
Fixpoint clear_registers (n i : nat) (m : Machine) : Result Machine :=
  match n with
  | O => mret m
  | S n => m ← WriteRegister i 0 m; clear_registers n (S i) m
  end.

Definition InitRegisters (s : AddrSpace) (m : Machine) : Result Machine :=
  m ← clear_registers NumTotalRegs 0 m;
  m ← WriteRegister PCReg 0 m;
  m ← WriteRegister NextPCReg 4 m;
  WriteRegister StackReg (numPages s * PageSize - 16) m.

Definition RestoreState (s : AddrSpace) (m : Machine) : Machine :=
  mkMachine (registers m) (mainMemory m) (tlb m) (Some (as_pageTable s)) (numPages s) (mode m).

(** [StartProcess] up to [machine->Run()]; [None] when the file is not there. *)
Definition StartProcess (garbage : nat → nat → Z) (filename : list Z) (fs : FileSystem) (m : Machine)
  : Result (option (AddrSpace * Machine)) :=
  executable ← FileSystem_Open garbage filename fs;
  match executable with
  | None => mret None
  | Some executable =>
      '(space, m) ← new_AddrSpace (garbage 0%nat) executable (disk fs) m;
      m ← InitRegisters space m;
      mret (Some (space, RestoreState space m))
  end.

(** ** What a loaded program looks like *)

(** The pages of the address space of a program, and its size. *)
Definition pages (h : NoffHeader) : Z :=
  divRoundUp (segsize (code h) + segsize (initData h) + segsize (uninitData h) + UserStackSize) PageSize.
Definition space_size (h : NoffHeader) : Z := pages h * PageSize.

(** The segment, unless it is empty, lies in the address space and in the file [F]. *)
Definition segment_in (h : NoffHeader) (F : list Z) (s : Segment) : Prop :=
  0 ≤ segsize s ∧
  (0 < segsize s → 0 ≤ virtualAddr s ∧ virtualAddr s + segsize s ≤ space_size h ∧
    0 ≤ inFileAddr s ∧ inFileAddr s + segsize s ≤ Z.of_nat (length F)).

(** [F] is a NOFF file with header [h] that fits in the memory of the machine. *)
Record loadable (h : NoffHeader) (F : list Z) : Prop := {
  l_header : take sizeof_NoffHeader F = ints_bytes (noff_ints h);
  l_ints : Forall is_int (noff_ints h);
  l_magic : noffMagic h = NOFFMAGIC;
  l_code : segment_in h F (code h);
  l_data : segment_in h F (initData h);
  l_uninit : 0 ≤ segsize (uninitData h);
  l_pages : pages h ≤ NumPhysPages;
}.

(** The byte that the segment puts at address [i]. *)
Definition seg_byte (s : Segment) (F : list Z) (i : nat) : option Z :=
  if decide (virtualAddr s ≤ Z.of_nat i < virtualAddr s + segsize s)
  then F !! Z.to_nat (inFileAddr s + (Z.of_nat i - virtualAddr s)) else None.

(** Memory after loading: data over code over zeros over what was there. *)
Definition image (h : NoffHeader) (F mem : list Z) (i : nat) : option Z :=
  match seg_byte (initData h) F i, seg_byte (code h) F i with
  | Some b, _ | None, Some b => Some b
  | None, None => if decide (Z.of_nat i < space_size h) then Some 0 else mem !! i
  end.

Section file.
Context (garbage : nat → Z) (f : OpenFile) (ds : list (list Z)) (h : NoffHeader).
Hypothesis Hh : hdr_ok (hdr f).
Hypothesis Hd : disk_wf ds.
Local Abbreviation F := (contents (hdr f) ds).
Hypothesis Hl : loadable h F.

Lemma noff_roundtrip l : Forall is_int (noff_ints l) → ints_noff (s32 <$> bytes_ints (ints_bytes (noff_ints l))) = Ok l.
Proof. intros H. rewrite ints_roundtrip by done. by destruct l as [m [] [] []]. Qed.

Lemma read_header_spec : read_header garbage f ds = Ok h.
Proof.
  unfold read_header, sizeof_NoffHeader.
  rewrite ReadAt_contents by (done || lia). rcbn. rewrite drop_0.
  pose proof (l_header _ _ Hl) as E. unfold sizeof_NoffHeader in E.
  change (Z.to_nat (Z.of_nat 40)) with 40%nat. rewrite E.
  destruct (new_chars_Ok garbage (Z.of_nat 40)) as (buf & -> & Hb & _); [lia|]. rcbn.
  assert (length (ints_bytes (noff_ints h)) = 40%nat) as Hlen by (by rewrite length_ints_bytes).
  rewrite bytes_put_Ok by (rewrite ?Hlen, ?Hb; lia). rcbn.
  assert (list_inserts (Z.to_nat 0) (ints_bytes (noff_ints h)) buf = ints_bytes (noff_ints h)) as ->.
  { apply list_eq. intros i. rewrite bytes_put_lookup by (rewrite ?Hlen, ?Hb; lia).
    case_decide; [f_equal; lia|]. rewrite !lookup_ge_None_2 by lia. done. }
  apply noff_roundtrip, Hl.
Qed.

Lemma space_size_bound : UserStackSize ≤ space_size h ≤ MemorySize ∧ 0 ≤ pages h.
Proof.
  destruct Hl as [_ _ _ (Hc & _) (Hi & _) Hu Hp]. unfold space_size, pages, UserStackSize, MemorySize in *.
  pose proof (divRoundUp_spec (segsize (code h) + segsize (initData h) + segsize (uninitData h) + 1024)
    PageSize ltac:(lia) ltac:(done)) as Hr. unfold PageSize, NumPhysPages in *. lia.
Qed.

(** A segment is copied over the memory. *)
Lemma load_segment_spec s mem :
  segment_in h F s → Z.of_nat (length mem) = MemorySize → Forall is_byte mem →
  ∃ mem', load_segment garbage s f ds mem = Ok mem' ∧ length mem' = length mem ∧ Forall is_byte mem' ∧
    ∀ i, mem' !! i = match seg_byte s F i with Some b => Some b | None => mem !! i end.
Proof.
  intros (Hs & Hin) Hm Hb. pose proof space_size_bound as [[_ Hsp] _].
  unfold load_segment. unfold seg_byte. case_decide as Hpos.
  2: { exists mem. split_and!; [done..|]. intros i. by rewrite decide_False by lia. }
  destruct Hin as (Hv & Hvs & Hi & His); [lia|].
  assert (inFileAddr s + segsize s < 2 ^ 31) as Hov.
  { pose proof (length_contents _ Hh ds Hd). pose proof (hdr_bytes _ Hh). change MaxFileSize with 3840 in *. lia. }
  rewrite ReadAt_contents by done. rcbn.
  set (bs := take _ _). assert (Z.of_nat (length bs) = segsize s) as Hlb
    by (unfold bs; rewrite length_take, length_drop; lia).
  assert (Forall is_byte bs) as Hbb by (by apply Forall_take, Forall_drop, contents_bytes).
  assert (match bs with [] => mret mem | _ :: _ => bytes_put (virtualAddr s) bs mem end =
    Ok (list_inserts (Z.to_nat (virtualAddr s)) bs mem)) as ->.
  { rewrite bytes_put_Ok by lia. by destruct bs; [cbn in Hlb; lia|]. }
  eexists. split; [done|]. split; [apply length_inserts|]. split; [by apply Forall_inserts|].
  intros i. rewrite bytes_put_lookup by lia. rewrite Hlb. case_decide; [|done].
  unfold bs. rewrite lookup_take_lt, lookup_drop by lia.
  replace (Z.to_nat (inFileAddr s) + Z.to_nat (Z.of_nat i - virtualAddr s))%nat
    with (Z.to_nat (inFileAddr s + (Z.of_nat i - virtualAddr s))) by lia.
  destruct (lookup_lt_is_Some_2 F (Z.to_nat (inFileAddr s + (Z.of_nat i - virtualAddr s)))) as [b ->]; [lia|done].
Qed.

Lemma bzero_spec mem :
  Z.of_nat (length mem) = MemorySize → Forall is_byte mem →
  ∃ mem', bzero (space_size h) mem = Ok mem' ∧ length mem' = length mem ∧ Forall is_byte mem' ∧
    ∀ i, mem' !! i = if decide (Z.of_nat i < space_size h) then Some 0 else mem !! i.
Proof.
  intros Hm Hb. pose proof space_size_bound as [[Hlo Hsp] _]. unfold UserStackSize in Hlo. unfold bzero.
  rewrite bytes_put_Ok by (rewrite ?length_replicate; lia). eexists. split; [done|].
  split; [apply length_inserts|]. split; [apply Forall_inserts; [done|by apply Forall_replicate]|].
  intros i. rewrite bytes_put_lookup by (rewrite ?length_replicate; lia).
  rewrite length_replicate. case_decide; rewrite ?decide_True, ?decide_False by lia; [|done].
  apply lookup_replicate_2. lia.
Qed.

Lemma new_AddrSpace_spec m :
  Z.of_nat (length (mainMemory m)) = MemorySize → Forall is_byte (mainMemory m) →
  ∃ mem, new_AddrSpace garbage f ds m =
      Ok (mkAddrSpace (page_entry <$> seq 0 (Z.to_nat (pages h))) (pages h), set_mainMemory mem m) ∧
    length mem = length (mainMemory m) ∧ Forall is_byte mem ∧
    ∀ i, mem !! i = image h F (mainMemory m) i.
Proof.
  intros Hm Hb. pose proof space_size_bound as [[Hlo Hsp] Hp0]. unfold new_AddrSpace.
  rewrite read_header_spec. rcbn. pose proof (l_magic _ _ Hl) as Emagic.
  rewrite Emagic, bool_decide_false by naive_solver. cbn [andb]. rewrite (bool_decide_true _ Emagic). rcbn.
  assert (u32 (segsize (code h) + segsize (initData h) + segsize (uninitData h) + UserStackSize) =
    segsize (code h) + segsize (initData h) + segsize (uninitData h) + UserStackSize) as ->.
  { destruct Hl as [_ _ _ (Hc & _) (Hi & _) Hu Hpg]. unfold UserStackSize in *. apply u32_small.
    pose proof (divRoundUp_spec (segsize (code h) + segsize (initData h) + segsize (uninitData h) + 1024)
      PageSize ltac:(lia) ltac:(done)) as Hr. fold UserStackSize in Hr. fold (pages h) in Hr.
    fold (space_size h) in Hr. unfold MemorySize, NumPhysPages, PageSize, UserStackSize in *. lia. }
  fold (pages h). fold (space_size h). rewrite (u32_small (space_size h))
    by (unfold UserStackSize, MemorySize, NumPhysPages, PageSize in *; lia).
  rewrite bool_decide_true by apply Hl. rcbn.
  destruct (bzero_spec (mainMemory m) Hm Hb) as (m1 & -> & Hl1 & Hb1 & E1). rcbn.
  destruct (load_segment_spec (code h) m1) as (m2 & -> & Hl2 & Hb2 & E2); [apply Hl|lia|done|]. rcbn.
  destruct (load_segment_spec (initData h) m2) as (m3 & -> & Hl3 & Hb3 & E3); [apply Hl|lia|done|]. rcbn.
  exists m3. split; [done|]. split; [congruence|]. split; [done|]. intros i. unfold image.
  rewrite E3, E2, E1. by destruct (seg_byte (initData h) F i), (seg_byte (code h) F i).
Qed.
End file.

(** ** The registers *)

Lemma clear_registers_spec n i m :
  (i + n = NumTotalRegs)%nat → length (registers m) = NumTotalRegs →
  clear_registers n i m =
  Ok (set_registers (take i (registers m) ++ replicate n 0) m).
Proof.
  revert i m. induction n as [|n IH]; intros i m Hi Hm; cbn [clear_registers].
  - cbn. rewrite app_nil_r, take_ge by lia. by destruct m.
  - unfold WriteRegister. rewrite bool_decide_true by lia. rcbn.
    destruct (lookup_lt_is_Some_2 (registers m) i) as [v Hv]; [lia|]. rewrite Hv. rcbn.
    rewrite IH by (cbn; rewrite ?length_insert; lia). cbn [registers set_registers]. unfold set_registers. cbn.
    f_equal. f_equal. erewrite take_S_r by (apply list_lookup_insert_eq; lia).
    rewrite take_insert_ge by lia. by rewrite <- app_assoc.
Qed.

Lemma WriteRegister_spec r v m :
  (r < NumTotalRegs)%nat → length (registers m) = NumTotalRegs →
  WriteRegister r v m = Ok (set_registers (<[r := u32 v]> (registers m)) m).
Proof.
  intros Hr Hm. unfold WriteRegister. rewrite bool_decide_true by done. rcbn.
  destruct (lookup_lt_is_Some_2 (registers m) r) as [x ->]; [lia|done].
Qed.

(** The program counter at 0, the stack pointer 16 bytes below the end of the
    address space, everything else 0. *)
Definition initial_registers (size : Z) : list Z :=
  <[StackReg := size - 16]> (<[NextPCReg := 4]> (replicate NumTotalRegs 0)).

Lemma InitRegisters_spec s m :
  length (registers m) = NumTotalRegs → 16 ≤ numPages s * PageSize < 2 ^ 32 →
  InitRegisters s m = Ok (set_registers (initial_registers (numPages s * PageSize)) m).
Proof.
  intros Hm Hs. unfold InitRegisters. rewrite clear_registers_spec by done. rcbn.
  rewrite take_0. cbn [app].
  rewrite WriteRegister_spec by (cbn [registers set_registers]; rewrite ?length_replicate; unfold PCReg, NumTotalRegs; lia). rcbn.
  rewrite WriteRegister_spec
    by (cbn [registers set_registers]; rewrite ?length_insert, ?length_replicate; unfold NextPCReg, NumTotalRegs; lia). rcbn.
  rewrite WriteRegister_spec
    by (cbn [registers set_registers]; rewrite ?length_insert, ?length_replicate; unfold StackReg, NumTotalRegs; lia).
  rewrite (u32_small (numPages s * PageSize - 16)) by lia. done.
Qed.

(** ** The page table *)

(** Without a TLB, pages [0 .. n-1] are mapped to themselves, read and write. *)
Definition identity_map (n : Z) (m : Machine) : Prop :=
  tlb m = None ∧ pageTableSize m = n ∧
  ∃ pt, pageTable m = Some pt ∧ Z.of_nat (length pt) = n ∧
    ∀ i e, pt !! i = Some e → physicalPage e = Z.of_nat i ∧ valid e = true ∧ readOnly e = false.

Lemma identity_RestoreState n s m :
  tlb m = None → 0 ≤ n → s = mkAddrSpace (page_entry <$> seq 0 (Z.to_nat n)) n →
  identity_map n (RestoreState s m).
Proof.
  intros Ht Hn ->. split_and!; [done..|]. eexists. split; [done|].
  split; [cbn; rewrite length_fmap, length_seq; lia|].
  intros i e He. apply list_lookup_fmap_Some in He as (j & -> & Hj).
  apply lookup_seq in Hj as [-> _]. done.
Qed.

(** An aligned access inside the address space goes to the same address of
    physical memory, one beyond it is an address error; the map stays. *)
Lemma identity_Translate n addr size writing m :
  identity_map n m → n ≤ NumPhysPages → size = 1 ∨ size = 2 ∨ size = 4 → aligned addr size →
  0 ≤ addr < 2 ^ 31 →
  ∃ m', Translate addr size writing m =
    Ok (if decide (addr < n * PageSize) then inr addr else inl AddressErrorException, m') ∧
    identity_map n m' ∧ same_but_tables m m'.
Proof.
  intros (Ht & Hsz & pt & Hpt & Hlen & Hid) Hn Hs Ha Haddr. unfold Translate.
  pose proof (proj2 (align_test addr size Hs) Ha) as ->.
  rewrite Ht, Hpt. rcbn. rewrite bool_decide_false by done. rcbn.
  rewrite (u32_small addr) by lia. unfold lookup_entry. rewrite Ht, Hpt, Hsz. rcbn.
  pose proof (Z.div_mod addr PageSize ltac:(done)) as Hdm.
  pose proof (Z.mod_pos_bound addr PageSize ltac:(done)) as Hmod.
  pose proof (Z.div_pos addr PageSize ltac:(lia) ltac:(done)) as Hdiv.
  set (q := addr `div` PageSize) in *. set (r := addr `mod` PageSize) in *.
  assert (addr < n * PageSize ↔ q < n) as Hq by (unfold PageSize in *; lia).
  destruct (decide (addr < n * PageSize)) as [Hlt|Hge].
  2: { rewrite decide_True by lia. exists m. split; [done|]. split; [|done]. split_and!; eauto. }
  rewrite decide_False by lia.
  destruct (lookup_lt_is_Some_2 pt (Z.to_nat q)) as [e He]; [lia|]. rewrite He. rcbn.
  destruct (Hid _ _ He) as (Hp & Hve & Hro). rewrite Hve. rcbn. rewrite Hro, decide_False by lia. cbn [andb]. cbv zeta.
  rewrite Hp. replace (Z.of_nat (Z.to_nat q) * PageSize + r) with addr by lia.
  assert (addr + size ≤ MemorySize) as Hb.
  { destruct Ha as [_ Ha]. unfold MemorySize, NumPhysPages, PageSize in *. clear -Hs Ha Hlt Hn. dlia. }
  rewrite !bool_decide_true by lia. rcbn. eexists. split; [done|]. split; [|done].
  split_and!; [done..|]. eexists. split; [done|]. rewrite length_insert. split; [done|].
  intros i e'. rewrite list_lookup_insert_Some.
  intros [(-> & <- & _)|[_ Hi]]; [cbn; split_and!; (done || congruence)|by eapply Hid].
Qed.

(** ** Starting a program *)

(** A machine without a TLB, before a program was started. *)
Record fresh_machine (m : Machine) : Prop := {
  f_registers : length (registers m) = NumTotalRegs;
  f_memory : Z.of_nat (length (mainMemory m)) = MemorySize;
  f_bytes : Forall is_byte (mainMemory m);
  f_tlb : tlb m = None;
}.

(** The machine ready to run the program [F] with header [h]. *)
Record started (h : NoffHeader) (F : list Z) (m m' : Machine) : Prop := {
  s_ok : machine_ok m';
  s_registers : registers m' = initial_registers (space_size h);
  s_memory : ∀ i, mainMemory m' !! i = image h F (mainMemory m) i;
  s_map : identity_map (pages h) m';
}.

Lemma initial_registers_ok size :
  16 ≤ size < 2 ^ 32 →
  length (initial_registers size) = NumTotalRegs ∧ Forall word (initial_registers size) ∧
  initial_registers size !! LoadReg = Some 0.
Proof.
  intros Hs. unfold initial_registers. split_and!.
  - by rewrite !length_insert, length_replicate.
  - repeat apply Forall_insert; [apply Forall_replicate; by split|unfold word; lia..].
  - rewrite !list_lookup_insert_ne by done. done.
Qed.

Section start.
Context (g : nat → nat → Z) (m : Machine).
Hypothesis Hm : fresh_machine m.

Lemma start_spec f ds h :
  hdr_ok (hdr f) → disk_wf ds → loadable h (contents (hdr f) ds) →
  ∃ space m1 m2, new_AddrSpace (g 0%nat) f ds m = Ok (space, m1) ∧ InitRegisters space m1 = Ok m2 ∧
    started h (contents (hdr f) ds) m (RestoreState space m2).
Proof.
  intros Hh Hd Hl.
  destruct (new_AddrSpace_spec (g 0%nat) f ds h Hh Hd Hl m (f_memory _ Hm) (f_bytes _ Hm))
    as (mem & E & Hlen & Hb & Hmem).
  pose proof (space_size_bound f ds h Hl) as [[Hlo Hhi] Hp].
  assert (16 ≤ space_size h < 2 ^ 32) as Hsz
    by (unfold UserStackSize, MemorySize, NumPhysPages, PageSize in *; lia).
  destruct (initial_registers_ok _ Hsz) as (Hr1 & Hr2 & Hr3).
  eexists _, _, _. split; [exact E|]. split; [apply InitRegisters_spec; [apply Hm|exact Hsz]|].
  assert (identity_map (pages h) (RestoreState (mkAddrSpace (page_entry <$> seq 0 (Z.to_nat (pages h))) (pages h))
    (set_registers (initial_registers (space_size h)) (set_mainMemory mem m)))) as Hid
    by (by apply identity_RestoreState; [apply Hm|..]).
  split; [|done|done|exact Hid].
  constructor; cbn; try done.
  - rewrite Hlen. apply Hm.
  - rewrite (f_tlb _ Hm). done.
  - intros pt [= <-]. rewrite length_fmap, length_seq. lia.
  - rewrite (f_tlb _ Hm). cbn. apply Forall_fmap, Forall_true. intros i. cbn. lia.
  - intros v Hv. pose proof (eq_trans (eq_sym Hr3) Hv) as [= <-]. lia.
Qed.

Lemma load_byte mem i b : mem !! i = Some b → load (Z.of_nat i) 1 mem = Ok b.
Proof.
  intros Hi. pose proof (lookup_lt_Some _ _ _ Hi). unfold load.
  destruct (bytes_at_Ok (Z.of_nat i) 1 mem) as [-> _]; [lia..|]. rcbn.
  rewrite Nat2Z.id, (drop_S _ _ _ Hi). cbn [take]. f_equal.
  apply Z.lor_0_r.
Qed.

(** Programs read their own bytes. *)
Lemma started_read h F m' handler (addr : nat) b :
  started h F m m' → pages h ≤ NumPhysPages → Z.of_nat addr < space_size h →
  image h F (mainMemory m) addr = Some b →
  ∃ m'', ReadMem handler (Z.of_nat addr) 1 m' = Ok (Some (s8 b), m'').
Proof.
  intros [Hok _ Hmem Hid] Hp Ha Hi.
  assert (space_size h ≤ MemorySize) as Hsz by (unfold space_size, MemorySize, PageSize in *; lia).
  destruct (identity_Translate (pages h) (Z.of_nat addr) 1 false m') as (m'' & E & _ & Hs);
    [done|done|by left|split; [by left|apply Z.mod_1_r]|
     unfold MemorySize, NumPhysPages, PageSize in *; lia|].
  rewrite decide_True in E by exact Ha. rewrite <- Hmem in Hi.
  unfold ReadMem. rewrite E. rcbn. destruct Hs as (_ & -> & _). rewrite decide_True by done.
  rewrite (load_byte _ _ b) by done. by eexists.
Qed.
End start.

Lemma StartProcess_spec g fs files b d nm x h m :
  fs_state fs files b d → is_name nm → files !! key nm = Some x →
  loadable h (contents x.2 (disk fs)) → fresh_machine m →
  ∃ space m', StartProcess g nm fs m = Ok (Some (space, m')) ∧ started h (contents x.2 (disk fs)) m m'.
Proof.
  intros Hfs Hnm Hx Hl Hm. destruct (fs_files _ _ _ _ Hfs _ _ Hx) as (Hh & _). pose proof (fs_disk _ _ _ _ Hfs) as Hd.
  destruct (start_spec g m Hm (mkOpenFile x.2 0) (disk fs) h Hh Hd Hl) as (space & m1 & m2 & E1 & E2 & Hs).
  exists space, (RestoreState space m2). split; [|done]. unfold StartProcess. rewrite (Open_spec g Hfs nm Hnm), Hx.
  rcbn. cbn [option_fmap option_map]. rewrite E1. rcbn. by rewrite E2.
Qed.

(** C28: [StartProcess] of a program in the file system whose segments fit in
    memory prepares the machine to run it: the machine is well formed, the
    registers are those of a start at address 0 with the stack at the end of
    the address space, memory holds the data segment, the code segment and
    zeros where the header says, whatever memory, buffers and the header on the
    stack held before, every address of the space is mapped to itself, so that
    the program reads its own bytes there, and an aligned access beyond it is
    an address error. *)
Theorem StartProcess_loads g handler fs files b d nm x h m :
  fs_state fs files b d → is_name nm → files !! key nm = Some x →
  loadable h (contents x.2 (disk fs)) → fresh_machine m →
  ∃ space m', StartProcess g nm fs m = Ok (Some (space, m')) ∧ started h (contents x.2 (disk fs)) m m' ∧
    (∀ (addr : nat) v, Z.of_nat addr < space_size h →
      image h (contents x.2 (disk fs)) (mainMemory m) addr = Some v →
      ∃ m'', ReadMem handler (Z.of_nat addr) 1 m' = Ok (Some (s8 v), m'')) ∧
    (∀ addr size writing, aligned addr size → space_size h ≤ addr < 2 ^ 31 →
      ∃ m'', Translate addr size writing m' = Ok (inl AddressErrorException, m'')).
Proof.
  intros Hfs Hnm Hx Hl Hm.
  destruct (StartProcess_spec g fs files b d nm x h m Hfs Hnm Hx Hl Hm) as (space & m' & E & Hs).
  exists space, m'. split_and!; [done|done|..].
  - intros addr v Ha Hv. eapply (started_read g m); [exact Hs|apply Hl|done|done].
  - intros addr size writing Hal Ha. pose proof (space_size_bound (mkOpenFile x.2 0) (disk fs) h Hl).
    destruct (identity_Translate (pages h) addr size writing m') as (m'' & E' & _);
      [apply Hs|apply Hl|apply Hal|done|unfold UserStackSize in *; lia|].
    rewrite decide_False in E' by (fold (space_size h); lia). by eexists.
Qed.

(** ** A program that halts *)

(** [addiu $2,$0,SC_Halt; syscall] after its header. *)
Definition halt_header (va : Z) : NoffHeader :=
  mkNoff NOFFMAGIC (mkSegment va 40 8) (mkSegment 0 0 0) (mkSegment 0 0 0).
Definition halt_program (va : Z) : list Z :=
  ints_bytes (noff_ints (halt_header va) ++ [0x24020000; 0x0000000c]).

Definition store_program (nm prog : list Z) : list fs_op :=
  [OCreate nm (Z.of_nat (length prog)); OWrite nm prog 0].

(** Format a disk, store the program, start it and run it for [n] instructions. *)
Definition start_and_run (prog : list Z) (n : nat) : Result Machine :=
  fs ← new_FileSystem (λ _ _, 77) true empty_disk;
  '(_, fs) ← exec_all (λ _ _ _, 77) 1 (store_program [104] prog) fs;
  r ← StartProcess (λ _ _, 77) [104] fs (new_Machine false);
  match r with
  | None => Err MemFault
  | Some (_, m) => Run_loop ExceptionHandler n m
  end.

(** It halts at its second instruction. *)
Example halt_program_halts :
  ('m ← start_and_run (halt_program 0) 1; reg 2 m) = Ok 0 ∧
  start_and_run (halt_program 0) 2 = Err Exit.
Proof. split; vm_compute; reflexivity. Qed.

(** [AddrSpace] does not check where the segments go: one outside the memory of
    the machine is copied over the simulator's own. *)
Example segment_outside_memory : start_and_run (halt_program 4092) 0 = Err MemFault.
Proof. vm_compute. reflexivity. Qed.

(** The file a stored program is. *)
Lemma stored_program g i fs files b d nm prog :
  fs_state fs files b d → is_name nm → files !! key nm = None → Z.of_nat (size files) < NumDirEntries →
  Forall is_byte prog → Z.of_nat (length prog) ≤ MaxFileSize →
  ∃ rs fs' files' b' d' x, exec_all g i (store_program nm prog) fs = Ok (rs, fs') ∧
    fs_state fs' files' b' d' ∧ files' !! key nm = Some x ∧ contents x.2 (disk fs') = prog.
Proof.
  intros Hfs Hnm Hk Hsz Hp Hl.
  destruct (exec_all_refines g i (store_program nm prog) fs files b d Hfs) as
    (rs & fs' & files' & b' & d' & E & Hfs' & HA).
  { change MaxFileSize with 3840 in Hl. repeat constructor; try done; try lia. }
  inversion HA as [|? ? ? v1 ? ? ? H1 HA1]; subst. inversion HA1 as [|? ? ? v2 ? ? ? H2 HA2]; subst.
  inversion HA2; subst. inversion H2; subst. inversion H1 as [? ? c Hc1 Hc2 Hc3| ? ? Hf| | |]; subst.
  2: { rewrite view_lookup, size_view, Hk in Hf. destruct Hf as [[? ?]|?]; [done|lia]. }
  assert (view fs' files' !! key nm = Some prog) as Hv.
  { match goal with H : _ = view fs' files' |- _ => rewrite <- H end.
    rewrite lookup_alter_eq, lookup_insert_eq. cbn. f_equal. apply list_eq. intros j.
    rewrite (bytes_put_lookup 0) by lia. case_decide; [f_equal; lia|].
    rewrite !lookup_ge_None_2 by lia. done. }
  rewrite view_lookup in Hv. destruct (files' !! key nm) as [x|] eqn:Hx; [|done]. injection Hv as Hv.
  eexists _, fs', files', b', d', x. by split_and!.
Qed.

Lemma halt_loadable : loadable (halt_header 0) (halt_program 0).
Proof.
  assert (space_size (halt_header 0) = 1152 ∧ Z.of_nat (length (halt_program 0)) = 48) as [Es El]
    by (split; vm_compute; reflexivity).
  constructor.
  - vm_compute. reflexivity.
  - unfold is_int. repeat constructor; cbn; unfold NOFFMAGIC; lia.
  - reflexivity.
  - unfold segment_in. rewrite Es, El. cbn. lia.
  - unfold segment_in. rewrite Es, El. cbn. lia.
  - cbn. lia.
  - assert (pages (halt_header 0) = 9) as -> by (vm_compute; reflexivity). unfold NumPhysPages. lia.
Qed.

Lemma new_Machine_fresh : fresh_machine (new_Machine false).
Proof. constructor; try done. apply Forall_replicate. done. Qed.

Lemma StartProcess_loads_witness :
  ∃ fs space m', StartProcess (λ _ _, 77) [104] fs (new_Machine false) = Ok (Some (space, m')) ∧
    registers m' !! StackReg = Some 1136 ∧
    started (halt_header 0) (halt_program 0) (new_Machine false) m'.
Proof.
  assert (is_name [104]) as Hnm by (repeat constructor; lia).
  destruct (format_spec (λ _ _, 77) empty_disk empty_disk_wf) as (fs0 & b & d & _ & Hfs).
  destruct (stored_program (λ _ _ _, 77) 1 fs0 ∅ b d [104] (halt_program 0) Hfs Hnm)
    as (rs & fs & files & b' & d' & x & _ & Hst & Hx & Hc);
    [done|done|apply ints_bytes_bytes|vm_compute; congruence|].
  destruct (StartProcess_loads (λ _ _, 77) ExceptionHandler fs files b' d' [104] x (halt_header 0) (new_Machine false))
    as (space & m' & E & Hs & _); [exact Hst|exact Hnm|exact Hx|rewrite Hc; exact halt_loadable|exact new_Machine_fresh|].
  exists fs, space, m'. split; [exact E|]. split; [|rewrite Hc in Hs; exact Hs].
  rewrite (s_registers _ _ _ _ Hs). vm_compute. reflexivity.
Defined.
