(* ===== verification/Coff2noff.v ===== *)
(** * bin/coff2noff.c

    The tool that turns a MIPS COFF executable (bin/coff.h) into the NOFF file
    (bin/noff.h) that the kernel loads.  It is compiled with -m32 on a little
    endian host: [long] has four bytes and [WordToHost] and [ShortToHost] are
    identities.  Files are sequences of bytes with an offset; writing does not
    fail.  The section [load] joins the tool to [AddrSpace.v]: a converted
    program is in memory where the COFF file wants it. *)

From S2P Require Import Prelude Bytes NachList Kernel Bitmap Disk FileHdr OpenFile Directory FileSys FileSysSpec Machine Mips AddrSpace.

Local Open Scope Z_scope.

(** ** Files *)

Record fd := mkFd { bytes : list Z; offset : Z }.

(** [lseek(fd, p, 0)]: a negative offset is refused and ignored. *)
Definition lseek (p : Z) (f : fd) : fd := if decide (p < 0) then f else mkFd (bytes f) p.

(** [read(fd, buf, n)]: the bytes read. *)
Definition read (n : nat) (f : fd) : list Z * fd :=
  let bs := take n (drop (Z.to_nat (offset f)) (bytes f)) in
  (bs, mkFd (bytes f) (offset f + Z.of_nat (length bs))).

(** [write(fd, buf, n)]: a gap before the offset reads as zeros. *)
Definition write (bs : list Z) (f : fd) : fd :=
  let p := Z.to_nat (offset f) in
  mkFd (take p (bytes f) ++ replicate (p - length (bytes f)) 0 ++ bs ++ drop (p + length bs) (bytes f))
    (offset f + Z.of_nat (length bs)).

(** ** Why the tool exits with 1 *)

Inductive failure :=
| TooShort              (**r File is too short *)
| NotMipsel             (**r File is not a MIPSEL COFF file *)
| NotOmagic             (**r File is not a OMAGIC file *)
| DataAndRdata          (**r Can't handle both data and rdata *)
| BssAndSbss            (**r Can't handle both bss and sbss *)
| UnknownSegment        (**r Unknown segment type *)
| NegativeSize.         (**r a size [malloc] and [read] take for more than 2 GB: the host decides *)

Definition tool (A : Type) : Type := failure + A.
#[export] Instance tool_ret : MRet tool := λ A a, inr a.
#[export] Instance tool_bind : MBind tool := λ A B f m, match m with inl e => inl e | inr a => f a end.

Definition Read (nBytes : Z) (f : fd) : tool (list Z * fd) :=
  if decide (nBytes < 0) then inl NegativeSize
  else
    let '(bs, f) := read (Z.to_nat nBytes) f in
    if decide (Z.of_nat (length bs) ≠ nBytes) then inl TooShort else mret (bs, f).

(** ** The COFF headers *)

Definition MIPSELMAGIC : Z := 0x0162.
Definition OMAGIC : Z := 263.                 (**r 0407 *)

Definition half_at (p : nat) (bs : list Z) : Z := little_endian_to_Z 8 (take 2 (drop p bs)).
Definition long_at (p : nat) (bs : list Z) : Z := s32 (little_endian_to_Z 8 (take 4 (drop p bs))).

Definition s16 (z : Z) : Z := (z + 2 ^ 15) `mod` 2 ^ 16 - 2 ^ 15.

Definition WordToHost (word : Z) : Z := word.
Definition ShortToHost (shortword : Z) : Z := shortword.

Record filehdr := mkFilehdr {
  f_magic : Z; f_nscns : Z; f_timdat : Z; f_symptr : Z; f_nsyms : Z; f_opthdr : Z; f_flags : Z;
}.
Definition sizeof_filehdr : Z := 20.
Definition filehdr_of (bs : list Z) : filehdr :=
  mkFilehdr (half_at 0 bs) (half_at 2 bs) (long_at 4 bs) (long_at 8 bs) (long_at 12 bs) (half_at 16 bs) (half_at 18 bs).

(** Of [struct aouthdr], two [short]s and thirteen [long]s, the tool looks at
    the first field. *)
Definition sizeof_aouthdr : Z := 56.
Definition aouthdr_magic (bs : list Z) : Z := s16 (half_at 0 bs).

Record scnhdr := mkScnhdr {
  s_name : list Z; s_paddr : Z; s_vaddr : Z; s_size : Z; s_scnptr : Z; s_relptr : Z; s_lnnoptr : Z;
  s_nreloc : Z; s_nlnno : Z; s_flags : Z;
}.
Definition sizeof_scnhdr : Z := 40.
Definition scnhdr_of (bs : list Z) : scnhdr :=
  mkScnhdr (take 8 bs) (long_at 8 bs) (long_at 12 bs) (long_at 16 bs) (long_at 20 bs) (long_at 24 bs) (long_at 28 bs)
    (half_at 32 bs) (half_at 34 bs) (long_at 36 bs).

(** The array of section headers. *)
Fixpoint sections_of (n : nat) (bs : list Z) : list scnhdr :=
  match n with
  | O => []
  | S n => scnhdr_of (take (Z.to_nat sizeof_scnhdr) bs) :: sections_of n (drop (Z.to_nat sizeof_scnhdr) bs)
  end.

(** The loop that converts the three fields the tool uses. *)
Definition section_to_host (s : scnhdr) : scnhdr :=
  mkScnhdr (s_name s) (WordToHost (s_paddr s)) (s_vaddr s) (WordToHost (s_size s)) (WordToHost (s_scnptr s))
    (s_relptr s) (s_lnnoptr s) (s_nreloc s) (s_nlnno s) (s_flags s).

(** [main] up to the section headers. *)
Definition read_headers (fdIn : fd) : tool (list scnhdr * fd) :=
  '(bs, fdIn) ← Read sizeof_filehdr fdIn;
  let fileh := filehdr_of bs in
  if decide (ShortToHost (f_magic fileh) ≠ MIPSELMAGIC) then inl NotMipsel
  else
    '(bs, fdIn) ← Read sizeof_aouthdr fdIn;
    if decide (ShortToHost (aouthdr_magic bs) ≠ OMAGIC) then inl NotOmagic
    else
      let numsections := ShortToHost (f_nscns fileh) in
      '(bs, fdIn) ← Read (numsections * sizeof_scnhdr) fdIn;
      mret (section_to_host <$> sections_of (Z.to_nat numsections) bs, fdIn).

(** ** The segments *)

(** [!strcmp(s, name)] for a [name] shorter than [s_name]. *)
Definition named (name : list Z) (s : scnhdr) : bool :=
  bool_decide (take (S (length name)) (s_name s) = name ++ [0]).

Definition dot_text : list Z := [46; 116; 101; 120; 116].
Definition dot_data : list Z := [46; 100; 97; 116; 97].
Definition dot_rdata : list Z := [46; 114; 100; 97; 116; 97].
Definition dot_bss : list Z := [46; 98; 115; 115].
Definition dot_sbss : list Z := [46; 115; 98; 115; 115].

Record conv := mkConv {
  noffH : NoffHeader;
  inNoffFile : Z;
  fdIn : fd;
  fdOut : fd;
}.

(** [lseek(fdIn, ...); Read(fdIn, ...); Write(fdOut, ...);] for a section. *)
Definition copy_section (s : scnhdr) (c : conv) : tool (fd * fd) :=
  '(buffer, i) ← Read (s_size s) (lseek (s_scnptr s) (fdIn c));
  mret (i, write buffer (fdOut c)).

Definition set_code (g : Segment) (h : NoffHeader) : NoffHeader := mkNoff (noffMagic h) g (initData h) (uninitData h).
Definition set_initData (g : Segment) (h : NoffHeader) : NoffHeader := mkNoff (noffMagic h) (code h) g (uninitData h).
Definition set_uninitData (g : Segment) (h : NoffHeader) : NoffHeader := mkNoff (noffMagic h) (code h) (initData h) g.

(** The body of the loop over the sections. *)
Definition convert_section (s : scnhdr) (c : conv) : tool conv :=
  let h := noffH c in
  let seg := mkSegment (s_paddr s) (inNoffFile c) (s_size s) in
  if decide (s_size s = 0) then mret c
  else if named dot_text s then
    '(i, o) ← copy_section s c;
    mret (mkConv (set_code seg h) (s32 (inNoffFile c + s_size s)) i o)
  else if named dot_data s || named dot_rdata s then
    if decide (segsize (initData h) ≠ 0) then inl DataAndRdata
    else
      '(i, o) ← copy_section s c;
      mret (mkConv (set_initData seg h) (s32 (inNoffFile c + s_size s)) i o)
  else if named dot_bss s || named dot_sbss s then
    let u := uninitData h in
    if decide (segsize u ≠ 0) then
      if decide (s_paddr s = s32 (virtualAddr u + segsize u)) then inl BssAndSbss
      else mret (mkConv (set_uninitData (mkSegment (virtualAddr u) (inFileAddr u) (s32 (segsize u + s_size s))) h)
                   (inNoffFile c) (fdIn c) (fdOut c))
    else mret (mkConv (set_uninitData (mkSegment (s_paddr s) (inFileAddr u) (s_size s)) h)
                 (inNoffFile c) (fdIn c) (fdOut c))
  else inl UnknownSegment.

Fixpoint convert_sections (ss : list scnhdr) (c : conv) : tool conv :=
  match ss with
  | [] => mret c
  | s :: ss => c ← convert_section s c; convert_sections ss c
  end.

(** The header on the stack: the fields that are not set keep what was there. *)
Definition initial_header (garbage : nat → Z) : NoffHeader :=
  let seg i := mkSegment (s32 (garbage i)) (s32 (garbage (S i))) 0 in
  mkNoff NOFFMAGIC (seg 0%nat) (seg 2%nat) (seg 4%nat).

(** [main] on the contents of the COFF file: the NOFF file it leaves, or why
    there is none. *)
Definition coff2noff (garbage : nat → Z) (input : list Z) : tool (list Z) :=
  '(sections, fdIn) ← read_headers (mkFd input 0);
  let inNoffFile := Z.of_nat sizeof_NoffHeader in
  c ← convert_sections sections (mkConv (initial_header garbage) inNoffFile fdIn (lseek inNoffFile (mkFd [] 0)));
  mret (bytes (write (ints_bytes (noff_ints (noffH c))) (lseek 0 (fdOut c)))).

(** ** What a conversion has to do *)

Inductive kind := KText | KData | KBss | KUnknown.
#[export] Instance kind_eq_dec : EqDecision kind.
Proof. solve_decision. Defined.

Definition kind_of (s : scnhdr) : kind :=
  if named dot_text s then KText
  else if named dot_data s || named dot_rdata s then KData
  else if named dot_bss s || named dot_sbss s then KBss
  else KUnknown.

(** The sections of a kind that are not empty. *)
Definition of_kind (k : kind) (ss : list scnhdr) : list scnhdr :=
  filter (λ s, s_size s ≠ 0 ∧ kind_of s = k) ss.

Definition section_bytes (F : list Z) (s : scnhdr) : list Z :=
  take (Z.to_nat (s_size s)) (drop (Z.to_nat (s_scnptr s)) F).

Definition is_copied (s : scnhdr) : Prop := kind_of s = KText ∨ kind_of s = KData.
#[export] Instance is_copied_dec s : Decision (is_copied s).
Proof. unfold is_copied. apply _. Defined.

(** The size of the segments in the NOFF file. *)
Fixpoint copied (ss : list scnhdr) : Z :=
  match ss with
  | [] => 0
  | s :: ss => (if decide (is_copied s) then s_size s else 0) + copied ss
  end.

(** A section the tool can convert. *)
Definition section_ok (F : list Z) (s : scnhdr) : Prop :=
  0 ≤ s_size s ∧
  (s_size s ≠ 0 → kind_of s ≠ KUnknown ∧
    (is_copied s → 0 ≤ s_scnptr s ∧ s_scnptr s + s_size s ≤ Z.of_nat (length F))).

(** At most one code, one data and one uninitialized section. *)
Definition one_each (ss : list scnhdr) : Prop :=
  ∀ k, k ≠ KUnknown → (length (of_kind k ss) ≤ 1)%nat.

Record convertible (F : list Z) (ss : list scnhdr) : Prop := {
  c_read : ∃ f, read_headers (mkFd F 0) = inr (ss, f);
  c_sections : Forall (section_ok F) ss;
  c_one : one_each ss;
  c_size : 40 + copied ss < 2 ^ 31;
}.

(** [seg] describes the section [of_kind k ss], whose bytes are in [body], the
    NOFF file after its header. *)
Definition describes (F body : list Z) (ss : list scnhdr) (seg : Segment) : Prop :=
  match ss with
  | [] => segsize seg = 0
  | [s] => virtualAddr seg = s_paddr s ∧ segsize seg = s_size s ∧
      ∃ off : nat, inFileAddr seg = Z.of_nat (40 + off) ∧
        take (Z.to_nat (s_size s)) (drop off body) = section_bytes F s ∧
        0 ≤ s_size s ∧ Z.of_nat off + s_size s ≤ Z.of_nat (length body)
  | _ => False
  end.

Definition describes_bss (ss : list scnhdr) (seg : Segment) : Prop :=
  match ss with
  | [] => segsize seg = 0
  | [s] => virtualAddr seg = s_paddr s ∧ segsize seg = s_size s
  | _ => False
  end.

Record converted (F body : list Z) (ss : list scnhdr) (h : NoffHeader) : Prop := {
  v_magic : noffMagic h = NOFFMAGIC;
  v_ints : Forall is_int (noff_ints h);
  v_size : Z.of_nat (length body) = copied ss;
  v_code : describes F body (of_kind KText ss) (code h);
  v_data : describes F body (of_kind KData ss) (initData h);
  v_bss : describes_bss (of_kind KBss ss) (uninitData h);
}.

(** The state of the loop after the sections [ss]. *)
Record conv_inv (F body : list Z) (ss : list scnhdr) (c : conv) : Prop := {
  i_in : bytes (fdIn c) = F;
  i_pos : inNoffFile c = 40 + Z.of_nat (length body);
  i_out : offset (fdOut c) = 40 + Z.of_nat (length body);
  i_file : bytes (fdOut c) = replicate 40 0 ++ body ∨ bytes (fdOut c) = [] ∧ body = [];
  i_header : converted F body ss (noffH c);
}.

(** ** The loop *)

Lemma copied_app ss s : copied (ss ++ [s]) = copied ss + if decide (is_copied s) then s_size s else 0.
Proof. induction ss as [|s' ss IH]; cbn; [lia|]. rewrite IH. lia. Qed.

Lemma of_kind_app k ss s :
  of_kind k (ss ++ [s]) = of_kind k ss ++ if decide (s_size s ≠ 0 ∧ kind_of s = k) then [s] else [].
Proof. unfold of_kind. by rewrite filter_app. Qed.

(** The bytes written so far stay where they are. *)
Lemma describes_grow F body bs ss seg : describes F body ss seg → describes F (body ++ bs) ss seg.
Proof.
  unfold describes. destruct ss as [|s [|? ?]]; [done| |done].
  intros (Ha & Hs & off & Ho & Hb & H0 & Hl). split_and!; [done..|]. exists off.
  split_and!; [done| |done|rewrite length_app; lia].
  rewrite drop_app_le, take_app_le by (rewrite ?length_drop; lia). done.
Qed.

Lemma length_section_bytes F s :
  0 ≤ s_size s → 0 ≤ s_scnptr s → s_scnptr s + s_size s ≤ Z.of_nat (length F) →
  Z.of_nat (length (section_bytes F s)) = s_size s.
Proof. intros. unfold section_bytes. rewrite length_take, length_drop. lia. Qed.

(** The next segment goes to the end. *)
Lemma describes_new F body s :
  0 ≤ s_size s → 0 ≤ s_scnptr s → s_scnptr s + s_size s ≤ Z.of_nat (length F) →
  describes F (body ++ section_bytes F s) [s] (mkSegment (s_paddr s) (40 + Z.of_nat (length body)) (s_size s)).
Proof.
  intros Hs Hp Hl. pose proof (length_section_bytes F s Hs Hp Hl) as El.
  split_and!; [done..|]. exists (length body). cbn [inFileAddr]. split_and!; [lia| |done|rewrite length_app; lia].
  by rewrite drop_app_length, take_ge by lia.
Qed.

(** Copying a section appends its bytes. *)
Lemma copy_section_spec F body ss c s :
  conv_inv F body ss c → s_size s ≠ 0 → 0 ≤ s_size s → 0 ≤ s_scnptr s →
  s_scnptr s + s_size s ≤ Z.of_nat (length F) →
  ∃ i o, copy_section s c = inr (i, o) ∧ bytes i = F ∧
    offset o = 40 + Z.of_nat (length (body ++ section_bytes F s)) ∧
    bytes o = replicate 40 0 ++ body ++ section_bytes F s.
Proof.
  intros [Hin Hpos Hout Hfile _] Hne Hs Hp Hl. unfold copy_section, Read, read, lseek.
  rewrite (decide_False (P := s_size s < 0)), (decide_False (P := s_scnptr s < 0)) by lia.
  cbn [bytes offset]. rewrite Hin. fold (section_bytes F s).
  pose proof (length_section_bytes F s Hs Hp Hl) as El.
  rewrite decide_False by lia. eexists _, _. split; [reflexivity|]. split; [done|].
  unfold write. cbn [bytes offset]. rewrite Hout. split; [rewrite length_app; lia|].
  replace (Z.to_nat (40 + Z.of_nat (length body))) with (40 + length body)%nat by lia.
  destruct Hfile as [-> | [-> ->]].
  - rewrite take_ge, drop_ge by (rewrite length_app, length_replicate; lia).
    rewrite length_app, length_replicate, Nat.sub_diag. cbn [replicate]. rewrite app_nil_l, app_nil_r.
    by rewrite app_assoc.
  - rewrite take_nil, drop_nil, app_nil_r. reflexivity.
Qed.

Definition seg_int (g : Segment) : Prop := is_int (virtualAddr g) ∧ is_int (inFileAddr g) ∧ is_int (segsize g).

Lemma noff_ints_Forall h :
  Forall is_int (noff_ints h) ↔
  is_int (noffMagic h) ∧ seg_int (code h) ∧ seg_int (initData h) ∧ seg_int (uninitData h).
Proof. unfold noff_ints, seg_int. rewrite !Forall_cons, !Forall_nil. tauto. Qed.

(** A kind that has no section yet. *)
Lemma first_of_kind ss s k :
  one_each (ss ++ [s]) → k ≠ KUnknown → s_size s ≠ 0 → kind_of s = k → of_kind k ss = [].
Proof.
  intros H1 Hk Hs Ek. specialize (H1 k Hk). rewrite of_kind_app, decide_True in H1 by done.
  rewrite length_app in H1. cbn in H1. destruct (of_kind k ss); [done|]. cbn in H1. lia.
Qed.

Lemma other_kind ss s k : kind_of s ≠ k ∨ s_size s = 0 → of_kind k (ss ++ [s]) = of_kind k ss.
Proof. intros H. rewrite of_kind_app, decide_False by tauto. apply app_nil_r. Qed.

Section step.
Context (F body : list Z) (ss : list scnhdr) (c : conv) (s : scnhdr).
Hypothesis Hc : conv_inv F body ss c.
Hypothesis Hs : section_ok F s.
Hypothesis Hints : is_int (s_paddr s) ∧ is_int (s_size s).
Hypothesis Hone : one_each (ss ++ [s]).
Hypothesis Hsize : 40 + copied (ss ++ [s]) < 2 ^ 31.

Definition stepped : Prop := ∃ body' c', convert_section s c = inr c' ∧ conv_inv F body' (ss ++ [s]) c'.

Lemma step_empty : s_size s = 0 → stepped.
Proof using Hc.
  intros Hz. exists body, c. unfold convert_section. rewrite decide_True by done. split; [done|].
  destruct Hc as [? ? ? ? [? ? Hl ? ? ?]]. split; [done..|]. split; rewrite ?other_kind by auto; try done.
  rewrite copied_app, Hz. case_decide; lia.
Qed.

(** The invariant after a section was copied, whichever segment it is. *)
Lemma step_copied i o h :
  s_size s ≠ 0 → is_copied s → bytes i = F →
  offset o = 40 + Z.of_nat (length (body ++ section_bytes F s)) →
  bytes o = replicate 40 0 ++ body ++ section_bytes F s →
  converted F (body ++ section_bytes F s) (ss ++ [s]) h →
  conv_inv F (body ++ section_bytes F s) (ss ++ [s]) (mkConv h (s32 (inNoffFile c + s_size s)) i o).
Proof using Hc Hs Hsize.
  intros Hz Hk Hi Ho Hb Hv. pose proof (v_size _ _ _ _ Hv) as Hl.
  destruct Hc as [? Hpos ? ? [? ? Hl0 ? ? ?]]. split; cbn [fdIn inNoffFile fdOut noffH]; [done| |done|by left|done].
  rewrite copied_app, decide_True in Hl, Hsize by done. rewrite Hpos, s32_small by lia. lia.
Qed.

Lemma position_int : is_int (inNoffFile c).
Proof using Hc Hs Hsize.
  destruct Hc as [? Hpos ? ? [? ? Hl ? ? ?]]. destruct Hs as [? _]. rewrite copied_app in Hsize.
  unfold is_int. rewrite Hpos. case_decide; lia.
Qed.

Lemma step_text : s_size s ≠ 0 → kind_of s = KText → stepped.
Proof using Hc Hs Hints Hone Hsize.
  intros Hz Ek. assert (is_copied s) as Hk by by left. destruct (proj2 Hs Hz) as [_ Hin]. destruct (Hin Hk) as [Hp Hl].
  destruct (copy_section_spec F body ss c s Hc Hz (proj1 Hs) Hp Hl) as (i & o & E & Hi & Ho & Hb).
  exists (body ++ section_bytes F s), (mkConv (set_code (mkSegment (s_paddr s) (inNoffFile c) (s_size s)) (noffH c))
    (s32 (inNoffFile c + s_size s)) i o).
  pose proof position_int as Hpi. split.
  - unfold convert_section. unfold kind_of in Ek. rewrite decide_False by done.
    destruct (named dot_text s); [by rewrite E|by repeat case_match].
  - apply step_copied; try done. destruct Hc as [? Hpos ? ? [Hm Hints' Hl0 Hc1 Hd Hu]].
    apply noff_ints_Forall in Hints' as (? & ? & ? & ?).
    split; cbn [set_code noffMagic code initData uninitData]; [done| | | | |].
    + apply noff_ints_Forall. split_and!; try done. exact (conj (proj1 Hints) (conj Hpi (proj2 Hints))).
    + rewrite length_app, copied_app, decide_True by done. pose proof (length_section_bytes F s (proj1 Hs) Hp Hl). lia.
    + rewrite of_kind_app, (first_of_kind ss s KText Hone) by done. rewrite decide_True by done. rewrite Hpos.
      by apply describes_new; [apply Hs|..].
    + rewrite other_kind by (left; congruence). by apply describes_grow.
    + by rewrite other_kind by (left; congruence).
Qed.

Lemma step_data : s_size s ≠ 0 → kind_of s = KData → stepped.
Proof using Hc Hs Hints Hone Hsize.
  intros Hz Ek. assert (is_copied s) as Hk by by right. destruct (proj2 Hs Hz) as [_ Hin]. destruct (Hin Hk) as [Hp Hl].
  destruct (copy_section_spec F body ss c s Hc Hz (proj1 Hs) Hp Hl) as (i & o & E & Hi & Ho & Hb).
  exists (body ++ section_bytes F s), (mkConv (set_initData (mkSegment (s_paddr s) (inNoffFile c) (s_size s)) (noffH c))
    (s32 (inNoffFile c + s_size s)) i o).
  pose proof position_int as Hpi. pose proof (first_of_kind ss s KData Hone ltac:(done) Hz Ek) as Hfirst. split.
  - unfold convert_section. unfold kind_of in Ek. rewrite (decide_False (P := s_size s = 0)) by done.
    destruct (named dot_text s); [done|]. destruct (named dot_data s || named dot_rdata s); [|by case_match].
    pose proof (v_data _ _ _ _ (i_header _ _ _ _ Hc)) as Hd. rewrite Hfirst in Hd. cbn in Hd.
    rewrite decide_False by auto. by rewrite E.
  - apply step_copied; try done. destruct Hc as [? Hpos ? ? [Hm Hints' Hl0 Hc1 Hd Hu]].
    apply noff_ints_Forall in Hints' as (? & ? & ? & ?).
    split; cbn [set_initData noffMagic code initData uninitData]; [done| | | | |].
    + apply noff_ints_Forall. split_and!; try done. exact (conj (proj1 Hints) (conj Hpi (proj2 Hints))).
    + rewrite length_app, copied_app, decide_True by done. pose proof (length_section_bytes F s (proj1 Hs) Hp Hl). lia.
    + rewrite other_kind by (left; congruence). by apply describes_grow.
    + rewrite of_kind_app, Hfirst. rewrite decide_True by done. rewrite Hpos.
      by apply describes_new; [apply Hs|..].
    + by rewrite other_kind by (left; congruence).
Qed.

Lemma step_bss : s_size s ≠ 0 → kind_of s = KBss → stepped.
Proof using Hc Hints Hone.
  intros Hz Ek. assert (¬ is_copied s) as Hk by (intros [?|?]; congruence).
  exists body, (mkConv (set_uninitData (mkSegment (s_paddr s) (inFileAddr (uninitData (noffH c))) (s_size s)) (noffH c))
    (inNoffFile c) (fdIn c) (fdOut c)).
  pose proof (first_of_kind ss s KBss Hone ltac:(done) Hz Ek) as Hfirst.
  destruct Hc as [? ? ? ? [Hm Hints' Hl0 Hc1 Hd Hu]].
  apply noff_ints_Forall in Hints' as (? & ? & ? & Hui). split.
  - unfold convert_section. unfold kind_of in Ek. rewrite (decide_False (P := s_size s = 0)) by done.
    destruct (named dot_text s); [done|]. destruct (named dot_data s || named dot_rdata s); [done|].
    destruct (named dot_bss s || named dot_sbss s); [|done].
    rewrite Hfirst in Hu. cbn in Hu. by rewrite decide_False by auto.
  - split; [done..|]. split; cbn [noffH set_uninitData noffMagic code initData uninitData]; [done| | | | |].
    + apply noff_ints_Forall. split_and!; try done. exact (conj (proj1 Hints) (conj (proj1 (proj2 Hui)) (proj2 Hints))).
    + rewrite copied_app, decide_False by done. lia.
    + by rewrite other_kind by (left; congruence).
    + by rewrite other_kind by (left; congruence).
    + rewrite of_kind_app, Hfirst. by rewrite decide_True by done.
Qed.

Lemma convert_section_spec : stepped.
Proof using Hc Hs Hints Hone Hsize.
  destruct (decide (s_size s = 0)) as [|Hz]; [by apply step_empty|].
  destruct (kind_of s) eqn:Ek; [by apply step_text|by apply step_data|by apply step_bss|].
  by destruct (proj2 Hs Hz).
Qed.
End step.

Lemma one_each_app ss ss' : one_each (ss ++ ss') → one_each ss.
Proof. intros H k Hk. specialize (H k Hk). unfold of_kind in *. rewrite filter_app, length_app in H. lia. Qed.

Lemma copied_nonneg F ss : Forall (section_ok F) ss → 0 ≤ copied ss.
Proof. induction 1 as [|s ss Hs _ IH]; cbn; [done|]. destruct Hs. case_decide; lia. Qed.

Lemma copied_app_le F ss ss' : Forall (section_ok F) ss' → copied ss ≤ copied (ss ++ ss').
Proof. intros H%copied_nonneg. induction ss as [|s ss IH]; cbn; lia. Qed.

Lemma convert_sections_spec F body ss ss' c :
  conv_inv F body ss c → Forall (section_ok F) ss' → Forall (λ s, is_int (s_paddr s) ∧ is_int (s_size s)) ss' →
  one_each (ss ++ ss') → 40 + copied (ss ++ ss') < 2 ^ 31 →
  ∃ body' c', convert_sections ss' c = inr c' ∧ conv_inv F body' (ss ++ ss') c'.
Proof.
  revert body ss c. induction ss' as [|s ss' IH]; intros body ss c Hc Hs Hi H1 Hsz.
  - exists body, c. by rewrite app_nil_r.
  - inversion Hs; inversion Hi; subst. rewrite cons_middle, app_assoc in H1, Hsz |- *.
    destruct (convert_section_spec F body ss c s) as (body1 & c1 & E & Hc1); try done.
    { by eapply one_each_app. }
    { pose proof (copied_app_le F (ss ++ [s]) ss'). lia. }
    destruct (IH body1 (ss ++ [s]) c1) as (body' & c' & E' & Hc'); [done..|].
    exists body', c'. split; [|done]. cbn [convert_sections]. by rewrite E.
Qed.

(** ** The whole conversion *)

Lemma sections_of_ints n bs :
  Forall (λ s, is_int (s_paddr s) ∧ is_int (s_size s)) (section_to_host <$> sections_of n bs).
Proof.
  revert bs. induction n as [|n IH]; intros bs; cbn; constructor; [|apply IH].
  split; apply s32_range.
Qed.

Lemma read_headers_spec F ss f :
  read_headers (mkFd F 0) = inr (ss, f) →
  bytes f = F ∧ Forall (λ s, is_int (s_paddr s) ∧ is_int (s_size s)) ss.
Proof.
  assert (∀ n f0 bs f, Read n f0 = inr (bs, f) → bytes f = bytes f0) as HR.
  { intros n f0 bs f'. unfold Read, read. do 2 (case_decide; [done|]). by intros [= _ <-]. }
  unfold read_headers. intros H.
  destruct (Read sizeof_filehdr _) as [|[b1 f1]] eqn:E1; [done|]. cbn in H. apply HR in E1. case_decide; [done|].
  destruct (Read sizeof_aouthdr _) as [|[b2 f2]] eqn:E2; [done|]. cbn in H. apply HR in E2. case_decide; [done|].
  destruct (Read _ f2) as [|[b3 f3]] eqn:E3; [done|]. cbn in H. apply HR in E3. injection H as <- <-.
  split; [rewrite E3, E2; exact E1|]. apply sections_of_ints.
Qed.

Lemma initial_inv garbage F f :
  bytes f = F →
  conv_inv F [] [] (mkConv (initial_header garbage) (Z.of_nat sizeof_NoffHeader) f
    (lseek (Z.of_nat sizeof_NoffHeader) (mkFd [] 0))).
Proof.
  intros Hf. split; cbn; [done..|by right|]. split; cbn; try done.
  apply noff_ints_Forall. split_and!; [by split|..]; split_and!; try apply s32_range; by split.
Qed.

(** The header goes in front of the segments. *)
Lemma write_header F body ss c :
  conv_inv F body ss c →
  bytes (write (ints_bytes (noff_ints (noffH c))) (lseek 0 (fdOut c))) = ints_bytes (noff_ints (noffH c)) ++ body.
Proof.
  intros [_ _ _ Hfile _]. assert (length (ints_bytes (noff_ints (noffH c))) = 40%nat) as El by apply length_ints_bytes.
  unfold write, lseek. rewrite decide_False by lia. cbn [bytes offset]. change (Z.to_nat 0) with 0%nat.
  rewrite take_0, Nat.sub_0_l, El, Nat.add_0_l. cbn [replicate]. rewrite !app_nil_l. f_equal.
  destruct Hfile as [-> | [-> ->]]; [|done]. by rewrite drop_app_length' by (by rewrite length_replicate).
Qed.

Lemma coff2noff_spec garbage F ss :
  convertible F ss →
  ∃ h body, coff2noff garbage F = inr (ints_bytes (noff_ints h) ++ body) ∧ converted F body ss h.
Proof.
  intros [[f Hr] Hok H1 Hsz]. destruct (read_headers_spec _ _ _ Hr) as [Hf Hints].
  destruct (convert_sections_spec F [] [] ss _ (initial_inv garbage F f Hf) Hok Hints H1 Hsz) as (body & c & E & Hc).
  exists (noffH c), body. split; [|apply Hc].
  unfold coff2noff. rewrite Hr. cbn [mbind tool_bind]. rewrite E. cbn [mbind tool_bind].
  unfold mret, tool_ret. f_equal. by eapply write_header.
Qed.

(** ** Loading the converted program *)

Definition sizes (ss : list scnhdr) : Z := foldr (λ s z, s_size s + z) 0 ss.

Definition coff_pages (ss : list scnhdr) : Z :=
  divRoundUp (sizes (of_kind KText ss) + sizes (of_kind KData ss) + sizes (of_kind KBss ss) + UserStackSize) PageSize.

(** The program fits in memory. *)
Definition coff_fits (ss : list scnhdr) : Prop :=
  coff_pages ss ≤ NumPhysPages ∧
  ∀ s, s ∈ of_kind KText ss ++ of_kind KData ss →
    0 ≤ s_paddr s ∧ s_paddr s + s_size s ≤ coff_pages ss * PageSize.

(** The byte the COFF file wants at address [i]: of its data, else of its code,
    else zero. *)
Definition coff_byte (F : list Z) (ss : list scnhdr) (i : nat) : option Z :=
  match ss with
  | [s] => if decide (s_paddr s ≤ Z.of_nat i < s_paddr s + s_size s)
           then F !! Z.to_nat (s_scnptr s + (Z.of_nat i - s_paddr s)) else None
  | _ => None
  end.
Definition coff_image (F : list Z) (ss : list scnhdr) (i : nat) : Z :=
  match coff_byte F (of_kind KData ss) i, coff_byte F (of_kind KText ss) i with
  | Some b, _ | None, Some b => b
  | None, None => 0
  end.

Section load.
Context (F body : list Z) (ss : list scnhdr) (h : NoffHeader).
Hypothesis Hv : converted F body ss h.
Hypothesis Hok : Forall (section_ok F) ss.
Local Abbreviation out := (ints_bytes (noff_ints h) ++ body).

Lemma length_header : length (ints_bytes (noff_ints h)) = 40%nat.
Proof. apply length_ints_bytes. Qed.

Lemma describes_size k seg : describes F body (of_kind k ss) seg → segsize seg = sizes (of_kind k ss).
Proof.
  unfold describes. destruct (of_kind k ss) as [|s [|? ?]]; [done| |done]. intros (_ & -> & _). cbn. lia.
Qed.

Lemma describes_bss_size k seg : describes_bss (of_kind k ss) seg → segsize seg = sizes (of_kind k ss).
Proof.
  unfold describes_bss. destruct (of_kind k ss) as [|s [|? ?]]; [done| |done]. intros (_ & ->). cbn. lia.
Qed.

Lemma pages_coff : pages h = coff_pages ss.
Proof using Hv.
  unfold pages, coff_pages. by rewrite (describes_size KText), (describes_size KData), (describes_bss_size KBss) by apply Hv.
Qed.

(** A section of a kind that is copied. *)
Lemma kind_section k s rest :
  k = KText ∨ k = KData → of_kind k ss = s :: rest → 0 ≤ s_size s ∧ 0 ≤ s_scnptr s.
Proof using Hok.
  intros Hk E. assert (s ∈ of_kind k ss) as Hin by (rewrite E; apply list_elem_of_here).
  unfold of_kind in Hin. apply list_elem_of_filter in Hin as [[Hz Ek] Hin].
  rewrite Forall_forall in Hok. destruct (Hok s Hin) as [H0 Hs]. split; [done|].
  apply (proj2 (Hs Hz)). unfold is_copied. by rewrite Ek.
Qed.

(** The segments of the NOFF file have the bytes of the sections. *)
Lemma describes_byte k seg i :
  k = KText ∨ k = KData → describes F body (of_kind k ss) seg → seg_byte seg out i = coff_byte F (of_kind k ss) i.
Proof using Hok.
  intros Hk. unfold describes, seg_byte, coff_byte. destruct (of_kind k ss) as [|s [|? ?]] eqn:E; [|..|done].
  - intros ->. by rewrite decide_False by lia.
  - destruct (kind_section k s [] Hk E) as [H0 Hp].
    intros (-> & -> & off & -> & Hb & _ & Hl). case_decide; [|done].
    pose proof length_header as Hh. set (j := Z.to_nat (Z.of_nat i - s_paddr s)).
    replace (Z.to_nat (Z.of_nat (40 + off) + (Z.of_nat i - s_paddr s)))
      with (length (ints_bytes (noff_ints h)) + (off + j))%nat by lia.
    rewrite lookup_app_r by lia. rewrite Nat.add_sub_swap, Nat.sub_diag, Nat.add_0_l by lia.
    assert (j < Z.to_nat (s_size s))%nat as Hj by lia.
    pose proof (f_equal (.!! j) Hb) as Hbj. cbn beta in Hbj. unfold section_bytes in Hbj.
    rewrite !lookup_take_lt, !lookup_drop in Hbj by done. rewrite Hbj. f_equal. lia.
Qed.

Lemma describes_in k seg :
  coff_fits ss → k = KText ∨ k = KData → describes F body (of_kind k ss) seg → segment_in h out seg.
Proof using Hv Hok.
  intros [_ Hfit] Hk Hd. pose proof length_header as Hh. unfold segment_in, space_size. rewrite pages_coff.
  destruct (of_kind k ss) as [|s [|? ?]] eqn:E; cbn in Hd; [lia| |done].
  destruct (kind_section k s [] Hk E) as [H0 _]. destruct Hd as (-> & -> & off & -> & _ & _ & Hl).
  assert (s ∈ of_kind KText ss ++ of_kind KData ss) as Hin.
  { rewrite elem_of_app. destruct Hk as [-> | ->]; rewrite E; [left|right]; apply list_elem_of_here. }
  destruct (Hfit s Hin). rewrite length_app, Hh. lia.
Qed.

Lemma converted_loadable : coff_fits ss → loadable h out.
Proof using Hv Hok.
  intros Hfit. pose proof length_header as Hh. split; try apply Hv.
  - unfold sizeof_NoffHeader. by rewrite take_app_length'.
  - apply (describes_in KText); auto. apply Hv.
  - apply (describes_in KData); auto. apply Hv.
  - pose proof (v_bss _ _ _ _ Hv) as Hu. unfold describes_bss in Hu.
    destruct (of_kind KBss ss) as [|s [|? ?]] eqn:E; [lia| |done]. destruct Hu as [_ ->].
    assert (s ∈ of_kind KBss ss) as Hin by (rewrite E; apply list_elem_of_here).
    unfold of_kind in Hin. apply list_elem_of_filter in Hin as [_ Hin].
    rewrite Forall_forall in Hok. apply (Hok s Hin).
  - rewrite pages_coff. apply Hfit.
Qed.

Lemma converted_image mem i :
  Z.of_nat i < coff_pages ss * PageSize → image h out mem i = Some (coff_image F ss i).
Proof using Hv Hok.
  intros Hi. unfold image, coff_image.
  rewrite (describes_byte KData (initData h)), (describes_byte KText (code h)) by (auto || apply Hv).
  unfold space_size. rewrite pages_coff, decide_True by done.
  by destruct (coff_byte F (of_kind KData ss) i), (coff_byte F (of_kind KText ss) i).
Qed.
End load.

(** C29: coff2noff is correct for the programs it is made for: a COFF file whose
    sections it can read, with at most one code, one data and one uninitialized
    section, is converted, and when the result is stored under a name in the
    file system and started, memory holds at every address of the address space
    the byte of the data section, else of the code section, else zero, and the
    program counter is at 0; what the tool's stack, the kernel's buffers and the
    machine's memory held before does not matter. *)
Theorem coff2noff_loads garbage g F ss :
  convertible F ss → coff_fits ss →
  ∃ out, coff2noff garbage F = inr out ∧
    ∀ fs files b d nm x m, fs_state fs files b d → is_name nm → files !! key nm = Some x →
      contents x.2 (disk fs) = out → fresh_machine m →
      ∃ space m', StartProcess g nm fs m = Ok (Some (space, m')) ∧ machine_ok m' ∧
        registers m' = initial_registers (coff_pages ss * PageSize) ∧
        ∀ i : nat, Z.of_nat i < coff_pages ss * PageSize → mainMemory m' !! i = Some (coff_image F ss i).
Proof.
  intros Hc Hfit. destruct (coff2noff_spec garbage F ss Hc) as (h & body & E & Hv).
  pose proof (c_sections _ _ Hc) as Hok. exists (ints_bytes (noff_ints h) ++ body). split; [done|].
  intros fs files b d nm x m Hfs Hnm Hx Ec Hm.
  destruct (StartProcess_spec g fs files b d nm x h m Hfs Hnm Hx) as (space & m' & E1 & [Hmo Hreg Hmem _]);
    [rewrite Ec; by apply (converted_loadable F body ss h)|done|].
  exists space, m'. split_and!; [done|done| |].
  - rewrite Hreg. unfold space_size. by rewrite (pages_coff F body ss h Hv).
  - intros i Hi. rewrite Hmem, Ec. by apply (converted_image F body).
Qed.

(** ** Executions *)

Definition half_bytes (z : Z) : list Z := Z_to_little_endian 2 8 z.

(** A section header: its name, address, size and place in the file. *)
Definition section_header (name : list Z) (paddr size scnptr : Z) : list Z :=
  name ++ replicate (8 - length name) 0 ++
  ints_bytes [paddr; paddr; size; scnptr; 0; 0] ++ half_bytes 0 ++ half_bytes 0 ++ int_bytes 0.

(** The headers of a COFF file with three sections; the contents start at 196. *)
Definition coff_headers (s1 s2 s3 : list Z) : list Z :=
  half_bytes MIPSELMAGIC ++ half_bytes 3 ++ ints_bytes [0; 0; 0] ++ half_bytes 56 ++ half_bytes 0 ++
  half_bytes OMAGIC ++ half_bytes 0 ++ ints_bytes (replicate 13 0) ++ s1 ++ s2 ++ s3.

(** [addiu $2,$0,SC_Halt; syscall], four bytes of data and eight of bss. *)
Definition halt_coff : list Z :=
  coff_headers (section_header dot_text 0 8 196) (section_header dot_data 8 4 204) (section_header dot_bss 12 8 0) ++
  ints_bytes [0x24020000; 0x0000000c; 0x01020304].

Definition halt_sections : list scnhdr :=
  match read_headers (mkFd halt_coff 0) with inr (ss, _) => ss | inl _ => [] end.

(** Convert, store, start and run for [n] instructions. *)
Definition convert_and_run (coff : list Z) (n : nat) : option (Result Machine) :=
  match coff2noff (λ _, 99) coff with inl _ => None | inr prog => Some (start_and_run prog n) end.

Example halt_coff_halts : convert_and_run halt_coff 2 = Some (Err Exit).
Proof. vm_compute. reflexivity. Qed.

(** A .bss and an .sbss section that are contiguous are refused, although the
    comment asks for just that; two with a gap are taken for one. *)
Example contiguous_bss_refused :
  coff2noff (λ _, 99) (coff_headers (section_header dot_text 0 8 196) (section_header dot_sbss 8 4 0)
    (section_header dot_bss 12 8 0) ++ ints_bytes [0x24020000; 0x0000000c]) = inl BssAndSbss.
Proof. vm_compute. reflexivity. Qed.

Example separate_bss_accepted :
  coff2noff (λ _, 0) (coff_headers (section_header dot_text 0 8 196) (section_header dot_sbss 8 4 0)
    (section_header dot_bss 1000 8 0) ++ ints_bytes [0x24020000; 0x0000000c]) =
  inr (ints_bytes (noff_ints (mkNoff NOFFMAGIC (mkSegment 0 40 8) (mkSegment 0 0 0) (mkSegment 8 0 12))) ++
       ints_bytes [0x24020000; 0x0000000c]).
Proof. vm_compute. reflexivity. Qed.

Lemma halt_convertible : convertible halt_coff halt_sections.
Proof.
  split.
  - eexists. vm_compute. reflexivity.
  - repeat constructor; vm_compute; try discriminate; try (by intros _ [?|?]).
  - intros k _. destruct k; vm_compute; lia.
  - vm_compute. reflexivity.
Qed.

Lemma halt_fits : coff_fits halt_sections.
Proof.
  split; [vm_compute; discriminate|]. apply Forall_forall. vm_compute. repeat constructor; discriminate.
Qed.

Lemma coff2noff_loads_witness :
  ∃ out, coff2noff (λ _, 99) halt_coff = inr out ∧
    ∃ fs space m', StartProcess (λ _ _, 77) [104] fs (new_Machine false) = Ok (Some (space, m')) ∧
      mainMemory m' !! 8%nat = Some 4 ∧ mainMemory m' !! 4%nat = Some 12.
Proof.
  assert (is_name [104]) as Hnm by (repeat constructor; lia).
  destruct (coff2noff_loads (λ _, 99) (λ _ _, 77) halt_coff halt_sections halt_convertible halt_fits) as (out & E & H).
  exists out. split; [exact E|].
  assert (out = ints_bytes (noff_ints (mkNoff NOFFMAGIC (mkSegment 0 40 8) (mkSegment 8 48 4) (mkSegment 12 99 8))) ++
    ints_bytes [0x24020000; 0x0000000c; 0x01020304]) as Eo
    by (enough (@inr failure _ out = inr (_ ++ _)) as Ei by (injection Ei as Ei; exact Ei); rewrite <- E; vm_compute; reflexivity).
  destruct (format_spec (λ _ _, 77) empty_disk empty_disk_wf) as (fs0 & b & d & _ & Hfs).
  destruct (stored_program (λ _ _ _, 77) 1 fs0 ∅ b d [104] out Hfs Hnm)
    as (rs & fs & files & b' & d' & x & _ & Hst & Hx & Hcon); [done|done|..].
  { rewrite Eo. apply Forall_app. split; apply ints_bytes_bytes. }
  { rewrite Eo. vm_compute. discriminate. }
  destruct (H fs files b' d' [104] x (new_Machine false) Hst Hnm Hx Hcon new_Machine_fresh)
    as (space & m' & E1 & _ & _ & Hmem).
  exists fs, space, m'. split; [exact E1|].
  split; (etrans; [apply Hmem; vm_compute; reflexivity|vm_compute; reflexivity]).
Defined.
