(* ===== verification/Coff2flat.v ===== *)
(** * bin/coff2flat.c

    The tool that turns a COFF executable into a flat file, the image of the
    program's memory.  The structures are those of bin/coff.h, as in
    [Coff2noff], and files behave as there; both files can be opened and
    written.  The tool appends the sections one after the other: the image is
    right when the sections are contiguous from address 0, as the linker lays
    them out with -T 0. *)

From S2P Require Import Prelude Bytes Machine AddrSpace Coff2noff.

Local Open Scope Z_scope.

Definition StackSize : Z := 1024.

(** [main] up to the section headers. *)
Definition flat_headers (fdIn : fd) : tool (list scnhdr * fd) :=
  '(bs, fdIn) ← Read sizeof_filehdr fdIn;
  let fileh := filehdr_of bs in
  if decide (f_magic fileh ≠ MIPSELMAGIC) then inl NotMipsel
  else
    '(bs, fdIn) ← Read sizeof_aouthdr fdIn;
    if decide (aouthdr_magic bs ≠ OMAGIC) then inl NotOmagic
    else
      '(bs, fdIn) ← Read (f_nscns fileh * sizeof_scnhdr) fdIn;
      mret (sections_of (Z.to_nat (f_nscns fileh)) bs, fdIn).

Record flat := mkFlat { top : Z; flatIn : fd; flatOut : fd }.

(** [strcmp(s_name, ".bss") && strcmp(s_name, ".sbss")] *)
Definition is_loaded (s : scnhdr) : bool := negb (named dot_bss s) && negb (named dot_sbss s).

(** The body of the loop. *)
Definition flat_section (s : scnhdr) (c : flat) : tool flat :=
  let last := s32 (s_paddr s + s_size s) in
  let top := if decide (last > top c) then last else top c in
  if is_loaded s then
    '(buffer, fdIn) ← Read (s_size s) (lseek (s_scnptr s) (flatIn c));
    mret (mkFlat top fdIn (write buffer (flatOut c)))
  else mret (mkFlat top (flatIn c) (flatOut c)).

Fixpoint flat_sections (ss : list scnhdr) (c : flat) : tool flat :=
  match ss with
  | [] => mret c
  | s :: ss => c ← flat_section s c; flat_sections ss c
  end.

(** [main] on the contents of the COFF file. *)
Definition coff2flat (input : list Z) : tool (list Z) :=
  '(sections, fdIn) ← flat_headers (mkFd input 0);
  c ← flat_sections sections (mkFlat 0 fdIn (mkFd [] 0));
  let fdOut := lseek (s32 (top c + StackSize - 4)) (flatOut c) in
  mret (bytes (write (int_bytes 0) fdOut)).

(** ** Specification *)

(** The end of the program. *)
Fixpoint program_end (ss : list scnhdr) : Z :=
  match ss with
  | [] => 0
  | s :: ss => Z.max (s_paddr s + s_size s) (program_end ss)
  end.

(** The loaded sections follow each other from address [p]. *)
Fixpoint contiguous (p : Z) (ss : list scnhdr) : Prop :=
  match ss with
  | [] => True
  | s :: ss => if is_loaded s then s_paddr s = p ∧ contiguous (p + s_size s) ss else contiguous p ss
  end.

(** Sections that lie in the file and end below 2 GB. *)
Definition flat_ok (F : list Z) (s : scnhdr) : Prop :=
  0 ≤ s_size s ∧ - 2 ^ 31 ≤ s_paddr s + s_size s < 2 ^ 31 - StackSize ∧
  (is_loaded s = true → 0 ≤ s_scnptr s ∧ s_scnptr s + s_size s ≤ Z.of_nat (length F)).

(** The byte of the section that covers the address [i]. *)
Definition covers (s : scnhdr) (i : nat) : Prop :=
  is_loaded s = true ∧ s_paddr s ≤ Z.of_nat i < s_paddr s + s_size s.
#[local] Instance covers_dec s i : Decision (covers s i).
Proof. unfold covers. apply _. Defined.

Definition byte_in (F : list Z) (s : scnhdr) (i : nat) : option Z :=
  F !! Z.to_nat (s_scnptr s + (Z.of_nat i - s_paddr s)).

Fixpoint flat_byte (F : list Z) (ss : list scnhdr) (i : nat) : option Z :=
  match ss with
  | [] => None
  | s :: ss => if decide (covers s i) then byte_in F s i else flat_byte F ss i
  end.

(** What the loop writes. *)
Fixpoint flat_body (F : list Z) (ss : list scnhdr) : list Z :=
  match ss with
  | [] => []
  | s :: ss => (if is_loaded s then section_bytes F s else []) ++ flat_body F ss
  end.

(** ** The loop *)

Lemma flat_headers_same f : flat_headers f = read_headers f.
Proof.
  unfold flat_headers, read_headers, ShortToHost. destruct (Read sizeof_filehdr f) as [|[bs f1]]; [done|].
  cbn [mbind tool_bind]. case_decide; [done|]. destruct (Read sizeof_aouthdr f1) as [|[bs2 f2]]; [done|].
  cbn [mbind tool_bind]. case_decide; [done|]. destruct (Read _ f2) as [|[bs3 f3]]; [done|].
  cbn [mbind tool_bind]. unfold mret, tool_ret. do 2 f_equal.
  symmetry. rewrite <- list_fmap_id. apply list_fmap_ext. by intros _ [] _.
Qed.

Lemma write_end bs out : bytes (write bs (mkFd out (Z.of_nat (length out)))) = out ++ bs.
Proof.
  unfold write. cbn [bytes offset]. rewrite Nat2Z.id, take_ge, Nat.sub_diag, drop_ge by lia.
  by rewrite app_nil_r.
Qed.

Lemma Read_section F s f :
  bytes f = F → 0 ≤ s_size s → 0 ≤ s_scnptr s → s_scnptr s + s_size s ≤ Z.of_nat (length F) →
  ∃ f', Read (s_size s) (lseek (s_scnptr s) f) = inr (section_bytes F s, f') ∧ bytes f' = F.
Proof.
  intros Hf Hs Hp Hl. unfold Read, read, lseek.
  rewrite (decide_False (P := s_size s < 0)), (decide_False (P := s_scnptr s < 0)) by lia.
  cbn [bytes offset]. rewrite Hf. fold (section_bytes F s).
  pose proof (length_section_bytes F s Hs Hp Hl). rewrite decide_False by lia. by eexists.
Qed.

Lemma flat_sections_spec F ss f out t :
  bytes f = F → Forall (flat_ok F) ss →
  ∃ f' o, flat_sections ss (mkFlat t f (mkFd out (Z.of_nat (length out)))) =
      inr (mkFlat (foldl (λ t s, Z.max t (s_paddr s + s_size s)) t ss) f' o) ∧
    o = mkFd (out ++ flat_body F ss) (Z.of_nat (length (out ++ flat_body F ss))).
Proof.
  intros Hf Hok. revert f out t Hf. induction Hok as [|s ss (Hs & Hend & Hl) _ IH]; intros f out t Hf.
  { eexists f, _. cbn. by rewrite app_nil_r. }
  cbn [flat_sections foldl flat_body]. unfold flat_section. cbn [top flatIn flatOut].
  assert ((if decide (s32 (s_paddr s + s_size s) > t) then s32 (s_paddr s + s_size s) else t) =
    Z.max t (s_paddr s + s_size s)) as ->
    by (rewrite s32_small by (unfold StackSize in Hend; lia); case_decide; lia).
  destruct (is_loaded s).
  - destruct (Hl eq_refl) as [Hp Hfit]. destruct (Read_section F s f Hf Hs Hp Hfit) as (f1 & -> & Hf1).
    cbn [mbind tool_bind].
    assert (write (section_bytes F s) (mkFd out (Z.of_nat (length out))) =
      mkFd (out ++ section_bytes F s) (Z.of_nat (length (out ++ section_bytes F s)))) as ->.
    { rewrite <- (write_end (section_bytes F s) out). unfold write. cbn [bytes offset]. f_equal.
      rewrite !length_app, length_replicate, length_take, length_drop. lia. }
    destruct (IH f1 (out ++ section_bytes F s) (Z.max t (s_paddr s + s_size s)) Hf1) as (f' & o & E & Ho).
    exists f', o. split; [exact E|]. by rewrite Ho, <- app_assoc.
  - destruct (IH f out (Z.max t (s_paddr s + s_size s)) Hf) as (f' & o & E & Ho). by exists f', o.
Qed.

Lemma foldl_end t ss : 0 ≤ t → foldl (λ t s, Z.max t (s_paddr s + s_size s)) t ss = Z.max t (program_end ss).
Proof.
  revert t. induction ss as [|s ss IH]; intros t Ht; cbn [foldl program_end]; [lia|]. rewrite IH by lia. lia.
Qed.

Lemma program_end_bound F ss : Forall (flat_ok F) ss → 0 ≤ program_end ss < 2 ^ 31 - StackSize.
Proof.
  induction 1 as [|s ss (Hs & Hend & _) _ IH]; cbn [program_end]; [by unfold StackSize|]. lia.
Qed.

Lemma length_flat_body F p ss :
  Forall (flat_ok F) ss → contiguous p ss → 0 ≤ p →
  p + Z.of_nat (length (flat_body F ss)) ≤ Z.max p (program_end ss).
Proof.
  intros Hok. revert p. induction Hok as [|s ss (Hs & _ & Hl) _ IH]; intros p Hc Hp;
    cbn [flat_body contiguous program_end] in *; [cbn; lia|]. rewrite length_app. destruct (is_loaded s).
  - destruct Hc as [Hp' Hc]. destruct (Hl eq_refl) as [Hsp Hfit].
    pose proof (length_section_bytes F s Hs Hsp Hfit). specialize (IH _ Hc ltac:(lia)). lia.
  - specialize (IH p Hc Hp). cbn [length]. lia.
Qed.

(** The flat file: the sections, then zeros up to the end of the stack. *)
Lemma coff2flat_spec F ss f :
  read_headers (mkFd F 0) = inr (ss, f) → bytes f = F → Forall (flat_ok F) ss → contiguous 0 ss →
  ∃ z : nat, coff2flat F = inr (flat_body F ss ++ replicate z 0) ∧
    Z.of_nat (length (flat_body F ss ++ replicate z 0)) = program_end ss + StackSize.
Proof.
  intros Hr Hf Hok Hc. unfold coff2flat. rewrite flat_headers_same, Hr. cbn [mbind tool_bind].
  destruct (flat_sections_spec F ss f [] 0 Hf Hok) as (f' & o & E & ->). cbn [length] in E. rewrite app_nil_l in E.
  change (Z.of_nat 0) with 0 in E. rewrite E. cbn [mbind tool_bind top flatOut].
  rewrite foldl_end by lia. pose proof (program_end_bound F ss Hok) as Hend.
  pose proof (length_flat_body F 0 ss Hok Hc ltac:(lia)) as Hlen. rewrite Z.max_r in * by lia.
  unfold StackSize in *. rewrite s32_small by lia. unfold lseek. rewrite decide_False by lia. unfold write. cbn [bytes offset].
  exists (Z.to_nat (program_end ss + 1024) - length (flat_body F ss))%nat.
  rewrite length_app, length_replicate. split; [|lia]. unfold mret, tool_ret. f_equal.
  rewrite take_ge by lia. f_equal. rewrite drop_ge by lia. rewrite app_nil_r.
  change (int_bytes 0) with (replicate 4 0). rewrite <- replicate_add. f_equal. lia.
Qed.

(** ** The image *)

Lemma flat_body_lookup F p ss i :
  Forall (flat_ok F) ss → contiguous p ss → 0 ≤ p ≤ Z.of_nat i →
  flat_body F ss !! (i - Z.to_nat p)%nat = flat_byte F ss i.
Proof.
  intros Hok. revert p. induction Hok as [|s ss (Hs & _ & Hl) _ IH]; intros p Hc Hp;
    cbn [flat_body contiguous flat_byte] in *; [done|]. destruct (is_loaded s) eqn:El.
  2: { rewrite decide_False by (intros [? _]; congruence). by apply IH. }
  destruct Hc as [Hp' Hc]. destruct (Hl eq_refl) as [Hsp Hfit].
  pose proof (length_section_bytes F s Hs Hsp Hfit). case_decide as Hd.
  - destruct Hd as [_ Hd]. rewrite lookup_app_l by lia. unfold section_bytes, byte_in.
    rewrite lookup_take_lt, lookup_drop by lia. f_equal. lia.
  - assert (p + s_size s ≤ Z.of_nat i) by (apply Znot_gt_le; intros ?; apply Hd; split; [done|lia]).
    rewrite lookup_app_r by lia. rewrite <- (IH (p + s_size s)) by (done || lia). f_equal. lia.
Qed.

(** Sections of a contiguous layout do not overlap. *)
Lemma flat_byte_covered F p ss s i :
  Forall (flat_ok F) ss → contiguous p ss → s ∈ ss → covers s i → p ≤ s_paddr s ∧ flat_byte F ss i = byte_in F s i.
Proof.
  intros Hok. revert p. induction Hok as [|s' ss (Hs & _ & _) _ IH]; intros p Hc Hin Hcov; [by apply not_elem_of_nil in Hin|].
  cbn [contiguous flat_byte] in *. apply elem_of_cons in Hin as [<-|Hin].
  - rewrite (decide_True _ _ Hcov). destruct Hcov as [E _]. rewrite E in Hc. split; [lia|done].
  - destruct (is_loaded s') eqn:E.
    + destruct Hc as [Hp Hc]. destruct (IH _ Hc Hin Hcov) as [Hle Hb]. split; [lia|].
      rewrite decide_False; [done|]. intros [_ H]. destruct Hcov as [_ H']. lia.
    + destruct (IH _ Hc Hin Hcov) as [Hle Hb]. split; [done|]. rewrite decide_False; [done|].
      intros [H _]. congruence.
Qed.

Lemma flat_byte_uncovered F ss i : (∀ s, s ∈ ss → ¬ covers s i) → flat_byte F ss i = None.
Proof.
  induction ss as [|s ss IH]; intros Hn; [done|]. cbn [flat_byte].
  rewrite decide_False by (apply Hn; left). apply IH. intros s' Hin. apply Hn. by right.
Qed.

(** *** The same sections in coff2noff *)

(** The second character tells the names apart. *)
Lemma named_char c n s : named (46 :: c :: n) s = true → s_name s !! 1%nat = Some c.
Proof.
  unfold named. intros H%bool_decide_eq_true. cbn [length app] in H.
  destruct (s_name s) as [|a [|b l]]; try done. cbn in H. by injection H as _ ->.
Qed.

Lemma kind_loaded s : is_loaded s = true ↔ kind_of s ≠ KBss.
Proof.
  unfold is_loaded, kind_of.
  destruct (named dot_bss s) eqn:Eb; [|destruct (named dot_sbss s) eqn:Es]; cbn [negb andb];
    [apply named_char in Eb as Ec|apply named_char in Es as Ec|].
  - destruct (named dot_text s) eqn:E1; [apply named_char in E1; congruence|].
    destruct (named dot_data s) eqn:E2; [apply named_char in E2; congruence|].
    destruct (named dot_rdata s) eqn:E3; [apply named_char in E3; congruence|]. done.
  - destruct (named dot_text s) eqn:E1; [apply named_char in E1; congruence|].
    destruct (named dot_data s) eqn:E2; [apply named_char in E2; congruence|].
    destruct (named dot_rdata s) eqn:E3; [apply named_char in E3; congruence|]. done.
  - by destruct (named dot_text s), (named dot_data s || named dot_rdata s).
Qed.

Section same.
Context (F : list Z) (ss : list scnhdr) (i : nat).
Hypothesis Hconv : convertible F ss.
Hypothesis Hok : Forall (flat_ok F) ss.
Hypothesis Hc : contiguous 0 ss.

(** A byte of the code or data section is that of the flat file. *)
Lemma coff_byte_flat k b :
  k = KText ∨ k = KData → coff_byte F (of_kind k ss) i = Some b → flat_byte F ss i = Some b.
Proof using Hok Hc.
  intros Hk. unfold coff_byte. destruct (of_kind k ss) as [|s [|? ?]] eqn:E; [done| |done].
  case_decide as Hd; [|done]. intros Hb.
  assert (s ∈ of_kind k ss) as Hin by (rewrite E; left).
  apply list_elem_of_filter in Hin as [[Hz Ek] Hin].
  destruct (flat_byte_covered F 0 ss s i Hok Hc Hin) as [_ ->]; [|exact Hb].
  split; [|exact Hd]. apply kind_loaded. rewrite Ek. by destruct Hk as [-> | ->].
Qed.

(** A section that covers the address is the code or the data section. *)
Lemma covered_coff s :
  s ∈ ss → covers s i → ∃ k, (k = KText ∨ k = KData) ∧ is_Some (coff_byte F (of_kind k ss) i).
Proof using Hconv.
  intros Hin [Hl Hr]. destruct Hconv as [_ Hs H1 _]. rewrite Forall_forall in Hs.
  destruct (Hs s Hin) as [H0 Hz]. destruct (Hz ltac:(lia)) as [Hu Hcp].
  assert (kind_of s = KText ∨ kind_of s = KData) as Hk
    by (apply kind_loaded in Hl; destruct (kind_of s); auto; done).
  exists (kind_of s). split; [exact Hk|]. destruct (Hcp Hk) as [Hp Hfit].
  assert (s ∈ of_kind (kind_of s) ss) as Hin' by (apply list_elem_of_filter; split; [split; [lia|done]|done]).
  specialize (H1 _ Hu). destruct (of_kind (kind_of s) ss) as [|s1 [|s2 l]]; [by apply not_elem_of_nil in Hin'| |cbn in H1; lia].
  apply list_elem_of_singleton in Hin' as <-. unfold coff_byte. rewrite decide_True by done.
  apply lookup_lt_is_Some. lia.
Qed.

Lemma flat_image : default 0 (flat_byte F ss i) = coff_image F ss i.
Proof using All.
  unfold coff_image.
  destruct (coff_byte F (of_kind KData ss) i) as [b|] eqn:Ed; [by rewrite (coff_byte_flat KData b) by auto|].
  destruct (coff_byte F (of_kind KText ss) i) as [b|] eqn:Et; [by rewrite (coff_byte_flat KText b) by auto|].
  rewrite flat_byte_uncovered; [done|]. intros s Hin Hcov.
  destruct (covered_coff s Hin Hcov) as (k & [-> | ->] & [b Hb]); congruence.
Qed.
End same.

(** ** Property *)

(** C33: for a COFF file with contiguous sections that coff2noff can convert, the
    flat file is the memory the kernel makes of the converted program: it ends
    [StackSize] bytes after the program, and its byte at every address is that
    of the data section, else of the code section, else zero. *)
Theorem coff2flat_image F ss :
  convertible F ss → Forall (flat_ok F) ss → contiguous 0 ss →
  ∃ out, coff2flat F = inr out ∧ Z.of_nat (length out) = program_end ss + StackSize ∧
    ∀ i : nat, (i < length out)%nat → out !! i = Some (coff_image F ss i).
Proof.
  intros Hconv Hok Hc. destruct (c_read _ _ Hconv) as [f Hr]. destruct (read_headers_spec _ _ _ Hr) as [Hf _].
  destruct (coff2flat_spec F ss f Hr Hf Hok Hc) as (z & E & Hlen). exists (flat_body F ss ++ replicate z 0).
  split_and!; [exact E|exact Hlen|]. intros i Hi. rewrite <- (flat_image F ss i) by done.
  pose proof (flat_body_lookup F 0 ss i Hok Hc ltac:(lia)) as Hb. rewrite Nat.sub_0_r in Hb. rewrite <- Hb.
  destruct (decide (i < length (flat_body F ss))%nat) as [Hlt|Hge].
  - rewrite lookup_app_l by done. destruct (lookup_lt_is_Some_2 _ _ Hlt) as [b Eb]. by rewrite Eb.
  - rewrite lookup_app_r, lookup_replicate_2 by (rewrite length_app, length_replicate in Hi; lia).
    by rewrite lookup_ge_None_2 by lia.
Qed.

(** ** Executions *)

Lemma coff2flat_image_witness :
  ∃ out, coff2flat halt_coff = inr out ∧ length out = 1044%nat ∧
    out !! 8%nat = Some (coff_image halt_coff halt_sections 8) ∧ coff_image halt_coff halt_sections 8 = 4.
Proof.
  destruct (coff2flat_image halt_coff halt_sections halt_convertible) as (out & E & Hl & Hi).
  - repeat constructor; vm_compute; try discriminate; by intros.
  - vm_compute. repeat split.
  - exists out. assert (length out = 1044%nat) as El
      by (apply Nat2Z.inj; rewrite Hl; vm_compute; reflexivity).
    split_and!; [exact E|exact El|apply Hi; rewrite El; apply Nat.ltb_lt; reflexivity|vm_compute; reflexivity].
Defined.

(** The sections are appended and not put at their addresses: with a gap between
    code and data, the data are not where the program expects them. *)
Example gap_misplaces_data :
  let F := coff_headers (section_header dot_text 0 8 196) (section_header dot_data 16 4 204) (section_header dot_bss 20 8 0) ++
    ints_bytes [0x24020000; 0x0000000c; 0x01020304] in
  match coff2flat F with
  | inr out => (take 4 (drop 8 out), take 4 (drop 16 out)) = ([4; 3; 2; 1], [0; 0; 0; 0])
  | inl _ => False
  end.
Proof. vm_compute. reflexivity. Qed.
