(* ===== verification/Stacks.v ===== *)
(** * c++example: stacks of integers

    stack.cc, templatestack.cc and inheritstack.cc with list.cc.  The abstract
    class [Stack] of inheritstack.h is the type class [Stack], with the laws its
    comments state in [StackLaws]; [ArrayStack] (the same code in stack.cc and,
    for any element type, templatestack.cc) and [ListStack] are its instances,
    and [SelfTest] is verified once, against the interface. *)

From S2P Require Import Prelude Bytes.

Local Open Scope Z_scope.

(** ** The interface *)

Class Stack (T St : Type) := {
  Push : T → St → Result St;
  Pop : St → Result (T * St);
  Full : St → bool;
  Empty : St → bool;
}.

(** [elems s] are the elements, the last one pushed first; [room s n] says that
    [n] more can be pushed. *)
Class StackLaws (T St : Type) `{Stack T St} := {
  stack_ok : St → Prop;
  elems : St → list T;
  room : St → nat → Prop;
  Full_spec s : stack_ok s → Full s = true ↔ ¬ room s 1;
  room_le s n m : stack_ok s → (n ≤ m)%nat → room s m → room s n;
  Empty_spec s : stack_ok s → Empty s = true ↔ elems s = [];
  Push_spec v s : stack_ok s →
    if Full s then Push v s = Err AssertFailed
    else ∃ s', Push v s = Ok s' ∧ stack_ok s' ∧ elems s' = v :: elems s ∧
           ∀ n, room s (S n) ↔ room s' n;
  Pop_spec s : stack_ok s →
    match elems s with
    | [] => Pop s = Err AssertFailed
    | v :: vs => ∃ s', Pop s = Ok (v, s') ∧ stack_ok s' ∧ elems s' = vs ∧
                   ∀ n, room s n → room s' (S n)
    end;
}.

(** What a test prints. *)
Inductive line (T : Type) := Pushing (v : T) | Popping (v : T).
Arguments Pushing {T} _.
Arguments Popping {T} _.

#[export] Instance line_eq_dec `{EqDecision T} : EqDecision (line T).
Proof. solve_decision. Defined.

Section selftest.
Context {T St : Type} `{StackLaws T St} (next : T → T).

(** [while (!Empty()) cout << "popping " << Pop()] *)
Fixpoint pop_all (fuel : nat) (s : St) : Result (list (line T) * St) :=
  match fuel with
  | O => Err OutOfFuel
  | S fuel =>
      if Empty s then mret ([], s)
      else
        '(v, s) ← Pop s;
        '(out, s) ← pop_all fuel s;
        mret (Popping v :: out, s)
  end.

(** [for (int i = 0; i < numToPush; i++)] of inheritstack.cc. *)
Fixpoint push_n (n : nat) (count : T) (s : St) : Result (list (line T) * St) :=
  match n with
  | O => mret ([], s)
  | S n =>
      ASSERT (negb (Full s));;
      s ← Push count s;
      '(out, s) ← push_n n (next count) s;
      mret (Pushing count :: out, s)
  end.

(** [while (!Full())] of stack.cc and templatestack.cc. *)
Fixpoint push_full (fuel : nat) (count : T) (s : St) : Result (list (line T) * St) :=
  match fuel with
  | O => Err OutOfFuel
  | S fuel =>
      if Full s then mret ([], s)
      else
        s ← Push count s;
        '(out, s) ← push_full fuel (next count) s;
        mret (Pushing count :: out, s)
  end.

(** [Stack::SelfTest(numToPush)] of inheritstack.cc, with [count] from 17. *)
Definition SelfTest (start : T) (numToPush fuel : nat) (s : St) : Result (list (line T) * St) :=
  '(out1, s) ← push_n numToPush start s;
  '(out2, s) ← pop_all fuel s;
  mret (out1 ++ out2, s).

(** [Stack<T>::SelfTest(start)] of templatestack.cc. *)
Definition SelfTest_full (start : T) (fuel : nat) (s : St) : Result (list (line T) * St) :=
  '(out1, s) ← push_full fuel start s;
  '(out2, s) ← pop_all fuel s;
  mret (out1 ++ out2, s).

(** *** Against the interface *)

(** [start, start + 1, ...] *)
Fixpoint counts (n : nat) (start : T) : list T :=
  match n with
  | O => []
  | S n => start :: counts n (next start)
  end.

Lemma pop_all_spec fuel s :
  stack_ok s → (length (elems s) < fuel)%nat →
  ∃ s', pop_all fuel s = Ok (Popping <$> elems s, s') ∧ stack_ok s' ∧ elems s' = [].
Proof.
  revert s. induction fuel as [|fuel IH]; intros s Hs Hf; [lia|]. cbn [pop_all].
  pose proof (Empty_spec s Hs) as HE. pose proof (Pop_spec s Hs) as HP.
  destruct (elems s) as [|v vs] eqn:E.
  - rewrite (proj2 HE) by done. exists s. done.
  - destruct (Empty s); [discriminate (proj1 HE eq_refl)|].
    destruct HP as (s1 & -> & Hs1 & E1 & _). rcbn. cbn [length] in Hf.
    destruct (IH s1 Hs1) as (s' & -> & ? & ?); [rewrite E1; lia|]. rcbn. rewrite E1. by exists s'.
Qed.

Lemma push_n_spec n start s :
  stack_ok s → room s n →
  ∃ s', push_n n start s = Ok (Pushing <$> counts n start, s') ∧ stack_ok s' ∧
    elems s' = reverse (counts n start) ++ elems s.
Proof.
  revert start s. induction n as [|n IH]; intros start s Hs Hr; cbn [push_n counts].
  - by exists s.
  - pose proof (Push_spec start s Hs) as HP. pose proof (Full_spec s Hs) as HF.
    destruct (Full s).
    { destruct (proj1 HF eq_refl). by apply (room_le s 1 (S n)); [|lia|]. }
    rcbn. destruct HP as (s1 & -> & Hs1 & E1 & Hr1). rcbn.
    destruct (IH (next start) s1 Hs1) as (s' & -> & Hs' & E'); [by apply Hr1|]. rcbn.
    exists s'. split_and!; [done|done|]. by rewrite E', E1, reverse_cons, <- app_assoc.
Qed.

(** Until the stack is full. *)
Lemma push_full_spec fuel n start s :
  stack_ok s → room s n → ¬ room s (S n) → (n < fuel)%nat →
  ∃ s', push_full fuel start s = Ok (Pushing <$> counts n start, s') ∧ stack_ok s' ∧
    elems s' = reverse (counts n start) ++ elems s.
Proof.
  revert n start s. induction fuel as [|fuel IH]; intros n start s Hs Hr Hnr Hf; [lia|]. cbn [push_full].
  pose proof (Push_spec start s Hs) as HP. pose proof (Full_spec s Hs) as HF.
  destruct n as [|n].
  - rewrite (proj2 HF) by done. by exists s.
  - destruct (Full s).
    { destruct (proj1 HF eq_refl). by apply (room_le s 1 (S n)); [|lia|]. }
    destruct HP as (s1 & -> & Hs1 & E1 & Hr1). rcbn.
    destruct (IH n (next start) s1 Hs1) as (s' & -> & Hs' & E');
      [by apply Hr1|by rewrite <- Hr1|lia|]. rcbn.
    exists s'. split_and!; [done|done|]. cbn [counts]. by rewrite E', E1, reverse_cons, <- app_assoc.
Qed.
End selftest.

(** ** ArrayStack (and [Stack] of stack.cc, [Stack<T>] of templatestack.cc) *)

Record ArrayStack (T : Type) := mkArrayStack {
  size : Z;
  top : Z;
  stack : list T;
}.
Arguments mkArrayStack {T} _ _ _.
Arguments size {T} _.
Arguments top {T} _.
Arguments stack {T} _.

Section array.
Context {T : Type}.

(** The array comes with what memory held. *)
Definition new_ArrayStack (garbage : nat → T) (sz : Z) : Result (ArrayStack T) :=
  ASSERT (bool_decide (sz >= 1));;
  mret (mkArrayStack sz 0 (garbage <$> seq 0 (Z.to_nat sz))).

Definition ArrayStack_Full (s : ArrayStack T) : bool := bool_decide (top s = size s).
Definition ArrayStack_Empty (s : ArrayStack T) : bool := bool_decide (top s = 0).

(** [stack[i]], a fault outside the array. *)
Definition index (i : Z) (s : ArrayStack T) : Result nat :=
  if decide (0 ≤ i < Z.of_nat (length (stack s))) then mret (Z.to_nat i) else Err MemFault.

Definition ArrayStack_Push (value : T) (s : ArrayStack T) : Result (ArrayStack T) :=
  ASSERT (negb (ArrayStack_Full s));;
  i ← index (top s) s;
  mret (mkArrayStack (size s) (top s + 1) (<[i := value]> (stack s))).

Definition ArrayStack_Pop (s : ArrayStack T) : Result (T * ArrayStack T) :=
  ASSERT (negb (ArrayStack_Empty s));;
  i ← index (top s - 1) s;
  v ← deref (stack s !! i);
  mret (v, mkArrayStack (size s) (top s - 1) (stack s)).

#[export] Instance ArrayStack_Stack : Stack T (ArrayStack T) := {
  Push := ArrayStack_Push;
  Pop := ArrayStack_Pop;
  Full := ArrayStack_Full;
  Empty := ArrayStack_Empty;
}.

Definition array_ok (s : ArrayStack T) : Prop :=
  Z.of_nat (length (stack s)) = size s ∧ 0 ≤ top s ≤ size s.
Definition array_elems (s : ArrayStack T) : list T := reverse (take (Z.to_nat (top s)) (stack s)).
Definition array_room (s : ArrayStack T) (n : nat) : Prop := top s + Z.of_nat n ≤ size s.

Lemma array_top s : array_ok s → array_elems s = [] ↔ top s = 0.
Proof.
  intros [Hl Ht]. unfold array_elems. split; [|by intros ->].
  intros E%(f_equal length). rewrite length_reverse, length_take in E. cbn in E. lia.
Qed.

Lemma array_Full s : array_ok s → Full s = true ↔ ¬ array_room s 1.
Proof. intros [Hl Ht]. cbn. unfold ArrayStack_Full, array_room. rewrite bool_decide_eq_true. lia. Qed.

Lemma array_room_le s n m : array_ok s → (n ≤ m)%nat → array_room s m → array_room s n.
Proof. intros _ Hn. unfold array_room. lia. Qed.

Lemma array_Empty s : array_ok s → Empty s = true ↔ array_elems s = [].
Proof. intros Hs. cbn. unfold ArrayStack_Empty. rewrite bool_decide_eq_true. by rewrite array_top. Qed.

Lemma array_Push v s :
  array_ok s →
  if Full s then Push v s = Err AssertFailed
  else ∃ s', Push v s = Ok s' ∧ array_ok s' ∧ array_elems s' = v :: array_elems s ∧
         ∀ n, array_room s (S n) ↔ array_room s' n.
Proof.
  intros [Hl Ht]. cbn. unfold ArrayStack_Push, ArrayStack_Full. case_bool_decide as Hf; [done|]. rcbn.
  unfold index. rewrite decide_True by lia. rcbn. eexists. split; [done|].
  unfold array_ok, array_elems, array_room. cbn. rewrite length_insert. split_and!; [lia..| |lia].
  replace (Z.to_nat (top s + 1)) with (S (Z.to_nat (top s))) by lia.
  erewrite take_S_r by (apply list_lookup_insert_eq; lia).
  by rewrite take_insert_ge, reverse_snoc by lia.
Qed.

Lemma array_Pop s :
  array_ok s →
  match array_elems s with
  | [] => Pop s = Err AssertFailed
  | v :: vs => ∃ s', Pop s = Ok (v, s') ∧ array_ok s' ∧ array_elems s' = vs ∧
                 ∀ n, array_room s n → array_room s' (S n)
  end.
Proof.
  intros Hs. pose proof (array_top s Hs) as Htop. destruct Hs as [Hl Ht]. cbn.
  unfold ArrayStack_Pop, ArrayStack_Empty. case_bool_decide as He; rcbn.
  - by rewrite (proj2 Htop He).
  - unfold index. rewrite decide_True by lia. rcbn.
    destruct (lookup_lt_is_Some_2 (stack s) (Z.to_nat (top s - 1))) as [v Hv]; [lia|]. rewrite Hv. rcbn.
    assert (array_elems s = v :: array_elems (mkArrayStack (size s) (top s - 1) (stack s))) as ->.
    { unfold array_elems. cbn. replace (Z.to_nat (top s)) with (S (Z.to_nat (top s - 1))) by lia.
      by rewrite (take_S_r _ _ _ Hv), reverse_snoc. }
    eexists. split; [done|]. unfold array_ok, array_room. cbn. split_and!; [lia..|done|lia].
Qed.

#[export] Instance ArrayStack_Laws : StackLaws T (ArrayStack T) := {|
  stack_ok := array_ok;
  elems := array_elems;
  room := array_room;
  Full_spec := array_Full;
  room_le := array_room_le;
  Empty_spec := array_Empty;
  Push_spec := array_Push;
  Pop_spec := array_Pop;
|}.

Lemma new_ArrayStack_spec garbage sz :
  1 ≤ sz → ∃ s, new_ArrayStack garbage sz = Ok s ∧ stack_ok s ∧ elems s = [] ∧ ∀ n, room s n ↔ Z.of_nat n ≤ sz.
Proof.
  intros Hsz. unfold new_ArrayStack. rewrite bool_decide_true by lia. rcbn. eexists. split; [done|].
  cbn. unfold array_ok, array_elems, array_room. cbn. rewrite length_fmap, length_seq. split_and!; try lia; done.
Qed.
End array.

(** ** The list of list.cc and ListStack *)

(** A [ListElement]: its item and the next element. *)
Abbreviation store := (gmap nat (Z * option nat)).

Record ListStack := mkListStack {
  cells : store;
  first : option nat;
  last : option nat;
}.

Definition new_ListStack (cells : store) : ListStack := mkListStack cells None None.

Definition List_Empty (l : ListStack) : bool := bool_decide (first l = None).

Definition List_Prepend (value : Z) (l : ListStack) : Result ListStack :=
  let element := fresh (dom (cells l)) in
  let h := <[element := (value, None)]> (cells l) in
  if List_Empty l then mret (mkListStack h (Some element) (Some element))
  else mret (mkListStack (<[element := (value, first l)]> h) (Some element) (last l)).

Definition List_Remove (l : ListStack) : Result (Z * ListStack) :=
  ASSERT (negb (List_Empty l));;
  element ← deref (first l);
  '(value, next) ← deref (cells l !! element);
  let '(first, last) := if decide (first l = last l) then (None, None) else (next, last l) in
  mret (value, mkListStack (delete element (cells l)) first last).

(** [List::~List]: [while (!Empty()) (void) Remove();] *)
Fixpoint List_destroy (fuel : nat) (l : ListStack) : Result ListStack :=
  match fuel with
  | O => Err OutOfFuel
  | S fuel => if List_Empty l then mret l else '(_, l) ← List_Remove l; List_destroy fuel l
  end.

Definition ListStack_Push (value : Z) (s : ListStack) : Result ListStack := List_Prepend value s.
Definition ListStack_Pop (s : ListStack) : Result (Z * ListStack) :=
  ASSERT (negb (List_Empty s));; List_Remove s.

#[export] Instance ListStack_Stack : Stack Z ListStack := {
  Push := ListStack_Push;
  Pop := ListStack_Pop;
  Full _ := false;
  Empty := List_Empty;
}.

(** *** The list in memory *)

(** From [p] on, the cells [ps] hold [xs]. *)
Fixpoint chain (h : store) (p : option nat) (ps : list nat) (xs : list Z) : Prop :=
  match ps, xs with
  | [], [] => p = None
  | a :: ps, x :: xs => p = Some a ∧ ∃ nx, h !! a = Some (x, nx) ∧ chain h nx ps xs
  | _, _ => False
  end.

Definition list_rep (l : ListStack) (ps : list nat) (xs : list Z) : Prop :=
  chain (cells l) (first l) ps xs ∧ NoDup ps ∧ last l = list.last ps.

(** Follow the [next] pointers. *)
Fixpoint walk (fuel : nat) (h : store) (p : option nat) : list Z :=
  match fuel, p with
  | S fuel, Some a => match h !! a with Some (x, nx) => x :: walk fuel h nx | None => [] end
  | _, _ => []
  end.

Definition list_ok (l : ListStack) : Prop := ∃ ps xs, list_rep l ps xs.
Definition list_elems (l : ListStack) : list Z := walk (base.size (cells l)) (cells l) (first l).

Lemma chain_ext h h' p ps xs :
  (∀ a, a ∈ ps → h' !! a = h !! a) → chain h p ps xs → chain h' p ps xs.
Proof.
  revert p xs. induction ps as [|a ps IH]; intros p [|x xs] He; cbn; try done.
  intros (-> & nx & Ha & Hc). split; [done|]. exists nx. rewrite He by constructor. split; [done|].
  apply IH; [|done]. intros b Hb. apply He. by constructor.
Qed.

Lemma chain_dom h p ps xs : chain h p ps xs → (list_to_set ps : gset nat) ⊆ dom h.
Proof.
  revert p xs. induction ps as [|a ps IH]; intros p [|x xs]; cbn; try done.
  intros (-> & nx & Ha & Hc%IH). apply elem_of_dom_2 in Ha. set_solver.
Qed.

Lemma chain_walk h p ps xs fuel : chain h p ps xs → (length ps ≤ fuel)%nat → walk fuel h p = xs.
Proof.
  revert p xs fuel. induction ps as [|a ps IH]; intros p [|x xs] fuel; cbn; try done.
  - intros -> _. by destruct fuel.
  - intros (-> & nx & Ha & Hc) Hf. destruct fuel as [|fuel]; [lia|]. cbn. rewrite Ha. f_equal.
    apply IH; [done|lia].
Qed.

Lemma list_rep_elems l ps xs : list_rep l ps xs → list_elems l = xs.
Proof.
  intros (Hc & Hn & _). eapply chain_walk; [done|].
  pose proof (subseteq_size _ _ (chain_dom _ _ _ _ Hc)) as Hs.
  rewrite size_list_to_set in Hs by done. rewrite size_dom in Hs. exact Hs.
Qed.

Lemma list_rep_empty l ps xs : list_rep l ps xs → List_Empty l = true ↔ xs = [].
Proof.
  intros (Hc & _). unfold List_Empty. rewrite bool_decide_eq_true.
  destruct ps, xs; cbn in Hc; try done. destruct Hc as [-> _]. done.
Qed.

Lemma List_Prepend_spec v l ps xs :
  list_rep l ps xs →
  ∃ a l', List_Prepend v l = Ok l' ∧ list_rep l' (a :: ps) (v :: xs) ∧ cells l !! a = None ∧
    ∀ b, b ≠ a → cells l' !! b = cells l !! b.
Proof.
  intros Hrep. pose proof (list_rep_empty _ _ _ Hrep) as HE. destruct Hrep as (Hc & Hn & El).
  unfold List_Prepend. set (a := fresh (dom (cells l))).
  assert (a ∉ dom (cells l)) as Ha by apply is_fresh. pose proof (chain_dom _ _ _ _ Hc) as Hd.
  assert (a ∉ ps) as Hps by set_solver. apply not_elem_of_dom in Ha.
  destruct (List_Empty l).
  - assert (xs = []) as -> by (by apply HE). destruct ps; [|done]. eexists a, _. split; [done|].
    split; [split_and!; cbn; [split; [done|]; exists None; by rewrite lookup_insert_eq|apply NoDup_singleton|done]|].
    split; [done|]. intros b Hb. cbn. by rewrite lookup_insert_ne.
  - eexists a, _. split; [done|]. split.
    + split_and!; cbn.
      * split; [done|]. exists (first l). rewrite lookup_insert_eq. split; [done|].
        eapply chain_ext; [|exact Hc]. intros b Hb. by rewrite !lookup_insert_ne by set_solver.
      * by constructor.
      * rewrite El. destruct ps as [|b ps]; [|done]. destruct xs; [|done]. discriminate (proj2 HE eq_refl).
    + split; [done|]. intros b Hb. cbn. by rewrite !lookup_insert_ne.
Qed.

Lemma List_Remove_spec l ps xs :
  list_rep l ps xs →
  match ps, xs with
  | a :: ps, x :: xs => ∃ l', List_Remove l = Ok (x, l') ∧ list_rep l' ps xs ∧ cells l' = delete a (cells l)
  | _, _ => List_Remove l = Err AssertFailed
  end.
Proof.
  intros Hrep. pose proof (list_rep_empty _ _ _ Hrep) as HE. destruct Hrep as (Hc & Hn & El).
  unfold List_Remove. destruct ps as [|a ps], xs as [|x xs]; try done.
  - by rewrite (proj2 HE).
  - destruct (List_Empty l); [discriminate (proj1 HE eq_refl)|]. rcbn.
    destruct Hc as (Ef & nx & Ha & Hc). rewrite Ef. rcbn. rewrite Ha. rcbn. rewrite El.
    apply NoDup_cons in Hn as [Hna Hn].
    assert (chain (delete a (cells l)) nx ps xs) as Hc'.
    { eapply chain_ext; [|exact Hc]. intros b Hb. rewrite lookup_delete_ne; [done|]. by intros ->. }
    destruct ps as [|b ps].
    + rewrite decide_True by done. destruct xs; [|done]. eexists. split; [done|]. split; [|done]. by split_and!.
    + rewrite decide_False.
      2: { intros E. symmetry in E. cbn in E. destruct Hna. change (list.last (b :: ps) = Some a) in E.
           by apply last_Some_elem_of in E. }
      eexists. split; [done|]. split; [|done]. by split_and!.
Qed.

(** The destructor frees the cells of the list and no others. *)
Lemma List_destroy_spec fuel l ps xs :
  list_rep l ps xs → (length ps < fuel)%nat →
  ∃ l', List_destroy fuel l = Ok l' ∧ first l' = None ∧
    cells l' = filter (λ x, x.1 ∉ ps) (cells l).
Proof.
  revert l ps xs. induction fuel as [|fuel IH]; intros l ps xs Hrep Hf; [lia|]. cbn [List_destroy].
  pose proof (list_rep_empty _ _ _ Hrep) as HE. pose proof (List_Remove_spec _ _ _ Hrep) as HR.
  destruct ps as [|a ps], xs as [|x xs]; try (by destruct Hrep as [[] _]).
  - rewrite (proj2 HE) by done. exists l. split; [done|]. split; [by destruct Hrep|].
    symmetry. apply map_filter_id. intros. apply not_elem_of_nil.
  - destruct (List_Empty l); [discriminate (proj1 HE eq_refl)|].
    destruct HR as (l1 & -> & Hrep1 & E1). rcbn. cbn [length] in Hf.
    destruct (IH l1 ps xs Hrep1) as (l' & -> & ? & E'); [lia|]. exists l'. split; [done|]. split; [done|].
    rewrite E', E1. apply map_eq. intros b. apply option_eq. intros y.
    rewrite !map_lookup_filter_Some, lookup_delete_Some. cbn. rewrite not_elem_of_cons. naive_solver.
Qed.

(** *** ListStack is a stack without bound *)

Lemma list_Full s : list_ok s → Full s = true ↔ ¬ True.
Proof. done. Qed.

Lemma list_Empty s : list_ok s → Empty s = true ↔ list_elems s = [].
Proof. intros (ps & xs & Hr). rewrite (list_rep_elems _ _ _ Hr). by eapply list_rep_empty. Qed.

Lemma list_Push v s :
  list_ok s →
  if Full s then Push v s = Err AssertFailed
  else ∃ s', Push v s = Ok s' ∧ list_ok s' ∧ list_elems s' = v :: list_elems s ∧ (nat → True ↔ True).
Proof.
  intros (ps & xs & Hr). destruct (List_Prepend_spec v s ps xs Hr) as (a & l' & E & Hr' & _).
  exists l'. rewrite (list_rep_elems _ _ _ Hr), (list_rep_elems _ _ _ Hr'). split_and!; try done. by eexists _, _.
Qed.

Lemma list_Pop s :
  list_ok s →
  match list_elems s with
  | [] => Pop s = Err AssertFailed
  | v :: vs => ∃ s', Pop s = Ok (v, s') ∧ list_ok s' ∧ list_elems s' = vs ∧ (nat → True → True)
  end.
Proof.
  intros (ps & xs & Hr). rewrite (list_rep_elems _ _ _ Hr). pose proof (List_Remove_spec _ _ _ Hr) as HR.
  pose proof (list_rep_empty _ _ _ Hr) as HE. cbn. unfold ListStack_Pop.
  destruct xs as [|x xs]; [by rewrite (proj2 HE)|]. destruct ps as [|a ps]; [by destruct Hr as [[] _]|].
  destruct (List_Empty s); [discriminate (proj1 HE eq_refl)|]. rcbn.
  destruct HR as (l' & -> & Hr' & _). exists l'. split_and!; try done; [by eexists _, _|].
  by eapply list_rep_elems.
Qed.

#[export] Instance ListStack_Laws : StackLaws Z ListStack := {|
  stack_ok := list_ok;
  elems := list_elems;
  room _ _ := True;
  Full_spec := list_Full;
  room_le _ _ _ _ _ _ := I;
  Empty_spec := list_Empty;
  Push_spec := list_Push;
  Pop_spec := list_Pop;
|}.

Lemma new_ListStack_spec h : stack_ok (new_ListStack h) ∧ elems (new_ListStack h) = [].
Proof.
  assert (list_rep (new_ListStack h) [] []) as Hr by (split_and!; [done|constructor|done]).
  split; [by eexists _, _|by eapply list_rep_elems].
Qed.

(** [count++] of an [int]. *)
Definition next_int (c : Z) : Z := s32 (c + 1).

Lemma counts_length {T} (next : T → T) n x : length (counts next n x) = n.
Proof. revert x. induction n; intros; cbn; auto. Qed.

Lemma counts_int n x : - 2 ^ 31 ≤ x → x + Z.of_nat n ≤ 2 ^ 31 → counts next_int n x = seqZ x (Z.of_nat n).
Proof.
  revert x. induction n as [|n IH]; intros x Hx Hn; [done|].
  rewrite seqZ_cons by lia. cbn [counts]. f_equal.
  destruct n as [|n]; [done|].
  unfold next_int at 2. rewrite s32_small by (unfold is_int; lia). rewrite IH by lia. f_equal; lia.
Qed.

(** ** Theorems *)

(** [Stack::SelfTest] of inheritstack.cc works for every implementation of
    the abstract class that obeys its laws, however it represents the stack: on
    an empty stack with room for [numToPush] integers it prints the numbers from
    17 up as they are pushed and the same numbers in reverse order as they are
    popped, terminates, and leaves the stack empty.  ([count] must not overflow.) *)
Theorem SelfTest_lifo {St} `{StackLaws Z St} (s : St) numToPush fuel :
  stack_ok s → elems s = [] → room s numToPush → 17 + Z.of_nat numToPush ≤ 2 ^ 31 → (numToPush < fuel)%nat →
  ∃ s', SelfTest next_int 17 numToPush fuel s =
    Ok ((Pushing <$> seqZ 17 (Z.of_nat numToPush)) ++ (Popping <$> reverse (seqZ 17 (Z.of_nat numToPush))), s') ∧
    stack_ok s' ∧ elems s' = [].
Proof.
  intros Hs He Hr Hm Hf. unfold SelfTest.
  destruct (push_n_spec next_int numToPush 17 s Hs Hr) as (s1 & -> & Hs1 & E1). rcbn.
  rewrite He, app_nil_r in E1.
  destruct (pop_all_spec next_int fuel s1 Hs1) as (s' & -> & Hs' & E');
    [rewrite E1, length_reverse, counts_length; lia|].
  rcbn. rewrite E1, counts_int by lia. by exists s'.
Qed.

Lemma SelfTest_lifo_witness :
  ∃ s s', new_ArrayStack (λ _, 0) 10 = Ok s ∧
    SelfTest next_int 17 10 11 s =
      Ok ((Pushing <$> seqZ 17 10) ++ (Popping <$> reverse (seqZ 17 10)), s').
Proof.
  destruct (new_ArrayStack_spec (λ _, 0) 10) as (s & E & Hs & He & Hr); [lia|].
  destruct (SelfTest_lifo s 10 11 Hs He) as (s' & E' & _); [apply Hr; lia|lia|lia|].
  exists s, s'. split; [exact E|exact E'].
Defined.

(** [Stack<T>::SelfTest] of templatestack.cc (with [T = int], that of stack.cc):
    a stack of capacity [sz] takes exactly [sz] elements. *)
Theorem template_SelfTest {T} (next : T → T) garbage sz start fuel :
  1 ≤ sz → (Z.to_nat sz < fuel)%nat →
  ∃ s s', new_ArrayStack garbage sz = Ok s ∧
    SelfTest_full next start fuel s =
      Ok ((Pushing <$> counts next (Z.to_nat sz) start) ++
          (Popping <$> reverse (counts next (Z.to_nat sz) start)), s') ∧ elems s' = [].
Proof.
  intros Hsz Hf. destruct (new_ArrayStack_spec garbage sz Hsz) as (s & E & Hs & He & Hr).
  exists s. unfold SelfTest_full.
  destruct (push_full_spec next fuel (Z.to_nat sz) start s Hs) as (s1 & -> & Hs1 & E1);
    [apply Hr; lia|rewrite Hr; lia|done|]. rcbn.
  rewrite He, app_nil_r in E1.
  destruct (pop_all_spec next fuel s1 Hs1) as (s' & -> & Hs' & E'); [rewrite E1, length_reverse, counts_length; lia|].
  rcbn. rewrite E1. by exists s'.
Qed.

(** [main] of inheritstack.cc: both implementations print the same. *)
Example inheritstack_main :
  ('s1 ← new_ArrayStack (λ _, 0) 10;
   '(out1, _) ← SelfTest next_int 17 10 11 s1;
   '(out2, s2) ← SelfTest next_int 17 10 11 (new_ListStack ∅);
   mret (bool_decide (out1 = out2), length out2, base.size (cells s2))) =
  Ok (true, 20%nat, 0%nat).
Proof. vm_compute. reflexivity. Qed.
